(* ===== verification/_CoqProject ===== *)
-Q . S2P
Prelude.v
GoStrings.v
GoHash.v
GoTime.v
GoNum.v
GoUrl.v
Objects.v
Effects.v
Interleave.v
Config.v
Rely.v
Demo.v
Kubelet.v
Security.v
Setting.v
Util.v
Endpoint.v
FsTool.v
PassFd.v
K8sClient.v
Resource.v
Template.v
Builder.v
ApiServer.v
PodMount.v
RefCount.v
MountInfo.v
PodDriver.v
Provider.v
Concurrent.v
OnePod.v
Controllers.v
Reconciler.v
ControllerService.v
Provisioner.v
NodeService.v
Driver.v
Csicommon.v
Startup.v
