(* ===== verification/Prelude.v ===== *)
(** * dingofs-csi: a verification library for the DingoFS CSI driver

    The driver runs on every node of a Kubernetes cluster and mounts DingoFS
    volumes for application pods.  It does not mount the file system itself: for
    each volume setting it starts one _mount pod_, which several application
    pods (targets) share.  The targets of a mount pod are recorded in its
    annotations, one per target under a key computed from the target's path; the
    last one that goes takes the pod with it.  Controllers watch the mount pods,
    drop the records of application pods that vanished, replace mount pods that
    failed or were deleted, and repair broken bind mounts.

    ** The parts of the program and the files that model them

    Foundations:
    - [Prelude]: Go errors, results, maps, wrap-around of machine integers,
      tactics and list lemmas.
    - [GoStrings], [GoHash], [GoTime], [GoNum], [GoUrl]: what the code uses of
      Go's [strings], [path], [crypto/sha256], [hash/fnv], [time], [strconv] and
      [net/url], and the JSON encoding of strings.
    - [Objects]: the fields of the Kubernetes objects that the code reads or
      writes, as records, with a setter per field that is assigned.
    - [Effects]: programs as trees of calls to the environment (API server,
      kubelet, mount utilities, operating system, clock, locks, sockets, shared
      state of the process); their runs, weakest preconditions, guards on
      traces, locks, and executable handlers.
    - [Interleave]: pools of programs that share a state; the class [TryLock] of
      locks that are tried, and that threads which release only their own
      exclude each other.
    - [Rely]: runs of a program while other threads change the world (rely and
      guarantee), threads that share a world and its mutexes, call by call, and
      the reduction of critical sections to a sequential contract.

    Configuration and helpers:
    - [Config] ([src/pkg/config/config.go] and the types of [dfs_setting.go]):
      constants, process-wide settings (class [Globals]), the setting of a
      volume, and the third-party functions the code calls (class [Ext], with
      the laws used of them).  [Demo]: an instance of both classes.
    - [Kubelet] ([src/pkg/k8sclient/kubelet_client.go]), [Security]
      ([src/pkg/util/security/escape.go]), [Setting] ([dfs_setting.go]: settings
      from secrets, volume contexts and mount options; pod attributes and
      patches), [Util] ([src/pkg/util/util.go], [dev_monitor.go], [version.go]),
      [Endpoint] ([ParseEndpoint]).
    - [FsTool] ([src/pkg/util/fs_util.go]): the command lines of the [dingo] tool
      and of the fuse client, and the tables they print.
    - [PassFd] ([src/pkg/fuse/passfd.go]): the table of FUSE descriptors, with its
      memory, its locks and its goroutines.

    Mount pods:
    - [K8sClient] ([src/pkg/k8sclient/client.go]), [Resource]
      ([src/pkg/util/resource]: pods, jobs, secrets, volumes and namespaces
      through the client; delayed deletion; volume locks), [Template] (the
      references of [pvc.go]), [Builder] ([src/pkg/builder]).
    - [ApiServer]: the interface to a healthy environment, as a class with laws,
      and a server in memory that satisfies them.
    - [PodMount] ([src/pkg/builder/mount.go]): mounting and unmounting through
      mount pods.  [RefCount]: its abstract contract and the refinement.
      [Concurrent] and [OnePod]: [DMount] and [DfsUnmount] requests interleaved.
    - [MountInfo] ([src/pkg/controller/mountinfo.go]): the mount table.
    - [PodDriver] ([src/pkg/controller/pod_driver.go]): the state machine of
      mount pods.

    Services and processes:
    - [Provider] ([src/pkg/dingofs-driver/dingofs.go], [volume.go]): the provider
      behind the services.
    - [Controllers] (a module per controller of [src/pkg/controller]) and
      [Reconciler] ([reconciler.go]).
    - [ControllerService], [Provisioner], [NodeService] ([controller.go],
      [provisioner.go], [node.go] of [src/pkg/dingofs-driver]).
    - [Driver] ([driver.go], [identity.go]): the dispatch of the procedures and
      the start of the driver.  [Startup] ([src/cmd]): settings from flags and
      environment, the node and the controller process, and their managers.
    - [Csicommon] ([src/pkg/csicommon]): the default servers and their gRPC
      server, with its wait group.

    ** How code corresponds to definitions

    A Go function keeps its name.  A pure function is a Rocq function; one that
    calls the cluster or the operating system is a [prog] of [Effects], the tree
    of its calls with a branch for every answer; an error is a value; a panic is
    [Panic]; a deferred unlock is [with_mutex] or [defer]; a goroutine is a
    [Spawn] event and its body a program of its own; [os.Exit] is a value of
    [flow].  State that concurrent requests share (locks of targets and volumes,
    known volumes, notes of the reconciler, the table of descriptors) is read and
    written by events, and the state behind the events is a definition.  A
    function too long to read in one piece is split at its natural seams, and
    the pieces are named after what they do.  A method that changes its receiver
    returns the changed value.  Log lines are left out, except where computing
    their arguments can panic.

    A loop without a bound of its own takes [fuel] (class [Fuel]) and ends with
    [OutOfFuel].  The theorems on safety hold for every fuel, runs that use it
    up included; the theorems that say that a loop returns state how much fuel
    is enough, one more than the number of stacked mounts.

    ** What the theorems show

    - Concurrent requests ([Concurrent], [OnePod]): any number of mounts and
      unmounts, interleaved call by call, perform the operations of a contract on
      the mount pod one after the other, in the order in which they take and give
      back its mutex ([lock_ordered]); a mount that succeeds has recorded its
      target and an unmount that dropped one succeeds; a pod with a target that
      nobody unmounts is never deleted; a setting never has two live mount pods on
      the node.  These assume the laws of [ApiServer] (a healthy server), lists
      that are not from the cache (with ENABLE_APISERVER_LIST_CACHE nothing is
      claimed), and, for the contract, a mount pod and mounts without deletion
      delay ([mount_pod], [plain]), other volumes with other pod names
      ([names_apart]), and more fuel than mounts; for the single pod, that
      settings of one hash have one unique id ([hash_apart]).  The handlers of the
      state machine are not among the requests: [recovery_second_pod] shows that
      one of them does make a second pod.
    - Reference counting ([RefCount], [PodMount]): on a mount pod without deletion
      delay, recording and releasing targets refines a contract on sets of keys;
      with a delay the two phases of [ShouldDelay] apply.  On every pod: it is
      deleted only after a read without references; it is created once, with what
      makes it be found again; the lock of the setting is held around every write;
      a reference is dropped only after the unmount.
    - The state machine ([PodDriver], [MountInfo]): the cleanup of references
      drops only stale ones; handlers that replace a pod keep its references,
      name and labels, and wait until the old one is gone; the handler of a deleted
      pod hands its references over unless one of the reasons of [settled] holds,
      some of which lose them; recovery touches only corrupt targets of live pods
      and leaves a bounded number of mounts, one less than its bound; the mount
      table is read correctly.
    - Services ([NodeService], [ControllerService], [Provisioner], [Provider],
      [Driver]): requests for one target, and deletions of one volume, exclude
      each other in every interleaving, and what is mounted at a path is changed
      by its holder only, but for the mount directory of the request's own volume;
      a request that succeeds has published its volume, or left nothing behind; a
      created volume has its quota, and a directory unless its [Stat] failed; data
      is removed only for its own path and when no other volume is on it; a file
      system is created only when none of that name is listed; secrets are not
      shown; the procedures that are advertised are implemented.
    - Controllers ([Controllers], [Reconciler]): each changes only what it may,
      and for a reason it has just read; a mount pod is never forgotten; a round
      starts the pods that are due, and a pod is due again within ten minutes.
    - Processes ([Startup], [Kubelet], [Endpoint], [PassFd]): a node has one
      manager of its mount pods; its settings are sane; the kubelet's client has
      one kind of credentials; the socket is the one asked for; the table of
      descriptors stays sound, one operation at a time, while an interleaving of
      a request with two stops ends the process from any table; the server of
      [Csicommon] listens where it is told, and waiting for it never ends.
    - Building and configuration ([Builder], [Setting], [Security], [Util],
      [K8sClient], [Resource], [Template], [FsTool]): mount pods are well formed
      and their command line reads back; options, formats, quantities, patches
      and templates are parsed as specified; names and hashes have the shape
      Kubernetes wants; ports are in range; jobs, secrets and sub paths are
      handled as documented; the tool's tables are read correctly.
    - Some theorems describe behaviour that is surely not meant: a cache that
      filters out every object it is for, a controller whose jobs inherit from
      the wrong pod, a loop that ignores its deadline, nil dereferences, a
      channel closed twice, an error kept in a named result, a limit that a
      blank disables, a recreated pod without its hook, a time out in the wrong
      unit, a claim that leaves its file system.

    Theorems of the form [wp any_env p [] Q] hold for every answer of the
    environment to every call; theorems on [interp] assume the laws of
    [ApiServer] or of a mount table, and come with an instance that runs.

    ** What is not modelled

    The parsing of the flags and logging; [genMetricsPort] and
    [GetCurrentFuncName], which nothing calls; the constructors that only keep
    their arguments.  The gRPC server, the external provisioner's loop and the
    managers of controller-runtime are events.  The script that the build
    embeds and the check script, which are only copied, are parameters, and so are
    the YAML and JSON texts of Kubernetes types and the arithmetic of quantities.
    Pod attributes that were never set count as the defaults where the code would
    dereference nil; [ParseSetting] sets them whenever there is a secret.  Go's
    memory model is left out: an access to a shared map is one step. *)

From stdpp Require Export base tactics option list numbers strings gmap pretty.
From stdpp Require Import options.
From Stdlib Require Import Ascii.

(** ** Notations and scopes of the development *)

Declare Scope go_scope.
Delimit Scope go_scope with go.
Open Scope go_scope.

(** ** Go errors

    Go errors are values.  Only what the driver observes of an error is kept:
    its kind, as [apierrors.IsNotFound], [os.IsNotExist], [status.Code] and
    [context] see it, and its text, as [err.Error()] gives it. *)

Inductive api_reason :=
  | NotFound | AlreadyExists | Conflict | Timeout | Invalid | OtherReason.

Inductive grpc_code :=
  | CodeInvalidArgument | CodeInternal | CodeNotFound | CodeAlreadyExists
  | CodeAborted | CodeUnimplemented | CodeUnavailable.

Inductive ctx_cause := Canceled | DeadlineExceeded.

Inductive error :=
  | ErrNew (msg : string)
  | ErrApi (reason : api_reason) (msg : string)
  | ErrStatus (code : grpc_code) (msg : string)
  | ErrOs (errno : Z) (msg : string)
  | ErrCtx (cause : ctx_cause).

#[export] Instance api_reason_eq_dec : EqDecision api_reason.
Proof. solve_decision. Defined.
#[export] Instance grpc_code_eq_dec : EqDecision grpc_code.
Proof. solve_decision. Defined.
#[export] Instance ctx_cause_eq_dec : EqDecision ctx_cause.
Proof. solve_decision. Defined.
#[export] Instance error_eq_dec : EqDecision error.
Proof. solve_decision. Defined.

Definition code_text (c : grpc_code) : string :=
  match c with
  | CodeInvalidArgument => "InvalidArgument" | CodeInternal => "Internal"
  | CodeNotFound => "NotFound" | CodeAlreadyExists => "AlreadyExists"
  | CodeAborted => "Aborted" | CodeUnimplemented => "Unimplemented"
  | CodeUnavailable => "Unavailable"
  end.

(** [err.Error()]. *)
Definition error_text (e : error) : string :=
  match e with
  | ErrNew m | ErrApi _ m | ErrOs _ m => m
  | ErrStatus c m => "rpc error: code = " +:+ code_text c +:+ " desc = " +:+ m
  | ErrCtx Canceled => "context canceled"
  | ErrCtx DeadlineExceeded => "context deadline exceeded"
  end.

Definition IsNotFound (e : error) : bool :=
  match e with ErrApi NotFound _ => true | _ => false end.
Definition IsAlreadyExists (e : error) : bool :=
  match e with ErrApi AlreadyExists _ => true | _ => false end.
Definition IsConflict (e : error) : bool :=
  match e with ErrApi Conflict _ => true | _ => false end.
Definition IsTimeout (e : error) : bool :=
  match e with ErrApi Timeout _ => true | _ => false end.

(** [os.IsNotExist]: errno ENOENT. *)
Definition ENOENT : Z := 2.
Definition os_IsNotExist (e : error) : bool :=
  match e with ErrOs n _ => bool_decide (n = ENOENT) | _ => false end.

(** The classifiers applied to a possibly nil error, as Go's are. *)
Definition on_err (f : error → bool) (e : option error) : bool :=
  match e with Some e => f e | None => false end.

(** A possibly nil error in the format ["%v"]. *)
Definition nil_text (e : option error) : string :=
  match e with Some e => error_text e | None => "<nil>" end.

(** ** Results: a Go [(value, error)] pair whose value is meaningful exactly
    when the error is nil. *)
Inductive result (A : Type) := Ok (a : A) | Err (e : error).
Arguments Ok {A} a.
Arguments Err {A} e.

Definition result_bind {A B} (r : result A) (f : A → result B) : result B :=
  match r with Ok a => f a | Err e => Err e end.

Definition is_ok {A} (r : result A) : bool :=
  match r with Ok _ => true | Err _ => false end.

Definition result_err {A} (r : result A) : option error :=
  match r with Ok _ => None | Err e => Some e end.

Notation "'tri' x ':=' r 'in' k" := (result_bind r (λ x, k))
  (at level 10, x pattern, r at level 100, k at level 200) : go_scope.

(** ** Go maps

    A Go map of strings is a [gmap]; the zero value is read with
    [m_get] ([m[k]], the empty string when absent).  A map whose nil-ness the
    code tests is an [option] of one. *)
Abbreviation smap := (gmap string string).

Definition m_get (m : smap) (k : string) : string := default "" (m !! k).

Definition nil_map (m : option smap) : smap := default ∅ m.

(** [for k, v := range src { dst[k] = v }]. *)
Definition merge_into (dst src : smap) : smap := src ∪ dst.

Lemma m_get_insert m k v : m_get (<[k:=v]> m) k = v.
Proof. unfold m_get. by rewrite lookup_insert_eq. Qed.

Lemma m_get_insert_ne m k k' v : k ≠ k' → m_get (<[k:=v]> m) k' = m_get m k'.
Proof. intros. unfold m_get. by rewrite lookup_insert_ne. Qed.

Lemma m_get_None m k : m !! k = None → m_get m k = "".
Proof. unfold m_get. by intros ->. Qed.

Lemma m_get_Some m k v : m !! k = Some v → m_get m k = v.
Proof. unfold m_get. by intros ->. Qed.

Lemma merge_into_lookup dst src k :
  merge_into dst src !! k = match src !! k with Some v => Some v | None => dst !! k end.
Proof.
  unfold merge_into. rewrite lookup_union.
  by destruct (src !! k), (dst !! k).
Qed.

(** ** Machine integers: two's complement wrap-around at a given width. *)
Definition wrap_u (w : Z) (x : Z) : Z := x mod 2 ^ w.
Definition wrap_s (w : Z) (x : Z) : Z := (x + 2 ^ (w - 1)) mod 2 ^ w - 2 ^ (w - 1).

Abbreviation u32 := (wrap_u 32).
Abbreviation u64 := (wrap_u 64).
Abbreviation i64 := (wrap_s 64).

Lemma wrap_u_range w x : (0 ≤ w)%Z → (0 ≤ wrap_u w x < 2 ^ w)%Z.
Proof. intros. apply Z.mod_pos_bound. by apply Z.pow_pos_nonneg. Qed.

Lemma wrap_u_id w x : (0 ≤ x < 2 ^ w)%Z → wrap_u w x = x.
Proof. intros. by apply Z.mod_small. Qed.

Lemma wrap_s_id w x :
  (0 < w)%Z → (- 2 ^ (w - 1) ≤ x < 2 ^ (w - 1))%Z → wrap_s w x = x.
Proof.
  intros Hw Hx. unfold wrap_s.
  assert (2 ^ w = 2 * 2 ^ (w - 1))%Z as Hp.
  { rewrite <-Z.pow_succ_r by lia. f_equal. lia. }
  rewrite Z.mod_small; lia.
Qed.

(** ** Time: nanoseconds, as [time.Duration] and [time.Time] carry them. *)
Definition Nanosecond : Z := 1.
Definition Microsecond : Z := 1000.
Definition Millisecond : Z := 1000000.
Definition Second : Z := 1000000000.
Definition Minute : Z := 60 * Second.
Definition Hour : Z := 60 * Minute.

(** The zero [time.Time], the first of January of the year 1, in nanoseconds
    from the epoch. *)
Definition zero_time : Z := - 62135596800 * Second.

(** [t.Sub(u)]: a duration is 64 bits wide and saturates. *)
Definition time_Sub (t u : Z) : Z := Z.max (- 2 ^ 63) (Z.min (2 ^ 63 - 1) (t - u)).

(** ** Automation *)

Create HintDb go.

(** Case on every [match]/[if] of the goal, closing trivial branches. *)
Ltac go_cases :=
  repeat (case_match || case_decide || case_bool_decide); simplify_eq/=; try done.

Ltac go_step := first [progress simplify_map_eq | progress simplify_option_eq | case_match].

(** ** List lemmas shared by the components *)

Lemma existsb_bool_decide {A} (P : A → Prop) `{∀ x, Decision (P x)} l :
  existsb (λ x, bool_decide (P x)) l = true ↔ ∃ x, x ∈ l ∧ P x.
Proof.
  rewrite existsb_exists. split.
  - intros (x & ? & ?%bool_decide_eq_true). exists x. by rewrite list_elem_of_In.
  - intros (x & ? & ?). exists x. rewrite <-list_elem_of_In.
    by rewrite bool_decide_eq_true.
Qed.

Lemma filter_all {A} (P : A → Prop) `{∀ x, Decision (P x)} (l : list A) :
  Forall P l → filter P l = l.
Proof.
  induction 1 as [|x l Hx _ IH]; [done|].
  rewrite filter_cons_True by done. by rewrite IH.
Qed.

Lemma filter_none {A} (P : A → Prop) `{∀ x, Decision (P x)} (l : list A) :
  Forall (λ x, ¬ P x) l → filter P l = [].
Proof.
  induction 1 as [|x l Hx _ IH]; [done|]. by rewrite filter_cons_False.
Qed.
