(* ===== verification/GoStrings.v ===== *)
(** * Go's [strings], [path] and [strconv] functions, as the driver uses them

    A Go string is a sequence of bytes, here a [string] of 8-bit characters.
    The functions are executable and come with the laws the components use:
    cutting and splitting at a separator, joining back, trimming, and the
    lexical normal form of [path.Join]. *)

From S2P Require Import Prelude.
From stdpp Require Import options.
From Stdlib Require Import Ascii.

Definition len (s : string) : nat := String.length s.

Fixpoint chars (s : string) : list ascii :=
  match s with "" => [] | String c s => c :: chars s end.

Fixpoint of_chars (l : list ascii) : string :=
  match l with [] => "" | c :: l => String c (of_chars l) end.

Definition byte (n : nat) : ascii := ascii_of_nat n.

(** ** Prefixes and suffixes *)

Fixpoint strip_prefix (p s : string) : option string :=
  match p, s with
  | "", _ => Some s
  | String a p, String b s => if decide (a = b) then strip_prefix p s else None
  | String _ _, "" => None
  end.

Definition HasPrefix (s p : string) : bool :=
  match strip_prefix p s with Some _ => true | None => false end.

Definition TrimPrefix (s p : string) : string := default s (strip_prefix p s).

(** [s[n:]] and [s[:n]] for an index in range. *)
Fixpoint drop_s (n : nat) (s : string) : string :=
  match n, s with S n, String _ s => drop_s n s | _, _ => s end.
Fixpoint take_s (n : nat) (s : string) : string :=
  match n, s with S n, String c s => String c (take_s n s) | _, _ => "" end.

Definition HasSuffix (s p : string) : bool :=
  bool_decide (len p ≤ len s) && bool_decide (drop_s (len s - len p) s = p).

Definition TrimSuffix (s p : string) : string :=
  if HasSuffix s p then take_s (len s - len p) s else s.

(** ** Searching and splitting *)

(** The text before and after the first occurrence of [sep]. *)
Fixpoint Cut (s sep : string) : option (string * string) :=
  match strip_prefix sep s with
  | Some r => Some ("", r)
  | None =>
      match s with
      | "" => None
      | String c s => prod_map (String c) id <$> Cut s sep
      end
  end.

Definition Contains (s sub : string) : bool :=
  match Cut s sub with Some _ => true | None => false end.

(** [strings.Index], with [None] for -1. *)
Definition Index (s sep : string) : option nat :=
  match Cut s sep with Some (a, _) => Some (len a) | None => None end.

(** The text before and after the last occurrence of the byte [c]. *)
Fixpoint CutLast (s : string) (c : ascii) : option (string * string) :=
  match s with
  | "" => None
  | String a s =>
      match CutLast s c with
      | Some (x, y) => Some (String a x, y)
      | None => if decide (a = c) then Some ("", s) else None
      end
  end.

Definition LastIndex (s : string) (c : ascii) : option nat :=
  match CutLast s c with Some (a, _) => Some (len a) | None => None end.

(** [strings.Split] for a non-empty separator; [S (len s)] rounds are enough
    because each round consumes the separator ([split_fuel_enough]). *)
Fixpoint split_fuel (n : nat) (s sep : string) : list string :=
  match n with
  | 0 => [s]
  | S n =>
      match Cut s sep with
      | None => [s]
      | Some (a, r) => a :: split_fuel n r sep
      end
  end.

Definition Split (s sep : string) : list string := split_fuel (S (len s)) s sep.

(** [strings.SplitN(s, sep, 2)]. *)
Definition SplitN2 (s sep : string) : list string :=
  match Cut s sep with None => [s] | Some (a, r) => [a; r] end.

Fixpoint Join (l : list string) (sep : string) : string :=
  match l with
  | [] => ""
  | [a] => a
  | a :: l => a +:+ sep +:+ Join l sep
  end.

Definition newline : string := String (byte 10) "".

(** A slice of strings in the format ["%v"]. *)
Definition fmt_strings (l : list string) : string := "[" +:+ Join l " " +:+ "]".

(** [strings.ReplaceAll] for a non-empty [old]. *)
Definition ReplaceAll (s old new : string) : string := Join (Split s old) new.

(** ** White space *)

(** The UTF-8 encodings of the runes for which [unicode.IsSpace] holds. *)
Definition space_runes : list string :=
  [ " "; of_chars [byte 9]; of_chars [byte 10]; of_chars [byte 11];
    of_chars [byte 12]; of_chars [byte 13];
    of_chars [byte 194; byte 133]; of_chars [byte 194; byte 160];
    of_chars [byte 225; byte 154; byte 128] ]
  ++ ((λ n, of_chars [byte 226; byte 128; byte n]) <$> seq 128 11)
  ++ [ of_chars [byte 226; byte 128; byte 168]; of_chars [byte 226; byte 128; byte 169];
       of_chars [byte 226; byte 128; byte 175]; of_chars [byte 226; byte 129; byte 159];
       of_chars [byte 227; byte 128; byte 128] ].

Definition strip_one (ps : list string) (s : string) : option string :=
  foldr (λ p r, match strip_prefix p s with Some t => Some t | None => r end) None ps.

Fixpoint trim_left_fuel (n : nat) (ps : list string) (s : string) : string :=
  match n with
  | 0 => s
  | S n => match strip_one ps s with Some t => trim_left_fuel n ps t | None => s end
  end.
Definition trim_left (ps : list string) (s : string) : string :=
  trim_left_fuel (len s) ps s.

Definition trim_right (ps : list string) (s : string) : string :=
  String.rev (trim_left (String.rev <$> ps) (String.rev s)).

Definition TrimSpace (s : string) : string :=
  trim_right space_runes (trim_left space_runes s).

(** [strings.Trim] with a cutset of one ASCII byte. *)
Definition Trim (s : string) (c : ascii) : string :=
  trim_right [String c ""] (trim_left [String c ""] s).

(** [strings.Fields]: the maximal runs of non-space. *)
Fixpoint fields_fuel (n : nat) (cur : string) (s : string) : list string :=
  let flush := if decide (cur = "") then [] else [String.rev cur] in
  match n with
  | 0 => flush
  | S n =>
      match s with
      | "" => flush
      | String c r =>
          match strip_one space_runes s with
          | Some t => flush ++ fields_fuel n "" t
          | None => fields_fuel n (String c cur) r
          end
      end
  end.
Definition Fields (s : string) : list string := fields_fuel (len s) "" s.

(** ** [path.Join] and [filepath.Join] (on Unix they agree) *)

(** One step of [path.Clean] over the components, the output reversed. *)
Definition clean_step (rooted : bool) (out : list string) (c : string) : list string :=
  if decide (c = "" ∨ c = ".") then out
  else if decide (c = "..") then
    match out with
    | [] => if rooted then [] else [".."]
    | x :: out' => if decide (x = "..") then ".." :: out else out'
    end
  else c :: out.

Definition path_Clean (p : string) : string :=
  if decide (p = "") then "." else
  let rooted := HasPrefix p "/" in
  let out := Join (reverse (foldl (clean_step rooted) [] (Split p "/"))) "/" in
  if rooted then "/" +:+ out else if decide (out = "") then "." else out.

Fixpoint path_Join (l : list string) : string :=
  match l with
  | [] => ""
  | e :: l' => if decide (e = "") then path_Join l' else path_Clean (Join l "/")
  end.

(** ** Lemmas *)

Lemma append_nil_r s : s +:+ "" = s.
Proof. induction s as [|c s IH]; [done|]. change (String c (s +:+ "") = String c s). by rewrite IH. Qed.

Lemma append_cons c s t : String c s +:+ t = String c (s +:+ t).
Proof. done. Qed.

Lemma append_nil_l t : "" +:+ t = t.
Proof. done. Qed.

Lemma append_assoc s t u : (s +:+ t) +:+ u = s +:+ t +:+ u.
Proof. induction s as [|c s IH]; [done|]. rewrite !append_cons. by rewrite IH. Qed.

Lemma len_append s t : len (s +:+ t) = len s + len t.
Proof. induction s as [|c s IH]; [done|]. rewrite append_cons. unfold len in *. simpl. by rewrite IH. Qed.

Lemma len_cons c s : len (String c s) = S (len s).
Proof. done. Qed.

Lemma chars_of_chars l : chars (of_chars l) = l.
Proof. induction l; f_equal/=; auto. Qed.

Lemma of_chars_chars s : of_chars (chars s) = s.
Proof. induction s; f_equal/=; auto. Qed.

Lemma chars_append s t : chars (s +:+ t) = chars s ++ chars t.
Proof. induction s as [|c s IH]; [done|]. rewrite append_cons. simpl. by rewrite IH. Qed.

Lemma of_chars_app l k : of_chars (l ++ k) = of_chars l +:+ of_chars k.
Proof. induction l as [|c l IH]; [done|]. simpl. rewrite append_cons. by rewrite IH. Qed.

Lemma len_chars s : len s = length (chars s).
Proof. induction s as [|c s IH]; [done|]. rewrite len_cons. simpl. by rewrite IH. Qed.

Lemma chars_inj s t : chars s = chars t → s = t.
Proof. intros H. rewrite <-(of_chars_chars s), <-(of_chars_chars t). by rewrite H. Qed.

Lemma append_eq_nil s t : s +:+ t = "" ↔ s = "" ∧ t = "".
Proof. destruct s; [rewrite append_nil_l; naive_solver|]. rewrite append_cons. naive_solver. Qed.

Lemma strip_prefix_Some p s t : strip_prefix p s = Some t ↔ s = p +:+ t.
Proof.
  revert s. induction p as [|a p IH]; intros [|b s]; simpl.
  - rewrite append_nil_l. naive_solver.
  - rewrite append_nil_l. naive_solver.
  - rewrite append_cons. naive_solver.
  - rewrite append_cons. case_decide; [subst; rewrite IH; naive_solver|].
    naive_solver.
Qed.

Lemma strip_prefix_app p t : strip_prefix p (p +:+ t) = Some t.
Proof. by apply strip_prefix_Some. Qed.

Lemma HasPrefix_true s p : HasPrefix s p = true ↔ ∃ t, s = p +:+ t.
Proof.
  unfold HasPrefix. destruct (strip_prefix p s) as [t|] eqn:E.
  - apply strip_prefix_Some in E. naive_solver.
  - split; [done|]. intros [t ->]. by rewrite strip_prefix_app in E.
Qed.

Lemma HasPrefix_app p t : HasPrefix (p +:+ t) p = true.
Proof. apply HasPrefix_true. eauto. Qed.

Lemma TrimPrefix_app p t : TrimPrefix (p +:+ t) p = t.
Proof. unfold TrimPrefix. by rewrite strip_prefix_app. Qed.

Lemma drop_s_app s t : drop_s (len s) (s +:+ t) = t.
Proof. induction s as [|c s IH]; [done|]. rewrite append_cons, len_cons. simpl. done. Qed.

Lemma take_s_app s t : take_s (len s) (s +:+ t) = s.
Proof. induction s as [|c s IH]; [by destruct t|]. rewrite append_cons, len_cons. simpl. by rewrite IH. Qed.

Lemma take_drop_s n s : take_s n s +:+ drop_s n s = s.
Proof.
  revert s. induction n as [|n IH]; intros [|c s]; try done.
  simpl. rewrite append_cons. by rewrite IH.
Qed.

Lemma len_take_s n s : n ≤ len s → len (take_s n s) = n.
Proof.
  revert s. induction n as [|n IH]; intros [|c s] Hn; try done; unfold len in *; simpl in *; [lia|].
  rewrite IH; lia.
Qed.

Lemma len_drop_s n s : len (drop_s n s) = len s - n.
Proof.
  revert s. induction n as [|n IH]; intros [|c s]; try done. simpl. by rewrite IH.
Qed.

Lemma HasSuffix_app s p : HasSuffix (s +:+ p) p = true.
Proof.
  unfold HasSuffix. rewrite len_append.
  replace (len s + len p - len p) with (len s) by lia.
  rewrite drop_s_app. by rewrite !bool_decide_eq_true_2 by lia || done.
Qed.

Lemma HasSuffix_true s p : HasSuffix s p = true ↔ ∃ t, s = t +:+ p.
Proof.
  split; [|intros [t ->]; apply HasSuffix_app].
  unfold HasSuffix. intros [_ H]%andb_true_iff. apply bool_decide_eq_true in H.
  exists (take_s (len s - len p) s). by rewrite <-(take_drop_s (len s - len p) s), H at 1.
Qed.

Lemma TrimSuffix_app s p : TrimSuffix (s +:+ p) p = s.
Proof.
  unfold TrimSuffix. rewrite HasSuffix_app, len_append.
  replace (len s + len p - len p) with (len s) by lia. apply take_s_app.
Qed.

(** *** Cutting *)

Lemma Cut_unfold s sep :
  Cut s sep = match strip_prefix sep s with
              | Some r => Some ("", r)
              | None => match s with
                        | "" => None
                        | String c s => prod_map (String c) id <$> Cut s sep
                        end
              end.
Proof. by destruct s. Qed.

Lemma Cut_Some s sep a r : Cut s sep = Some (a, r) → s = a +:+ sep +:+ r.
Proof.
  revert a r. induction s as [|c s IH]; intros a r; rewrite Cut_unfold;
    destruct (strip_prefix _ _) as [t|] eqn:E; intros H; simplify_eq/=.
  - apply strip_prefix_Some in E. by rewrite append_nil_l.
  - apply strip_prefix_Some in E. by rewrite append_nil_l.
  - destruct (Cut s sep) as [[a' r']|] eqn:E'; simplify_eq/=.
    rewrite append_cons. f_equal. by apply IH.
Qed.

Lemma Cut_None_iff s sep : Cut s sep = None ↔ ∀ a r, s ≠ a +:+ sep +:+ r.
Proof.
  induction s as [|c s IH]; rewrite Cut_unfold; destruct (strip_prefix _ _) as [t|] eqn:E.
  - apply strip_prefix_Some in E. split; [done|]. intros H. by destruct (H "" t).
  - split; [|done]. intros _ a r H. symmetry in H.
    apply append_eq_nil in H as [_ [-> ->]%append_eq_nil]. done.
  - apply strip_prefix_Some in E. split; [done|]. intros H. by destruct (H "" t).
  - split.
    + intros H [|b a] r Hs.
      * rewrite append_nil_l in Hs. by rewrite Hs, strip_prefix_app in E.
      * rewrite append_cons in Hs. injection Hs as -> Hs.
        destruct (Cut s sep) eqn:E'; simplify_eq/=.
        by apply (proj1 IH eq_refl a r).
    + intros H. assert (Cut s sep = None) as ->; [|done].
      apply IH. intros a r ->. by apply (H (String c a) r).
Qed.

Lemma Contains_true s sub : Contains s sub = true ↔ ∃ a r, s = a +:+ sub +:+ r.
Proof.
  unfold Contains. destruct (Cut s sub) as [[a r]|] eqn:E.
  - apply Cut_Some in E. naive_solver.
  - rewrite Cut_None_iff in E. naive_solver.
Qed.

Lemma Contains_false s sub : Contains s sub = false ↔ Cut s sub = None.
Proof. unfold Contains. by destruct (Cut s sub). Qed.

(** A single-byte separator: the part before it has no occurrence. *)
Lemma Cut_char_app a c r :
  c ∉ chars a → Cut (a +:+ String c r) (String c "") = Some (a, r).
Proof.
  induction a as [|b a IH]; intros Hc; rewrite Cut_unfold.
  - rewrite append_nil_l. simpl. by rewrite decide_True.
  - rewrite append_cons. simpl. simpl in Hc. apply not_elem_of_cons in Hc as [Hb Hc].
    rewrite decide_False by done. rewrite IH by done. done.
Qed.

Lemma Cut_char_None a c : c ∉ chars a → Cut a (String c "") = None.
Proof.
  intros Hc. apply Cut_None_iff. intros x r ->. apply Hc.
  rewrite append_cons, append_nil_l, chars_append. simpl. set_solver.
Qed.

Lemma Cut_char_None_inv a c : Cut a (String c "") = None → c ∉ chars a.
Proof.
  intros H Hin. apply list_elem_of_In, in_split in Hin as (l1 & l2 & Hin).
  apply (proj1 (Cut_None_iff _ _) H (of_chars l1) (of_chars l2)).
  apply chars_inj. rewrite Hin, append_cons, append_nil_l, chars_append. simpl.
  by rewrite !chars_of_chars.
Qed.

Lemma Cut_char_Some_inv s c a r :
  Cut s (String c "") = Some (a, r) → s = a +:+ String c r ∧ c ∉ chars a.
Proof.
  intros H. pose proof (Cut_Some _ _ _ _ H) as Hs.
  rewrite append_cons, append_nil_l in Hs. split; [done|].
  revert a H Hs. induction s as [|b s IH]; intros a H Hs; rewrite Cut_unfold in H; [done|].
  simpl in H. case_decide.
  - simplify_eq. apply not_elem_of_nil.
  - destruct (Cut s (String c "")) as [[a' r']|] eqn:E; simplify_eq/=.
    rewrite append_cons in Hs. injection Hs as Hs.
    apply not_elem_of_cons. split; [done|]. by apply IH.
Qed.

(** *** Splitting *)

Lemma split_fuel_enough n m s sep :
  sep ≠ "" → len s < n → len s < m → split_fuel n s sep = split_fuel m s sep.
Proof.
  intros Hsep. revert m s. induction n as [|n IH]; intros [|m] s Hn Hm; try lia. simpl.
  destruct (Cut s sep) as [[a r]|] eqn:E; [|done]. f_equal.
  apply Cut_Some in E. subst s. rewrite !len_append in *.
  destruct sep as [|c sep]; [done|]. rewrite len_cons in *. apply IH; lia.
Qed.

Lemma Split_unfold s sep :
  sep ≠ "" →
  Split s sep = match Cut s sep with None => [s] | Some (a, r) => a :: Split r sep end.
Proof.
  intros Hsep. unfold Split at 1. cbn [split_fuel].
  destruct (Cut s sep) as [[a r]|] eqn:E; [|done]. f_equal.
  apply Cut_Some in E. subst s. apply split_fuel_enough; [done| |lia].
  rewrite !len_append. destruct sep as [|c sep]; [done|]. rewrite len_cons. lia.
Qed.

(** A separator with a character of its own is found where it was put. *)
Lemma Cut_marked a u m v r :
  m ∉ chars a → m ∉ chars u →
  Cut (a +:+ (u +:+ String m v) +:+ r) (u +:+ String m v) = Some (a, r).
Proof.
  intros Ha Hu. induction a as [|c a IH].
  - rewrite append_nil_l, Cut_unfold, strip_prefix_app. done.
  - rewrite append_cons, Cut_unfold. cbn [chars] in Ha. apply not_elem_of_cons in Ha as [Hc Ha].
    destruct (strip_prefix (u +:+ String m v) (String c (a +:+ (u +:+ String m v) +:+ r)))
      as [t|] eqn:E.
    + apply strip_prefix_Some in E. exfalso.
      assert (Cut (String c (a +:+ u) +:+ String m (v +:+ r)) (String m "")
              = Cut (u +:+ String m (v +:+ t)) (String m "")) as E2.
      { f_equal. rewrite append_cons, !append_assoc. rewrite !append_assoc, !append_cons in E. exact E. }
      rewrite !Cut_char_app in E2; [|done|cbn [chars]; rewrite chars_append; set_solver].
      apply (f_equal (λ x, len (default ("", "") x).1)) in E2. cbn [default from_option id fst] in E2.
      rewrite len_cons, len_append in E2. lia.
    + by rewrite IH.
Qed.

Lemma Split_marked a u m v b :
  m ∉ chars a → m ∉ chars u → m ∉ chars b →
  Split (a +:+ (u +:+ String m v) +:+ b) (u +:+ String m v) = [a; b].
Proof.
  intros Ha Hu Hb. assert (u +:+ String m v ≠ "") as Hne by (by destruct u).
  rewrite Split_unfold, Cut_marked, Split_unfold by done.
  destruct (Cut b (u +:+ String m v)) as [[x y]|] eqn:E; [|done]. exfalso. apply Hb.
  apply Cut_Some in E as ->. rewrite !chars_append. cbn [chars]. set_solver.
Qed.

Lemma Split_not_nil s sep : Split s sep ≠ [].
Proof. unfold Split. simpl. destruct (Cut s sep) as [[]|]; done. Qed.

Lemma Split_ind (P : string → list string → Prop) sep :
  sep ≠ "" →
  (∀ s, Cut s sep = None → P s [s]) →
  (∀ s a r, Cut s sep = Some (a, r) → P r (Split r sep) → P s (a :: Split r sep)) →
  ∀ s, P s (Split s sep).
Proof.
  intros Hsep H1 H2 s. remember (len s) as n eqn:Hn.
  revert s Hn. induction n as [n IH] using lt_wf_ind. intros s ->.
  rewrite Split_unfold by done. destruct (Cut s sep) as [[a r]|] eqn:E; [|by apply H1].
  apply H2; [done|]. pose proof (Cut_Some _ _ _ _ E) as ->.
  destruct sep as [|c sep]; [done|].
  eapply IH; [|done]. rewrite !len_append, len_cons. lia.
Qed.

(** Joining the parts with the separator gives the string back. *)
Lemma Join_Split s sep : sep ≠ "" → Join (Split s sep) sep = s.
Proof.
  intros Hsep. apply (Split_ind (λ s l, Join l sep = s)); [done..|].
  intros t a r E IH. pose proof (Split_not_nil r sep) as Hnil.
  destruct (Split r sep) as [|x l]; [done|].
  change (a +:+ sep +:+ Join (x :: l) sep = t). rewrite IH. symmetry. by apply Cut_Some.
Qed.

Lemma Split_char_app a c r :
  c ∉ chars a → Split (a +:+ String c r) (String c "") = a :: Split r (String c "").
Proof. intros Hc. rewrite Split_unfold by done. by rewrite Cut_char_app. Qed.

Lemma Split_char_single a c : c ∉ chars a → Split a (String c "") = [a].
Proof. intros Hc. rewrite Split_unfold by done. by rewrite Cut_char_None. Qed.

Lemma Split_char_Forall s c : Forall (λ p, c ∉ chars p) (Split s (String c "")).
Proof.
  apply (Split_ind (λ _ l, Forall (λ p, c ∉ chars p) l)); [done|..].
  - intros t Ht%Cut_char_None_inv. by repeat constructor.
  - intros t a r [_ ?]%Cut_char_Some_inv IH. by constructor.
Qed.

(** Splitting a join of parts without the separator gives the parts back. *)
Lemma Split_Join l c :
  l ≠ [] → Forall (λ p, c ∉ chars p) l → Split (Join l (String c "")) (String c "") = l.
Proof.
  intros Hl H. induction H as [|a l Ha H IH]; [done|].
  destruct l as [|b l]; [by apply Split_char_single|].
  change (Join (a :: b :: l) (String c ""))
    with (a +:+ String c "" +:+ Join (b :: l) (String c "")).
  rewrite append_cons, append_nil_l, Split_char_app by done. by rewrite IH.
Qed.

Lemma ReplaceAll_id s old new : old ≠ "" → Contains s old = false → ReplaceAll s old new = s.
Proof.
  intros Hold H%Contains_false. unfold ReplaceAll. rewrite Split_unfold by done. by rewrite H.
Qed.

(** Replacing one byte acts byte by byte. *)
Lemma ReplaceAll_char_nil c t : ReplaceAll "" (String c "") t = "".
Proof. unfold ReplaceAll. by rewrite Split_char_single by apply not_elem_of_nil. Qed.

Lemma Join_cons_app b a l sep : Join ((b +:+ a) :: l) sep = b +:+ Join (a :: l) sep.
Proof. destruct l; [done|]. simpl. by rewrite append_assoc. Qed.

Lemma ReplaceAll_char_cons c t b s :
  ReplaceAll (String b s) (String c "") t =
  (if decide (b = c) then t else String b "") +:+ ReplaceAll s (String c "") t.
Proof.
  unfold ReplaceAll. rewrite (Split_unfold (String b s)) by done. rewrite Cut_unfold.
  cbn [strip_prefix]. destruct (decide (c = b)) as [->|Hbc].
  - rewrite decide_True by done. pose proof (Split_not_nil s (String b "")).
    destruct (Split s (String b "")); [done|]. cbn [Join]. by rewrite append_nil_l.
  - rewrite decide_False by done. rewrite (Split_unfold s) by done.
    destruct (Cut s (String c "")) as [[a r]|]; cbn [fmap option_fmap option_map prod_map].
    + apply (Join_cons_app (String b "")).
    + done.
Qed.

(** *** The last occurrence *)

Lemma CutLast_app a c r : c ∉ chars r → CutLast (a +:+ String c r) c = Some (a, r).
Proof.
  intros Hr. assert (CutLast r c = None) as Hn.
  { clear a. induction r as [|b r IH]; [done|]. simpl in *.
    apply not_elem_of_cons in Hr as [Hb Hr]. rewrite IH by done. by rewrite decide_False. }
  induction a as [|b a IH].
  - rewrite append_nil_l. simpl. rewrite Hn. by rewrite decide_True.
  - rewrite append_cons. simpl. by rewrite IH.
Qed.

Lemma CutLast_None a c : c ∉ chars a → CutLast a c = None.
Proof.
  induction a as [|b r IH]; [done|]. simpl. intros [Hb Hr]%not_elem_of_cons.
  rewrite IH by done. by rewrite decide_False.
Qed.

(** *** Reversal *)

Lemma rev_app_spec s t : String.rev_app s t = of_chars (reverse (chars s)) +:+ t.
Proof.
  revert t. induction s as [|c s IH]; intros t; [done|].
  simpl. rewrite IH, reverse_cons, of_chars_app, append_assoc. done.
Qed.

Lemma rev_chars s : chars (String.rev s) = reverse (chars s).
Proof. unfold String.rev. by rewrite rev_app_spec, append_nil_r, chars_of_chars. Qed.

Lemma rev_involutive s : String.rev (String.rev s) = s.
Proof. apply chars_inj. by rewrite !rev_chars, reverse_involutive. Qed.

Lemma rev_append s t : String.rev (s +:+ t) = String.rev t +:+ String.rev s.
Proof. apply chars_inj. by rewrite rev_chars, !chars_append, !rev_chars, reverse_app. Qed.

Lemma len_rev s : len (String.rev s) = len s.
Proof. rewrite !len_chars, rev_chars. by rewrite length_reverse. Qed.

(** *** Trimming *)

Lemma strip_one_Some ps s t :
  strip_one ps s = Some t → ∃ p, p ∈ ps ∧ s = p +:+ t.
Proof.
  induction ps as [|p ps IH]; [done|]. simpl.
  destruct (strip_prefix p s) eqn:E; intros ?; simplify_eq.
  - apply strip_prefix_Some in E. exists p. set_solver.
  - destruct IH as (q & ? & ?); [done|]. exists q. set_solver.
Qed.

Lemma strip_one_None ps s :
  strip_one ps s = None ↔ ∀ p t, p ∈ ps → s ≠ p +:+ t.
Proof.
  split.
  - intros H p t Hp ->. induction ps as [|q ps IH]; [set_solver|]. simpl in H.
    destruct (strip_prefix q (p +:+ t)) eqn:E; [done|].
    apply elem_of_cons in Hp as [->|Hp]; [by rewrite strip_prefix_app in E|]. by apply IH.
  - intros H. destruct (strip_one ps s) eqn:E; [|done].
    apply strip_one_Some in E as (p & ? & ?). by destruct (H p s0).
Qed.

Lemma trim_left_nop ps s : strip_one ps s = None → trim_left ps s = s.
Proof. intros H. unfold trim_left. destruct (len s); [done|]. simpl. by rewrite H. Qed.

(** Trimming removes a prefix and leaves a string that starts with no space. *)
Lemma trim_left_suffix ps s : ∃ p, s = p +:+ trim_left ps s.
Proof.
  unfold trim_left. generalize (len s) as n. intros n. revert s.
  induction n as [|n IH]; intros s; [by exists ""|]. simpl.
  destruct (strip_one ps s) as [t|] eqn:E; [|by exists ""].
  apply strip_one_Some in E as (q & _ & ->). destruct (IH t) as [p Hp].
  exists (q +:+ p). rewrite append_assoc. by rewrite <-Hp.
Qed.

Lemma trim_left_stops ps s :
  Forall (λ p, p ≠ "") ps → strip_one ps (trim_left ps s) = None.
Proof.
  intros Hps. unfold trim_left.
  enough (∀ n s, len s ≤ n → strip_one ps (trim_left_fuel n ps s) = None) as H by (by apply H).
  clear s. induction n as [|n IH]; intros s Hn; simpl.
  - destruct s; [|unfold len in *; simpl in *; lia]. apply strip_one_None. intros p t Hp Hs.
    symmetry in Hs. apply append_eq_nil in Hs as [-> _].
    rewrite Forall_forall in Hps. by apply (Hps "").
  - destruct (strip_one ps s) as [t|] eqn:E; [|done].
    apply IH. apply strip_one_Some in E as (p & Hp & ->).
    rewrite Forall_forall in Hps. specialize (Hps _ Hp).
    rewrite len_append in Hn. destruct p; [done|]. rewrite len_cons in Hn. lia.
Qed.

Lemma trim_left_char c s :
  strip_one [String c ""] s = None ↔ ∀ t, s ≠ String c t.
Proof. rewrite strip_one_None. split; [|set_solver]. intros H t. by apply (H (String c "") t), list_elem_of_singleton. Qed.

Lemma trim_right_nop ps s :
  strip_one (String.rev <$> ps) (String.rev s) = None → trim_right ps s = s.
Proof. intros H. unfold trim_right. by rewrite trim_left_nop, rev_involutive. Qed.

(** Trimming a byte that the string neither starts nor ends with. *)
Lemma Trim_nop c s : c ∉ chars s → Trim s c = s.
Proof.
  intros Hc. unfold Trim. rewrite trim_left_nop, trim_right_nop; [done|..].
  - apply trim_left_char. intros t Ht. apply Hc.
    assert (c ∈ chars (String.rev s)) as Hin by (rewrite Ht; simpl; set_solver).
    rewrite rev_chars in Hin. by apply elem_of_reverse.
  - apply trim_left_char. intros t ->. apply Hc. simpl. set_solver.
Qed.

(** Trimming removes one trailing [c] from a string without [c]. *)
Lemma Trim_trailing c s : c ∉ chars s → Trim (s +:+ String c "") c = s.
Proof.
  intros Hc. unfold Trim. destruct s as [|b s].
  { rewrite append_nil_l. unfold trim_left, trim_right. simpl. rewrite decide_True by done.
    done. }
  assert (b ≠ c) by set_solver.
  rewrite trim_left_nop; last first.
  { apply trim_left_char. intros t Ht. rewrite append_cons in Ht. naive_solver. }
  unfold trim_right. rewrite rev_append. unfold trim_left.
  change (String.rev <$> [String c ""]) with [String c ""].
  change (String.rev (String c "")) with (String c "").
  rewrite append_cons, append_nil_l, len_cons. cbn [trim_left_fuel strip_one foldr strip_prefix].
  rewrite decide_True by done.
  fold (trim_left [String c ""] (String.rev (String b s))).
  rewrite trim_left_nop, rev_involutive; [done|].
  apply trim_left_char. intros t Ht. apply Hc.
  assert (c ∈ chars (String.rev (String b s))) as Hin by (rewrite Ht; simpl; set_solver).
  rewrite rev_chars in Hin. by apply elem_of_reverse.
Qed.

(** *** Words: strings of printable ASCII without blanks *)

Definition graph (c : ascii) : bool :=
  let n := nat_of_ascii c in (33 <=? n) && (n <=? 126).

(** Whether every byte of a string satisfies [f]. *)
Definition all_chars (f : ascii → bool) (s : string) : Prop :=
  Forall (λ c, f c = true) (chars s).
#[export] Instance all_chars_dec f s : Decision (all_chars f s).
Proof. unfold all_chars. apply _. Defined.

Lemma all_chars_nil f : all_chars f "".
Proof. constructor. Qed.

Lemma all_chars_cons f c s : all_chars f (String c s) ↔ f c = true ∧ all_chars f s.
Proof. unfold all_chars. simpl. by rewrite Forall_cons. Qed.

Lemma all_chars_app f s t : all_chars f (s +:+ t) ↔ all_chars f s ∧ all_chars f t.
Proof. unfold all_chars. by rewrite chars_append, Forall_app. Qed.

Lemma all_chars_not f s c : all_chars f s → f c = false → c ∉ chars s.
Proof. intros H Hc Hin. eapply Forall_forall in H; [|done]. congruence. Qed.

Lemma all_chars_impl (f g : ascii → bool) s :
  (∀ c, f c = true → g c = true) → all_chars f s → all_chars g s.
Proof. intros H Hs. eapply Forall_impl; [exact Hs|]. auto. Qed.

Lemma all_chars_Split f s sep : all_chars f s → sep ≠ "" → Forall (all_chars f) (Split s sep).
Proof.
  intros Hs Hsep. revert Hs. apply (Split_ind (λ s l, all_chars f s → Forall (all_chars f) l)); [done|..].
  - intros t _ Ht. apply Forall_singleton. exact Ht.
  - intros t a r E IH Ht. apply Cut_Some in E as ->. rewrite !all_chars_app in Ht.
    apply Forall_cons. split; [apply Ht|apply IH, Ht].
Qed.

Lemma all_chars_Join f l sep : Forall (all_chars f) l → all_chars f sep → all_chars f (Join l sep).
Proof.
  intros Hl Hsep. induction Hl as [|a l Ha Hl IH]; [apply all_chars_nil|].
  destruct l; [done|]. change (all_chars f (a +:+ sep +:+ Join (s :: l) sep)).
  by rewrite !all_chars_app.
Qed.

Lemma all_chars_ReplaceAll f s old new :
  old ≠ "" → all_chars f s → all_chars f new → all_chars f (ReplaceAll s old new).
Proof. intros. apply all_chars_Join; [by apply all_chars_Split|done]. Qed.

(** A space rune starts and ends with a byte that is no printable ASCII. *)
Definition first_blank (s : string) : bool :=
  match s with String c _ => negb (graph c) | "" => false end.

Lemma strip_one_graph ps s :
  Forall (λ p, first_blank p = true) ps → all_chars graph s → strip_one ps s = None.
Proof.
  intros Hps Hs. apply strip_one_None. intros p t Hp ->.
  rewrite Forall_forall in Hps. specialize (Hps p Hp). destruct p as [|c p]; [done|].
  rewrite append_cons, all_chars_cons in Hs. simpl in Hps. destruct Hs as [Hc _]. by rewrite Hc in Hps.
Qed.

Lemma space_runes_blank : Forall (λ p, first_blank p = true) space_runes.
Proof. apply (bool_decide_unpack _). vm_compute. exact I. Qed.

Lemma rev_space_runes_blank : Forall (λ p, first_blank p = true) (String.rev <$> space_runes).
Proof. apply (bool_decide_unpack _). vm_compute. exact I. Qed.

Lemma all_chars_rev f s : all_chars f s → all_chars f (String.rev s).
Proof. unfold all_chars. rewrite rev_chars. apply Forall_reverse. Qed.

Lemma TrimSpace_graph s : all_chars graph s → TrimSpace s = s.
Proof.
  intros Hs. unfold TrimSpace. rewrite trim_left_nop, trim_right_nop; [done|..].
  - apply strip_one_graph; [apply rev_space_runes_blank|by apply all_chars_rev].
  - apply strip_one_graph; [apply space_runes_blank|done].
Qed.

Definition word (s : string) : Prop := s ≠ "" ∧ all_chars graph s.
#[export] Instance word_dec s : Decision (word s).
Proof. unfold word. apply _. Defined.

Lemma fields_fuel_word n cur w s :
  all_chars graph w → fields_fuel (len w + n) cur (w +:+ s) = fields_fuel n (String.rev w +:+ cur) s.
Proof.
  revert cur. induction w as [|c w IH]; intros cur Hw.
  - by rewrite append_nil_l.
  - apply all_chars_cons in Hw as [Hc Hw]. rewrite append_cons.
    change (len (String c w) + n) with (S (len w + n)). cbn [fields_fuel].
    assert (strip_one space_runes (String c (w +:+ s)) = None) as ->.
    { apply strip_one_None. intros p t Hp Ht. pose proof space_runes_blank as Hb.
      rewrite Forall_forall in Hb. specialize (Hb p Hp). destruct p as [|d p]; [done|].
      rewrite append_cons in Ht. injection Ht as <- _. simpl in Hb. by rewrite Hc in Hb. }
    rewrite IH by done. f_equal.
    apply chars_inj. rewrite !chars_append, !rev_chars. simpl.
    by rewrite reverse_cons, <-app_assoc.
Qed.

Lemma Fields_word w : word w → Fields w = [w].
Proof.
  intros [Hne Hw]. unfold Fields. rewrite <-(append_nil_r w) at 2.
  replace (len w) with (len w + 0) by lia. rewrite fields_fuel_word by done. simpl.
  rewrite append_nil_r. rewrite decide_False.
  - by rewrite rev_involutive.
  - intros E. apply Hne. apply (f_equal String.rev) in E. by rewrite rev_involutive in E.
Qed.

Lemma Fields_cons w s : word w → Fields (w +:+ " " +:+ s) = w :: Fields s.
Proof.
  intros [Hne Hw]. unfold Fields. rewrite len_append.
  rewrite fields_fuel_word by done. rewrite append_nil_r, append_cons, append_nil_l.
  change (len (String " " s)) with (S (len s)). cbn [fields_fuel]. 
  change (strip_one space_runes (String " " s)) with (Some s). cbn [fields_fuel].
  rewrite decide_False.
  - by rewrite rev_involutive.
  - intros E. apply Hne. apply (f_equal String.rev) in E. by rewrite rev_involutive in E.
Qed.

Lemma Fields_Join l : Forall word l → Fields (Join l " ") = l.
Proof.
  induction 1 as [|w l Hw Hl IH]; [done|]. destruct l as [|v l]; [by apply Fields_word|].
  change (Join (w :: v :: l) " ") with (w +:+ " " +:+ Join (v :: l) " ").
  rewrite Fields_cons by done. by rewrite IH.
Qed.
