(* ===== verification/GoHash.v ===== *)
(** * Go's [crypto/sha256] and [hash/fnv], executable

    [sha256_words] is FIPS 180-4 SHA-256 over 32-bit words kept in [Z];
    [fnv32a] is the 32-bit FNV-1a hash of [hash/fnv].  Both compute with
    [vm_compute]; the published test vectors are checked below. *)

From S2P Require Import Prelude GoStrings.
From stdpp Require Import options.
From Stdlib Require Import Ascii.
Local Open Scope Z_scope.

Definition byte_val (c : ascii) : Z := Z.of_N (N_of_ascii c).

Definition add32 (x y : Z) : Z := u32 (x + y).
Definition rotr (n x : Z) : Z := Z.lor (Z.shiftr x n) (u32 (Z.shiftl x (32 - n))).
Definition not32 (x : Z) : Z := Z.lxor x 4294967295.

Definition sha_Ch (x y z : Z) : Z := Z.lxor (Z.land x y) (Z.land (not32 x) z).
Definition sha_Maj (x y z : Z) : Z :=
  Z.lxor (Z.lxor (Z.land x y) (Z.land x z)) (Z.land y z).
Definition sha_S0 (x : Z) : Z := Z.lxor (Z.lxor (rotr 2 x) (rotr 13 x)) (rotr 22 x).
Definition sha_S1 (x : Z) : Z := Z.lxor (Z.lxor (rotr 6 x) (rotr 11 x)) (rotr 25 x).
Definition sha_s0 (x : Z) : Z := Z.lxor (Z.lxor (rotr 7 x) (rotr 18 x)) (Z.shiftr x 3).
Definition sha_s1 (x : Z) : Z := Z.lxor (Z.lxor (rotr 17 x) (rotr 19 x)) (Z.shiftr x 10).

(** FIPS 180-4 defines the constants by roots of the first primes: the round
    constants are the first 32 bits of the fractional parts of the cube roots
    of 64 primes, the initial state those of the square roots of 8. *)
Definition is_prime (n : Z) : bool :=
  forallb (λ d, negb (n mod d =? 0)) (seqZ 2 (n - 2)).

Definition primes_below (n : Z) : list Z := filter (λ p, is_prime p = true) (seqZ 2 (n - 2)).

(** The integer part of the [k]-th root of [n], decided bit by bit. *)
Fixpoint root_bits (bits : nat) (k n acc : Z) : Z :=
  match bits with
  | O => acc
  | S b =>
      let r := acc + 2 ^ Z.of_nat b in
      root_bits b k n (if r ^ k <=? n then r else acc)
  end.

Definition root_fraction (k p : Z) : Z := u32 (root_bits 40 k (p * 2 ^ (32 * k)) 0).

Definition sha_K : list Z := Eval vm_compute in root_fraction 3 <$> primes_below 312.

Record sha_state := Sha {
  ha : Z; hb : Z; hc : Z; hd : Z; he : Z; hf : Z; hg : Z; hh : Z }.

Definition sha_init : sha_state := Eval vm_compute in
  match root_fraction 2 <$> primes_below 20 with
  | [a; b; c; d; e; f; g; h] => Sha a b c d e f g h
  | _ => Sha 0 0 0 0 0 0 0 0
  end.

Definition sha_round (st : sha_state) (kw : Z * Z) : sha_state :=
  let '(k, w) := kw in
  let t1 := add32 (add32 (add32 (add32 (hh st) (sha_S1 (he st)))
                                (sha_Ch (he st) (hf st) (hg st))) k) w in
  let t2 := add32 (sha_S0 (ha st)) (sha_Maj (ha st) (hb st) (hc st)) in
  Sha (add32 t1 t2) (ha st) (hb st) (hc st) (add32 (hd st) t1) (he st) (hf st) (hg st).

(** The message schedule, latest word first. *)
Fixpoint sha_schedule (n : nat) (w : list Z) : list Z :=
  match n with
  | O => w
  | S n =>
      let g := λ i, nth i w 0 in
      sha_schedule n
        (add32 (add32 (sha_s1 (g 1%nat)) (g 6%nat)) (add32 (sha_s0 (g 14%nat)) (g 15%nat)) :: w)
  end.

Definition sha_block (st : sha_state) (block : list Z) : sha_state :=
  let w := reverse (sha_schedule 48 (reverse block)) in
  let r := foldl sha_round st (zip sha_K w) in
  Sha (add32 (ha st) (ha r)) (add32 (hb st) (hb r)) (add32 (hc st) (hc r)) (add32 (hd st) (hd r))
      (add32 (he st) (he r)) (add32 (hf st) (hf r)) (add32 (hg st) (hg r)) (add32 (hh st) (hh r)).

Fixpoint be_words (l : list Z) : list Z :=
  match l with
  | a :: b :: c :: d :: l => (a * 16777216 + b * 65536 + c * 256 + d) :: be_words l
  | _ => []
  end.

Definition be_bytes (n : nat) (x : Z) : list Z :=
  (λ i, Z.land (Z.shiftr x (8 * Z.of_nat i)) 255) <$> reverse (seq 0 n).

(** Pad to a multiple of 64 bytes: 0x80, zeros, the bit length in 8 bytes. *)
Definition sha_pad (msg : list Z) : list Z :=
  let l := Z.of_nat (length msg) in
  let zeros := Z.to_nat ((55 - l) mod 64) in
  msg ++ [128] ++ replicate zeros 0 ++ be_bytes 8 (8 * l).

Fixpoint sha_blocks (fuel : nat) (st : sha_state) (ws : list Z) : sha_state :=
  match fuel with
  | O => st
  | S n => match ws with
           | [] => st
           | _ => sha_blocks n (sha_block st (take 16 ws)) (drop 16 ws)
           end
  end.

Definition sha256_state (msg : list Z) : sha_state :=
  let ws := be_words (sha_pad msg) in sha_blocks (length ws) sha_init ws.

Definition sha_list (st : sha_state) : list Z :=
  [ha st; hb st; hc st; hd st; he st; hf st; hg st; hh st].

Definition sha256_words (s : string) : list Z :=
  sha_list (sha256_state (byte_val <$> chars s)).

(** [h.Sum(nil)] as bytes. *)
Definition sha256_bytes (s : string) : list Z := mjoin (be_bytes 4 <$> sha256_words s).

Definition hex_digit (n : Z) : ascii :=
  match n with
  | 0 => "0" | 1 => "1" | 2 => "2" | 3 => "3" | 4 => "4" | 5 => "5" | 6 => "6" | 7 => "7"
  | 8 => "8" | 9 => "9" | 10 => "a" | 11 => "b" | 12 => "c" | 13 => "d" | 14 => "e" | _ => "f"
  end%char.

Definition hex_byte (b : Z) : list ascii := [hex_digit (Z.shiftr b 4); hex_digit (Z.land b 15)].

(** [hex.EncodeToString(h.Sum(nil))], also the ["%x"] format of the digest. *)
Definition sha256_hex (s : string) : string := of_chars (mjoin (hex_byte <$> sha256_bytes s)).

(** [hash/fnv] New32a: [Sum32] after writing the string. *)
Definition fnv32a (s : string) : Z :=
  foldl (λ h c, u32 (Z.lxor h (byte_val c) * 16777619)) 2166136261 (chars s).

#[global] Arguments sha256_hex : simpl never.
#[global] Arguments sha256_bytes : simpl never.
#[global] Arguments sha256_words : simpl never.
#[global] Arguments fnv32a : simpl never.

(** ** The published test vectors *)

Example sha256_empty :
  sha256_hex "" = "e3b0c44298fc1c149afbf4c8996fb92427ae41e4649b934ca495991b7852b855".
Proof. vm_compute. reflexivity. Qed.

Example sha256_abc :
  sha256_hex "abc" = "ba7816bf8f01cfea414140de5dae2223b00361a396177a9cb410ff61f20015ad".
Proof. vm_compute. reflexivity. Qed.

Example sha256_two_blocks :
  sha256_hex "abcdbcdecdefdefgefghfghighijhijkijkljklmklmnlmnomnopnopq"
  = "248d6a61d20638b8e5c026930c3e6039a33ce45964ff2167f6ecedd419db06c1".
Proof. vm_compute. reflexivity. Qed.

Example fnv32a_foobar : fnv32a "foobar" = 0xbf9cf968.
Proof. vm_compute. reflexivity. Qed.

(** ** Shape of the digest *)

Definition is_hex (c : ascii) : bool :=
  let n := byte_val c in (bool_decide (48 ≤ n ≤ 57) || bool_decide (97 ≤ n ≤ 102))%Z.

Lemma hex_digit_is_hex n : is_hex (hex_digit n) = true.
Proof. unfold hex_digit. repeat case_match; reflexivity. Qed.

Lemma mjoin_length_const {A B} (f : A → list B) (n : nat) l :
  (∀ x, length (f x) = n) → length (mjoin (f <$> l)) = (n * length l)%nat.
Proof.
  intros Hf. induction l as [|x l IH]; [simpl; lia|].
  rewrite fmap_cons. simpl. rewrite length_app, Hf, IH. lia.
Qed.

Lemma sha256_bytes_length s : length (sha256_bytes s) = 32%nat.
Proof. unfold sha256_bytes. rewrite (mjoin_length_const _ 4); reflexivity. Qed.

Lemma sha256_hex_len s : len (sha256_hex s) = 64%nat.
Proof.
  unfold sha256_hex. rewrite len_chars, chars_of_chars.
  rewrite (mjoin_length_const _ 2); [|reflexivity]. by rewrite sha256_bytes_length.
Qed.

Lemma sha256_hex_chars s : Forall (λ c, is_hex c = true) (chars (sha256_hex s)).
Proof.
  unfold sha256_hex. rewrite chars_of_chars. induction (sha256_bytes s) as [|b l IH]; [done|].
  rewrite fmap_cons. simpl. repeat constructor; [apply hex_digit_is_hex..|done].
Qed.

Lemma be_bytes_range n x : Forall (λ b, 0 ≤ b < 256) (be_bytes n x).
Proof.
  unfold be_bytes. apply Forall_fmap, Forall_forall. intros i _. simpl.
  change 255 with (Z.ones 8). rewrite Z.land_ones by lia. by apply Z.mod_pos_bound.
Qed.

Lemma sha256_bytes_range s : Forall (λ b, 0 ≤ b < 256) (sha256_bytes s).
Proof.
  unfold sha256_bytes. induction (sha256_words s) as [|w l IH]; [done|].
  rewrite fmap_cons. apply (Forall_app_2 _ (be_bytes 4 w)); [apply be_bytes_range|done].
Qed.
