(* ===== verification/GoTime.v ===== *)
(** * Go's [time] package, as the delayed deletion of mount pods uses it

    A [time.Time] is the number of nanoseconds since the Unix epoch and a
    [time.Duration] a number of nanoseconds, both in [Z].  [Format] and [Parse]
    are modelled for the one layout of the program, ["2006-01-02 15:04:05"];
    [time.ParseDuration] is modelled in full, with the float64 arithmetic it
    uses for fractions taken from [SpecFloat]. *)

From S2P Require Import Prelude GoStrings.
From stdpp Require Import options.
From Stdlib Require Import Ascii SpecFloat.
Local Open Scope Z_scope.

(** ** Decimal digits *)

Definition digit_char (d : Z) : ascii := ascii_of_N (Z.to_N (48 + d)).

Definition digit_val (c : ascii) : option Z :=
  let n := Z.of_N (N_of_ascii c) in
  if decide (48 ≤ n ≤ 57) then Some (n - 48) else None.

(** [n] in exactly [k] digits, zero padded. *)
Fixpoint pad (k : nat) (n : Z) : string :=
  match k with
  | O => ""
  | S k => pad k (n / 10) +:+ String (digit_char (n mod 10)) ""
  end.

(** Read exactly [k] digits. *)
Fixpoint read_digits (k : nat) (acc : Z) (s : string) : option (Z * string) :=
  match k with
  | O => Some (acc, s)
  | S k =>
      match s with
      | String c s => match digit_val c with
                      | Some d => read_digits k (acc * 10 + d) s
                      | None => None
                      end
      | "" => None
      end
  end.

(** ** The civil calendar *)

Record civil := Civil { c_year : Z; c_month : Z; c_day : Z }.

Definition is_leap (y : Z) : bool :=
  bool_decide (y mod 4 = 0) && (negb (bool_decide (y mod 100 = 0)) || bool_decide (y mod 400 = 0)).

Definition days_in (m y : Z) : Z :=
  if decide (m = 2) then (if is_leap y then 29 else 28)
  else if decide (m = 4 ∨ m = 6 ∨ m = 9 ∨ m = 11) then 30 else 31.

(** Day of a 400-year era to (year of era from March, month, day), and back. *)
Definition civil_of_doe (doe : Z) : Z * Z * Z :=
  let yoe := (doe - doe / 1460 + doe / 36524 - doe / 146096) / 365 in
  let doy := doe - (365 * yoe + yoe / 4 - yoe / 100) in
  let mp := (5 * doy + 2) / 153 in
  (yoe, (if decide (mp < 10) then mp + 3 else mp - 9), doy - (153 * mp + 2) / 5 + 1).

Definition doe_of_civil (yoe m d : Z) : Z :=
  let doy := (153 * (if decide (2 < m) then m - 3 else m + 9) + 2) / 5 + d - 1 in
  yoe * 365 + yoe / 4 - yoe / 100 + doy.

Definition civil_from_days (z : Z) : civil :=
  let '(yoe, m, d) := civil_of_doe ((z + 719468) mod 146097) in
  Civil (yoe + (z + 719468) / 146097 * 400 + (if decide (m ≤ 2) then 1 else 0)) m d.

Definition days_from_civil (c : civil) : Z :=
  let y := c_year c - (if decide (c_month c ≤ 2) then 1 else 0) in
  y / 400 * 146097 + doe_of_civil (y mod 400) (c_month c) (c_day c) - 719468.

(** ** [Format] and [Parse] for the layout ["2006-01-02 15:04:05"] *)

Definition year_digits (y : Z) : string :=
  if decide (0 ≤ y < 10000) then pad 4 y else pretty y.

(** [t.Format(layout)] for an instant [t] (ns) in a zone [off] seconds east of
    UTC. *)
Definition time_Format (off : Z) (t : Z) : string :=
  let s := t / Second + off in
  let c := civil_from_days (s / 86400) in
  let r := s mod 86400 in
  year_digits (c_year c) +:+ "-" +:+ pad 2 (c_month c) +:+ "-" +:+ pad 2 (c_day c) +:+ " "
  +:+ pad 2 (r / 3600) +:+ ":" +:+ pad 2 (r / 60 mod 60) +:+ ":" +:+ pad 2 (r mod 60).

Definition expect (c : ascii) (s : string) : option string :=
  match s with String a s => if decide (a = c) then Some s else None | "" => None end.

(** A blank of the layout matches one or more blanks, or the end of the value. *)
Fixpoint skip_blanks (s : string) : string :=
  match s with String a s' => if decide (a = " "%char) then skip_blanks s' else s | "" => "" end.
Definition expect_blank (s : string) : option string :=
  match s with
  | String a _ => if decide (a = " "%char) then Some (skip_blanks s) else None
  | "" => Some ""
  end.

(** The hour may have one or two digits. *)
Definition read_hour (s : string) : option (Z * string) :=
  match read_digits 2 0 s with Some r => Some r | None => read_digits 1 0 s end.

Fixpoint span_digits (s : string) : list Z * string :=
  match s with
  | String c s' => match digit_val c with
                   | Some d => let '(l, r) := span_digits s' in (d :: l, r)
                   | None => ([], s)
                   end
  | "" => ([], "")
  end.

(** An optional fraction of a second, nine digits kept. *)
Definition read_fraction (s : string) : Z * string :=
  match s with
  | String p s' =>
      if decide (p = "."%char ∨ p = ","%char) then
        match span_digits s' with
        | ([], _) => (0, s)
        | (ds, r) =>
            let ds := take 9 ds in
            (foldl (λ n d, n * 10 + d) 0 ds * 10 ^ (9 - Z.of_nat (length ds)), r)
        end
      else (0, s)
  | "" => (0, "")
  end.

Definition time_Parse_opt (str : string) : option Z :=
  '(y, s) ← read_digits 4 0 str;
  s ← expect "-" s;
  '(m, s) ← read_digits 2 0 s;
  guard (1 ≤ m ≤ 12);;
  s ← expect "-" s;
  '(d, s) ← read_digits 2 0 s;
  s ← expect_blank s;
  '(h, s) ← read_hour s;
  guard (h < 24);;
  s ← expect ":" s;
  '(mi, s) ← read_digits 2 0 s;
  guard (mi < 60);;
  s ← expect ":" s;
  '(se, s) ← read_digits 2 0 s;
  guard (se < 60);;
  let '(ns, s) := read_fraction s in
  guard (s = "");;
  guard (1 ≤ d ≤ days_in m y);;
  Some ((days_from_civil (Civil y m d) * 86400 + h * 3600 + mi * 60 + se) * Second + ns).

Definition time_Parse (str : string) : result Z :=
  match time_Parse_opt str with
  | Some t => Ok t
  | None => Err (ErrNew ("parsing time " +:+ str))
  end.

(** ** [time.ParseDuration] *)

Definition f64_of_Z (z : Z) : spec_float := binary_normalize 53 1024 z 0 false.
Definition f64_mul := SFmul 53 1024.
Definition f64_div := SFdiv 53 1024.

(** [uint64(x)] of a non-negative finite float below 2^64. *)
Definition u64_of_f64 (x : spec_float) : Z :=
  match x with
  | S754_finite false m e => Z.shiftl (Zpos m) e
  | _ => 0
  end.

Definition unit_ns (u : string) : option Z :=
  if decide (u = "ns") then Some 1
  else if decide (u = "us" ∨ u = of_chars [byte 194; byte 181; "s"%char]
                  ∨ u = of_chars [byte 206; byte 188; "s"%char]) then Some Microsecond
  else if decide (u = "ms") then Some Millisecond
  else if decide (u = "s") then Some Second
  else if decide (u = "m") then Some Minute
  else if decide (u = "h") then Some Hour
  else None.

(** [leadingInt]: [None] on overflow past 2^63. *)
Fixpoint leading_int (x : Z) (s : string) : option (Z * string) :=
  match s with
  | String c s' =>
      match digit_val c with
      | Some d =>
          if decide (x > 2 ^ 63 / 10) then None
          else if decide (x * 10 + d > 2 ^ 63) then None
          else leading_int (x * 10 + d) s'
      | None => Some (x, s)
      end
  | "" => Some (x, s)
  end.

(** [leadingFraction]: digits past the 63-bit range are dropped. *)
Fixpoint leading_fraction (x : Z) (scale : spec_float) (over : bool) (s : string)
    : Z * spec_float * string :=
  match s with
  | String c s' =>
      match digit_val c with
      | Some d =>
          if over then leading_fraction x scale true s'
          else if decide (x > (2 ^ 63 - 1) / 10) then leading_fraction x scale true s'
          else if decide (x * 10 + d > 2 ^ 63) then leading_fraction x scale true s'
          else leading_fraction (x * 10 + d) (f64_mul scale (f64_of_Z 10)) false s'
      | None => (x, scale, s)
      end
  | "" => (x, scale, s)
  end.

Definition is_unit_char (c : ascii) : bool :=
  negb (bool_decide (c = "."%char)) && bool_decide (digit_val c = None).

Fixpoint span_unit (s : string) : string * string :=
  match s with
  | String c s' => if is_unit_char c then let '(u, r) := span_unit s' in (String c u, r) else ("", s)
  | "" => ("", "")
  end.

(** One [number unit] group: its value in ns and what is left. *)
Definition duration_group (s : string) : option (Z * string) :=
  match s with
  | "" => None
  | String c _ =>
      if negb (bool_decide (c = "."%char)) && bool_decide (digit_val c = None) then None else
      '(v, s1) ← leading_int 0 s;
      let pre := negb (bool_decide (len s = len s1)) in
      let '(f, scale, s2, post) :=
        match s1 with
        | String "."%char r =>
            let '(f, scale, r') := leading_fraction 0 (f64_of_Z 1) false r in
            (f, scale, r', negb (bool_decide (len r = len r')))
        | _ => (0, f64_of_Z 1, s1, false)
        end in
      if negb pre && negb post then None else
      let '(u, s3) := span_unit s2 in
      if decide (u = "") then None else
      unit ← unit_ns u;
      if decide (v > 2 ^ 63 / unit) then None else
      let v := v * unit in
      if decide (f > 0) then
        let v := v + u64_of_f64 (f64_mul (f64_of_Z f) (f64_div (f64_of_Z unit) scale)) in
        if decide (v > 2 ^ 63) then None else Some (v, s3)
      else Some (v, s3)
  end.

(** Each group consumes at least its unit, so [len s] rounds are enough. *)
Fixpoint duration_groups (n : nat) (d : Z) (s : string) : option Z :=
  if decide (s = "") then Some d else
  match n with
  | O => None
  | S n =>
      '(v, s') ← duration_group s;
      let d := d + v in
      if decide (d > 2 ^ 63) then None else duration_groups n d s'
  end.

Definition ParseDuration (str : string) : result Z :=
  let bad := Err (ErrNew ("time: invalid duration " +:+ str)) in
  let '(neg, s) := match str with
                   | String "-"%char s => (true, s)
                   | String "+"%char s => (false, s)
                   | _ => (false, str)
                   end in
  if decide (s = "0") then Ok 0
  else if decide (s = "") then bad
  else match duration_groups (len s) 0 s with
       | None => bad
       | Some d => if neg then Ok (- d)
                   else if decide (d > 2 ^ 63 - 1) then bad else Ok d
       end.

Example ParseDuration_90m : ParseDuration "1h30m" = Ok (90 * Minute).
Proof. vm_compute. reflexivity. Qed.
Example ParseDuration_frac : ParseDuration "1.5s" = Ok 1500000000.
Proof. vm_compute. reflexivity. Qed.
Example ParseDuration_bad : is_ok (ParseDuration "10") = false.
Proof. vm_compute. reflexivity. Qed.
Example ParseDuration_overflow : is_ok (ParseDuration "2562048h") = false.
Proof. vm_compute. reflexivity. Qed.
Example ParseDuration_neg : ParseDuration "-1.5h" = Ok (- (90 * Minute)).
Proof. vm_compute. reflexivity. Qed.
Example time_Format_epoch : time_Format 0 0 = "1970-01-01 00:00:00".
Proof. vm_compute. reflexivity. Qed.
Example time_Format_2024 : time_Format 0 (1709251199 * Second) = "2024-02-29 23:59:59".
Proof. vm_compute. reflexivity. Qed.
Example time_Parse_2024 : time_Parse "2024-02-29 23:59:59.5" = Ok (1709251199 * Second + 500000000).
Proof. vm_compute. reflexivity. Qed.
Example time_Parse_range : is_ok (time_Parse "2023-02-29 00:00:00") = false.
Proof. vm_compute. reflexivity. Qed.

(** ** Formatting and parsing are inverse *)

Lemma digit_val_char d : 0 ≤ d < 10 → digit_val (digit_char d) = Some d.
Proof.
  intros Hd. unfold digit_val, digit_char. rewrite N_ascii_embedding by lia.
  rewrite Z2N.id by lia. rewrite decide_True by lia. f_equal. lia.
Qed.

Lemma read_digits_app j k acc s :
  read_digits (j + k) acc s = '(a, r) ← read_digits j acc s; read_digits k a r.
Proof.
  revert acc s. induction j as [|j IH]; intros acc s; simpl; [done|].
  destruct s as [|c s]; [done|]. by destruct (digit_val c).
Qed.

Lemma read_digits_pad k n acc s :
  read_digits k acc (pad k n +:+ s) = Some (acc * 10 ^ Z.of_nat k + n mod 10 ^ Z.of_nat k, s).
Proof.
  revert n s. induction k as [|k IH]; intros n s.
  - simpl. rewrite Z.mod_1_r, append_nil_l. do 2 f_equal. lia.
  - replace (S k) with (k + 1)%nat at 1 by lia. rewrite read_digits_app. cbn [pad].
    rewrite append_assoc, append_cons, append_nil_l, IH. cbn.
    rewrite digit_val_char by (apply Z.mod_pos_bound; lia). do 2 f_equal.
    rewrite Nat2Z.inj_succ, Z.pow_succ_r by lia.
    rewrite (Z.rem_mul_r n 10 (10 ^ Z.of_nat k)) by lia. lia.
Qed.

Lemma read_digits_pad_small k n s :
  0 ≤ n < 10 ^ Z.of_nat k → read_digits k 0 (pad k n +:+ s) = Some (n, s).
Proof. intros H. rewrite read_digits_pad, Z.mod_small by done. done. Qed.

(** A 400-year era from March to March: the first day of a year, and the year
    of a day.  The years are checked one by one, and a monotone function that
    is right at the first and the last day of a year is right in between. *)
Definition year_start (y : Z) : Z := 365 * y + y / 4 - y / 100.
Definition days_scaled (doe : Z) : Z := doe - doe / 1460 + doe / 36524 - doe / 146096.

Fixpoint all_from (k : nat) (lo : Z) (f : Z → bool) : bool :=
  match k with O => true | S k => f lo && all_from k (lo + 1) f end.

Lemma all_from_spec k lo f x :
  all_from k lo f = true → lo ≤ x < lo + Z.of_nat k → f x = true.
Proof.
  revert lo. induction k as [|k IH]; intros lo; cbn [all_from]; [lia|].
  rewrite andb_true_iff. intros [Hf Hk] ?. destruct (decide (x = lo)) as [->|]; [done|].
  apply (IH (lo + 1)); [done|lia].
Qed.

Definition year_ok (y : Z) : bool :=
  (days_scaled (year_start y) / 365 =? y)
  && (days_scaled (year_start (y + 1) + (if y =? 399 then 1 else 0) - 1) / 365 =? y)
  && (year_start (y + 1) + (if y =? 399 then 1 else 0) - year_start y
      =? (if is_leap (y + 1) then 366 else 365)).

Lemma years_ok : all_from 400 0 year_ok = true.
Proof. vm_compute. reflexivity. Qed.

Lemma days_scaled_mono x y :
  0 ≤ x ≤ y → y < 146097 → days_scaled x ≤ days_scaled y.
Proof.
  unfold days_scaled. intros ? Hy. assert (y = 146096 ∨ y < 146096) as [->|?] by lia;
    [change (146096 / 1460) with 100; change (146096 / 36524) with 4;
     change (146096 / 146096) with 1|rewrite !(Z.div_small _ 146096) by lia];
    Z.div_mod_to_equations; lia.
Qed.

(** The year of a day, with the length of that year. *)
Lemma year_of_day doe :
  0 ≤ doe < 146097 →
  let y := days_scaled doe / 365 in
  0 ≤ y < 400 ∧ 0 ≤ doe - year_start y < (if is_leap (y + 1) then 366 else 365).
Proof.
  intros Hdoe y.
  assert (0 ≤ y < 400) as Hy.
  { pose proof (days_scaled_mono 0 doe). pose proof (days_scaled_mono doe 146096).
    change (days_scaled 0) with 0 in *. change (days_scaled 146096) with 145999 in *.
    subst y. split; [apply Z.div_pos|apply Z.div_lt_upper_bound]; lia. }
  assert (∀ z, 0 ≤ z < 400 → year_ok z = true) as Hok.
  { intros z Hz. apply (all_from_spec 400 0); [apply years_ok|lia]. }
  split; [done|]. pose proof (Hok y Hy) as Hyk. unfold year_ok in Hyk.
  rewrite !andb_true_iff, !Z.eqb_eq in Hyk. destruct Hyk as [[Hs He] Hl].
  set (last := year_start (y + 1) + (if y =? 399 then 1 else 0) - 1) in He.
  assert (0 ≤ year_start y ≤ 146096 ∧ 0 ≤ last ≤ 146096) as [? ?].
  { subst last. unfold year_start. destruct (Z.eqb_spec y 399) as [->|];
      [split; vm_compute; split; discriminate|]. Z.div_mod_to_equations; lia. }
  split.
  - destruct (decide (doe < year_start y)) as [Hlt|]; [|lia]. exfalso.
    assert (0 < y) as Hpos.
    { destruct (decide (y = 0)) as [E|]; [|lia]. rewrite E in Hlt.
      change (year_start 0) with 0 in Hlt. lia. }
    pose proof (Hok (y - 1) ltac:(lia)) as Hp. unfold year_ok in Hp.
    rewrite !andb_true_iff, !Z.eqb_eq in Hp. destruct Hp as [[_ Hp] _].
    replace (y - 1 + 1) with y in Hp by lia.
    rewrite (proj2 (Z.eqb_neq (y - 1) 399)) in Hp by lia.
    pose proof (days_scaled_mono doe (year_start y + 0 - 1) ltac:(lia) ltac:(lia)).
    assert (y ≤ y - 1); [|lia]. rewrite <-Hp. subst y. apply Z.div_le_mono; lia.
  - destruct (decide (last < doe)) as [Hlt|]; [|subst last; lia]. exfalso.
    destruct (decide (y = 399)) as [E|].
    { subst last. rewrite E in Hlt.
      change (year_start (399 + 1) + (if 399 =? 399 then 1 else 0) - 1) with 146096 in Hlt. lia. }
    pose proof (Hok (y + 1) ltac:(lia)) as Hn. unfold year_ok in Hn.
    rewrite !andb_true_iff, !Z.eqb_eq in Hn. destruct Hn as [[Hn _] _].
    subst last. rewrite (proj2 (Z.eqb_neq y 399)) in * by lia.
    assert (0 ≤ year_start (y + 1)) by lia.
    pose proof (days_scaled_mono (year_start (y + 1)) doe ltac:(lia) ltac:(lia)).
    assert (y + 1 ≤ y); [|lia]. rewrite <-Hn. subst y. apply Z.div_le_mono; lia.
Qed.

(** The day of a year from March, as month and day. *)
Definition month_of_doy (doy : Z) : Z :=
  let mp := (5 * doy + 2) / 153 in if decide (mp < 10) then mp + 3 else mp - 9.
Definition day_of_doy (doy : Z) : Z := doy - (153 * ((5 * doy + 2) / 153) + 2) / 5 + 1.

Definition doy_ok (doy : Z) : bool :=
  let m := month_of_doy doy in let d := day_of_doy doy in
  ((153 * (if decide (2 < m) then m - 3 else m + 9) + 2) / 5 + d - 1 =? doy)
  && (1 <=? m) && (m <=? 12) && (1 <=? d)
  && (d <=? days_in m (if doy =? 365 then 2000 else 2001))
  && (negb (doy =? 365) || (m =? 2)).

Lemma doys_ok : all_from 366 0 doy_ok = true.
Proof. vm_compute. reflexivity. Qed.

Lemma days_in_mono m y : days_in m 2001 ≤ days_in m y.
Proof. unfold days_in. change (is_leap 2001) with false. repeat case_decide; destruct (is_leap y); lia. Qed.

Lemma days_in_leap m y : is_leap y = true → days_in m y = days_in m 2000.
Proof. unfold days_in. intros ->. done. Qed.

Lemma doe_ok_spec doe :
  0 ≤ doe < 146097 →
  ∃ yoe m d, civil_of_doe doe = (yoe, m, d) ∧ doe_of_civil yoe m d = doe ∧ 0 ≤ yoe < 400 ∧
    1 ≤ m ≤ 12 ∧ 1 ≤ d ≤ days_in m (yoe + if decide (m ≤ 2) then 1 else 0).
Proof.
  intros Hdoe. pose proof (year_of_day doe Hdoe) as [Hy Hdoy].
  set (y := days_scaled doe / 365) in *. set (doy := doe - year_start y) in *.
  assert (doy_ok doy = true) as Hok.
  { apply (all_from_spec 366 0); [apply doys_ok|]. destruct (is_leap (y + 1)); lia. }
  unfold doy_ok in Hok. rewrite !andb_true_iff, !Z.leb_le, !Z.eqb_eq in Hok.
  destruct Hok as [[[[[H1 H2] H3] H4] H5] H6].
  exists y, (month_of_doy doy), (day_of_doy doy). split; [done|]. split_and!; try lia.
  - unfold doe_of_civil. subst doy. unfold year_start in *. lia.
  - etrans; [exact H5|]. destruct (Z.eqb_spec doy 365) as [E|].
    + simpl in H6. rewrite Z.eqb_eq in H6. rewrite H6. rewrite decide_True by lia.
      rewrite (days_in_leap 2 (y + 1)); [done|]. destruct (is_leap (y + 1)); [done|lia].
    + apply days_in_mono.
Qed.

Lemma is_leap_era y k : is_leap (y + k * 400) = is_leap y.
Proof.
  unfold is_leap.
  replace (y + k * 400) with (y + k * 100 * 4) by lia. rewrite Z_mod_plus_full.
  replace (y + k * 100 * 4) with (y + k * 4 * 100) by lia. rewrite Z_mod_plus_full.
  replace (y + k * 4 * 100) with (y + k * 400) by lia. by rewrite Z_mod_plus_full.
Qed.

Lemma days_in_era m y k : days_in m (y + k * 400) = days_in m y.
Proof. unfold days_in. by rewrite is_leap_era. Qed.

Lemma days_in_le m y : days_in m y ≤ 31.
Proof. unfold days_in. repeat case_decide; destruct (is_leap y); lia. Qed.

(** The calendar is a bijection of the days, and gives existing dates. *)
Lemma civil_roundtrip z :
  let c := civil_from_days z in
  days_from_civil c = z ∧ 1 ≤ c_month c ≤ 12 ∧ 1 ≤ c_day c ≤ days_in (c_month c) (c_year c).
Proof.
  unfold civil_from_days, days_from_civil.
  destruct (doe_ok_spec ((z + 719468) mod 146097)) as (yoe & m & d & -> & Hd & Hy & Hm & Hday).
  { apply Z.mod_pos_bound. lia. }
  simpl. set (era := (z + 719468) / 146097).
  replace (yoe + era * 400 + (if decide (m ≤ 2) then 1 else 0)
           - (if decide (m ≤ 2) then 1 else 0)) with (yoe + era * 400) by lia.
  rewrite Z.div_add, Z_mod_plus_full by lia. rewrite Z.div_small, Z.mod_small by lia.
  rewrite Hd. split_and!; [|lia..|].
  - pose proof (Z.div_mod (z + 719468) 146097). subst era. lia.
  - replace (yoe + era * 400 + (if decide (m ≤ 2) then 1 else 0))
      with (yoe + (if decide (m ≤ 2) then 1 else 0) + era * 400) by lia.
    rewrite days_in_era. lia.
Qed.

(** The year of an instant, as the program's clocks show it. *)
Definition year_of (off t : Z) : Z := c_year (civil_from_days ((t / Second + off) / 86400)).

Lemma pad_head k n : ∃ d r, 0 ≤ d < 10 ∧ pad (S k) n = String (digit_char d) r.
Proof.
  revert n. induction k as [|k IH]; intros n.
  - exists (n mod 10), "". split; [apply Z.mod_pos_bound; lia|]. done.
  - destruct (IH (n / 10)) as (d & r & Hd & Hp). exists d.
    eexists. split; [done|]. change (pad (S (S k)) n)
      with (pad (S k) (n / 10) +:+ String (digit_char (n mod 10)) "").
    by rewrite Hp, append_cons.
Qed.

Lemma expect_blank_pad k n s :
  expect_blank (" " +:+ pad (S k) n +:+ s) = Some (pad (S k) n +:+ s).
Proof.
  destruct (pad_head k n) as (d & r & Hd & ->).
  assert (digit_char d ≠ " "%char) as Hne.
  { intros Heq. pose proof (digit_val_char d Hd) as Hv. by rewrite Heq in Hv. }
  rewrite !append_cons, append_nil_l. cbn [expect_blank skip_blanks].
  rewrite decide_True by done. rewrite decide_True by done. by rewrite decide_False.
Qed.

Lemma expect_app c s : expect c (String c "" +:+ s) = Some s.
Proof. rewrite append_cons, append_nil_l. simpl. by rewrite decide_True. Qed.

(** The fields of a date and time, written with the layout and read back. *)
Lemma time_Parse_fields y m d h mi se :
  0 ≤ y < 10000 → 1 ≤ m ≤ 12 → 1 ≤ d ≤ days_in m y →
  0 ≤ h < 24 → 0 ≤ mi < 60 → 0 ≤ se < 60 →
  time_Parse_opt (pad 4 y +:+ "-" +:+ pad 2 m +:+ "-" +:+ pad 2 d +:+ " "
    +:+ pad 2 h +:+ ":" +:+ pad 2 mi +:+ ":" +:+ pad 2 se)
  = Some ((days_from_civil (Civil y m d) * 86400 + h * 3600 + mi * 60 + se) * Second).
Proof.
  intros. pose proof (days_in_le m y). unfold time_Parse_opt, read_hour.
  rewrite <-(append_nil_r (pad 2 se)).
  repeat (first
    [ rewrite read_digits_pad_small by (simpl; lia)
    | rewrite expect_blank_pad
    | rewrite expect_app
    | rewrite option_guard_True by lia
    | rewrite option_guard_True by done ]; cbn [mbind option_bind]).
  cbn [read_fraction]. rewrite option_guard_True by done. cbn [mbind option_bind].
  rewrite option_guard_True by lia. cbn [mbind option_bind]. f_equal. lia.
Qed.

(** Reading a formatted instant gives the instant back, cut to the second and
    shifted by the zone, for the years the layout can show. *)
Lemma time_Parse_Format off t :
  0 ≤ year_of off t < 10000 →
  time_Parse (time_Format off t) = Ok ((t / Second + off) * Second).
Proof.
  unfold year_of, time_Parse, time_Format. set (s := t / Second + off). intros Hyear.
  pose proof (civil_roundtrip (s / 86400)) as (Hz & Hm & Hd).
  destruct (civil_from_days (s / 86400)) as [y m d]; cbn [c_year c_month c_day] in Hyear, Hm, Hd |- *.
  pose proof (Z.mod_pos_bound s 86400 ltac:(lia)) as Hr.
  set (r := s mod 86400) in *. pose proof (Z.div_mod s 86400 ltac:(lia)) as Hs. fold r in Hs.
  unfold year_digits. rewrite decide_True by done.
  rewrite time_Parse_fields; try done; try (apply Z.mod_pos_bound; lia).
  - rewrite Hz. do 2 f_equal.
    pose proof (Z.div_mod r 60 ltac:(lia)). pose proof (Z.div_mod (r / 60) 60 ltac:(lia)).
    rewrite Z.div_div in * by lia. change (60 * 60) with 3600 in *. lia.
  - split; [apply Z.div_pos|apply Z.div_lt_upper_bound]; lia.
Qed.
