(* ===== verification/GoNum.v ===== *)
(** * GoNum: numbers in text ([strconv]) and JSON strings ([encoding/json])

    The Go standard library as far as the driver uses it: [strconv.Atoi],
    [strconv.Itoa], [strconv.ParseFloat] with correct rounding to binary64,
    and the writing and reading of a JSON string. *)

From S2P Require Import Prelude GoStrings GoHash GoTime.
From Stdlib Require Import Ascii SpecFloat.

Local Open Scope Z_scope.

(** ** Integers *)

(** [strconv.Itoa] and [fmt.Sprintf("%d")]. *)
Definition Itoa (n : Z) : string := pretty n.

Fixpoint digits_val (acc : Z) (s : string) : option Z :=
  match s with
  | "" => Some acc
  | String c s => match digit_val c with Some d => digits_val (10 * acc + d) s | None => None end
  end.

(** [strconv.Atoi]: an optional sign and at least one digit, within [int]. *)
Definition Atoi (s : string) : result Z :=
  let '(neg, body) :=
    match s with
    | String "-" r => (true, r)
    | String "+" r => (false, r)
    | _ => (false, s)
    end in
  match body with
  | "" => Err (ErrNew "invalid syntax")
  | _ =>
      match digits_val 0 body with
      | None => Err (ErrNew "invalid syntax")
      | Some n =>
          let v := if neg : bool then - n else n in
          if decide (- 2 ^ 63 ≤ v < 2 ^ 63) then Ok v else Err (ErrNew "value out of range")
      end
  end.

(** ** Floating-point numbers *)

Definition lower (c : ascii) : ascii :=
  let n := N_of_ascii c in
  if (65 <=? n)%N && (n <=? 90)%N then ascii_of_N (n + 32) else c.

Definition ToLower (s : string) : string := of_chars (lower <$> chars s).

Definition hex_val (c : ascii) : option Z :=
  match digit_val c with
  | Some d => Some d
  | None =>
      let n := Z.of_N (N_of_ascii (lower c)) in
      if decide (97 ≤ n ≤ 102) then Some (n - 87) else None
  end.

(** The mantissa of [readFloat]: value of the digits, number of digits after
    the point, whether a digit was seen, and the rest. *)
Fixpoint mantissa (base : Z) (val : Z) (frac : option Z) (saw : bool) (s : string)
    : Z * Z * bool * string :=
  match s with
  | "" => (val, default 0 frac, saw, "")
  | String c s' =>
      if decide (c = "_"%char) then mantissa base val frac saw s'
      else if decide (c = "."%char) then
        match frac with
        | Some f => (val, f, saw, s)
        | None => mantissa base val (Some 0) saw s'
        end
      else match (if decide (base = 16) then hex_val c else digit_val c) with
           | Some d => mantissa base (base * val + d) (Z.add 1 <$> frac) true s'
           | None => (val, default 0 frac, saw, s)
           end
  end.

Fixpoint exponent_digits (acc : Z) (s : string) : Z * string :=
  match s with
  | "" => (acc, "")
  | String c s' =>
      if decide (c = "_"%char) then exponent_digits acc s'
      else match digit_val c with
           | Some d => exponent_digits (if acc <? 10000 then 10 * acc + d else acc) s'
           | None => (acc, s)
           end
  end.

(** [underscoreOK]: an underscore stands between two digits. *)
Fixpoint underscore_ok (hex : bool) (prev : ascii) (s : string) : bool :=
  match s with
  | "" => negb (bool_decide (prev = "_"%char))
  | String c s =>
      if (if hex then hex_val c else digit_val c) is Some _ then underscore_ok hex "0" s
      else if decide (c = "_"%char) then
        bool_decide (prev = "0"%char) && underscore_ok hex "_" s
      else negb (bool_decide (prev = "_"%char)) && underscore_ok hex "!" s
  end.

Definition underscoreOK (s : string) : bool :=
  let s := match s with String "-" r | String "+" r => r | _ => s end in
  match s with
  | String "0" (String x r) =>
      if decide (lower x ∈ ["b"; "o"; "x"]%char)
      then underscore_ok (bool_decide (lower x = "x"%char)) "0" r
      else underscore_ok false "^" s
  | _ => underscore_ok false "^" s
  end.

(** [strconv.ParseInt(s, 0, 64)]: the prefix gives the base, underscores may
    separate digits; an error of either kind is [None]. *)
Fixpoint base_digits (base acc : Z) (s : string) : option Z :=
  match s with
  | "" => Some acc
  | String c s =>
      if decide (c = "_"%char) then base_digits base acc s
      else match hex_val c with
           | Some d => if d <? base then base_digits base (base * acc + d) s else None
           | None => None
           end
  end.

Definition base_prefix (s : string) : Z * string :=
  match s with
  | String "0" (String x (String y r)) =>
      if decide (lower x = "b"%char) then (2, String y r)
      else if decide (lower x = "o"%char) then (8, String y r)
      else if decide (lower x = "x"%char) then (16, String y r)
      else (8, String x (String y r))
  | String "0" r => (8, r)
  | _ => (10, s)
  end.

Definition ParseInt0 (s : string) : option Z :=
  let '(neg, body) :=
    match s with
    | String "-" r => (true, r)
    | String "+" r => (false, r)
    | _ => (false, s)
    end in
  match body with
  | "" => None
  | _ =>
      let '(base, digits) := base_prefix body in
      n ← base_digits base 0 digits;
      if Contains digits "_" && negb (underscoreOK body) then None
      else
        let v := if neg : bool then - n else n in
        if decide (- 2 ^ 63 ≤ v < 2 ^ 63) then Some v else None
  end.

(** The binary64 nearest to [m * 10 ^ e], ties to even: the quotient is taken
    with more bits than the format has, and its last bit is sticky. *)
Definition f64_of_decimal (m e : Z) : spec_float :=
  if e <? 0 then
    let d := 10 ^ (- e) in
    let k := Z.max 0 (Z.log2 d - Z.log2 m + 64) in
    let q := (m * 2 ^ k) / d in
    let sticky := if ((m * 2 ^ k) mod d =? 0) then 0 else 1 in
    binary_normalize 53 1024 (2 * q + sticky) (- k - 1) false
  else binary_normalize 53 1024 (m * 10 ^ e) 0 false.

Definition f64_is_inf (x : spec_float) : bool :=
  match x with S754_infinity _ => true | _ => false end.

(** [ParseFloat(s, 64)] for a finite number; an overflow is an error. *)
Definition parse_finite (s : string) : option spec_float :=
  let '(neg, body) :=
    match s with
    | String "-" r => (true, r)
    | String "+" r => (false, r)
    | _ => (false, s)
    end in
  let '(base, body') :=
    match body with
    | String "0" (String x (String y r)) =>
        if decide (lower x = "x"%char) then (16, String y r) else (10, body)
    | _ => (10, body)
    end in
  let '(m, f, saw, rest) := mantissa base 0 None false body' in
  let exp_char := if decide (base = 16) then "p"%char else "e"%char in
  let parsed :=
    match rest with
    | "" => if decide (base = 16) then None else Some (0, "")
    | String c r =>
        if decide (lower c = exp_char) then
          let '(eneg, r) :=
            match r with
            | String "-" r => (true, r)
            | String "+" r => (false, r)
            | _ => (false, r)
            end in
          match r with
          | String d _ =>
              match digit_val d with
              | Some _ =>
                  let '(e, r) := exponent_digits 0 r in Some (if eneg : bool then - e else e, r)
              | None => None
              end
          | "" => None
          end
        else if decide (base = 16) then None else Some (0, rest)
    end in
  match parsed with
  | Some (e, "") =>
      if saw && (negb (Contains s "_") || underscoreOK s) then
        let x := if decide (base = 16)
                 then binary_normalize 53 1024 m (e - 4 * f) false
                 else f64_of_decimal m (e - f) in
        if f64_is_inf x then None else Some (if neg : bool then SFopp x else x)
      else None
  | _ => None
  end.

Definition ParseFloat (s : string) : result spec_float :=
  let t := ToLower s in
  if decide (t ∈ ["inf"; "infinity"; "+inf"; "+infinity"]) then Ok (S754_infinity false)
  else if decide (t ∈ ["-inf"; "-infinity"]) then Ok (S754_infinity true)
  else if decide (t = "nan") then Ok S754_nan
  else match parse_finite s with
       | Some x => Ok x
       | None => Err (ErrNew "invalid syntax")
       end.

(** The conversion of a float64 to uint64; where the language leaves the result
    open (NaN, out of range) this is what amd64 gives. *)
Definition uint64_of_f64 (x : spec_float) : Z :=
  let minint := 2 ^ 63 in
  match x with
  | S754_zero _ => 0
  | S754_nan | S754_infinity _ => minint
  | S754_finite neg m e =>
      let a := if e <? 0 then Z.shiftr (Zpos m) (- e) else Z.shiftl (Zpos m) e in
      if neg then (if a <=? 2 ^ 63 then u64 (- a) else minint)
      else (if a <? 2 ^ 64 then a else minint)
  end.

Example ParseFloat_half : ParseFloat "0.5" = Ok (S754_finite false 4503599627370496 (-53)).
Proof. vm_compute. reflexivity. Qed.
Example ParseFloat_tenth : ParseFloat "0.1" = Ok (S754_finite false 7205759403792794 (-56)).
Proof. vm_compute. reflexivity. Qed.
Example ParseFloat_hex : ParseFloat "0x1p-1" = ParseFloat "5_0e-2".
Proof. vm_compute. reflexivity. Qed.
Example ParseFloat_bad : is_ok (ParseFloat "1.2.3") = false ∧ is_ok (ParseFloat "1e999") = false.
Proof. vm_compute. auto. Qed.

(** ** JSON strings *)

Definition bval (c : ascii) : Z := byte_val c.
Definition cont (c : ascii) : bool := (128 <=? bval c) && (bval c <=? 191).

(** The bytes of the valid UTF-8 sequence the string starts with, and the rest. *)
Definition utf8_head (s : string) : option (list ascii * string) :=
  match s with
  | "" => None
  | String a r =>
      let x := bval a in
      if x <? 128 then Some ([a], r)
      else match r with
      | "" => None
      | String b r2 =>
          if (194 <=? x) && (x <=? 223) && cont b then Some ([a; b], r2)
          else match r2 with
          | "" => None
          | String c r3 =>
              let lo := if x =? 224 then 160 else 128 in
              let hi := if x =? 237 then 159 else 191 in
              if (224 <=? x) && (x <=? 239) && (lo <=? bval b) && (bval b <=? hi) && cont c
              then Some ([a; b; c], r3)
              else match r3 with
              | "" => None
              | String d r4 =>
                  let lo := if x =? 240 then 144 else 128 in
                  let hi := if x =? 244 then 143 else 191 in
                  if (240 <=? x) && (x <=? 244) && (lo <=? bval b) && (bval b <=? hi)
                     && cont c && cont d
                  then Some ([a; b; c; d], r4) else None
              end
          end
      end
  end.

Definition hex4 (n : Z) : string :=
  of_chars [hex_digit (Z.land (Z.shiftr n 12) 15); hex_digit (Z.land (Z.shiftr n 8) 15);
            hex_digit (Z.land (Z.shiftr n 4) 15); hex_digit (Z.land n 15)].

Definition bytes3 (x y z : nat) : string := of_chars [byte x; byte y; byte z].

Definition dquote : ascii := byte 34.

(** The format ["%q"].  What is not ASCII stays as it is: the format only occurs
    in the texts of errors, which the code does not read. *)
Definition quote_ascii (c : ascii) : string :=
  let n := bval c in
  if decide (c = dquote) then "\" +:+ String dquote ""
  else if decide (c = "\"%char) then "\\"
  else if n =? 7 then "\a" else if n =? 8 then "\b" else if n =? 9 then "\t"
  else if n =? 10 then "\n" else if n =? 11 then "\v" else if n =? 12 then "\f"
  else if n =? 13 then "\r"
  else if (n <? 32) || (n =? 127)
  then "\x" +:+ of_chars [hex_digit (Z.shiftr n 4); hex_digit (Z.land n 15)]
  else String c "".
Definition quote (s : string) : string :=
  String dquote (String.concat "" (quote_ascii <$> chars s)) +:+ String dquote "".

(** One ASCII byte of [json.Marshal]'s output, HTML escaping on. *)
Definition json_ascii (c : ascii) : string :=
  let n := bval c in
  if decide (c = dquote) then "\" +:+ String dquote ""
  else if decide (c = "\"%char) then "\\"
  else if n =? 8 then "\b"
  else if n =? 12 then "\f"
  else if n =? 10 then "\n"
  else if n =? 13 then "\r"
  else if n =? 9 then "\t"
  else if (n <? 32) || bool_decide (c ∈ ["<"; ">"; "&"]%char) then "\u" +:+ hex4 n
  else String c "".

(** The body of the JSON string [json.Marshal] writes for a Go string. *)
Fixpoint json_body (n : nat) (s : string) : string :=
  match n, s with
  | O, _ | _, "" => ""
  | S n, String c r =>
      if bval c <? 128 then json_ascii c +:+ json_body n r
      else match utf8_head s with
           | None => "\ufffd" +:+ json_body n r
           | Some (l, r) =>
               (if decide (of_chars l = bytes3 226 128 168) then "\u2028"
                else if decide (of_chars l = bytes3 226 128 169) then "\u2029"
                else of_chars l) +:+ json_body n r
           end
  end.
Definition json_encode (s : string) : string := json_body (len s) s.

(** A code point as UTF-8; a surrogate becomes U+FFFD. *)
Definition chr (n : Z) : ascii := ascii_of_N (Z.to_N n).
Definition utf8_encode (r : Z) : string :=
  let r := if (55296 <=? r) && (r <=? 57343) then 65533 else r in
  of_chars
    (if r <? 128 then [chr r]
     else if r <? 2048 then [chr (192 + r / 64); chr (128 + r mod 64)]
     else if r <? 65536 then
       [chr (224 + r / 4096); chr (128 + (r / 64) mod 64); chr (128 + r mod 64)]
     else [chr (240 + r / 262144); chr (128 + (r / 4096) mod 64);
           chr (128 + (r / 64) mod 64); chr (128 + r mod 64)]).

Definition read_hex4 (s : string) : option (Z * string) :=
  match s with
  | String a (String b (String c (String d r))) =>
      match hex_val a, hex_val b, hex_val c, hex_val d with
      | Some a, Some b, Some c, Some d => Some (4096 * a + 256 * b + 16 * c + d, r)
      | _, _, _, _ => None
      end
  | _ => None
  end.

Definition simple_escape (c : ascii) : option Z :=
  match c with
  | "b" => Some 8 | "f" => Some 12 | "n" => Some 10 | "r" => Some 13 | "t" => Some 9
  | "\" => Some 92 | "/" => Some 47
  | _ => if decide (c = dquote) then Some 34 else None
  end%char.

(** [json.Unmarshal] of the string body [s] into a Go string; [None] when the
    text is not the body of one JSON string. *)
Fixpoint json_unbody (n : nat) (s : string) : option string :=
  match n, s with
  | _, "" => Some ""
  | O, _ => None
  | S n, String c r =>
      if decide (c = "\"%char) then
        match r with
        | String "u" r1 =>
            match read_hex4 r1 with
            | None => None
            | Some (x, r2) =>
                match (if (55296 <=? x) && (x <=? 56319) then
                         match r2 with
                         | String "\" (String "u" r3) =>
                             match read_hex4 r3 with
                             | Some (y, r4) =>
                                 if (56320 <=? y) && (y <=? 57343)
                                 then Some (65536 + (x - 55296) * 1024 + (y - 56320), r4)
                                 else None
                             | None => None
                             end
                         | _ => None
                         end
                       else None) with
                | Some (z, r4) => (String.append) (utf8_encode z) <$> json_unbody n r4
                | None => (String.append) (utf8_encode x) <$> json_unbody n r2
                end
            end
        | String e r1 =>
            match simple_escape e with
            | Some x => String (chr x) <$> json_unbody n r1
            | None => None
            end
        | "" => None
        end
      else if decide (c = dquote) then None
      else if bval c <? 32 then None
      else match utf8_head s with
           | Some (l, r') => (String.append) (of_chars l) <$> json_unbody n r'
           | None => (String.append) (utf8_encode 65533) <$> json_unbody n r
           end
  end.
Definition json_decode (s : string) : option string := json_unbody (len s) s.

(** Bytes that a JSON string carries as they are. *)
Definition json_plain (c : ascii) : bool :=
  (32 <=? bval c) && (bval c <? 128)
  && negb (bool_decide (c ∈ [dquote; "\"; "<"; ">"; "&"]%char)).

Lemma json_ascii_plain c : json_plain c = true → json_ascii c = String c "" ∧ bval c < 128.
Proof.
  unfold json_plain, json_ascii. rewrite !andb_true_iff, negb_true_iff, bool_decide_eq_false.
  intros [[H1%Z.leb_le H2%Z.ltb_lt] H3]. split; [|done].
  rewrite !decide_False by set_solver.
  repeat (rewrite (proj2 (Z.eqb_neq _ _)) by lia).
  rewrite (proj2 (Z.ltb_ge _ _)) by lia. rewrite bool_decide_eq_false_2 by set_solver. done.
Qed.

Lemma json_encode_plain s :
  Forall (λ c, json_plain c = true) (chars s) → json_encode s = s.
Proof.
  unfold json_encode. induction s as [|c s IH]; [done|]. simpl.
  intros [Hc Hs]%Forall_cons. apply json_ascii_plain in Hc as [Hc Hlt].
  rewrite (proj2 (Z.ltb_lt _ _) Hlt), Hc, append_cons, append_nil_l. f_equal. by apply IH.
Qed.

Lemma json_decode_plain s :
  Forall (λ c, json_plain c = true) (chars s) → json_decode s = Some s.
Proof.
  unfold json_decode. induction s as [|c s IH]; [done|]. intros [Hc Hs]%Forall_cons.
  unfold json_plain in Hc.
  rewrite !andb_true_iff, negb_true_iff, bool_decide_eq_false in Hc.
  destruct Hc as [[H1%Z.leb_le H2%Z.ltb_lt] H3]. cbn [json_unbody len String.length].
  rewrite !decide_False by set_solver. rewrite (proj2 (Z.ltb_ge _ _)) by lia.
  unfold utf8_head. rewrite (proj2 (Z.ltb_lt _ _)) by done.
  unfold len in IH. rewrite (IH Hs). simpl. by rewrite append_cons, append_nil_l.
Qed.

Example json_escapes :
  json_decode (json_encode (of_chars [dquote; byte 9; "<"; "a"]%char)) =
  Some (of_chars [dquote; byte 9; "<"; "a"]%char).
Proof. vm_compute. reflexivity. Qed.
