(* ===== verification/GoUrl.v ===== *)
(** * GoUrl: [url.Parse] of the Go standard library

    What [src/pkg/util/util.go] uses of [net/url]: the scheme, the host and the
    path of a URL, with every check that makes the parse fail.  User, query and
    fragment are checked and forgotten. *)

From S2P Require Import Prelude GoStrings GoNum.
From Stdlib Require Import Ascii.

Record URL := MkURL { u_Scheme : string; u_Host : string; u_Path : string }.

(** The parts of a URL with rules of their own for escapes. *)
Inductive encoding := encodePath | encodeHost | encodeZone | encodeUserPassword | encodeFragment.
#[export] Instance encoding_eq_dec : EqDecision encoding.
Proof. solve_decision. Defined.

Definition is_letter (c : ascii) : bool :=
  let n := bval (lower c) in (97 <=? n)%Z && (n <=? 122)%Z.
Definition is_digit (c : ascii) : bool :=
  let n := bval c in (48 <=? n)%Z && (n <=? 57)%Z.

(** [shouldEscape] in a host or a zone. *)
Definition host_escape (c : ascii) : bool :=
  negb (is_letter c || is_digit c
        || bool_decide (c ∈ chars "!$&'()*+,;=:[]<>") || bool_decide (c = dquote)
        || bool_decide (c ∈ chars "-_.~")).

Definition escape_error (s : string) : error := ErrNew ("invalid URL escape " +:+ quote s).

(** [unescape]: an escape needs two hexadecimal digits; a host has escapes only of
    bytes that are not ASCII, and of the percent sign. *)
Fixpoint unescape (mode : encoding) (s : string) : result string :=
  match s with
  | "" => Ok ""
  | String c t =>
      if decide (c = "%"%char) then
        match t with
        | String a (String b r) =>
            match hex_val a, hex_val b with
            | Some x, Some y =>
                let three := String c (String a (String b "")) in
                let v := (16 * x + y)%Z in
                if bool_decide (mode = encodeHost) && (x <? 8)%Z && negb (bool_decide (three = "%25"))
                then Err (escape_error three)
                else if bool_decide (mode = encodeZone) && negb (bool_decide (three = "%25"))
                        && negb (v =? 32)%Z && host_escape (chr v)
                then Err (escape_error three)
                else tri r := unescape mode r in Ok (String (chr v) r)
            | _, _ => Err (escape_error (take_s 3 s))
            end
        | _ => Err (escape_error (take_s 3 s))
        end
      else if (bool_decide (mode = encodeHost) || bool_decide (mode = encodeZone))
              && (bval c <? 128)%Z && host_escape c
      then Err (ErrNew ("invalid character " +:+ quote (String c "") +:+ " in host name"))
      else tri r := unescape mode t in Ok (String c r)
  end.

(** [getScheme]: the scheme and the rest. *)
Fixpoint get_scheme (i : nat) (raw s : string) : result (string * string) :=
  match s with
  | "" => Ok ("", raw)
  | String c t =>
      if is_letter c then get_scheme (S i) raw t
      else if is_digit c || bool_decide (c ∈ chars "+-.") then
        if decide (i = 0) then Ok ("", raw) else get_scheme (S i) raw t
      else if decide (c = ":"%char) then
        if decide (i = 0) then Err (ErrNew "missing protocol scheme") else Ok (take_s i raw, t)
      else Ok ("", raw)
  end.
Definition getScheme (raw : string) : result (string * string) := get_scheme 0 raw raw.

(** [validOptionalPort]: empty, or a colon and digits. *)
Definition validOptionalPort (port : string) : bool :=
  match port with
  | "" => true
  | String c t => bool_decide (c = ":"%char) && forallb is_digit (chars t)
  end.

Definition bad_port (colonPort : string) : error :=
  ErrNew ("invalid port " +:+ quote colonPort +:+ " after host").

Definition parseHost (host : string) : result string :=
  if HasPrefix host "[" then
    match LastIndex host "]"%char with
    | None => Err (ErrNew "missing ']' in host")
    | Some i =>
        let colonPort := drop_s (S i) host in
        if negb (validOptionalPort colonPort) then Err (bad_port colonPort)
        else match Index (take_s i host) "%25" with
             | Some zone =>
                 tri host1 := unescape encodeHost (take_s zone host) in
                 tri host2 := unescape encodeZone (drop_s zone (take_s i host)) in
                 tri host3 := unescape encodeHost (drop_s i host) in
                 Ok (host1 +:+ host2 +:+ host3)
             | None => unescape encodeHost host
             end
    end
  else
    match LastIndex host ":"%char with
    | Some i =>
        if negb (validOptionalPort (drop_s i host)) then Err (bad_port (drop_s i host))
        else unescape encodeHost host
    | None => unescape encodeHost host
    end.

Definition validUserinfo (s : string) : bool :=
  forallb (λ c, is_letter c || is_digit c || bool_decide (c ∈ chars "-._:~!$&'()*+,;=%@")) (chars s).

(** [parseAuthority]: the host; the user is only checked. *)
Definition parseAuthority (authority : string) : result string :=
  match CutLast authority "@"%char with
  | None => parseHost authority
  | Some (userinfo, host) =>
      tri host := parseHost host in
      if negb (validUserinfo userinfo) then Err (ErrNew "net/url: invalid userinfo")
      else match Cut userinfo ":" with
           | None => tri _ := unescape encodeUserPassword userinfo in Ok host
           | Some (username, password) =>
               tri _ := unescape encodeUserPassword username in
               tri _ := unescape encodeUserPassword password in Ok host
           end
  end.

Definition is_ctl (c : ascii) : bool := (bval c <? 32)%Z || (bval c =? 127)%Z.

(** The text before the first [sep], and after it. *)
Definition cut (s sep : string) : string * string := default (s, "") (Cut s sep).

(** The host and the path of what follows the scheme and precedes the query. *)
Definition parse_rest (scheme rest : string) : result URL :=
  if HasPrefix rest "//" && (bool_decide (scheme ≠ "") || negb (HasPrefix rest "///")) then
    let authority := drop_s 2 rest in
    let '(authority, path) :=
      match Cut authority "/" with
      | Some (a, p) => (a, String "/" p)
      | None => (authority, "")
      end in
    tri host := parseAuthority authority in
    tri path := unescape encodePath path in
    Ok (MkURL scheme host path)
  else tri path := unescape encodePath rest in Ok (MkURL scheme "" path).

(** [parse], for a URL that is not part of a request. *)
Definition parse_url (raw : string) : result URL :=
  if existsb is_ctl (chars raw) then
    Err (ErrNew "net/url: invalid control character in URL")
  else if decide (raw = "*") then Ok (MkURL "" "" "*")
  else
    tri r := getScheme raw in
    let '(scheme, rest) := r in
    let scheme := ToLower scheme in
    let rest := (cut rest "?").1 in
    if negb (HasPrefix rest "/") then
      if decide (scheme ≠ "") then Ok (MkURL scheme "" "")
      else if Contains (cut rest "/").1 ":" then
        Err (ErrNew "first path segment in URL cannot contain colon")
      else parse_rest scheme rest
    else parse_rest scheme rest.

(** [url.Parse]. *)
Definition url_Parse (rawURL : string) : result URL :=
  let '(u, frag) := cut rawURL "#" in
  let failed (what : string) (e : error) := ErrNew ("parse " +:+ quote what +:+ ": " +:+ error_text e) in
  match parse_url u with
  | Err e => Err (failed u e)
  | Ok url =>
      match unescape encodeFragment frag with
      | Err e => Err (failed rawURL e)
      | Ok _ => Ok url
      end
  end.

Example url_Parse_unix :
  url_Parse "unix://tmp/csi.sock" = Ok (MkURL "unix" "tmp" "/csi.sock").
Proof. reflexivity. Qed.
Example url_Parse_tcp :
  url_Parse "TCP://user:pa%20ss@[fe80::1%25en0]:8080/a%2Fb?q#f" =
  Ok (MkURL "tcp" "[fe80::1%en0]:8080" "/a/b").
Proof. reflexivity. Qed.
Example url_Parse_bad : is_ok (url_Parse "tcp://a:b/c") = false ∧ is_ok (url_Parse "1:2") = false.
Proof. split; reflexivity. Qed.
Example url_Parse_opaque : url_Parse "unix:tmp" = Ok (MkURL "unix" "" "").
Proof. reflexivity. Qed.
