(* ===== verification/Objects.v ===== *)
(** * Objects: the Kubernetes objects the driver reads and writes

    The types of [k8s.io/api] as far as the driver uses them.  A field the
    driver only copies from one object to another (probes, affinity,
    tolerations, DNS settings, ...) is an opaque token, a [string]: the
    driver compares such a field with nil at most, never looks inside it.
    [Annotations] is an [option] map because the code tests it for nil. *)

From S2P Require Import Prelude.

(** An environment variable of a container ([corev1.EnvVar]). *)
Record EnvVar := MkEnvVar {
  env_Name : string;
  env_Value : string
}.
#[export] Instance EnvVar_eq_dec : EqDecision EnvVar.
Proof. solve_decision. Defined.

(** [corev1.VolumeMount]. *)
Record VolumeMount := MkVolumeMount {
  vm_Name : string;
  vm_MountPath : string;
  vm_ReadOnly : bool;
  vm_Propagation : option string
}.
#[export] Instance VolumeMount_eq_dec : EqDecision VolumeMount.
Proof. solve_decision. Defined.

(** [corev1.VolumeDevice]. *)
Record VolumeDevice := MkVolumeDevice {
  vd_Name : string;
  vd_DevicePath : string
}.
#[export] Instance VolumeDevice_eq_dec : EqDecision VolumeDevice.
Proof. solve_decision. Defined.

(** [corev1.ResourceRequirements]: quantities by resource name, in billionths. *)
Record ResourceRequirements := MkResourceRequirements {
  res_Requests : gmap string Z;
  res_Limits : gmap string Z
}.
#[export] Instance ResourceRequirements_eq_dec : EqDecision ResourceRequirements.
Proof. solve_decision. Defined.

(** [corev1.SecurityContext], the two fields the builders set. *)
Record SecurityContext := MkSecurityContext {
  sc_Privileged : bool;
  sc_RunAsUser : option Z
}.
#[export] Instance SecurityContext_eq_dec : EqDecision SecurityContext.
Proof. solve_decision. Defined.

(** [corev1.Lifecycle]: the exec command of the preStop hook, and whatever
    else a configuration carries. *)
Record Lifecycle := MkLifecycle {
  lc_PreStop : option (list string);
  lc_Other : string
}.
#[export] Instance Lifecycle_eq_dec : EqDecision Lifecycle.
Proof. solve_decision. Defined.

(** [corev1.VolumeSource]: a union, of which the API server accepts exactly one
    member. *)
Inductive VolumeSource :=
  | HostPath (path : string) (typ : option string)
  | SecretSource (name : string) (items : list (string * string))
  | ConfigMapSource (name : string) (mode : option Z)
  | PVCSource (claim : string) (readonly : bool)
  | EmptyDirSource (medium : string) (size : Z)
  | CSISourceInline (token : string)
  | OtherSource (token : string).
#[export] Instance VolumeSource_eq_dec : EqDecision VolumeSource.
Proof. solve_decision. Defined.

(** [corev1.Volume]. *)
Record Volume := MkVolume {
  vol_Name : string;
  vol_Source : VolumeSource
}.
#[export] Instance Volume_eq_dec : EqDecision Volume.
Proof. solve_decision. Defined.

(** [corev1.Container]; [cn_EnvFrom] lists the secrets of its [SecretRef] sources. *)
Record Container := MkContainer {
  cn_Name : string;
  cn_Image : string;
  cn_ImagePullPolicy : string;
  cn_Command : list string;
  cn_Env : list EnvVar;
  cn_EnvFrom : list string;
  cn_VolumeMounts : list VolumeMount;
  cn_VolumeDevices : list VolumeDevice;
  cn_Resources : ResourceRequirements;
  cn_SecurityContext : option SecurityContext;
  cn_Lifecycle : option Lifecycle;
  cn_StartupProbe : option string;
  cn_LivenessProbe : option string;
  cn_ReadinessProbe : option string
}.
#[export] Instance Container_eq_dec : EqDecision Container.
Proof. solve_decision. Defined.

Definition set_cn_Image (v : string) (r : Container) : Container :=
  MkContainer (cn_Name r) v (cn_ImagePullPolicy r) (cn_Command r) (cn_Env r) (cn_EnvFrom r)
    (cn_VolumeMounts r) (cn_VolumeDevices r) (cn_Resources r) (cn_SecurityContext r)
    (cn_Lifecycle r) (cn_StartupProbe r) (cn_LivenessProbe r) (cn_ReadinessProbe r).
Definition set_cn_Command (v : list string) (r : Container) : Container :=
  MkContainer (cn_Name r) (cn_Image r) (cn_ImagePullPolicy r) v (cn_Env r) (cn_EnvFrom r)
    (cn_VolumeMounts r) (cn_VolumeDevices r) (cn_Resources r) (cn_SecurityContext r)
    (cn_Lifecycle r) (cn_StartupProbe r) (cn_LivenessProbe r) (cn_ReadinessProbe r).
Definition set_cn_Env (v : list EnvVar) (r : Container) : Container :=
  MkContainer (cn_Name r) (cn_Image r) (cn_ImagePullPolicy r) (cn_Command r) v (cn_EnvFrom r)
    (cn_VolumeMounts r) (cn_VolumeDevices r) (cn_Resources r) (cn_SecurityContext r)
    (cn_Lifecycle r) (cn_StartupProbe r) (cn_LivenessProbe r) (cn_ReadinessProbe r).
Definition set_cn_EnvFrom (v : list string) (r : Container) : Container :=
  MkContainer (cn_Name r) (cn_Image r) (cn_ImagePullPolicy r) (cn_Command r) (cn_Env r) v
    (cn_VolumeMounts r) (cn_VolumeDevices r) (cn_Resources r) (cn_SecurityContext r)
    (cn_Lifecycle r) (cn_StartupProbe r) (cn_LivenessProbe r) (cn_ReadinessProbe r).
Definition set_cn_VolumeMounts (v : list VolumeMount) (r : Container) : Container :=
  MkContainer (cn_Name r) (cn_Image r) (cn_ImagePullPolicy r) (cn_Command r) (cn_Env r) (cn_EnvFrom r)
    v (cn_VolumeDevices r) (cn_Resources r) (cn_SecurityContext r) (cn_Lifecycle r)
    (cn_StartupProbe r) (cn_LivenessProbe r) (cn_ReadinessProbe r).
Definition set_cn_VolumeDevices (v : list VolumeDevice) (r : Container) : Container :=
  MkContainer (cn_Name r) (cn_Image r) (cn_ImagePullPolicy r) (cn_Command r) (cn_Env r) (cn_EnvFrom r)
    (cn_VolumeMounts r) v (cn_Resources r) (cn_SecurityContext r) (cn_Lifecycle r)
    (cn_StartupProbe r) (cn_LivenessProbe r) (cn_ReadinessProbe r).
Definition set_cn_Resources (v : ResourceRequirements) (r : Container) : Container :=
  MkContainer (cn_Name r) (cn_Image r) (cn_ImagePullPolicy r) (cn_Command r) (cn_Env r) (cn_EnvFrom r)
    (cn_VolumeMounts r) (cn_VolumeDevices r) v (cn_SecurityContext r) (cn_Lifecycle r)
    (cn_StartupProbe r) (cn_LivenessProbe r) (cn_ReadinessProbe r).
Definition set_cn_Lifecycle (v : option Lifecycle) (r : Container) : Container :=
  MkContainer (cn_Name r) (cn_Image r) (cn_ImagePullPolicy r) (cn_Command r) (cn_Env r) (cn_EnvFrom r)
    (cn_VolumeMounts r) (cn_VolumeDevices r) (cn_Resources r) (cn_SecurityContext r) v
    (cn_StartupProbe r) (cn_LivenessProbe r) (cn_ReadinessProbe r).
Definition set_cn_StartupProbe (v : option string) (r : Container) : Container :=
  MkContainer (cn_Name r) (cn_Image r) (cn_ImagePullPolicy r) (cn_Command r) (cn_Env r) (cn_EnvFrom r)
    (cn_VolumeMounts r) (cn_VolumeDevices r) (cn_Resources r) (cn_SecurityContext r)
    (cn_Lifecycle r) v (cn_LivenessProbe r) (cn_ReadinessProbe r).
Definition set_cn_LivenessProbe (v : option string) (r : Container) : Container :=
  MkContainer (cn_Name r) (cn_Image r) (cn_ImagePullPolicy r) (cn_Command r) (cn_Env r) (cn_EnvFrom r)
    (cn_VolumeMounts r) (cn_VolumeDevices r) (cn_Resources r) (cn_SecurityContext r)
    (cn_Lifecycle r) (cn_StartupProbe r) v (cn_ReadinessProbe r).
Definition set_cn_ReadinessProbe (v : option string) (r : Container) : Container :=
  MkContainer (cn_Name r) (cn_Image r) (cn_ImagePullPolicy r) (cn_Command r) (cn_Env r) (cn_EnvFrom r)
    (cn_VolumeMounts r) (cn_VolumeDevices r) (cn_Resources r) (cn_SecurityContext r)
    (cn_Lifecycle r) (cn_StartupProbe r) (cn_LivenessProbe r) v.

(** [corev1.PodSpec]. *)
Record PodSpec := MkPodSpec {
  spec_Containers : list Container;
  spec_InitContainers : list Container;
  spec_Volumes : list Volume;
  spec_NodeName : string;
  spec_NodeSelector : smap;
  spec_HostNetwork : bool;
  spec_HostAliases : list string;
  spec_HostPID : bool;
  spec_HostIPC : bool;
  spec_DNSConfig : option string;
  spec_DNSPolicy : string;
  spec_ServiceAccountName : string;
  spec_ImagePullSecrets : list string;
  spec_PreemptionPolicy : option string;
  spec_Tolerations : list string;
  spec_PriorityClassName : string;
  spec_RestartPolicy : string;
  spec_Hostname : string;
  spec_TerminationGracePeriodSeconds : option Z;
  spec_Affinity : option string;
  spec_SchedulerName : string
}.
#[export] Instance PodSpec_eq_dec : EqDecision PodSpec.
Proof. solve_decision. Defined.

Definition set_spec_Containers (v : list Container) (r : PodSpec) : PodSpec :=
  MkPodSpec v (spec_InitContainers r) (spec_Volumes r) (spec_NodeName r) (spec_NodeSelector r)
    (spec_HostNetwork r) (spec_HostAliases r) (spec_HostPID r) (spec_HostIPC r)
    (spec_DNSConfig r) (spec_DNSPolicy r) (spec_ServiceAccountName r) (spec_ImagePullSecrets
    r) (spec_PreemptionPolicy r) (spec_Tolerations r) (spec_PriorityClassName r)
    (spec_RestartPolicy r) (spec_Hostname r) (spec_TerminationGracePeriodSeconds r)
    (spec_Affinity r) (spec_SchedulerName r).
Definition set_spec_Volumes (v : list Volume) (r : PodSpec) : PodSpec :=
  MkPodSpec (spec_Containers r) (spec_InitContainers r) v (spec_NodeName r) (spec_NodeSelector r)
    (spec_HostNetwork r) (spec_HostAliases r) (spec_HostPID r) (spec_HostIPC r)
    (spec_DNSConfig r) (spec_DNSPolicy r) (spec_ServiceAccountName r) (spec_ImagePullSecrets
    r) (spec_PreemptionPolicy r) (spec_Tolerations r) (spec_PriorityClassName r)
    (spec_RestartPolicy r) (spec_Hostname r) (spec_TerminationGracePeriodSeconds r)
    (spec_Affinity r) (spec_SchedulerName r).
Definition set_spec_NodeName (v : string) (r : PodSpec) : PodSpec :=
  MkPodSpec (spec_Containers r) (spec_InitContainers r) (spec_Volumes r) v (spec_NodeSelector r)
    (spec_HostNetwork r) (spec_HostAliases r) (spec_HostPID r) (spec_HostIPC r)
    (spec_DNSConfig r) (spec_DNSPolicy r) (spec_ServiceAccountName r) (spec_ImagePullSecrets
    r) (spec_PreemptionPolicy r) (spec_Tolerations r) (spec_PriorityClassName r)
    (spec_RestartPolicy r) (spec_Hostname r) (spec_TerminationGracePeriodSeconds r)
    (spec_Affinity r) (spec_SchedulerName r).
Definition set_spec_NodeSelector (v : smap) (r : PodSpec) : PodSpec :=
  MkPodSpec (spec_Containers r) (spec_InitContainers r) (spec_Volumes r) (spec_NodeName r) v
    (spec_HostNetwork r) (spec_HostAliases r) (spec_HostPID r) (spec_HostIPC r)
    (spec_DNSConfig r) (spec_DNSPolicy r) (spec_ServiceAccountName r) (spec_ImagePullSecrets
    r) (spec_PreemptionPolicy r) (spec_Tolerations r) (spec_PriorityClassName r)
    (spec_RestartPolicy r) (spec_Hostname r) (spec_TerminationGracePeriodSeconds r)
    (spec_Affinity r) (spec_SchedulerName r).
Definition set_spec_HostNetwork (v : bool) (r : PodSpec) : PodSpec :=
  MkPodSpec (spec_Containers r) (spec_InitContainers r) (spec_Volumes r) (spec_NodeName r)
    (spec_NodeSelector r) v (spec_HostAliases r) (spec_HostPID r) (spec_HostIPC r)
    (spec_DNSConfig r) (spec_DNSPolicy r) (spec_ServiceAccountName r) (spec_ImagePullSecrets
    r) (spec_PreemptionPolicy r) (spec_Tolerations r) (spec_PriorityClassName r)
    (spec_RestartPolicy r) (spec_Hostname r) (spec_TerminationGracePeriodSeconds r)
    (spec_Affinity r) (spec_SchedulerName r).
Definition set_spec_HostAliases (v : list string) (r : PodSpec) : PodSpec :=
  MkPodSpec (spec_Containers r) (spec_InitContainers r) (spec_Volumes r) (spec_NodeName r)
    (spec_NodeSelector r) (spec_HostNetwork r) v (spec_HostPID r) (spec_HostIPC r)
    (spec_DNSConfig r) (spec_DNSPolicy r) (spec_ServiceAccountName r) (spec_ImagePullSecrets
    r) (spec_PreemptionPolicy r) (spec_Tolerations r) (spec_PriorityClassName r)
    (spec_RestartPolicy r) (spec_Hostname r) (spec_TerminationGracePeriodSeconds r)
    (spec_Affinity r) (spec_SchedulerName r).
Definition set_spec_HostPID (v : bool) (r : PodSpec) : PodSpec :=
  MkPodSpec (spec_Containers r) (spec_InitContainers r) (spec_Volumes r) (spec_NodeName r)
    (spec_NodeSelector r) (spec_HostNetwork r) (spec_HostAliases r) v (spec_HostIPC r)
    (spec_DNSConfig r) (spec_DNSPolicy r) (spec_ServiceAccountName r) (spec_ImagePullSecrets
    r) (spec_PreemptionPolicy r) (spec_Tolerations r) (spec_PriorityClassName r)
    (spec_RestartPolicy r) (spec_Hostname r) (spec_TerminationGracePeriodSeconds r)
    (spec_Affinity r) (spec_SchedulerName r).
Definition set_spec_HostIPC (v : bool) (r : PodSpec) : PodSpec :=
  MkPodSpec (spec_Containers r) (spec_InitContainers r) (spec_Volumes r) (spec_NodeName r)
    (spec_NodeSelector r) (spec_HostNetwork r) (spec_HostAliases r) (spec_HostPID r) v
    (spec_DNSConfig r) (spec_DNSPolicy r) (spec_ServiceAccountName r) (spec_ImagePullSecrets
    r) (spec_PreemptionPolicy r) (spec_Tolerations r) (spec_PriorityClassName r)
    (spec_RestartPolicy r) (spec_Hostname r) (spec_TerminationGracePeriodSeconds r)
    (spec_Affinity r) (spec_SchedulerName r).
Definition set_spec_ServiceAccountName (v : string) (r : PodSpec) : PodSpec :=
  MkPodSpec (spec_Containers r) (spec_InitContainers r) (spec_Volumes r) (spec_NodeName r)
    (spec_NodeSelector r) (spec_HostNetwork r) (spec_HostAliases r) (spec_HostPID r)
    (spec_HostIPC r) (spec_DNSConfig r) (spec_DNSPolicy r) v (spec_ImagePullSecrets r)
    (spec_PreemptionPolicy r) (spec_Tolerations r) (spec_PriorityClassName r)
    (spec_RestartPolicy r) (spec_Hostname r) (spec_TerminationGracePeriodSeconds r)
    (spec_Affinity r) (spec_SchedulerName r).
Definition set_spec_Tolerations (v : list string) (r : PodSpec) : PodSpec :=
  MkPodSpec (spec_Containers r) (spec_InitContainers r) (spec_Volumes r) (spec_NodeName r)
    (spec_NodeSelector r) (spec_HostNetwork r) (spec_HostAliases r) (spec_HostPID r)
    (spec_HostIPC r) (spec_DNSConfig r) (spec_DNSPolicy r) (spec_ServiceAccountName r)
    (spec_ImagePullSecrets r) (spec_PreemptionPolicy r) v (spec_PriorityClassName r)
    (spec_RestartPolicy r) (spec_Hostname r) (spec_TerminationGracePeriodSeconds r)
    (spec_Affinity r) (spec_SchedulerName r).
Definition set_spec_PriorityClassName (v : string) (r : PodSpec) : PodSpec :=
  MkPodSpec (spec_Containers r) (spec_InitContainers r) (spec_Volumes r) (spec_NodeName r)
    (spec_NodeSelector r) (spec_HostNetwork r) (spec_HostAliases r) (spec_HostPID r)
    (spec_HostIPC r) (spec_DNSConfig r) (spec_DNSPolicy r) (spec_ServiceAccountName r)
    (spec_ImagePullSecrets r) (spec_PreemptionPolicy r) (spec_Tolerations r) v
    (spec_RestartPolicy r) (spec_Hostname r) (spec_TerminationGracePeriodSeconds r)
    (spec_Affinity r) (spec_SchedulerName r).
Definition set_spec_RestartPolicy (v : string) (r : PodSpec) : PodSpec :=
  MkPodSpec (spec_Containers r) (spec_InitContainers r) (spec_Volumes r) (spec_NodeName r)
    (spec_NodeSelector r) (spec_HostNetwork r) (spec_HostAliases r) (spec_HostPID r)
    (spec_HostIPC r) (spec_DNSConfig r) (spec_DNSPolicy r) (spec_ServiceAccountName r)
    (spec_ImagePullSecrets r) (spec_PreemptionPolicy r) (spec_Tolerations r)
    (spec_PriorityClassName r) v (spec_Hostname r) (spec_TerminationGracePeriodSeconds r)
    (spec_Affinity r) (spec_SchedulerName r).
Definition set_spec_Hostname (v : string) (r : PodSpec) : PodSpec :=
  MkPodSpec (spec_Containers r) (spec_InitContainers r) (spec_Volumes r) (spec_NodeName r)
    (spec_NodeSelector r) (spec_HostNetwork r) (spec_HostAliases r) (spec_HostPID r)
    (spec_HostIPC r) (spec_DNSConfig r) (spec_DNSPolicy r) (spec_ServiceAccountName r)
    (spec_ImagePullSecrets r) (spec_PreemptionPolicy r) (spec_Tolerations r)
    (spec_PriorityClassName r) (spec_RestartPolicy r) v (spec_TerminationGracePeriodSeconds
    r) (spec_Affinity r) (spec_SchedulerName r).
Definition set_spec_TerminationGracePeriodSeconds (v : option Z) (r : PodSpec) : PodSpec :=
  MkPodSpec (spec_Containers r) (spec_InitContainers r) (spec_Volumes r) (spec_NodeName r)
    (spec_NodeSelector r) (spec_HostNetwork r) (spec_HostAliases r) (spec_HostPID r)
    (spec_HostIPC r) (spec_DNSConfig r) (spec_DNSPolicy r) (spec_ServiceAccountName r)
    (spec_ImagePullSecrets r) (spec_PreemptionPolicy r) (spec_Tolerations r)
    (spec_PriorityClassName r) (spec_RestartPolicy r) (spec_Hostname r) v (spec_Affinity r)
    (spec_SchedulerName r).
Definition set_spec_Affinity (v : option string) (r : PodSpec) : PodSpec :=
  MkPodSpec (spec_Containers r) (spec_InitContainers r) (spec_Volumes r) (spec_NodeName r)
    (spec_NodeSelector r) (spec_HostNetwork r) (spec_HostAliases r) (spec_HostPID r)
    (spec_HostIPC r) (spec_DNSConfig r) (spec_DNSPolicy r) (spec_ServiceAccountName r)
    (spec_ImagePullSecrets r) (spec_PreemptionPolicy r) (spec_Tolerations r)
    (spec_PriorityClassName r) (spec_RestartPolicy r) (spec_Hostname r)
    (spec_TerminationGracePeriodSeconds r) v (spec_SchedulerName r).
Definition set_spec_SchedulerName (v : string) (r : PodSpec) : PodSpec :=
  MkPodSpec (spec_Containers r) (spec_InitContainers r) (spec_Volumes r) (spec_NodeName r)
    (spec_NodeSelector r) (spec_HostNetwork r) (spec_HostAliases r) (spec_HostPID r)
    (spec_HostIPC r) (spec_DNSConfig r) (spec_DNSPolicy r) (spec_ServiceAccountName r)
    (spec_ImagePullSecrets r) (spec_PreemptionPolicy r) (spec_Tolerations r)
    (spec_PriorityClassName r) (spec_RestartPolicy r) (spec_Hostname r)
    (spec_TerminationGracePeriodSeconds r) (spec_Affinity r) v.

(** [corev1.PodCondition]. *)
Record PodCondition := MkPodCondition {
  pc_Type : string;
  pc_Status : string;
  pc_Reason : string;
  pc_Message : string
}.
#[export] Instance PodCondition_eq_dec : EqDecision PodCondition.
Proof. solve_decision. Defined.

(** [corev1.ContainerStatus]: [cs_Waiting] is [State.Waiting.Reason],
    [cs_Terminated] is [State.Terminated]'s exit code and reason, with
    [cs_FinishedAt] its time, and [cs_Running] whether [State.Running] is set. *)
Record ContainerStatus := MkContainerStatus {
  cs_Name : string;
  cs_Ready : bool;
  cs_Waiting : option string;
  cs_Terminated : option (Z * string);
  cs_FinishedAt : Z;
  cs_Running : bool
}.
#[export] Instance ContainerStatus_eq_dec : EqDecision ContainerStatus.
Proof. solve_decision. Defined.

(** The states of a mount pod, [podStatus] of the pod driver, and what the
    reconciler remembers of one, its [PodStatus]. *)
Inductive podStatus := podReady | podError | podDeleted | podPending.
#[export] Instance podStatus_eq_dec : EqDecision podStatus.
Proof. solve_decision. Defined.
Record PodSync := MkPodSync { sy_podStatus : podStatus; sy_syncAt : Z; sy_nextSyncAt : Z }.

(** [corev1.PodStatus]. *)
Record PodStatus := MkPodStatus {
  ps_Phase : string;
  ps_Reason : string;
  ps_Message : string;
  ps_Conditions : list PodCondition;
  ps_InitContainerStatuses : list ContainerStatus;
  ps_ContainerStatuses : list ContainerStatus
}.
#[export] Instance PodStatus_eq_dec : EqDecision PodStatus.
Proof. solve_decision. Defined.

(** [metav1.OwnerReference]. *)
Record OwnerReference := MkOwnerReference {
  or_APIVersion : string;
  or_Kind : string;
  or_Name : string;
  or_UID : string;
  or_Controller : bool
}.
#[export] Instance OwnerReference_eq_dec : EqDecision OwnerReference.
Proof. solve_decision. Defined.

(** [corev1.Pod] with its [ObjectMeta] inlined. *)
Record Pod := MkPod {
  pod_Name : string;
  pod_Namespace : string;
  pod_UID : string;
  pod_Labels : smap;
  pod_Annotations : option smap;
  pod_DeletionTimestamp : option Z;
  pod_Finalizers : list string;
  pod_OwnerReferences : list OwnerReference;
  pod_Spec : PodSpec;
  pod_Status : PodStatus
}.
#[export] Instance Pod_eq_dec : EqDecision Pod.
Proof. solve_decision. Defined.

Definition set_pod_Name (v : string) (r : Pod) : Pod :=
  MkPod v (pod_Namespace r) (pod_UID r) (pod_Labels r) (pod_Annotations r)
    (pod_DeletionTimestamp r) (pod_Finalizers r) (pod_OwnerReferences r) (pod_Spec r)
    (pod_Status r).
Definition set_pod_Labels (v : smap) (r : Pod) : Pod :=
  MkPod (pod_Name r) (pod_Namespace r) (pod_UID r) v (pod_Annotations r) (pod_DeletionTimestamp
    r) (pod_Finalizers r) (pod_OwnerReferences r) (pod_Spec r) (pod_Status r).
Definition set_pod_Annotations (v : option smap) (r : Pod) : Pod :=
  MkPod (pod_Name r) (pod_Namespace r) (pod_UID r) (pod_Labels r) v (pod_DeletionTimestamp r)
    (pod_Finalizers r) (pod_OwnerReferences r) (pod_Spec r) (pod_Status r).
Definition set_pod_Finalizers (v : list string) (r : Pod) : Pod :=
  MkPod (pod_Name r) (pod_Namespace r) (pod_UID r) (pod_Labels r) (pod_Annotations r)
    (pod_DeletionTimestamp r) v (pod_OwnerReferences r) (pod_Spec r) (pod_Status r).
Definition set_pod_DeletionTimestamp (v : option Z) (r : Pod) : Pod :=
  MkPod (pod_Name r) (pod_Namespace r) (pod_UID r) (pod_Labels r) (pod_Annotations r) v
    (pod_Finalizers r) (pod_OwnerReferences r) (pod_Spec r) (pod_Status r).
Definition set_pod_Namespace (v : string) (r : Pod) : Pod :=
  MkPod (pod_Name r) v (pod_UID r) (pod_Labels r) (pod_Annotations r) (pod_DeletionTimestamp r)
    (pod_Finalizers r) (pod_OwnerReferences r) (pod_Spec r) (pod_Status r).
Definition set_pod_Spec (v : PodSpec) (r : Pod) : Pod :=
  MkPod (pod_Name r) (pod_Namespace r) (pod_UID r) (pod_Labels r) (pod_Annotations r)
    (pod_DeletionTimestamp r) (pod_Finalizers r) (pod_OwnerReferences r) v (pod_Status r).

(** [pod.Annotations], read as a map. *)
Definition annotations (p : Pod) : smap := nil_map (pod_Annotations p).

Definition upd_spec (f : PodSpec → PodSpec) (p : Pod) : Pod := set_pod_Spec (f (pod_Spec p)) p.

(** [pod.Spec.Containers[0] = f(pod.Spec.Containers[0])]; indexing an empty
    slice panics in Go, and the callers below only reach it with a container. *)
Definition upd_container0 (f : Container → Container) (p : Pod) : Pod :=
  upd_spec (λ s, set_spec_Containers
    match spec_Containers s with c :: cs => f c :: cs | [] => [] end s) p.

Definition empty_spec : PodSpec :=
  MkPodSpec [] [] [] "" ∅ false [] false false None "" "" [] None [] "" "" "" None None "".
Definition empty_status : PodStatus := MkPodStatus "" "" "" [] [] [].
Definition empty_resources : ResourceRequirements := MkResourceRequirements ∅ ∅.
Definition empty_container : Container :=
  MkContainer "" "" "" [] [] [] [] [] empty_resources None None None None None.
Definition empty_pod : Pod := MkPod "" "" "" ∅ None None [] [] empty_spec empty_status.

(** [corev1.Secret]. *)
Record Secret := MkSecret {
  sec_Name : string;
  sec_Namespace : string;
  sec_Labels : smap;
  sec_OwnerReferences : list OwnerReference;
  sec_Finalizers : list string;
  sec_Data : option smap;
  sec_StringData : smap;
  sec_CreationTimestamp : Z
}.
#[export] Instance Secret_eq_dec : EqDecision Secret.
Proof. solve_decision. Defined.
Definition set_sec_OwnerReferences (v : list OwnerReference) (r : Secret) : Secret :=
  MkSecret (sec_Name r) (sec_Namespace r) (sec_Labels r) v (sec_Finalizers r) (sec_Data r)
    (sec_StringData r) (sec_CreationTimestamp r).
Definition set_sec_Finalizers (v : list string) (r : Secret) : Secret :=
  MkSecret (sec_Name r) (sec_Namespace r) (sec_Labels r) (sec_OwnerReferences r) v (sec_Data r)
    (sec_StringData r) (sec_CreationTimestamp r).
Definition set_sec_Data (v : option smap) (r : Secret) : Secret :=
  MkSecret (sec_Name r) (sec_Namespace r) (sec_Labels r) (sec_OwnerReferences r) (sec_Finalizers r)
    v (sec_StringData r) (sec_CreationTimestamp r).
Definition set_sec_StringData (v : smap) (r : Secret) : Secret :=
  MkSecret (sec_Name r) (sec_Namespace r) (sec_Labels r) (sec_OwnerReferences r) (sec_Finalizers r)
    (sec_Data r) v (sec_CreationTimestamp r).

(** [batchv1.JobCondition]. *)
Record JobCondition := MkJobCondition {
  jc_Type : string;
  jc_Status : string
}.
#[export] Instance JobCondition_eq_dec : EqDecision JobCondition.
Proof. solve_decision. Defined.

(** [batchv1.Job]: [job_Template] is the spec of its pod template. *)
Record Job := MkJob {
  job_Name : string;
  job_Namespace : string;
  job_UID : string;
  job_Labels : smap;
  job_DeletionTimestamp : option Z;
  job_Template : PodSpec;
  job_TTLSecondsAfterFinished : option Z;
  job_Conditions : list JobCondition;
  job_CompletionTime : option Z
}.
#[export] Instance Job_eq_dec : EqDecision Job.
Proof. solve_decision. Defined.

Definition set_job_Template (v : PodSpec) (r : Job) : Job :=
  MkJob (job_Name r) (job_Namespace r) (job_UID r) (job_Labels r) (job_DeletionTimestamp r) v
    (job_TTLSecondsAfterFinished r) (job_Conditions r) (job_CompletionTime r).

(** [corev1.Service]: one TCP node port. *)
Record Service := MkService {
  svc_Name : string;
  svc_Namespace : string;
  svc_Labels : smap;
  svc_Port : Z;
  svc_TargetPort : Z;
  svc_NodePort : Z;
  svc_Selector : smap
}.
#[export] Instance Service_eq_dec : EqDecision Service.
Proof. solve_decision. Defined.

(** [corev1.ConfigMap]. *)
Record ConfigMap := MkConfigMap {
  cm_Name : string;
  cm_Namespace : string;
  cm_Data : smap
}.
#[export] Instance ConfigMap_eq_dec : EqDecision ConfigMap.
Proof. solve_decision. Defined.

(** [corev1.CSIPersistentVolumeSource]; the secret references are
    (name, namespace) pairs. *)
Record CSISource := MkCSISource {
  csi_Driver : string;
  csi_VolumeHandle : string;
  csi_VolumeAttributes : smap;
  csi_NodePublishSecretRef : option (string * string);
  csi_ReadOnly : bool;
  csi_FSType : string;
  csi_ControllerExpandSecretRef : option (string * string)
}.
#[export] Instance CSISource_eq_dec : EqDecision CSISource.
Proof. solve_decision. Defined.

(** [corev1.PersistentVolume]; [pv_ClaimRef] is (name, namespace). *)
Record PersistentVolume := MkPersistentVolume {
  pv_Name : string;
  pv_UID : string;
  pv_CSI : option CSISource;
  pv_ClaimRef : option (string * string);
  pv_StorageClassName : string;
  pv_MountOptions : list string;
  pv_Annotations : smap;
  pv_Capacity : Z;
  pv_DeletionTimestamp : option Z;
  pv_ReclaimPolicy : string;
  pv_AccessModes : list string;
  pv_VolumeMode : option string
}.
#[export] Instance PersistentVolume_eq_dec : EqDecision PersistentVolume.
Proof. solve_decision. Defined.

(** [corev1.PersistentVolumeClaim]; [pvc_Storage] is the quantity requested. *)
Record PersistentVolumeClaim := MkPersistentVolumeClaim {
  pvc_Name : string;
  pvc_Namespace : string;
  pvc_UID : string;
  pvc_Labels : smap;
  pvc_Annotations : smap;
  pvc_VolumeName : string;
  pvc_StorageClassName : option string;
  pvc_Selector : option string;
  pvc_AccessModes : list string;
  pvc_Storage : Z;
  pvc_VolumeMode : option string
}.
#[export] Instance PersistentVolumeClaim_eq_dec : EqDecision PersistentVolumeClaim.
Proof. solve_decision. Defined.

(** [storagev1.StorageClass]. *)
Record StorageClass := MkStorageClass {
  sc_Name : string;
  sc_Parameters : smap;
  sc_Provisioner : string;
  sc_MountOptions : list string;
  sc_ReclaimPolicy : option string
}.
#[export] Instance StorageClass_eq_dec : EqDecision StorageClass.
Proof. solve_decision. Defined.

(** [corev1.Node]. *)
Record Node := MkNode {
  node_Name : string;
  node_Labels : smap;
  node_Annotations : smap;
  node_PodCIDR : string
}.
#[export] Instance Node_eq_dec : EqDecision Node.
Proof. solve_decision. Defined.

(** [metav1.LabelSelector]; the match expressions stay opaque. *)
Record LabelSelector := MkLabelSelector {
  ls_MatchLabels : smap;
  ls_MatchExpressions : list string
}.
#[export] Instance LabelSelector_eq_dec : EqDecision LabelSelector.
Proof. solve_decision. Defined.

(** [k8sMount.MountInfo], the fields the driver reads of a line of
    /proc/self/mountinfo. *)
Record MountInfo := MkMountInfo {
  mi_Root : string;
  mi_MountPoint : string;
  mi_Minor : Z
}.
#[export] Instance MountInfo_eq_dec : EqDecision MountInfo.
Proof. solve_decision. Defined.

(** [fd] of the descriptor table ([passfd.go]); [fd_closed] is whether its channel
    [done] is closed. *)
Record fuse_fd := MkFuseFd {
  fd_fuseFd : Z;
  fd_fuseSetting : string;
  fd_serverAddress : string;
  fd_serverAddressInPod : string;
  fd_closed : bool
}.
#[export] Instance fuse_fd_eq_dec : EqDecision fuse_fd.
Proof. solve_decision. Defined.
