(* ===== verification/Effects.v ===== *)
(** * Effects: the calls the driver makes, as a tree of external events

    The driver is a client of the API server, of the kubelet, of the mount
    utilities and of the operating system.  None of that code is in the
    repository, so a call to it is an [event] whose answer the environment
    chooses; a Go function becomes a [prog], the finite tree of the calls it
    makes and of what it does with every answer.  Three readings of a [prog]:

    - [interp h p w] runs it against a handler, an executable environment;
    - [runs p tr o] says that [p] can make the calls [tr] and end with [o];
    - [wp p tr Q] is the weakest precondition of the postcondition [Q] on the
      outcome and the trace, for every answer of the environment, and
      [wp_adequate] ties it to [runs].

    A Go panic ends the program with [Panic]; a loop without a bound takes
    [fuel] and ends with [OutOfFuel] when it is used up. *)

From S2P Require Import Prelude Objects.

(** ** Data of the events *)

(** A [context.Context], by how it was derived; [Group] is the context of an
    [errgroup], cancelled when a goroutine of the group fails. *)
Inductive ctx :=
  | Background
  | Request
  | WithTimeout (parent : ctx) (d : Z)
  | Group (parent : ctx).

(** The body of a patch: the JSON patch operations the driver emits, with
    their JSON pointer, and the merge patch of labels and annotations. *)
Inductive json_op :=
  | ReplaceList (path : string) (value : list string)
  | ReplaceMap (path : string) (value : smap)
  | RemovePath (path : string).

Inductive patch :=
  | JSONPatch (ops : list json_op)
  | MergeLabels (labels : smap)
  | MergeAnnotations (annotations : smap).

#[export] Instance ctx_eq_dec : EqDecision ctx.
Proof. solve_decision. Defined.
#[export] Instance json_op_eq_dec : EqDecision json_op.
Proof. solve_decision. Defined.
#[export] Instance patch_eq_dec : EqDecision patch.
Proof. solve_decision. Defined.

(** [os.FileInfo] with the [syscall.Stat_t] behind it. *)
Record FileInfo := MkFileInfo { fi_Ino : Z; fi_Dev : Z; fi_IsDir : bool; fi_Perm : Z }.

(** [syscall.Statfs_t]. *)
Record Statfs_t := MkStatfs {
  st_Bsize : Z; st_Blocks : Z; st_Bfree : Z; st_Bavail : Z; st_Files : Z; st_Ffree : Z
}.

(** How a [select] between a parent context, a timer and a running function
    ends ([util.DoWithTimeout]). *)
Inductive race := RaceDone | RaceTimeout | RaceParent (c : ctx_cause).

(** [transport.Config] of client-go, the fields that are set, and the client of
    the kubelet: whether requests go through a transport with TLS settings of
    its own, and the configuration of the authentication around it. *)
Record transport_Config := MkTransport {
  t_CAFile : string; t_CAData : string;
  t_CertFile : string; t_CertData : string;
  t_KeyFile : string; t_KeyData : string;
  t_Insecure : bool;
  t_BearerToken : string
}.
Inductive round_tripper := DefaultTransport | TLSTransport (c : transport_Config).
Record KubeletClient := MkKubeletClient {
  kc_host : string;
  kc_port : Z;
  kc_base : round_tripper;
  kc_auth : transport_Config;
  kc_Timeout : Z
}.

(** [rest.Config] of client-go, the fields that are set; [QPS] is the integer
    before its conversion to a [float32]. *)
Record rest_Config := MkRestConfig {
  rc_Timeout : Z;
  rc_QPS : option Z;
  rc_Burst : option Z
}.

(** The goroutines the driver starts and does not wait for. *)
Inductive task :=
  | TaskCheckMountPodStuck (p : Pod)
  | TaskCleanUpCache (p : Pod)
  | TaskStopFd (hash : string)
  | TaskSetQuota (args envs : list string)
  | TaskRemove (path : string)
  | TaskRemoveAll (path : string)
  | TaskReconciler (kc : KubeletClient)
  | TaskSyncPod (table : list MountInfo) (pods : list Pod) (p : Pod) (crt : podStatus)
      (last : option PodSync)
  | TaskFdCloser (f : nat) (sock : Z)
  | TaskFdAcceptor (hash : string) (sock : Z)
  | TaskFdRequest (hash : string) (conn : Z)
  | TaskProvisioner (leaderElection : bool) (ns : string) (lease : Z)
  | TaskPodManager
  | TaskMountManager
  | TaskPprof
  | TaskStopDriver.

(** The controllers that a manager of controller-runtime runs. *)
Inductive ctrl_kind := CtrlMount | CtrlJob | CtrlSecret | CtrlPod.

(** ** Events *)

Inductive event : Type → Type :=
  (* API server *)
  | PodGet (c : ctx) (name ns : string) : event (result Pod)
  | PodList (ns : string) (sel : option LabelSelector) (fields : option smap)
      (cached : bool) : event (result (list Pod))
  | PodCreate (p : Pod) : event (result Pod)
  | PodUpdate (p : Pod) : event (option error)
  | PodPatch (name ns : string) (body : patch) : event (option error)
  | PodDelete (name ns : string) : event (option error)
  | PodLogs (name ns container : string) : event (result string)
  | PodExec (name ns container : string) (cmd : list string)
      : event (string * string * option error)
  | NodeList (sel : option LabelSelector) : event (result (list Node))
  | SecretGet (name ns : string) : event (result Secret)
  | SecretCreate (s : Secret) : event (result Secret)
  | SecretUpdate (s : Secret) : event (option error)
  | SecretPatch (name ns : string) (body : patch) : event (option error)
  | SecretDelete (name ns : string) : event (option error)
  | JobGet (c : ctx) (name ns : string) : event (result Job)
  | JobCreate (j : Job) : event (result Job)
  | JobUpdate (j : Job) : event (option error)
  | JobDelete (name ns : string) : event (option error)
  | ServiceCreate (s : Service) : event (result Service)
  | ServiceDelete (name ns : string) : event (option error)
  | ConfigMapCreate (m : ConfigMap) : event (result ConfigMap)
  | PVGet (name : string) : event (result PersistentVolume)
  | PVList : event (result (list PersistentVolume))
  | PVCGet (name ns : string) : event (result PersistentVolumeClaim)
  | SCGet (name : string) : event (result StorageClass)
  | SCList : event (result (list StorageClass))
  | OwnerGet (kind name ns : string) : event (option error)
  | DaemonSetGet (name ns : string) : event (result PodSpec)
  | InClusterConfig : event (result unit)
  | NewForConfig (c : rest_Config) : event (option error)
  (* kubelet *)
  | TLSConfigFor (c : transport_Config) : event (result bool)
  | HTTPWrappersForConfig (c : transport_Config) (rt : round_tripper) : event (option error)
  | HttpGet (kc : KubeletClient) (url : string) : event (option error)
  | ReadBody : event (result string)
  (* mount utilities *)
  | ParseMountInfo : event (result (list MountInfo))
  | PathExists (path : string) : event (bool * option error)
  | IsLikelyNotMountPoint (path : string) : event (result bool)
  | IsMountPoint (path : string) : event (bool * option error)
  | IsNotMountPoint (path : string) : event (result bool)
  | Mount (source target fstype : string) (options : list string) : event (option error)
  | Unmount (target : string) : event (option error)
  | CleanupMountPoint (target : string) (extensive : bool) : event (option error)
  (* operating system *)
  | Exec (c : ctx) (cmd : string) (args : list string) : event (string * option error)
  | ExecEnv (c : ctx) (cmd : string) (args envs : list string) : event (string * option error)
  | ProcessPid : event Z
  | FindProcess (pid : Z) : event (option error)
  | Kill (pid : Z) : event (option error)
  | Stat (path : string) : event (result FileInfo)
  | Lstat (path : string) : event (result FileInfo)
  | Statfs (path : string) : event (result Statfs_t)
  | MkdirAll (path : string) (mode : Z) : event (option error)
  | Mkdir (path : string) (mode : Z) : event (option error)
  | MkdirTemp (dir pattern : string) : event (result string)
  | Remove (path : string) : event (option error)
  | RemoveAll (path : string) : event (option error)
  | Chmod (path : string) (mode : Z) : event (option error)
  | ReadFile (path : string) : event (result string)
  | WriteFile (path content : string) (mode : Z) : event (option error)
  | Getenv (name : string) : event string
  | LookupEnv (name : string) : event (option string)
  | Environ : event (list string)
  | PortFree (port : Z) : event bool
  (* time, randomness, concurrency *)
  | Now : event Z
  | ZoneOffset : event Z
  | RandIntn (n : Z) : event Z
  | Sleep (d : Z) : event unit
  | CtxErr (c : ctx) : event (option ctx_cause)
  | Race (c : ctx) (d : Z) : event race
  | MutexLock (index : Z) : event unit
  | MutexUnlock (index : Z) : event unit
  | Spawn (t : task) : event unit
  | CloseFd (hash : string) : event unit
  | DevMinorLoad (path : string) : event (option Z)
  | DevMinorStore (path : string) (minor : Z) : event unit
  | DevMinorDelete (path : string) : event unit
  (* state of the process that concurrent requests share *)
  | TargetTryLock (path : string) : event bool
  | TargetUnlock (path : string) : event unit
  | VolTryAcquire (volumeID : string) : event bool
  | VolRelease (volumeID : string) : event unit
  | VolsLoad (name : string) : event (option Z)
  | VolsStore (name : string) (capacity : Z) : event unit
  | VolsDelete (name : string) : event unit
  (* state of the reconciler *)
  | StatusLoad (name : string) : event (option PodSync)
  | StatusStore (name : string) (s : PodSync) : event unit
  | BackOffIn (id : string) (now : Z) : event bool
  | BackOffNext (id : string) (now : Z) : event unit
  | BackOffReset (id : string) : event unit
  | BackOffGC : event unit
  | GroupWait : event unit
  (* the table of descriptors: pointers to its entries, their fields, its locks *)
  | FdsGet (hash : string) : event (option nat)
  | FdsSet (hash : string) (f : nat) : event unit
  | FdsDelete (hash : string) : event unit
  | FdsLock : event unit
  | FdsUnlock : event unit
  | FdNew (f : fuse_fd) : event nat
  | FdRead (f : nat) : event fuse_fd
  | FdSetFd (f : nat) (fd : Z) : event unit
  | FdSetSetting (f : nat) (setting : string) : event unit
  | FdLock (f : nat) : event unit
  | FdUnlock (f : nat) : event unit
  | DoneClose (f : nat) : event bool
  | DoneWait (f : nat) : event unit
  (* sockets and descriptors *)
  | ReadDir (path : string) : event (result (list (string * bool)))
  | Listen (path : string) : event (result Z)
  | Accept (sock : Z) : event (result Z)
  | Dial (path : string) : event (result Z)
  | SockClose (sock : Z) : event unit
  | ConnFile (conn : Z) : event (option error)
  | Recvmsg (conn : Z) (space : Z)
      : event (result (string * list (list Z * option error) * option error))
  | Sendmsg (conn : Z) (msg : string) (fds : list Z) : event (option error)
  | CloseDescriptor (fd : Z) : event unit
  (* servers and managers of the process *)
  | NetListen (network addr : string) : event (result Z)
  | GrpcServe (listener : Z) : event (option error)
  | ListenAndServe (addr : string) : event (option error)
  | CtrlConfig : event (option error)
  | CtrlNewManager (id : string) (labels : smap) : event (option error)
  | CtrlSetup (k : ctrl_kind) : event (option error)
  | CtrlStart : event (option error)
  | RunProvisioner (driver : string) (leaderElection : bool) (ns : string) (lease : Z) : event unit.

(** ** Programs *)

Inductive prog (A : Type) : Type :=
  | Ret (a : A)
  | Vis {X : Type} (e : event X) (k : X → prog A)
  | Panic (msg : string)
  | OutOfFuel.
Arguments Ret {A} a.
Arguments Vis {A X} e k.
Arguments Panic {A} msg.
Arguments OutOfFuel {A}.

Fixpoint bind {A B} (p : prog A) (f : A → prog B) : prog B :=
  match p with
  | Ret a => f a
  | Vis e k => Vis e (λ x, bind (k x) f)
  | Panic m => Panic m
  | OutOfFuel => OutOfFuel
  end.

Definition call {X} (e : event X) : prog X := Vis e Ret.

Notation "x <- p ;; k" := (bind p (λ x, k))
  (at level 100, p at next level, k at level 200, right associativity) : go_scope.
Notation "p ;;; k" := (bind p (λ _, k)) (at level 100, k at level 200, right associativity)
  : go_scope.

(** [x, err := p; if err != nil { return ..., err }]. *)
Notation "x <-? p ;; k" :=
  (bind p (λ r, match r with Ok x => k | Err e => Ret (Err e) end))
  (at level 100, p at next level, k at level 200, right associativity) : go_scope.
(** The same in a function that returns an [error] only. *)
Notation "x <-! p ;; k" :=
  (bind p (λ r, match r with Ok x => k | Err e => Ret (Some e) end))
  (at level 100, p at next level, k at level 200, right associativity) : go_scope.
(** [if err := p; err != nil { return err }]. *)
Notation "'check' p ;; k" :=
  (bind p (λ r, match r with None => k | Some e => Ret (Some e) end))
  (at level 100, p at next level, k at level 200, right associativity) : go_scope.
Notation "'check?' p ;; k" :=
  (bind p (λ r, match r with None => k | Some e => Ret (Err e) end))
  (at level 100, p at next level, k at level 200, right associativity) : go_scope.

(** The bound on the iterations of the loops that have none of their own. *)
Class Fuel := fuel : nat.

(** [for { ... }]: the body continues with [inl] or leaves with [inr]. *)
Fixpoint loop (n : nat) {S A} (body : S → prog (S + A)) (s : S) : prog A :=
  match n with
  | O => OutOfFuel
  | S n => r <- body s ;; match r with inl s' => loop n body s' | inr a => Ret a end
  end.

(** [for _, x := range l] with an early return. *)
Fixpoint for_each {T A} (l : list T) (body : T → prog (option A)) (k : prog A) : prog A :=
  match l with
  | [] => k
  | x :: l => r <- body x ;; match r with Some a => Ret a | None => for_each l body k end
  end.

(** [lock.Lock(); defer lock.Unlock(); p]: the deferred unlock also runs when
    [p] panics, before the panic goes on. *)
Fixpoint with_unlock {A} (i : Z) (p : prog A) : prog A :=
  match p with
  | Ret a => Vis (MutexUnlock i) (λ _, Ret a)
  | Vis e k => Vis e (λ x, with_unlock i (k x))
  | Panic m => Vis (MutexUnlock i) (λ _, Panic m)
  | OutOfFuel => OutOfFuel
  end.
Definition with_mutex {A} (i : Z) (p : prog A) : prog A :=
  Vis (MutexLock i) (λ _, with_unlock i p).

(** [defer f(); p] for an [f] that makes one call. *)
Fixpoint defer {A X} (e : event X) (p : prog A) : prog A :=
  match p with
  | Ret a => Vis e (λ _, Ret a)
  | Vis e' k => Vis e' (λ x, defer e (k x))
  | Panic m => Vis e (λ _, Panic m)
  | OutOfFuel => OutOfFuel
  end.

(** ** Runs *)

Inductive outcome (A : Type) := Done (a : A) | Panicked (msg : string) | Diverged.
Arguments Done {A} a.
Arguments Panicked {A} msg.
Arguments Diverged {A}.

(** A trace lists the calls with their answers, the latest first. *)
Inductive call_rec :=
  | Call {X : Type} (e : event X) (x : X).
Abbreviation trace := (list call_rec).

Inductive runs {A} : prog A → trace → trace → outcome A → Prop :=
  | runs_ret a tr : runs (Ret a) tr tr (Done a)
  | runs_panic m tr : runs (Panic m) tr tr (Panicked m)
  | runs_fuel tr : runs OutOfFuel tr tr Diverged
  | runs_vis {X} (e : event X) k x tr tr' o :
      runs (k x) (Call e x :: tr) tr' o → runs (Vis e k) tr tr' o.

(** An environment assumption: which answers an event may get after a trace. *)
Definition env := trace → ∀ X, event X → X → Prop.
Definition any_env : env := λ _ _ _ _, True.

Fixpoint wp (E : env) {A} (p : prog A) (tr : trace) (Q : outcome A → trace → Prop) : Prop :=
  match p with
  | Ret a => Q (Done a) tr
  | Panic m => Q (Panicked m) tr
  | OutOfFuel => Q Diverged tr
  | Vis e k => ∀ x, E tr _ e x → wp E (k x) (Call e x :: tr) Q
  end.

(** ** Predicates on traces *)

(** A property of one call, and that a trace has such a call. *)
Definition call_pred := ∀ X, event X → X → Prop.
Definition on_call (P : call_pred) (c : call_rec) : Prop :=
  match c with Call e x => P _ e x end.
Definition happened (P : call_pred) (tr : trace) : Prop := Exists (on_call P) tr.

(** What must hold of the calls made before a call, for every call of a trace. *)
Definition guard := ∀ X, event X → X → trace → Prop.
Fixpoint guarded (R : guard) (tr : trace) : Prop :=
  match tr with
  | [] => True
  | Call e x :: tr => R _ e x tr ∧ guarded R tr
  end.

Lemma guarded_mono (R R' : guard) tr :
  (∀ X (e : event X) x tr, R X e x tr → R' X e x tr) → guarded R tr → guarded R' tr.
Proof. intros H. induction tr as [|[X e x] tr IH]; [done|]. intros [? ?]. split; auto. Qed.

(** ** Interpretation by a handler *)

Definition handler (W : Type) := ∀ X, event X → W → X * W.

Fixpoint interp {W A} (h : handler W) (p : prog A) (w : W) : outcome A * W :=
  match p with
  | Ret a => (Done a, w)
  | Panic m => (Panicked m, w)
  | OutOfFuel => (Diverged, w)
  | Vis e k => let '(x, w) := h _ e w in interp h (k x) w
  end.

(** The handler that also records the calls. *)
Definition tracing {W} (h : handler W) : handler (W * trace) :=
  λ X e wt, let '(x, w) := h X e wt.1 in (x, (w, Call e x :: wt.2)).

(** ** Laws *)

Section laws.
Context (E : env).

Lemma wp_mono {A} (p : prog A) tr (Q Q' : outcome A → trace → Prop) :
  (∀ o tr', Q o tr' → Q' o tr') → wp E p tr Q → wp E p tr Q'.
Proof.
  intros HQ. revert tr. induction p as [a|X e k IH|m|]; intros tr; simpl; eauto.
Qed.

Lemma wp_bind {A B} (p : prog A) (f : A → prog B) tr (Q : outcome B → trace → Prop) :
  wp E (bind p f) tr Q ↔
  wp E p tr (λ o tr', match o with
    | Done a => wp E (f a) tr' Q
    | Panicked m => Q (Panicked m) tr'
    | Diverged => Q Diverged tr' end).
Proof.
  revert tr. induction p as [a|X e k IH|m|]; intros tr; simpl; try done.
  split; intros H x Hx; apply IH; auto.
Qed.

Lemma wp_bind_intro {A B} (p : prog A) (f : A → prog B) tr (Q : outcome B → trace → Prop) :
  wp E p tr (λ o tr', match o with
    | Done a => wp E (f a) tr' Q
    | Panicked m => Q (Panicked m) tr'
    | Diverged => Q Diverged tr' end) →
  wp E (bind p f) tr Q.
Proof. apply wp_bind. Qed.

Lemma wp_and {A} (p : prog A) tr (Q Q' : outcome A → trace → Prop) :
  wp E p tr Q → wp E p tr Q' → wp E p tr (λ o tr', Q o tr' ∧ Q' o tr').
Proof.
  revert tr. induction p as [a|X e k IH|m|]; intros tr; simpl; auto.
Qed.

(** The loop rule: an invariant of the state and the trace. *)
Lemma wp_loop {S A} (I : S → trace → Prop) (body : S → prog (S + A)) n s tr
    (Q : outcome A → trace → Prop) :
  I s tr →
  (∀ s tr', I s tr' → Q Diverged tr') →
  (∀ s tr, I s tr → wp E (body s) tr (λ o tr', match o with
      | Done (inl s') => I s' tr'
      | Done (inr a) => Q (Done a) tr'
      | Panicked m => Q (Panicked m) tr'
      | Diverged => Q Diverged tr' end)) →
  wp E (loop n body s) tr Q.
Proof.
  intros HI HD Hbody. revert s tr HI. induction n as [|n IH]; intros s tr HI; simpl; [eauto|].
  apply wp_bind. eapply wp_mono; [|by apply Hbody].
  intros [[s'|a]|m|] tr' H; simpl; auto.
Qed.

Lemma wp_for_each {T A} (I : list T → trace → Prop) (body : T → prog (option A)) (k : prog A)
    l tr (Q : outcome A → trace → Prop) :
  I l tr →
  (∀ x l tr, I (x :: l) tr → wp E (body x) tr (λ o tr', match o with
      | Done None => I l tr'
      | Done (Some a) => Q (Done a) tr'
      | Panicked m => Q (Panicked m) tr'
      | Diverged => Q Diverged tr' end)) →
  (∀ tr, I [] tr → wp E k tr Q) →
  wp E (for_each l body k) tr Q.
Proof.
  intros HI Hbody Hk. revert tr HI. induction l as [|x l IH]; intros tr HI; simpl; [auto|].
  apply wp_bind. eapply wp_mono; [|by apply Hbody].
  intros [[a|]|m|] tr' H; simpl; auto.
Qed.

Lemma wp_with_unlock {A} i (p : prog A) tr (Q : outcome A → trace → Prop) :
  wp E p tr (λ o tr', match o with
    | Diverged => Q Diverged tr'
    | _ => E tr' _ (MutexUnlock i) tt → Q o (Call (MutexUnlock i) tt :: tr') end) →
  wp E (with_unlock i p) tr Q.
Proof.
  revert tr. induction p as [a|X e k IH|m|]; intros tr; simpl; auto.
  - intros H [] ?. auto.
  - intros H [] ?. auto.
Qed.

Lemma wp_defer {A Y} (e : event Y) (p : prog A) tr (Q : outcome A → trace → Prop) :
  wp E p tr (λ o tr', match o with
    | Diverged => Q Diverged tr'
    | _ => ∀ x, E tr' _ e x → Q o (Call e x :: tr') end) →
  wp E (defer e p) tr Q.
Proof. revert tr. induction p as [a|Z e' k IH|m|]; intros tr; simpl; auto. Qed.

(** What [wp] proves holds of every run whose answers the environment allows. *)
Inductive allowed {A} : prog A → trace → trace → outcome A → Prop :=
  | allowed_ret a tr : allowed (Ret a) tr tr (Done a)
  | allowed_panic m tr : allowed (Panic m) tr tr (Panicked m)
  | allowed_fuel tr : allowed OutOfFuel tr tr Diverged
  | allowed_vis {X} (e : event X) k x tr tr' o :
      E tr X e x → allowed (k x) (Call e x :: tr) tr' o → allowed (Vis e k) tr tr' o.

Lemma wp_sound {A} (p : prog A) tr tr' o Q :
  wp E p tr Q → allowed p tr tr' o → Q o tr'.
Proof. intros Hwp Hr. induction Hr; simpl in *; auto. Qed.

Lemma wp_complete {A} (p : prog A) tr Q :
  (∀ tr' o, allowed p tr tr' o → Q o tr') → wp E p tr Q.
Proof.
  revert tr. induction p as [a|X e k IH|m|]; intros tr H; simpl.
  - apply H. constructor.
  - intros x Hx. apply IH. intros tr' o Hr. apply H. by econstructor.
  - apply H. constructor.
  - apply H. constructor.
Qed.
End laws.

Lemma runs_allowed {A} (p : prog A) tr tr' o : runs p tr tr' o → allowed any_env p tr tr' o.
Proof. induction 1; by econstructor. Qed.

(** Adequacy: a [wp] without assumptions speaks of every run. *)
Lemma wp_adequate {A} (p : prog A) tr tr' o Q :
  wp any_env p tr Q → runs p tr tr' o → Q o tr'.
Proof. intros ? Hr. eapply wp_sound; [done|]. by apply runs_allowed. Qed.

(** A run by a handler is one of the runs. *)
Lemma interp_runs {W A} (h : handler W) (p : prog A) w tr o w' tr' :
  interp (tracing h) p (w, tr) = (o, (w', tr')) → runs p tr tr' o.
Proof.
  revert w tr. induction p as [a|X e k IH|m|]; intros w tr; simpl.
  - intros [= <- <- <-]. constructor.
  - unfold tracing at 1. simpl. destruct (h X e w) as [x w1] eqn:Hh. simpl.
    intros H. econstructor. by eapply IH.
  - intros [= <- <- <-]. constructor.
  - intros [= <- <- <-]. constructor.
Qed.

Lemma interp_tracing {W A} (h : handler W) (p : prog A) w tr :
  interp h p w = let '(o, (w', _)) := interp (tracing h) p (w, tr) in (o, w').
Proof.
  revert w tr. induction p as [a|X e k IH|m|]; intros w tr; simpl; try done.
  unfold tracing at 1. simpl. destruct (h X e w) as [x w1]. simpl. apply IH.
Qed.

(** Interpretation is compositional: [interp] of a sequence. *)
Lemma interp_bind {W A B} (h : handler W) (p : prog A) (f : A → prog B) w :
  interp h (bind p f) w =
  match interp h p w with
  | (Done a, w') => interp h (f a) w'
  | (Panicked m, w') => (Panicked m, w')
  | (Diverged, w') => (Diverged, w')
  end.
Proof.
  revert w. induction p as [a|X e k IH|m|]; intros w; simpl; try done.
  destruct (h X e w) as [x w1]. apply IH.
Qed.

Lemma interp_with_unlock {W A} (h : handler W) i (p : prog A) w :
  interp h (with_unlock i p) w =
  match interp h p w with
  | (Diverged, w') => (Diverged, w')
  | (o, w') => (o, (h _ (MutexUnlock i) w').2)
  end.
Proof.
  revert w. induction p as [a|X e k IH|m|]; intros w; simpl; try done.
  - by destruct (h _ _ _).
  - destruct (h X e w) as [x w1]. apply IH.
  - by destruct (h _ _ _).
Qed.

(** ** A default environment

    An answer for every event: nothing exists, commands succeed and say
    nothing, the clock stands at the epoch.  The executable environments of the
    examples override the answers they are about. *)
Definition absent {A} : result A := Err (ErrApi NotFound "not found").
Definition no_file {A} : result A := Err (ErrOs ENOENT "no such file or directory").

Definition quiet {X} (e : event X) : X :=
  match e in event X return X with
  | PodGet _ _ _ => absent
  | PodList _ _ _ _ => Ok []
  | PodCreate p => Ok p
  | PodUpdate _ | PodPatch _ _ _ | PodDelete _ _ => None
  | PodLogs _ _ _ => absent
  | PodExec _ _ _ _ => ("", "", None)
  | NodeList _ => Ok []
  | SecretGet _ _ => absent
  | SecretCreate s => Ok s
  | SecretUpdate _ | SecretPatch _ _ _ | SecretDelete _ _ => None
  | JobGet _ _ _ => absent
  | JobCreate j => Ok j
  | JobUpdate _ | JobDelete _ _ => None
  | ServiceCreate s => Ok s
  | ServiceDelete _ _ => None
  | ConfigMapCreate m => Ok m
  | PVGet _ => absent
  | PVList => Ok []
  | PVCGet _ _ => absent
  | SCGet _ => absent
  | SCList => Ok []
  | OwnerGet _ _ _ | HTTPWrappersForConfig _ _ | HttpGet _ _ => None
  | DaemonSetGet _ _ => absent
  | TLSConfigFor _ => Ok true
  | ReadBody => Ok ""
  | ParseMountInfo => Ok []
  | PathExists _ => (true, None)
  | IsLikelyNotMountPoint _ => Ok true
  | IsMountPoint _ => (false, None)
  | IsNotMountPoint _ => Ok true
  | Mount _ _ _ _ | Unmount _ | CleanupMountPoint _ _ => None
  | Exec _ _ _ | ExecEnv _ _ _ _ => ("", None)
  | ProcessPid => 0%Z
  | Stat _ | Lstat _ => no_file
  | Statfs _ => no_file
  | MkdirTemp _ _ => no_file
  | InClusterConfig => Ok tt
  | NewForConfig _ => None
  | FindProcess _ | Kill _ => None
  | RunProvisioner _ _ _ _ => tt
  | MkdirAll _ _ | Mkdir _ _ | Remove _ | RemoveAll _ | Chmod _ _ => None
  | ReadFile _ => no_file
  | WriteFile _ _ _ => None
  | Getenv _ => ""
  | LookupEnv _ => None
  | Environ => []
  | PortFree _ => true
  | Now | ZoneOffset | RandIntn _ => 0%Z
  | Sleep _ => tt
  | CtxErr _ => None
  | Race _ _ => RaceDone
  | MutexLock _ | MutexUnlock _ | Spawn _ | CloseFd _ => tt
  | DevMinorLoad _ => None
  | DevMinorStore _ _ | DevMinorDelete _ => tt
  | TargetTryLock _ | VolTryAcquire _ => true
  | TargetUnlock _ | VolRelease _ => tt
  | VolsLoad _ => None
  | VolsStore _ _ | VolsDelete _ => tt
  | StatusLoad _ => None
  | BackOffIn _ _ => false
  | StatusStore _ _ | BackOffNext _ _ | BackOffReset _ | BackOffGC | GroupWait => tt
  | FdsGet _ => None
  | FdsSet _ _ | FdsDelete _ | FdsLock | FdsUnlock => tt
  | FdNew _ => 0%nat
  | FdRead _ => MkFuseFd (-1) "" "" "" false
  | FdSetFd _ _ | FdSetSetting _ _ | FdLock _ | FdUnlock _ | DoneWait _ => tt
  | DoneClose _ => true
  | ReadDir _ => no_file
  | Listen _ | Accept _ | Dial _ => no_file
  | SockClose _ | CloseDescriptor _ => tt
  | ConnFile _ | Sendmsg _ _ _ => None
  | Recvmsg _ _ => Ok ("", [], None)
  | NetListen _ _ => no_file
  | GrpcServe _ | ListenAndServe _ | CtrlConfig | CtrlNewManager _ _ | CtrlSetup _ | CtrlStart => None
  end.

(** ** Which calls a program can make *)

Definition event_pred := ∀ X, event X → bool.

(** Every call of [p], whatever the answers, satisfies [P]. *)
Fixpoint within (P : event_pred) {A} (p : prog A) : Prop :=
  match p with
  | Vis e k => P _ e = true ∧ ∀ x, within P (k x)
  | _ => True
  end.

Lemma within_bind P {A B} (p : prog A) (f : A → prog B) :
  within P p → (∀ a, within P (f a)) → within P (bind p f).
Proof.
  intros Hp Hf. induction p as [a|X e k IH|m|]; simpl in *; [done| |done..].
  split; [apply Hp|]. intros x. apply IH, Hp.
Qed.

Lemma within_mono (P Q : event_pred) {A} (p : prog A) :
  (∀ Y (e : event Y), P Y e = true → Q Y e = true) → within P p → within Q p.
Proof.
  intros H. induction p as [a|Y e k IH|m|]; simpl; try done. intros [He Hk]. split; [by apply H|].
  intros x. by apply IH.
Qed.

Lemma within_loop P {T A} (body : T → prog (T + A)) n s :
  (∀ s, within P (body s)) → within P (loop n body s).
Proof.
  intros Hb. revert s. induction n as [|n IH]; intros s; simpl; [done|].
  apply within_bind; [done|]. by intros [s'|a].
Qed.

Lemma within_for_each P {T A} (l : list T) (body : T → prog (option A)) (k : prog A) :
  (∀ x, within P (body x)) → within P k → within P (for_each l body k).
Proof.
  intros Hb Hk. induction l as [|x l IH]; simpl; [done|]. apply within_bind; [done|]. by intros [a|].
Qed.

Lemma within_with_mutex (P : event_pred) {A} i (p : prog A) :
  P _ (MutexLock i) = true → P _ (MutexUnlock i) = true → within P p →
  within P (with_mutex i p).
Proof.
  intros Hl Hu Hp. split; [done|]. intros _. induction p as [a|X e k IH|m|]; simpl in *;
    [by split| |by split|done].
  split; [apply Hp|]. intros x. apply IH, Hp.
Qed.

Lemma within_defer (P : event_pred) {A X} (e : event X) (p : prog A) :
  P _ e = true → within P p → within P (defer e p).
Proof.
  intros He Hp. induction p as [a|Y e' k IH|m|]; simpl in *; [by split| |by split|done].
  split; [apply Hp|]. intros x. apply IH, Hp.
Qed.

(** A trace that grew by calls satisfying [P]. *)
Definition extends (P : event_pred) (tr tr' : trace) : Prop :=
  ∃ new, tr' = new ++ tr ∧ Forall (on_call (λ X e _, P X e = true)) new.

#[export] Instance extends_preorder P : PreOrder (extends P).
Proof.
  split; [by exists []|]. intros tr1 tr2 tr3 (n1 & -> & H1) (n2 & -> & H2).
  exists (n2 ++ n1). rewrite <-app_assoc. split; [done|]. by apply Forall_app.
Qed.

Lemma extends_call P {X} (e : event X) x tr tr' :
  P X e = true → extends P (Call e x :: tr) tr' → extends P tr tr'.
Proof.
  intros He H. etrans; [|exact H]. exists [Call e x]. split; [done|]. by apply Forall_singleton.
Qed.

Lemma extends_mono (P Q : event_pred) tr tr' :
  (∀ X (e : event X), P X e = true → Q X e = true) → extends P tr tr' → extends Q tr tr'.
Proof.
  intros H (new & -> & Hn). exists new. split; [done|]. eapply Forall_impl; [exact Hn|].
  intros [X e x]. apply H.
Qed.

Lemma extends_happened P Q tr tr' : extends P tr tr' → happened Q tr → happened Q tr'.
Proof. intros (new & -> & _) H. apply Exists_app. by right. Qed.

Lemma extends_guarded P (R : guard) tr tr' :
  (∀ X (e : event X) x tr, P X e = true → R X e x tr) →
  extends P tr tr' → guarded R tr → guarded R tr'.
Proof.
  intros HR (new & -> & Hn) Hg. induction Hn as [|[X e x] new Hc _ IH]; [done|].
  split; [by apply HR|done].
Qed.

Lemma wp_within E P {A} (p : prog A) tr : within P p → wp E p tr (λ _ tr', extends P tr tr').
Proof.
  revert tr. induction p as [a|X e k IH|m|]; intros tr Hp; simpl in *; try done.
  intros x _. eapply wp_mono; [|apply IH, Hp]. intros o tr' H. eapply extends_call; [apply Hp|exact H].
Qed.

(** A call answered as [Q] says happened in every extension of its trace. *)
Lemma happened_here (Q : call_pred) {X} (e : event X) x tr :
  Q X e x → happened Q (Call e x :: tr).
Proof. intros H. by left. Qed.
Lemma happened_later (Q : call_pred) c tr : happened Q tr → happened Q (c :: tr).
Proof. intros H. by right. Qed.
#[export] Hint Resolve happened_later : go.

(** What happened before a program has happened after it. *)
Lemma wp_keeps E (Q : call_pred) {A} (p : prog A) tr :
  happened Q tr → wp E p tr (λ _ tr', happened Q tr').
Proof.
  revert tr. induction p as [a|X e k IH|m|]; intros tr H; simpl; [done| |done..].
  intros x _. by apply IH, happened_later.
Qed.

(** A program only adds to the trace. *)
Lemma wp_suffix E {A} (p : prog A) tr : wp E p tr (λ _ tr', ∃ new, tr' = new ++ tr).
Proof.
  revert tr. induction p as [a|X e k IH|m|]; intros tr; simpl; [by exists []| |by exists []..].
  intros x _. eapply wp_mono; [|apply IH]. intros o tr' (new & ->).
  exists (new ++ [Call e x]). by rewrite <-app_assoc.
Qed.

(** A program whose result does not matter. *)
Lemma wp_skip E {A B} (p : prog A) (f : A → prog B) tr (Q : outcome B → trace → Prop) :
  (∀ tr m, Q (Panicked m) tr) → (∀ tr, Q Diverged tr) → (∀ a tr, wp E (f a) tr Q) →
  wp E (bind p f) tr Q.
Proof.
  intros HP HD Hf. revert tr. induction p as [a|X e k IH|m|]; intros tr; simpl; auto.
Qed.

(** Closes [within P p]: a compound program is taken apart, a call is tested. *)
Ltac within_run :=
  repeat match goal with
  | |- within _ (bind _ _) => apply within_bind; [|intros ?]
  | |- within _ (loop _ _ _) => apply within_loop; intros ?
  | |- within _ (for_each _ _ _) => apply within_for_each; [intros ?|]
  | |- within _ (with_mutex _ _) => apply within_with_mutex; [done..|]
  | |- within _ (defer _ _) => apply within_defer; [done|]
  | |- within _ (call _) => split; [reflexivity|intros ?]
  | |- within _ (Ret _) => exact I
  | |- within _ (Panic _) => exact I
  | |- within _ OutOfFuel => exact I
  | |- within _ (match ?x with _ => _ end) => destruct x
  | |- within _ _ => progress cbv beta iota zeta
  | |- within _ _ => progress autounfold with go
  | |- within _ _ => solve [auto with go]
  end.

(** ** What a program can return *)

(** Every value [p] can return satisfies [Q], whatever the answers. *)
Fixpoint yields {A} (Q : A → Prop) (p : prog A) : Prop :=
  match p with
  | Ret a => Q a
  | Vis e k => ∀ x, yields Q (k x)
  | _ => True
  end.

Lemma yields_bind {A B} (Q : B → Prop) (p : prog A) (f : A → prog B) :
  (∀ a, yields Q (f a)) → yields Q (bind p f).
Proof. intros Hf. induction p as [a|X e k IH|m|]; simpl; auto. Qed.

Lemma yields_seq {A B} (P : A → Prop) (Q : B → Prop) (p : prog A) (f : A → prog B) :
  yields P p → (∀ a, P a → yields Q (f a)) → yields Q (bind p f).
Proof. intros Hp Hf. induction p as [a|X e k IH|m|]; simpl in *; auto. Qed.

(** What a program may call, given what its first part returns. *)
Lemma within_seq E {A B} (P : A → Prop) (p : prog A) (f : A → prog B) :
  yields P p → within E p → (∀ a, P a → within E (f a)) → within E (bind p f).
Proof.
  intros Hp Hw Hf. induction p as [a|X e k IH|m|]; simpl in *; [auto| |done..].
  split; [apply Hw|]. intros x. apply IH; [apply Hp|apply Hw].
Qed.

Lemma yields_loop {T A} (Q : A → Prop) (body : T → prog (T + A)) n s :
  (∀ s, yields (λ r, match r with inr a => Q a | inl _ => True end) (body s)) →
  yields Q (loop n body s).
Proof.
  intros Hb. revert s. induction n as [|n IH]; intros s; simpl; [done|]. specialize (Hb s).
  induction (body s) as [[s'|a]|X e k IHk|m|]; simpl in *; auto.
Qed.

Lemma yields_with_mutex {A} (Q : A → Prop) i (p : prog A) : yields Q p → yields Q (with_mutex i p).
Proof. intros Hp _. induction p as [a|X e k IH|m|]; simpl in *; auto. Qed.

Lemma wp_yields E {A} (Q : A → Prop) (p : prog A) tr :
  yields Q p → wp E p tr (λ o _, match o with Done a => Q a | _ => True end).
Proof. revert tr. induction p as [a|X e k IH|m|]; intros tr Hp; simpl in *; auto. Qed.

Lemma yields_wp {A} (Q : A → Prop) (p : prog A) tr :
  wp any_env p tr (λ o _, ∀ a, o = Done a → Q a) → yields Q p.
Proof.
  revert tr. induction p as [a|X e k IH|m|]; intros tr; simpl; [by intros H; apply H| |done..].
  intros H x. by eapply IH, H.
Qed.

(** ** Locks *)

Definition lock_free : event_pred := λ X e,
  match e with MutexLock _ | MutexUnlock _ => false | _ => true end.

(** Whether the lock [i] is held after a trace. *)
Fixpoint locked (i : Z) (tr : trace) : bool :=
  match tr with
  | [] => false
  | Call (MutexLock j) _ :: tr => bool_decide (i = j) || locked i tr
  | Call (MutexUnlock j) _ :: tr => bool_decide (i ≠ j) && locked i tr
  | _ :: tr => locked i tr
  end.

(** The calls that [P] does not accept are made with the lock held. *)
Definition under_lock (i : Z) (P : event_pred) : guard := λ X e _ tr,
  P X e = true ∨ locked i tr = true.

Lemma locked_extends i tr tr' : extends lock_free tr tr' → locked i tr' = locked i tr.
Proof.
  intros (new & -> & Hn). induction Hn as [|[X e x] new Hc _ IH]; [done|]. by destruct e.
Qed.

(** A program that takes no locks, run under a lock. *)
Lemma wp_with_mutex E i (P : event_pred) {A} (p : prog A) tr :
  (∀ j, P _ (MutexLock j) = true) → (∀ j, P _ (MutexUnlock j) = true) →
  within lock_free p → guarded (under_lock i P) tr →
  wp E (with_mutex i p) tr (λ o tr',
    guarded (under_lock i P) tr' ∧ (o ≠ Diverged → locked i tr' = false)).
Proof.
  intros HL HU Hp Hg. cbn [with_mutex wp]. intros x _. apply wp_with_unlock.
  assert (guarded (under_lock i P) (Call (MutexLock i) x :: tr)) as Hg'.
  { split; [left; apply HL|done]. }
  assert (locked i (Call (MutexLock i) x :: tr) = true) as Hl.
  { cbn. by rewrite bool_decide_eq_true_2. }
  revert Hg' Hl. generalize (Call (MutexLock i) x :: tr). clear x tr Hg.
  induction p as [a|X e k IH|m|]; intros tr Hg Hl; cbn [wp within] in *.
  - intros _. split; [split; [left; apply HU|done]|]. intros _. cbn.
    by rewrite bool_decide_eq_false_2 by auto.
  - destruct Hp as [He Hp]. intros x _. apply IH; [apply Hp|split; [by right|done]|].
    by destruct e.
  - intros _. split; [split; [left; apply HU|done]|]. intros _. cbn.
    by rewrite bool_decide_eq_false_2 by auto.
  - by split.
Qed.

(** A guard that says nothing about locks goes through [with_mutex]. *)
Lemma guarded_with_mutex E i (R : guard) {A} (p : prog A) tr :
  (∀ x tr, R _ (MutexLock i) x tr) → (∀ x tr, R _ (MutexUnlock i) x tr) → guarded R tr →
  (∀ tr, guarded R tr → wp E p tr (λ _ tr', guarded R tr')) →
  wp E (with_mutex i p) tr (λ _ tr', guarded R tr').
Proof.
  intros HL HU Hg Hp. cbn [with_mutex wp]. intros x _. apply wp_with_unlock.
  eapply wp_mono; [|apply Hp; by split; [apply HL|]].
  intros [a|m|] tr' Hg'; [intros _; split; [apply HU|done]..|done].
Qed.

(** ** Automation: run [wp] symbolically, splitting on every answer. *)
Ltac wp_step :=
  match goal with
  | |- wp _ (bind _ _) _ _ => apply wp_bind_intro
  | |- wp _ (call _) _ _ => unfold call
  | |- wp _ (Vis _ _) _ _ => cbn [wp]; let x := fresh "x" in intros x _
  | |- wp _ (Ret _) _ _ => cbn [wp]
  | |- wp _ (Panic _) _ _ => cbn [wp]
  | |- wp _ (match ?x with _ => _ end) _ _ => destruct x eqn:?
  end.
Ltac wp_run := repeat (wp_step; cbv beta iota).
