(* ===== verification/Interleave.v ===== *)
(** * Interleave: requests that run concurrently

    A pool of programs that share a state: each step makes the next call of one
    of them.  The calls on the shared state are answered by it, all others in
    any way.  [TryLock] is the interface of a state with locks that are tried
    and released, and [pool_exclusive] is what it promises: threads that release
    only what they hold exclude each other. *)

From S2P Require Import Prelude Effects.

(** ** The current trace *)

(** What is guarded at the end of every run is guarded now. *)
Lemma wp_guarded_now (R : guard) {A} (p : prog A) tr :
  wp any_env p tr (λ _ tr', guarded R tr') → guarded R tr.
Proof.
  revert tr. induction p as [a|X e k IH|m|]; intros tr H; cbn [wp] in H; [done| |done..].
  specialize (H (quiet e) I). apply IH in H. by destruct H.
Qed.

(** ** Locks that are tried *)

Class TryLock (S : Type) := {
  (** the answer of the shared state to its own calls *)
  shared : ∀ X, event X → S → option (X * S);
  (** the locks that are held *)
  held : S → gset string;
  (** a call that took a lock ([true]) or gave it back ([false]) *)
  lock_change : ∀ X, event X → X → option (string * bool);
  shared_take X (e : event X) s x s' p :
    shared X e s = Some (x, s') → lock_change X e x = Some (p, true) →
    p ∉ held s ∧ held s' = {[ p ]} ∪ held s;
  shared_give X (e : event X) s x s' p :
    shared X e s = Some (x, s') → lock_change X e x = Some (p, false) →
    held s' = held s ∖ {[ p ]};
  shared_other X (e : event X) s x s' :
    shared X e s = Some (x, s') → lock_change X e x = None → held s' = held s;
  not_shared X (e : event X) s x : shared X e s = None → lock_change X e x = None
}.
Arguments shared {S _ X} e s : rename.
Arguments lock_change {S _ X} e x : rename.

Section pool.
Context {S : Type} {L : TryLock S} {A : Type}.

(** Whether a thread holds the lock [p] after its calls. *)
Fixpoint holds (p : string) (tr : trace) : bool :=
  match tr with
  | [] => false
  | Call e x :: tr =>
      match lock_change e x with
      | Some (q, b) => if decide (p = q) then b else holds p tr
      | None => holds p tr
      end
  end.

(** A lock is given back only by who holds it. *)
Definition release_own : guard := λ X e x tr,
  ∀ p, lock_change e x = Some (p, false) → holds p tr = true.

Definition disciplined (p : prog A) : Prop :=
  wp any_env p [] (λ _ tr, guarded release_own tr).

Definition thread : Type := prog A * trace.
Definition pool : Type := S * list thread.

Inductive pool_step : pool → pool → Prop :=
  | step_shared i X (e : event X) k tr x s s' ths :
      ths !! i = Some (Vis e k, tr) → shared e s = Some (x, s') →
      pool_step (s, ths) (s', <[i := (k x, Call e x :: tr)]> ths)
  | step_free i X (e : event X) k tr x s ths :
      ths !! i = Some (Vis e k, tr) → shared e s = None →
      pool_step (s, ths) (s, <[i := (k x, Call e x :: tr)]> ths).

Definition start (ps : list (prog A)) : list thread := (λ p, (p, [])) <$> ps.

(** Two threads never hold the same lock. *)
Definition exclusive (ths : list thread) : Prop :=
  ∀ i j p t u, ths !! i = Some t → ths !! j = Some u →
    holds p t.2 = true → holds p u.2 = true → i = j.

Definition pool_inv (st : pool) : Prop :=
  (∀ p, p ∈ held st.1 ↔ ∃ i t, st.2 !! i = Some t ∧ holds p t.2 = true) ∧ exclusive st.2.

(** ** Threads keep what is guarded *)

Lemma step_guarded R st st' :
  pool_step st st' →
  Forall (λ t : thread, wp any_env t.1 t.2 (λ _ tr, guarded R tr)) st.2 →
  Forall (λ t : thread, wp any_env t.1 t.2 (λ _ tr, guarded R tr)) st'.2.
Proof.
  intros Hs H. destruct Hs as [i X e k tr x s s' ths Hi Hx|i X e k tr x s ths Hi Hx];
    cbn [snd] in *; apply Forall_insert; try done;
    apply (Forall_lookup_1 _ _ _ _ H) in Hi; by apply Hi.
Qed.

Lemma pool_guarded R ps s st :
  Forall (λ p, wp any_env p [] (λ _ tr, guarded R tr)) ps →
  rtc pool_step (s, start ps) st →
  Forall (λ t : thread, guarded R t.2) st.2.
Proof.
  intros Hps Hr.
  assert (Forall (λ t : thread, wp any_env t.1 t.2 (λ _ tr, guarded R tr)) (start ps)) as H.
  { apply Forall_fmap. eapply Forall_impl; [exact Hps|]. done. }
  remember (s, start ps) as st0 eqn:E. assert (st0.2 = start ps) as E2 by (by subst).
  rewrite <-E2 in H. clear E E2. induction Hr as [st|st1 st2 st3 Hs _ IH].
  - eapply Forall_impl; [exact H|]. intros t. apply wp_guarded_now.
  - apply IH. by eapply step_guarded.
Qed.

(** The same with a guard for each request that is served. *)
Lemma pool_guarded_each {Req} (R : Req → guard) (serve : Req → prog A) reqs s st :
  (∀ r, wp any_env (serve r) [] (λ _ tr, guarded (R r) tr)) →
  rtc pool_step (s, start (serve <$> reqs)) st →
  Forall2 (λ r (t : thread), guarded (R r) t.2) reqs st.2.
Proof.
  intros Hps Hr.
  assert (Forall2 (λ r (t : thread), wp any_env t.1 t.2 (λ _ tr, guarded (R r) tr)) reqs
    (start (serve <$> reqs))) as H.
  { unfold start. rewrite <-list_fmap_compose. apply Forall2_fmap_r, Forall_Forall2_diag, Forall_true.
    exact Hps. }
  remember (s, start (serve <$> reqs)) as st0 eqn:E.
  assert (st0.2 = start (serve <$> reqs)) as E2 by (by subst).
  rewrite <-E2 in H. clear E E2. induction Hr as [st|st1 st2 st3 Hs _ IH].
  - eapply Forall2_impl; [exact H|]. intros r t. apply wp_guarded_now.
  - apply IH. clear IH. destruct Hs as [i X e k tr x s1 s2 ths Hi Hx|i X e k tr x s1 ths Hi Hx];
      cbn [snd] in *; destruct (Forall2_lookup_r _ _ _ _ _ H Hi) as (r & Hri & Hw);
      rewrite <-(list_insert_id reqs i r Hri); apply Forall2_insert; [done|by apply Hw|done|by apply Hw].
Qed.

(** ** One step keeps the locks apart *)

(** A thread whose locks do not change, with the same locks held. *)
Lemma inv_same s s' ths i p tr p' tr' :
  ths !! i = Some (p, tr) → held s' = held s → (∀ q, holds q tr' = holds q tr) →
  pool_inv (s, ths) → pool_inv (s', <[i := (p', tr')]> ths).
Proof.
  intros Hi Hh Hq [H1 H2]. assert (∀ j t, <[i := (p', tr')]> ths !! j = Some t →
    ∃ u, ths !! j = Some u ∧ ∀ q, holds q t.2 = holds q u.2) as Hback.
  { intros j t Hj. destruct (decide (i = j)) as [<-|Hne].
    - rewrite list_lookup_insert_eq in Hj by (by eapply lookup_lt_Some). injection Hj as <-. eauto.
    - rewrite list_lookup_insert_ne in Hj by done. eauto. }
  split; cbn [fst snd] in *.
  - intros q. rewrite Hh, H1. split.
    + intros (j & u & Hj & Hu). destruct (decide (i = j)) as [<-|Hne].
      * exists i, (p', tr'). rewrite Hi in Hj. injection Hj as <-. split; [|by rewrite Hq].
        apply list_lookup_insert_eq. by eapply lookup_lt_Some.
      * exists j, u. by rewrite list_lookup_insert_ne.
    + intros (j & t & Hj & Ht). destruct (Hback j t Hj) as (u & Hu & E).
      exists j, u. by rewrite <-E.
  - intros j1 j2 q t1 t2 Hj1 Hj2 Ht1 Ht2.
    destruct (Hback j1 t1 Hj1) as (u1 & Hu1 & E1), (Hback j2 t2 Hj2) as (u2 & Hu2 & E2).
    eapply H2; [exact Hu1|exact Hu2|by rewrite <-E1|by rewrite <-E2].
Qed.

(** The thread's own lock [q] changed to [b], the others did not. *)
Lemma holds_change X (e : event X) x tr q b :
  lock_change e x = Some (q, b) →
  ∀ r, holds r (Call e x :: tr) = if decide (r = q) then b else holds r tr.
Proof. intros H r. cbn. by rewrite H. Qed.

Lemma lookup_other (ths : list thread) i j (t u : thread) :
  <[i := t]> ths !! j = Some u → (i = j ∧ u = t) ∨ (i ≠ j ∧ ths !! j = Some u).
Proof.
  intros H. destruct (decide (i = j)) as [<-|Hne]; [left|right].
  - destruct (decide (i < length ths)) as [Hl|Hl].
    + rewrite list_lookup_insert_eq in H by done. by injection H as <-.
    + rewrite list_insert_ge in H by lia. apply lookup_lt_Some in H. lia.
  - by rewrite list_lookup_insert_ne in H.
Qed.

Lemma inv_take s s' ths i X (e : event X) k tr x q :
  ths !! i = Some (Vis e k, tr) → lock_change e x = Some (q, true) →
  q ∉ held s → held s' = {[ q ]} ∪ held s →
  pool_inv (s, ths) → pool_inv (s', <[i := (k x, Call e x :: tr)]> ths).
Proof.
  intros Hi Hc Hq Hh [H1 H2]. cbn [fst snd] in *.
  assert (∀ j u, ths !! j = Some u → holds q u.2 = false) as Hfree.
  { intros j u Hj. apply not_true_is_false. intros Hu. apply Hq, H1. eauto. }
  assert (i < length ths) as Hlen by (by eapply lookup_lt_Some).
  split; cbn [fst snd].
  - intros r. rewrite Hh, elem_of_union, elem_of_singleton, H1. split.
    + intros [-> |(j & u & Hj & Hu)].
      * exists i, (k x, Call e x :: tr). rewrite list_lookup_insert_eq by done. split; [done|].
        cbn [snd]. by rewrite (holds_change _ _ _ _ _ _ Hc), decide_True.
      * destruct (decide (i = j)) as [<-|Hne]; [|exists j, u; by rewrite list_lookup_insert_ne].
        exists i, (k x, Call e x :: tr). rewrite list_lookup_insert_eq by done. split; [done|].
        rewrite Hi in Hj. injection Hj as <-.
        cbn [snd] in *. rewrite (holds_change _ _ _ _ _ _ Hc). by case_decide.
    + intros (j & t & Hj & Ht). apply lookup_other in Hj as [[-> ->]|[Hne Hj]]; [|right; eauto].
      cbn [snd] in Ht. rewrite (holds_change _ _ _ _ _ _ Hc) in Ht. case_decide; [by left|]. right. eauto.
  - intros j1 j2 r t1 t2 Hj1 Hj2 Ht1 Ht2.
    apply lookup_other in Hj1 as [[<- ->]|[Hn1 Hj1]], Hj2 as [[<- ->]|[Hn2 Hj2]]; [done| | |by eauto].
    + cbn [snd] in Ht1. rewrite (holds_change _ _ _ _ _ _ Hc) in Ht1. case_decide; subst.
      * by rewrite (Hfree _ _ Hj2) in Ht2.
      * by eapply H2.
    + cbn [snd] in Ht2. rewrite (holds_change _ _ _ _ _ _ Hc) in Ht2. case_decide; subst.
      * by rewrite (Hfree _ _ Hj1) in Ht1.
      * by eapply H2.
Qed.

Lemma inv_give s s' ths i X (e : event X) k tr x q :
  ths !! i = Some (Vis e k, tr) → lock_change e x = Some (q, false) → holds q tr = true →
  held s' = held s ∖ {[ q ]} →
  pool_inv (s, ths) → pool_inv (s', <[i := (k x, Call e x :: tr)]> ths).
Proof.
  intros Hi Hc Hq Hh [H1 H2]. cbn [fst snd] in *.
  assert (i < length ths) as Hlen by (by eapply lookup_lt_Some).
  assert (∀ r, holds r (Call e x :: tr) = true → holds r tr = true ∧ r ≠ q) as Hsub.
  { intros r. rewrite (holds_change _ _ _ _ _ _ Hc). by case_decide. }
  split; cbn [fst snd].
  - intros r. rewrite Hh, elem_of_difference, elem_of_singleton, H1. split.
    + intros [(j & u & Hj & Hu) Hr]. destruct (decide (i = j)) as [<-|Hne].
      * exists i, (k x, Call e x :: tr). rewrite list_lookup_insert_eq by done. split; [done|].
        rewrite Hi in Hj. injection Hj as <-. cbn [snd] in *. by rewrite (holds_change _ _ _ _ _ _ Hc), decide_False.
      * exists j, u. by rewrite list_lookup_insert_ne.
    + intros (j & t & Hj & Ht). apply lookup_other in Hj as [[<- ->]|[Hne Hj]].
      * apply Hsub in Ht as [Ht Hr]. split; [|done]. eauto.
      * split; [eauto|]. intros ->. by apply Hne, (H2 i j q (Vis e k, tr) t).
  - intros j1 j2 r t1 t2 Hj1 Hj2 Ht1 Ht2.
    apply lookup_other in Hj1 as [[<- ->]|[Hn1 Hj1]], Hj2 as [[<- ->]|[Hn2 Hj2]]; [done| | |by eauto].
    + apply Hsub in Ht1 as [Ht1 _]. by eapply H2.
    + apply Hsub in Ht2 as [Ht2 _]. by eapply H2.
Qed.

Lemma pool_step_inv st st' :
  pool_step st st' →
  Forall (λ t : thread, wp any_env t.1 t.2 (λ _ tr, guarded release_own tr)) st.2 →
  pool_inv st → pool_inv st'.
Proof.
  intros Hs Hd Hinv. destruct Hs as [i X e k tr x s s' ths Hi Hx|i X e k tr x s ths Hi Hx].
  - destruct (lock_change e x) as [[q []]|] eqn:Hc.
    + destruct (shared_take _ _ _ _ _ _ Hx Hc). by eapply inv_take.
    + eapply inv_give; [done|done| |by eapply shared_give|done].
      apply (Forall_lookup_1 _ _ _ _ Hd) in Hi. specialize (Hi x I).
      apply wp_guarded_now in Hi. by apply Hi.
    + eapply inv_same; [exact Hi|by eapply shared_other| |done]. intros q. cbn. by rewrite Hc.
  - eapply inv_same; [exact Hi|done| |done]. intros q. cbn. by rewrite (not_shared _ _ _ _ Hx).
Qed.

(** Threads that release only their own locks exclude each other, in every
    state they can reach together. *)
Lemma pool_exclusive ps s st :
  held s = ∅ → Forall disciplined ps → rtc pool_step (s, start ps) st → exclusive st.2.
Proof.
  intros Hs Hps Hr.
  assert (Forall (λ t : thread, wp any_env t.1 t.2 (λ _ tr, guarded release_own tr)) (start ps)) as Hd.
  { apply Forall_fmap. eapply Forall_impl; [exact Hps|]. done. }
  assert (∀ i t, start ps !! i = Some t → ∀ q, holds q t.2 = false) as H0.
  { intros i t Hi q. apply list_lookup_fmap_Some in Hi as (p & -> & _). done. }
  assert (pool_inv (s, start ps)) as Hi.
  { split; cbn [fst snd].
    - intros q. rewrite Hs. split; [set_solver|]. intros (i & t & Hi & Ht). by rewrite (H0 _ _ Hi) in Ht.
    - intros i j q t u Ht Hu Hq _. by rewrite (H0 _ _ Ht) in Hq. }
  clear Hs Hps H0. remember (s, start ps) as st0 eqn:E.
  assert (st0.2 = start ps) as E2 by (by subst). rewrite <-E2 in Hd. clear E E2.
  induction Hr as [st|st1 st2 st3 Hs _ IH]; [apply Hi|].
  apply IH; [by eapply step_guarded|by eapply pool_step_inv].
Qed.

(** ** Running a schedule *)

(** The threads take their steps in the order of the schedule; a call that is not
    on the shared state gets its quiet answer. *)
Definition turn (i : nat) (st : pool) : option pool :=
  match st.2 !! i with
  | Some (Vis e k, tr) =>
      Some match shared e st.1 with
           | Some (x, s') => (s', <[i := (k x, Call e x :: tr)]> st.2)
           | None => (st.1, <[i := (k (quiet e), Call e (quiet e) :: tr)]> st.2)
           end
  | _ => None
  end.
Fixpoint schedule (l : list nat) (st : pool) : option pool :=
  match l with
  | [] => Some st
  | i :: l => st' ← turn i st; schedule l st'
  end.

Lemma turn_step i st st' : turn i st = Some st' → pool_step st st'.
Proof.
  destruct st as [s ths]. unfold turn. cbn [fst snd].
  destruct (ths !! i) as [[[a|X e k|m|] tr]|] eqn:Hi; try done.
  destruct (shared e s) as [[x s']|] eqn:Hs; intros [= <-].
  - by eapply (step_shared i).
  - by eapply (step_free i).
Qed.

Lemma schedule_reachable l st st' : schedule l st = Some st' → rtc pool_step st st'.
Proof.
  revert st. induction l as [|i l IH]; intros st; cbn; [intros [= <-]; apply rtc_refl|].
  destruct (turn i st) as [st1|] eqn:Ht; [|done]. intros H.
  eapply rtc_l; [by apply (turn_step i)|by apply IH].
Qed.

(** What a schedule ends in. *)
Lemma schedule_ends {B} (f : pool → B) (P : pool → Prop) l st b :
  f <$> schedule l st = Some b → (∀ st', rtc pool_step st st' → P st') →
  ∃ st', schedule l st = Some st' ∧ f st' = b ∧ P st'.
Proof.
  intros (st' & E & Hs)%fmap_Some HP. exists st'. split_and!; [done..|].
  by apply HP, (schedule_reachable l).
Qed.
End pool.
