(* ===== verification/Config.v ===== *)
(** * Config: the constants, the package variables and the settings

    [src/pkg/config/config.go] and the types of
    [src/pkg/config/dfs_setting.go].  The package variables are set once, from
    flags and the environment, before the services start: they are the fields
    of the class [Globals], and the fields of [Ext] are the pure functions of
    third-party packages the driver calls. *)

From S2P Require Import Prelude GoStrings Objects Effects.

(** ** Constants of config.go *)

Module config.
Definition CSINodeLabelKey : string := "app".
Definition CSINodeLabelValue : string := "dingofs-csi-node".
Definition PodTypeKey : string := "app.kubernetes.io/name".
Definition PodTypeValue : string := "dingofs-mount".
Definition JobTypeKey : string := "batch.kubernetes.io/name".
Definition JobTypeValue : string := "dingofs-job".
Definition PodVolumeIdLabelKey : string := "volume-id".
Definition PodHashLabelKey : string := "dingofs-hash".
Definition PodUniqueIdLabelKey : string := "pod-uniqueid".
Definition DingoFSID : string := "dingfs-fsid".
Definition UniqueId : string := "dingofs-uniqueid".
Definition DeleteDelayTimeKey : string := "dingofs-delete-delay".
Definition DeleteDelayAtKey : string := "dingofs-delete-at".
Definition PodMountBase : string := "/dfs".
Definition PodInfoName : string := "csi.storage.k8s.io/pod.name".
Definition PodInfoNamespace : string := "csi.storage.k8s.io/pod.namespace".
Definition MountContainerName : string := "dfs-mount".
Definition MdsAddrKey : string := "mdsOpt_rpcRetryOpt_addrs".
Definition DefaultMountPodCpuLimit : string := "4000m".
Definition DefaultMountPodMemLimit : string := "12Gi".
Definition DefaultMountPodCpuRequest : string := "2000m".
Definition DefaultMountPodMemRequest : string := "6Gi".
Definition MountPodCpuLimitKey : string := "dingofs/mount-cpu-limit".
Definition MountPodMemLimitKey : string := "dingofs/mount-memory-limit".
Definition MountPodCpuRequestKey : string := "dingofs/mount-cpu-request".
Definition MountPodMemRequestKey : string := "dingofs/mount-memory-request".
Definition MountPodLabelKey : string := "dingofs/mount-labels".
Definition MountPodAnnotationKey : string := "dingofs/mount-annotations".
Definition MountPodServiceAccount : string := "dingofs/mount-service-account".
Definition MountPodImageKey : string := "dingofs/mount-image".
Definition CleanCacheKey : string := "dingofs/clean-cache".
Definition DeleteDelay : string := "dingofs/mount-delete-delay".
Definition MountPodHostPath : string := "dingofs/host-path".
Definition DfsInsideContainer : string := "DFS_INSIDE_CONTAINER".
Definition Finalizer : string := "dingofs.com/finalizer".
Definition CleanCache : string := "dingofs-clean-cache".
Definition ROConfPath : string := "/etc/dingofs".
Definition DfsDirName : string := "dfs-dir".
Definition UpdateDBDirName : string := "updatedb".
Definition UpdateDBCfgFile : string := "/etc/updatedb.conf".
Definition DfsFuseFdPathName : string := "dfs-fuse-fd".
Definition DfsFuseFsPathInPod : string := "/tmp".
Definition DfsFuseFsPathInHost : string := "/var/run/dingofs-csi".
Definition DfsCommEnv : string := "DFS_SUPER_COMM".
Definition DefaultBootstrapPath : string := "/scripts".
Definition DefaultBootstrapShell : string := "mountpoint.sh".
Definition DefaultClientConfPath : string := "/dingofs/conf/client.conf".
Definition DfsCMDPath : string := "/usr/bin/dingo".
Definition DfsFuseCMDPath : string := "/dingofs/client/sbin/dingo-fuse".
Definition TmpPodMountBase : string := "/tmp".
Definition DingofsSecretLabelKey : string := "dingofs/secret".
Definition WebhookName : string := "dingofs-admission-webhook".
Definition True : string := "true".
Definition False : string := "false".
Definition ProvisionerSecretName : string := "csi.storage.k8s.io/provisioner-secret-name".
Definition ProvisionerSecretNamespace : string := "csi.storage.k8s.io/provisioner-secret-namespace".
Definition PublishSecretName : string := "csi.storage.k8s.io/node-publish-secret-name".
Definition PublishSecretNamespace : string := "csi.storage.k8s.io/node-publish-secret-namespace".
Definition ControllerExpandSecretName : string := "csi.storage.k8s.io/controller-expand-secret-name".
Definition ControllerExpandSecretNamespace : string := "csi.storage.k8s.io/controller-expand-secret-namespace".
Definition DefaultS3LogPrefixKey : string := "s3.logPrefix".
Definition DefaultS3LogPrefixVal : string := "/dingofs/client/logs".
Definition DefaultClientCommonLogDirKey : string := "client.common.logDir".
Definition DefaultClientCommonLogDirVal : string := "/dingofs/client/logs".
Definition HostContainerDir : string := "/host".
Definition DefaultHostDfsPath : string := "/dingofs".
Definition inject : string := ".dingofs.com/inject".
Definition injectSidecar : string := ".sidecar" +:+ inject.
Definition InjectSidecarDone : string := "done" +:+ injectSidecar.
Definition InjectSidecarDisable : string := "disable" +:+ injectSidecar.
Definition DefaultCheckTimeout : Z := 2 * Second.
Definition ResyncPeriod : Z := 1000 * Millisecond.
Definition MountPathLength : nat := 6.

Definition ReconcileTimeout : Z := 5 * Minute.
Definition ReconcilerInterval : Z := 5.
Definition SecretReconcilerInterval : Z := 1 * Hour.
End config.

(** [FORMAT_FUSE_ARGS], joined by blanks and applied to its four arguments. *)
Definition fuse_args (fsname fstype conf mountPath : string) : string :=
  Join ["-f"; "-o default_permissions"; "-o allow_other"; "-o fsname=" +:+ fsname;
        "-o fstype=" +:+ fstype; "-o user=dingofs"; "-o conf=" +:+ conf; mountPath] " ".

(** ** Package variables

    Two long shell scripts that the driver only copies into a config map and a
    secret, [script.SHELL_MOUNT_POINT] and [checkMountScriptContent] (after its
    replacer), are carried here too. *)
Class Globals := MkGlobals {
  DriverName : string;
  NodeName : string;
  Namespace : string;
  HostIp : string;
  KubeletPort : string;
  CSIPod : Pod;
  MountManager : bool;
  Immutable : bool;
  Provisioner : bool;
  CacheClientConf : bool;
  LocalPV : bool;
  DFSConfigPath : string;
  DFSMountPriorityName : string;
  DFSMountPreemptionPolicy : string;
  DefaultMountImage : string;
  MountPointPath : string;
  HostDirPath : string;
  enableAPIServerListCache : bool;
  ReconcileTimeout : Z;
  SecretReconcilerInterval : Z;
  SHELL_MOUNT_POINT : string;
  checkMountScript : string
}.

(** ** The settings of a volume *)

(** [CachePVC]. *)
Record CachePVC := MkCachePVC {
  cp_PVCName : string;
  cp_Path : string
}.
#[export] Instance CachePVC_eq_dec : EqDecision CachePVC.
Proof. solve_decision. Defined.

(** [CacheInlineVolume]: the CSI source stays a token. *)
Record CacheInlineVolume := MkCacheInlineVolume {
  ci_CSI : string;
  ci_Path : string
}.
#[export] Instance CacheInlineVolume_eq_dec : EqDecision CacheInlineVolume.
Proof. solve_decision. Defined.

(** [CacheEmptyDir]. *)
Record CacheEmptyDir := MkCacheEmptyDir {
  ce_Medium : string;
  ce_SizeLimit : Z;
  ce_Path : string
}.
#[export] Instance CacheEmptyDir_eq_dec : EqDecision CacheEmptyDir.
Proof. solve_decision. Defined.

(** [PodAttr]: the attributes of a mount pod. *)
Record PodAttr := MkPodAttr {
  a_Namespace : string;
  a_MountPointPath : string;
  a_DFSConfigPath : string;
  a_DFSMountPriorityName : string;
  a_ServiceAccountName : string;
  a_Resources : ResourceRequirements;
  a_Labels : smap;
  a_Annotations : smap;
  a_LivenessProbe : option string;
  a_ReadinessProbe : option string;
  a_StartupProbe : option string;
  a_Lifecycle : option Lifecycle;
  a_TerminationGracePeriodSeconds : option Z;
  a_Volumes : list Volume;
  a_VolumeDevices : list VolumeDevice;
  a_VolumeMounts : list VolumeMount;
  a_Env : list EnvVar;
  a_Image : string;
  a_HostNetwork : bool;
  a_HostAliases : list string;
  a_HostPID : bool;
  a_HostIPC : bool;
  a_DNSConfig : option string;
  a_DNSPolicy : string;
  a_ImagePullSecrets : list string;
  a_PreemptionPolicy : option string;
  a_Tolerations : list string
}.
#[export] Instance PodAttr_eq_dec : EqDecision PodAttr.
Proof. solve_decision. Defined.

Definition set_a_ServiceAccountName (v : string) (r : PodAttr) : PodAttr :=
  MkPodAttr (a_Namespace r) (a_MountPointPath r) (a_DFSConfigPath r) (a_DFSMountPriorityName r) v
    (a_Resources r) (a_Labels r) (a_Annotations r) (a_LivenessProbe r) (a_ReadinessProbe r)
    (a_StartupProbe r) (a_Lifecycle r) (a_TerminationGracePeriodSeconds r) (a_Volumes r)
    (a_VolumeDevices r) (a_VolumeMounts r) (a_Env r) (a_Image r) (a_HostNetwork r)
    (a_HostAliases r) (a_HostPID r) (a_HostIPC r) (a_DNSConfig r) (a_DNSPolicy r)
    (a_ImagePullSecrets r) (a_PreemptionPolicy r) (a_Tolerations r).
Definition set_a_Resources (v : ResourceRequirements) (r : PodAttr) : PodAttr :=
  MkPodAttr (a_Namespace r) (a_MountPointPath r) (a_DFSConfigPath r) (a_DFSMountPriorityName r)
    (a_ServiceAccountName r) v (a_Labels r) (a_Annotations r) (a_LivenessProbe r)
    (a_ReadinessProbe r) (a_StartupProbe r) (a_Lifecycle r) (a_TerminationGracePeriodSeconds
    r) (a_Volumes r) (a_VolumeDevices r) (a_VolumeMounts r) (a_Env r) (a_Image r)
    (a_HostNetwork r) (a_HostAliases r) (a_HostPID r) (a_HostIPC r) (a_DNSConfig r)
    (a_DNSPolicy r) (a_ImagePullSecrets r) (a_PreemptionPolicy r) (a_Tolerations r).
Definition set_a_Labels (v : smap) (r : PodAttr) : PodAttr :=
  MkPodAttr (a_Namespace r) (a_MountPointPath r) (a_DFSConfigPath r) (a_DFSMountPriorityName r)
    (a_ServiceAccountName r) (a_Resources r) v (a_Annotations r) (a_LivenessProbe r)
    (a_ReadinessProbe r) (a_StartupProbe r) (a_Lifecycle r) (a_TerminationGracePeriodSeconds
    r) (a_Volumes r) (a_VolumeDevices r) (a_VolumeMounts r) (a_Env r) (a_Image r)
    (a_HostNetwork r) (a_HostAliases r) (a_HostPID r) (a_HostIPC r) (a_DNSConfig r)
    (a_DNSPolicy r) (a_ImagePullSecrets r) (a_PreemptionPolicy r) (a_Tolerations r).
Definition set_a_Annotations (v : smap) (r : PodAttr) : PodAttr :=
  MkPodAttr (a_Namespace r) (a_MountPointPath r) (a_DFSConfigPath r) (a_DFSMountPriorityName r)
    (a_ServiceAccountName r) (a_Resources r) (a_Labels r) v (a_LivenessProbe r)
    (a_ReadinessProbe r) (a_StartupProbe r) (a_Lifecycle r) (a_TerminationGracePeriodSeconds
    r) (a_Volumes r) (a_VolumeDevices r) (a_VolumeMounts r) (a_Env r) (a_Image r)
    (a_HostNetwork r) (a_HostAliases r) (a_HostPID r) (a_HostIPC r) (a_DNSConfig r)
    (a_DNSPolicy r) (a_ImagePullSecrets r) (a_PreemptionPolicy r) (a_Tolerations r).
Definition set_a_LivenessProbe (v : option string) (r : PodAttr) : PodAttr :=
  MkPodAttr (a_Namespace r) (a_MountPointPath r) (a_DFSConfigPath r) (a_DFSMountPriorityName r)
    (a_ServiceAccountName r) (a_Resources r) (a_Labels r) (a_Annotations r) v
    (a_ReadinessProbe r) (a_StartupProbe r) (a_Lifecycle r) (a_TerminationGracePeriodSeconds
    r) (a_Volumes r) (a_VolumeDevices r) (a_VolumeMounts r) (a_Env r) (a_Image r)
    (a_HostNetwork r) (a_HostAliases r) (a_HostPID r) (a_HostIPC r) (a_DNSConfig r)
    (a_DNSPolicy r) (a_ImagePullSecrets r) (a_PreemptionPolicy r) (a_Tolerations r).
Definition set_a_ReadinessProbe (v : option string) (r : PodAttr) : PodAttr :=
  MkPodAttr (a_Namespace r) (a_MountPointPath r) (a_DFSConfigPath r) (a_DFSMountPriorityName r)
    (a_ServiceAccountName r) (a_Resources r) (a_Labels r) (a_Annotations r) (a_LivenessProbe
    r) v (a_StartupProbe r) (a_Lifecycle r) (a_TerminationGracePeriodSeconds r) (a_Volumes
    r) (a_VolumeDevices r) (a_VolumeMounts r) (a_Env r) (a_Image r) (a_HostNetwork r)
    (a_HostAliases r) (a_HostPID r) (a_HostIPC r) (a_DNSConfig r) (a_DNSPolicy r)
    (a_ImagePullSecrets r) (a_PreemptionPolicy r) (a_Tolerations r).
Definition set_a_StartupProbe (v : option string) (r : PodAttr) : PodAttr :=
  MkPodAttr (a_Namespace r) (a_MountPointPath r) (a_DFSConfigPath r) (a_DFSMountPriorityName r)
    (a_ServiceAccountName r) (a_Resources r) (a_Labels r) (a_Annotations r) (a_LivenessProbe
    r) (a_ReadinessProbe r) v (a_Lifecycle r) (a_TerminationGracePeriodSeconds r) (a_Volumes
    r) (a_VolumeDevices r) (a_VolumeMounts r) (a_Env r) (a_Image r) (a_HostNetwork r)
    (a_HostAliases r) (a_HostPID r) (a_HostIPC r) (a_DNSConfig r) (a_DNSPolicy r)
    (a_ImagePullSecrets r) (a_PreemptionPolicy r) (a_Tolerations r).
Definition set_a_Lifecycle (v : option Lifecycle) (r : PodAttr) : PodAttr :=
  MkPodAttr (a_Namespace r) (a_MountPointPath r) (a_DFSConfigPath r) (a_DFSMountPriorityName r)
    (a_ServiceAccountName r) (a_Resources r) (a_Labels r) (a_Annotations r) (a_LivenessProbe
    r) (a_ReadinessProbe r) (a_StartupProbe r) v (a_TerminationGracePeriodSeconds r)
    (a_Volumes r) (a_VolumeDevices r) (a_VolumeMounts r) (a_Env r) (a_Image r)
    (a_HostNetwork r) (a_HostAliases r) (a_HostPID r) (a_HostIPC r) (a_DNSConfig r)
    (a_DNSPolicy r) (a_ImagePullSecrets r) (a_PreemptionPolicy r) (a_Tolerations r).
Definition set_a_TerminationGracePeriodSeconds (v : option Z) (r : PodAttr) : PodAttr :=
  MkPodAttr (a_Namespace r) (a_MountPointPath r) (a_DFSConfigPath r) (a_DFSMountPriorityName r)
    (a_ServiceAccountName r) (a_Resources r) (a_Labels r) (a_Annotations r) (a_LivenessProbe
    r) (a_ReadinessProbe r) (a_StartupProbe r) (a_Lifecycle r) v (a_Volumes r)
    (a_VolumeDevices r) (a_VolumeMounts r) (a_Env r) (a_Image r) (a_HostNetwork r)
    (a_HostAliases r) (a_HostPID r) (a_HostIPC r) (a_DNSConfig r) (a_DNSPolicy r)
    (a_ImagePullSecrets r) (a_PreemptionPolicy r) (a_Tolerations r).
Definition set_a_Volumes (v : list Volume) (r : PodAttr) : PodAttr :=
  MkPodAttr (a_Namespace r) (a_MountPointPath r) (a_DFSConfigPath r) (a_DFSMountPriorityName r)
    (a_ServiceAccountName r) (a_Resources r) (a_Labels r) (a_Annotations r) (a_LivenessProbe
    r) (a_ReadinessProbe r) (a_StartupProbe r) (a_Lifecycle r)
    (a_TerminationGracePeriodSeconds r) v (a_VolumeDevices r) (a_VolumeMounts r) (a_Env r)
    (a_Image r) (a_HostNetwork r) (a_HostAliases r) (a_HostPID r) (a_HostIPC r) (a_DNSConfig
    r) (a_DNSPolicy r) (a_ImagePullSecrets r) (a_PreemptionPolicy r) (a_Tolerations r).
Definition set_a_VolumeDevices (v : list VolumeDevice) (r : PodAttr) : PodAttr :=
  MkPodAttr (a_Namespace r) (a_MountPointPath r) (a_DFSConfigPath r) (a_DFSMountPriorityName r)
    (a_ServiceAccountName r) (a_Resources r) (a_Labels r) (a_Annotations r) (a_LivenessProbe
    r) (a_ReadinessProbe r) (a_StartupProbe r) (a_Lifecycle r)
    (a_TerminationGracePeriodSeconds r) (a_Volumes r) v (a_VolumeMounts r) (a_Env r)
    (a_Image r) (a_HostNetwork r) (a_HostAliases r) (a_HostPID r) (a_HostIPC r) (a_DNSConfig
    r) (a_DNSPolicy r) (a_ImagePullSecrets r) (a_PreemptionPolicy r) (a_Tolerations r).
Definition set_a_VolumeMounts (v : list VolumeMount) (r : PodAttr) : PodAttr :=
  MkPodAttr (a_Namespace r) (a_MountPointPath r) (a_DFSConfigPath r) (a_DFSMountPriorityName r)
    (a_ServiceAccountName r) (a_Resources r) (a_Labels r) (a_Annotations r) (a_LivenessProbe
    r) (a_ReadinessProbe r) (a_StartupProbe r) (a_Lifecycle r)
    (a_TerminationGracePeriodSeconds r) (a_Volumes r) (a_VolumeDevices r) v (a_Env r)
    (a_Image r) (a_HostNetwork r) (a_HostAliases r) (a_HostPID r) (a_HostIPC r) (a_DNSConfig
    r) (a_DNSPolicy r) (a_ImagePullSecrets r) (a_PreemptionPolicy r) (a_Tolerations r).
Definition set_a_Env (v : list EnvVar) (r : PodAttr) : PodAttr :=
  MkPodAttr (a_Namespace r) (a_MountPointPath r) (a_DFSConfigPath r) (a_DFSMountPriorityName r)
    (a_ServiceAccountName r) (a_Resources r) (a_Labels r) (a_Annotations r) (a_LivenessProbe
    r) (a_ReadinessProbe r) (a_StartupProbe r) (a_Lifecycle r)
    (a_TerminationGracePeriodSeconds r) (a_Volumes r) (a_VolumeDevices r) (a_VolumeMounts r)
    v (a_Image r) (a_HostNetwork r) (a_HostAliases r) (a_HostPID r) (a_HostIPC r)
    (a_DNSConfig r) (a_DNSPolicy r) (a_ImagePullSecrets r) (a_PreemptionPolicy r)
    (a_Tolerations r).
Definition set_a_Image (v : string) (r : PodAttr) : PodAttr :=
  MkPodAttr (a_Namespace r) (a_MountPointPath r) (a_DFSConfigPath r) (a_DFSMountPriorityName r)
    (a_ServiceAccountName r) (a_Resources r) (a_Labels r) (a_Annotations r) (a_LivenessProbe
    r) (a_ReadinessProbe r) (a_StartupProbe r) (a_Lifecycle r)
    (a_TerminationGracePeriodSeconds r) (a_Volumes r) (a_VolumeDevices r) (a_VolumeMounts r)
    (a_Env r) v (a_HostNetwork r) (a_HostAliases r) (a_HostPID r) (a_HostIPC r) (a_DNSConfig
    r) (a_DNSPolicy r) (a_ImagePullSecrets r) (a_PreemptionPolicy r) (a_Tolerations r).
Definition set_a_HostNetwork (v : bool) (r : PodAttr) : PodAttr :=
  MkPodAttr (a_Namespace r) (a_MountPointPath r) (a_DFSConfigPath r) (a_DFSMountPriorityName r)
    (a_ServiceAccountName r) (a_Resources r) (a_Labels r) (a_Annotations r) (a_LivenessProbe
    r) (a_ReadinessProbe r) (a_StartupProbe r) (a_Lifecycle r)
    (a_TerminationGracePeriodSeconds r) (a_Volumes r) (a_VolumeDevices r) (a_VolumeMounts r)
    (a_Env r) (a_Image r) v (a_HostAliases r) (a_HostPID r) (a_HostIPC r) (a_DNSConfig r)
    (a_DNSPolicy r) (a_ImagePullSecrets r) (a_PreemptionPolicy r) (a_Tolerations r).
Definition set_a_HostPID (v : bool) (r : PodAttr) : PodAttr :=
  MkPodAttr (a_Namespace r) (a_MountPointPath r) (a_DFSConfigPath r) (a_DFSMountPriorityName r)
    (a_ServiceAccountName r) (a_Resources r) (a_Labels r) (a_Annotations r) (a_LivenessProbe
    r) (a_ReadinessProbe r) (a_StartupProbe r) (a_Lifecycle r)
    (a_TerminationGracePeriodSeconds r) (a_Volumes r) (a_VolumeDevices r) (a_VolumeMounts r)
    (a_Env r) (a_Image r) (a_HostNetwork r) (a_HostAliases r) v (a_HostIPC r) (a_DNSConfig
    r) (a_DNSPolicy r) (a_ImagePullSecrets r) (a_PreemptionPolicy r) (a_Tolerations r).

(** [DfsSetting]. *)
Record DfsSetting := MkDfsSetting {
  s_HashVal : string;
  s_FSID : string;
  s_Name : string;
  s_MdsAddr : string;
  s_Source : string;
  s_Storage : string;
  s_FormatOptions : string;
  s_CacheDirs : list string;
  s_ClientConfPath : string;
  s_CachePVCs : list CachePVC;
  s_EmptyDir : option CacheEmptyDir;
  s_CacheInlineVolumes : list CacheInlineVolume;
  s_VolumeId : string;
  s_UniqueId : string;
  s_MountPath : string;
  s_TargetPath : string;
  s_MountOptions : list string;
  s_SubPath : string;
  s_SecretName : string;
  s_Attr : option PodAttr;
  s_SecretKey : string;
  s_SecretKey2 : string;
  s_Token : string;
  s_Passphrase : string;
  s_Envs : smap;
  s_EncryptRsaKey : string;
  s_InitConfig : string;
  s_Configs : smap;
  s_DeletedDelay : string;
  s_CleanCache : bool;
  s_HostPath : list string;
  s_FormatCmd : string;
  s_PV : option PersistentVolume;
  s_PVC : option PersistentVolumeClaim
}.
#[export] Instance DfsSetting_eq_dec : EqDecision DfsSetting.
Proof. solve_decision. Defined.

Definition set_s_HashVal (v : string) (r : DfsSetting) : DfsSetting :=
  MkDfsSetting v (s_FSID r) (s_Name r) (s_MdsAddr r) (s_Source r) (s_Storage r) (s_FormatOptions r)
    (s_CacheDirs r) (s_ClientConfPath r) (s_CachePVCs r) (s_EmptyDir r)
    (s_CacheInlineVolumes r) (s_VolumeId r) (s_UniqueId r) (s_MountPath r) (s_TargetPath r)
    (s_MountOptions r) (s_SubPath r) (s_SecretName r) (s_Attr r) (s_SecretKey r)
    (s_SecretKey2 r) (s_Token r) (s_Passphrase r) (s_Envs r) (s_EncryptRsaKey r)
    (s_InitConfig r) (s_Configs r) (s_DeletedDelay r) (s_CleanCache r) (s_HostPath r)
    (s_FormatCmd r) (s_PV r) (s_PVC r).
Definition set_s_FSID (v : string) (r : DfsSetting) : DfsSetting :=
  MkDfsSetting (s_HashVal r) v (s_Name r) (s_MdsAddr r) (s_Source r) (s_Storage r) (s_FormatOptions r)
    (s_CacheDirs r) (s_ClientConfPath r) (s_CachePVCs r) (s_EmptyDir r)
    (s_CacheInlineVolumes r) (s_VolumeId r) (s_UniqueId r) (s_MountPath r) (s_TargetPath r)
    (s_MountOptions r) (s_SubPath r) (s_SecretName r) (s_Attr r) (s_SecretKey r)
    (s_SecretKey2 r) (s_Token r) (s_Passphrase r) (s_Envs r) (s_EncryptRsaKey r)
    (s_InitConfig r) (s_Configs r) (s_DeletedDelay r) (s_CleanCache r) (s_HostPath r)
    (s_FormatCmd r) (s_PV r) (s_PVC r).
Definition set_s_Name (v : string) (r : DfsSetting) : DfsSetting :=
  MkDfsSetting (s_HashVal r) (s_FSID r) v (s_MdsAddr r) (s_Source r) (s_Storage r) (s_FormatOptions r)
    (s_CacheDirs r) (s_ClientConfPath r) (s_CachePVCs r) (s_EmptyDir r)
    (s_CacheInlineVolumes r) (s_VolumeId r) (s_UniqueId r) (s_MountPath r) (s_TargetPath r)
    (s_MountOptions r) (s_SubPath r) (s_SecretName r) (s_Attr r) (s_SecretKey r)
    (s_SecretKey2 r) (s_Token r) (s_Passphrase r) (s_Envs r) (s_EncryptRsaKey r)
    (s_InitConfig r) (s_Configs r) (s_DeletedDelay r) (s_CleanCache r) (s_HostPath r)
    (s_FormatCmd r) (s_PV r) (s_PVC r).
Definition set_s_MdsAddr (v : string) (r : DfsSetting) : DfsSetting :=
  MkDfsSetting (s_HashVal r) (s_FSID r) (s_Name r) v (s_Source r) (s_Storage r) (s_FormatOptions r)
    (s_CacheDirs r) (s_ClientConfPath r) (s_CachePVCs r) (s_EmptyDir r)
    (s_CacheInlineVolumes r) (s_VolumeId r) (s_UniqueId r) (s_MountPath r) (s_TargetPath r)
    (s_MountOptions r) (s_SubPath r) (s_SecretName r) (s_Attr r) (s_SecretKey r)
    (s_SecretKey2 r) (s_Token r) (s_Passphrase r) (s_Envs r) (s_EncryptRsaKey r)
    (s_InitConfig r) (s_Configs r) (s_DeletedDelay r) (s_CleanCache r) (s_HostPath r)
    (s_FormatCmd r) (s_PV r) (s_PVC r).
Definition set_s_Source (v : string) (r : DfsSetting) : DfsSetting :=
  MkDfsSetting (s_HashVal r) (s_FSID r) (s_Name r) (s_MdsAddr r) v (s_Storage r) (s_FormatOptions r)
    (s_CacheDirs r) (s_ClientConfPath r) (s_CachePVCs r) (s_EmptyDir r)
    (s_CacheInlineVolumes r) (s_VolumeId r) (s_UniqueId r) (s_MountPath r) (s_TargetPath r)
    (s_MountOptions r) (s_SubPath r) (s_SecretName r) (s_Attr r) (s_SecretKey r)
    (s_SecretKey2 r) (s_Token r) (s_Passphrase r) (s_Envs r) (s_EncryptRsaKey r)
    (s_InitConfig r) (s_Configs r) (s_DeletedDelay r) (s_CleanCache r) (s_HostPath r)
    (s_FormatCmd r) (s_PV r) (s_PVC r).
Definition set_s_Storage (v : string) (r : DfsSetting) : DfsSetting :=
  MkDfsSetting (s_HashVal r) (s_FSID r) (s_Name r) (s_MdsAddr r) (s_Source r) v (s_FormatOptions r)
    (s_CacheDirs r) (s_ClientConfPath r) (s_CachePVCs r) (s_EmptyDir r)
    (s_CacheInlineVolumes r) (s_VolumeId r) (s_UniqueId r) (s_MountPath r) (s_TargetPath r)
    (s_MountOptions r) (s_SubPath r) (s_SecretName r) (s_Attr r) (s_SecretKey r)
    (s_SecretKey2 r) (s_Token r) (s_Passphrase r) (s_Envs r) (s_EncryptRsaKey r)
    (s_InitConfig r) (s_Configs r) (s_DeletedDelay r) (s_CleanCache r) (s_HostPath r)
    (s_FormatCmd r) (s_PV r) (s_PVC r).
Definition set_s_CacheDirs (v : list string) (r : DfsSetting) : DfsSetting :=
  MkDfsSetting (s_HashVal r) (s_FSID r) (s_Name r) (s_MdsAddr r) (s_Source r) (s_Storage r)
    (s_FormatOptions r) v (s_ClientConfPath r) (s_CachePVCs r) (s_EmptyDir r)
    (s_CacheInlineVolumes r) (s_VolumeId r) (s_UniqueId r) (s_MountPath r) (s_TargetPath r)
    (s_MountOptions r) (s_SubPath r) (s_SecretName r) (s_Attr r) (s_SecretKey r)
    (s_SecretKey2 r) (s_Token r) (s_Passphrase r) (s_Envs r) (s_EncryptRsaKey r)
    (s_InitConfig r) (s_Configs r) (s_DeletedDelay r) (s_CleanCache r) (s_HostPath r)
    (s_FormatCmd r) (s_PV r) (s_PVC r).
Definition set_s_ClientConfPath (v : string) (r : DfsSetting) : DfsSetting :=
  MkDfsSetting (s_HashVal r) (s_FSID r) (s_Name r) (s_MdsAddr r) (s_Source r) (s_Storage r)
    (s_FormatOptions r) (s_CacheDirs r) v (s_CachePVCs r) (s_EmptyDir r)
    (s_CacheInlineVolumes r) (s_VolumeId r) (s_UniqueId r) (s_MountPath r) (s_TargetPath r)
    (s_MountOptions r) (s_SubPath r) (s_SecretName r) (s_Attr r) (s_SecretKey r)
    (s_SecretKey2 r) (s_Token r) (s_Passphrase r) (s_Envs r) (s_EncryptRsaKey r)
    (s_InitConfig r) (s_Configs r) (s_DeletedDelay r) (s_CleanCache r) (s_HostPath r)
    (s_FormatCmd r) (s_PV r) (s_PVC r).
Definition set_s_CachePVCs (v : list CachePVC) (r : DfsSetting) : DfsSetting :=
  MkDfsSetting (s_HashVal r) (s_FSID r) (s_Name r) (s_MdsAddr r) (s_Source r) (s_Storage r)
    (s_FormatOptions r) (s_CacheDirs r) (s_ClientConfPath r) v (s_EmptyDir r)
    (s_CacheInlineVolumes r) (s_VolumeId r) (s_UniqueId r) (s_MountPath r) (s_TargetPath r)
    (s_MountOptions r) (s_SubPath r) (s_SecretName r) (s_Attr r) (s_SecretKey r)
    (s_SecretKey2 r) (s_Token r) (s_Passphrase r) (s_Envs r) (s_EncryptRsaKey r)
    (s_InitConfig r) (s_Configs r) (s_DeletedDelay r) (s_CleanCache r) (s_HostPath r)
    (s_FormatCmd r) (s_PV r) (s_PVC r).
Definition set_s_VolumeId (v : string) (r : DfsSetting) : DfsSetting :=
  MkDfsSetting (s_HashVal r) (s_FSID r) (s_Name r) (s_MdsAddr r) (s_Source r) (s_Storage r)
    (s_FormatOptions r) (s_CacheDirs r) (s_ClientConfPath r) (s_CachePVCs r) (s_EmptyDir r)
    (s_CacheInlineVolumes r) v (s_UniqueId r) (s_MountPath r) (s_TargetPath r)
    (s_MountOptions r) (s_SubPath r) (s_SecretName r) (s_Attr r) (s_SecretKey r)
    (s_SecretKey2 r) (s_Token r) (s_Passphrase r) (s_Envs r) (s_EncryptRsaKey r)
    (s_InitConfig r) (s_Configs r) (s_DeletedDelay r) (s_CleanCache r) (s_HostPath r)
    (s_FormatCmd r) (s_PV r) (s_PVC r).
Definition set_s_UniqueId (v : string) (r : DfsSetting) : DfsSetting :=
  MkDfsSetting (s_HashVal r) (s_FSID r) (s_Name r) (s_MdsAddr r) (s_Source r) (s_Storage r)
    (s_FormatOptions r) (s_CacheDirs r) (s_ClientConfPath r) (s_CachePVCs r) (s_EmptyDir r)
    (s_CacheInlineVolumes r) (s_VolumeId r) v (s_MountPath r) (s_TargetPath r)
    (s_MountOptions r) (s_SubPath r) (s_SecretName r) (s_Attr r) (s_SecretKey r)
    (s_SecretKey2 r) (s_Token r) (s_Passphrase r) (s_Envs r) (s_EncryptRsaKey r)
    (s_InitConfig r) (s_Configs r) (s_DeletedDelay r) (s_CleanCache r) (s_HostPath r)
    (s_FormatCmd r) (s_PV r) (s_PVC r).
Definition set_s_MountPath (v : string) (r : DfsSetting) : DfsSetting :=
  MkDfsSetting (s_HashVal r) (s_FSID r) (s_Name r) (s_MdsAddr r) (s_Source r) (s_Storage r)
    (s_FormatOptions r) (s_CacheDirs r) (s_ClientConfPath r) (s_CachePVCs r) (s_EmptyDir r)
    (s_CacheInlineVolumes r) (s_VolumeId r) (s_UniqueId r) v (s_TargetPath r)
    (s_MountOptions r) (s_SubPath r) (s_SecretName r) (s_Attr r) (s_SecretKey r)
    (s_SecretKey2 r) (s_Token r) (s_Passphrase r) (s_Envs r) (s_EncryptRsaKey r)
    (s_InitConfig r) (s_Configs r) (s_DeletedDelay r) (s_CleanCache r) (s_HostPath r)
    (s_FormatCmd r) (s_PV r) (s_PVC r).
Definition set_s_TargetPath (v : string) (r : DfsSetting) : DfsSetting :=
  MkDfsSetting (s_HashVal r) (s_FSID r) (s_Name r) (s_MdsAddr r) (s_Source r) (s_Storage r)
    (s_FormatOptions r) (s_CacheDirs r) (s_ClientConfPath r) (s_CachePVCs r) (s_EmptyDir r)
    (s_CacheInlineVolumes r) (s_VolumeId r) (s_UniqueId r) (s_MountPath r) v (s_MountOptions
    r) (s_SubPath r) (s_SecretName r) (s_Attr r) (s_SecretKey r) (s_SecretKey2 r) (s_Token
    r) (s_Passphrase r) (s_Envs r) (s_EncryptRsaKey r) (s_InitConfig r) (s_Configs r)
    (s_DeletedDelay r) (s_CleanCache r) (s_HostPath r) (s_FormatCmd r) (s_PV r) (s_PVC r).
Definition set_s_MountOptions (v : list string) (r : DfsSetting) : DfsSetting :=
  MkDfsSetting (s_HashVal r) (s_FSID r) (s_Name r) (s_MdsAddr r) (s_Source r) (s_Storage r)
    (s_FormatOptions r) (s_CacheDirs r) (s_ClientConfPath r) (s_CachePVCs r) (s_EmptyDir r)
    (s_CacheInlineVolumes r) (s_VolumeId r) (s_UniqueId r) (s_MountPath r) (s_TargetPath r)
    v (s_SubPath r) (s_SecretName r) (s_Attr r) (s_SecretKey r) (s_SecretKey2 r) (s_Token r)
    (s_Passphrase r) (s_Envs r) (s_EncryptRsaKey r) (s_InitConfig r) (s_Configs r)
    (s_DeletedDelay r) (s_CleanCache r) (s_HostPath r) (s_FormatCmd r) (s_PV r) (s_PVC r).
Definition set_s_SubPath (v : string) (r : DfsSetting) : DfsSetting :=
  MkDfsSetting (s_HashVal r) (s_FSID r) (s_Name r) (s_MdsAddr r) (s_Source r) (s_Storage r)
    (s_FormatOptions r) (s_CacheDirs r) (s_ClientConfPath r) (s_CachePVCs r) (s_EmptyDir r)
    (s_CacheInlineVolumes r) (s_VolumeId r) (s_UniqueId r) (s_MountPath r) (s_TargetPath r)
    (s_MountOptions r) v (s_SecretName r) (s_Attr r) (s_SecretKey r) (s_SecretKey2 r)
    (s_Token r) (s_Passphrase r) (s_Envs r) (s_EncryptRsaKey r) (s_InitConfig r) (s_Configs
    r) (s_DeletedDelay r) (s_CleanCache r) (s_HostPath r) (s_FormatCmd r) (s_PV r) (s_PVC r).
Definition set_s_SecretName (v : string) (r : DfsSetting) : DfsSetting :=
  MkDfsSetting (s_HashVal r) (s_FSID r) (s_Name r) (s_MdsAddr r) (s_Source r) (s_Storage r)
    (s_FormatOptions r) (s_CacheDirs r) (s_ClientConfPath r) (s_CachePVCs r) (s_EmptyDir r)
    (s_CacheInlineVolumes r) (s_VolumeId r) (s_UniqueId r) (s_MountPath r) (s_TargetPath r)
    (s_MountOptions r) (s_SubPath r) v (s_Attr r) (s_SecretKey r) (s_SecretKey2 r) (s_Token
    r) (s_Passphrase r) (s_Envs r) (s_EncryptRsaKey r) (s_InitConfig r) (s_Configs r)
    (s_DeletedDelay r) (s_CleanCache r) (s_HostPath r) (s_FormatCmd r) (s_PV r) (s_PVC r).
Definition set_s_Attr (v : option PodAttr) (r : DfsSetting) : DfsSetting :=
  MkDfsSetting (s_HashVal r) (s_FSID r) (s_Name r) (s_MdsAddr r) (s_Source r) (s_Storage r)
    (s_FormatOptions r) (s_CacheDirs r) (s_ClientConfPath r) (s_CachePVCs r) (s_EmptyDir r)
    (s_CacheInlineVolumes r) (s_VolumeId r) (s_UniqueId r) (s_MountPath r) (s_TargetPath r)
    (s_MountOptions r) (s_SubPath r) (s_SecretName r) v (s_SecretKey r) (s_SecretKey2 r)
    (s_Token r) (s_Passphrase r) (s_Envs r) (s_EncryptRsaKey r) (s_InitConfig r) (s_Configs
    r) (s_DeletedDelay r) (s_CleanCache r) (s_HostPath r) (s_FormatCmd r) (s_PV r) (s_PVC r).
Definition set_s_SecretKey (v : string) (r : DfsSetting) : DfsSetting :=
  MkDfsSetting (s_HashVal r) (s_FSID r) (s_Name r) (s_MdsAddr r) (s_Source r) (s_Storage r)
    (s_FormatOptions r) (s_CacheDirs r) (s_ClientConfPath r) (s_CachePVCs r) (s_EmptyDir r)
    (s_CacheInlineVolumes r) (s_VolumeId r) (s_UniqueId r) (s_MountPath r) (s_TargetPath r)
    (s_MountOptions r) (s_SubPath r) (s_SecretName r) (s_Attr r) v (s_SecretKey2 r) (s_Token
    r) (s_Passphrase r) (s_Envs r) (s_EncryptRsaKey r) (s_InitConfig r) (s_Configs r)
    (s_DeletedDelay r) (s_CleanCache r) (s_HostPath r) (s_FormatCmd r) (s_PV r) (s_PVC r).
Definition set_s_SecretKey2 (v : string) (r : DfsSetting) : DfsSetting :=
  MkDfsSetting (s_HashVal r) (s_FSID r) (s_Name r) (s_MdsAddr r) (s_Source r) (s_Storage r)
    (s_FormatOptions r) (s_CacheDirs r) (s_ClientConfPath r) (s_CachePVCs r) (s_EmptyDir r)
    (s_CacheInlineVolumes r) (s_VolumeId r) (s_UniqueId r) (s_MountPath r) (s_TargetPath r)
    (s_MountOptions r) (s_SubPath r) (s_SecretName r) (s_Attr r) (s_SecretKey r) v (s_Token
    r) (s_Passphrase r) (s_Envs r) (s_EncryptRsaKey r) (s_InitConfig r) (s_Configs r)
    (s_DeletedDelay r) (s_CleanCache r) (s_HostPath r) (s_FormatCmd r) (s_PV r) (s_PVC r).
Definition set_s_Envs (v : smap) (r : DfsSetting) : DfsSetting :=
  MkDfsSetting (s_HashVal r) (s_FSID r) (s_Name r) (s_MdsAddr r) (s_Source r) (s_Storage r)
    (s_FormatOptions r) (s_CacheDirs r) (s_ClientConfPath r) (s_CachePVCs r) (s_EmptyDir r)
    (s_CacheInlineVolumes r) (s_VolumeId r) (s_UniqueId r) (s_MountPath r) (s_TargetPath r)
    (s_MountOptions r) (s_SubPath r) (s_SecretName r) (s_Attr r) (s_SecretKey r)
    (s_SecretKey2 r) (s_Token r) (s_Passphrase r) v (s_EncryptRsaKey r) (s_InitConfig r)
    (s_Configs r) (s_DeletedDelay r) (s_CleanCache r) (s_HostPath r) (s_FormatCmd r) (s_PV
    r) (s_PVC r).
Definition set_s_Configs (v : smap) (r : DfsSetting) : DfsSetting :=
  MkDfsSetting (s_HashVal r) (s_FSID r) (s_Name r) (s_MdsAddr r) (s_Source r) (s_Storage r)
    (s_FormatOptions r) (s_CacheDirs r) (s_ClientConfPath r) (s_CachePVCs r) (s_EmptyDir r)
    (s_CacheInlineVolumes r) (s_VolumeId r) (s_UniqueId r) (s_MountPath r) (s_TargetPath r)
    (s_MountOptions r) (s_SubPath r) (s_SecretName r) (s_Attr r) (s_SecretKey r)
    (s_SecretKey2 r) (s_Token r) (s_Passphrase r) (s_Envs r) (s_EncryptRsaKey r)
    (s_InitConfig r) v (s_DeletedDelay r) (s_CleanCache r) (s_HostPath r) (s_FormatCmd r)
    (s_PV r) (s_PVC r).
Definition set_s_DeletedDelay (v : string) (r : DfsSetting) : DfsSetting :=
  MkDfsSetting (s_HashVal r) (s_FSID r) (s_Name r) (s_MdsAddr r) (s_Source r) (s_Storage r)
    (s_FormatOptions r) (s_CacheDirs r) (s_ClientConfPath r) (s_CachePVCs r) (s_EmptyDir r)
    (s_CacheInlineVolumes r) (s_VolumeId r) (s_UniqueId r) (s_MountPath r) (s_TargetPath r)
    (s_MountOptions r) (s_SubPath r) (s_SecretName r) (s_Attr r) (s_SecretKey r)
    (s_SecretKey2 r) (s_Token r) (s_Passphrase r) (s_Envs r) (s_EncryptRsaKey r)
    (s_InitConfig r) (s_Configs r) v (s_CleanCache r) (s_HostPath r) (s_FormatCmd r) (s_PV
    r) (s_PVC r).
Definition set_s_CleanCache (v : bool) (r : DfsSetting) : DfsSetting :=
  MkDfsSetting (s_HashVal r) (s_FSID r) (s_Name r) (s_MdsAddr r) (s_Source r) (s_Storage r)
    (s_FormatOptions r) (s_CacheDirs r) (s_ClientConfPath r) (s_CachePVCs r) (s_EmptyDir r)
    (s_CacheInlineVolumes r) (s_VolumeId r) (s_UniqueId r) (s_MountPath r) (s_TargetPath r)
    (s_MountOptions r) (s_SubPath r) (s_SecretName r) (s_Attr r) (s_SecretKey r)
    (s_SecretKey2 r) (s_Token r) (s_Passphrase r) (s_Envs r) (s_EncryptRsaKey r)
    (s_InitConfig r) (s_Configs r) (s_DeletedDelay r) v (s_HostPath r) (s_FormatCmd r) (s_PV
    r) (s_PVC r).
Definition set_s_HostPath (v : list string) (r : DfsSetting) : DfsSetting :=
  MkDfsSetting (s_HashVal r) (s_FSID r) (s_Name r) (s_MdsAddr r) (s_Source r) (s_Storage r)
    (s_FormatOptions r) (s_CacheDirs r) (s_ClientConfPath r) (s_CachePVCs r) (s_EmptyDir r)
    (s_CacheInlineVolumes r) (s_VolumeId r) (s_UniqueId r) (s_MountPath r) (s_TargetPath r)
    (s_MountOptions r) (s_SubPath r) (s_SecretName r) (s_Attr r) (s_SecretKey r)
    (s_SecretKey2 r) (s_Token r) (s_Passphrase r) (s_Envs r) (s_EncryptRsaKey r)
    (s_InitConfig r) (s_Configs r) (s_DeletedDelay r) (s_CleanCache r) v (s_FormatCmd r)
    (s_PV r) (s_PVC r).
Definition set_s_FormatCmd (v : string) (r : DfsSetting) : DfsSetting :=
  MkDfsSetting (s_HashVal r) (s_FSID r) (s_Name r) (s_MdsAddr r) (s_Source r) (s_Storage r)
    (s_FormatOptions r) (s_CacheDirs r) (s_ClientConfPath r) (s_CachePVCs r) (s_EmptyDir r)
    (s_CacheInlineVolumes r) (s_VolumeId r) (s_UniqueId r) (s_MountPath r) (s_TargetPath r)
    (s_MountOptions r) (s_SubPath r) (s_SecretName r) (s_Attr r) (s_SecretKey r)
    (s_SecretKey2 r) (s_Token r) (s_Passphrase r) (s_Envs r) (s_EncryptRsaKey r)
    (s_InitConfig r) (s_Configs r) (s_DeletedDelay r) (s_CleanCache r) (s_HostPath r) v
    (s_PV r) (s_PVC r).
Definition set_s_PV (v : option PersistentVolume) (r : DfsSetting) : DfsSetting :=
  MkDfsSetting (s_HashVal r) (s_FSID r) (s_Name r) (s_MdsAddr r) (s_Source r) (s_Storage r)
    (s_FormatOptions r) (s_CacheDirs r) (s_ClientConfPath r) (s_CachePVCs r) (s_EmptyDir r)
    (s_CacheInlineVolumes r) (s_VolumeId r) (s_UniqueId r) (s_MountPath r) (s_TargetPath r)
    (s_MountOptions r) (s_SubPath r) (s_SecretName r) (s_Attr r) (s_SecretKey r)
    (s_SecretKey2 r) (s_Token r) (s_Passphrase r) (s_Envs r) (s_EncryptRsaKey r)
    (s_InitConfig r) (s_Configs r) (s_DeletedDelay r) (s_CleanCache r) (s_HostPath r)
    (s_FormatCmd r) v (s_PVC r).
Definition set_s_PVC (v : option PersistentVolumeClaim) (r : DfsSetting) : DfsSetting :=
  MkDfsSetting (s_HashVal r) (s_FSID r) (s_Name r) (s_MdsAddr r) (s_Source r) (s_Storage r)
    (s_FormatOptions r) (s_CacheDirs r) (s_ClientConfPath r) (s_CachePVCs r) (s_EmptyDir r)
    (s_CacheInlineVolumes r) (s_VolumeId r) (s_UniqueId r) (s_MountPath r) (s_TargetPath r)
    (s_MountOptions r) (s_SubPath r) (s_SecretName r) (s_Attr r) (s_SecretKey r)
    (s_SecretKey2 r) (s_Token r) (s_Passphrase r) (s_Envs r) (s_EncryptRsaKey r)
    (s_InitConfig r) (s_Configs r) (s_DeletedDelay r) (s_CleanCache r) (s_HostPath r)
    (s_FormatCmd r) (s_PV r) v.

(** The zero value of [DfsSetting]. *)
Definition zero_setting : DfsSetting :=
  MkDfsSetting "" "" "" "" "" "" "" [] "" [] None [] "" "" "" "" [] "" "" None "" "" "" ""
    ∅ "" "" ∅ "" false [] "" None None.

(** [AppInfo]. *)
Record AppInfo := MkAppInfo {
  app_Name : string;
  app_Namespace : string
}.
#[export] Instance AppInfo_eq_dec : EqDecision AppInfo.
Proof. solve_decision. Defined.

(** [PVCSelector]. *)
Record PVCSelector := MkPVCSelector {
  sel_Labels : LabelSelector;
  sel_MatchStorageClassName : string;
  sel_MatchName : string
}.
#[export] Instance PVCSelector_eq_dec : EqDecision PVCSelector.
Proof. solve_decision. Defined.

(** [MountPodPatch]. *)
Record MountPodPatch := MkMountPodPatch {
  m_PVCSelector : option PVCSelector;
  m_MountImage : string;
  m_Image : string;
  m_Labels : option smap;
  m_Annotations : option smap;
  m_HostNetwork : option bool;
  m_HostPID : option bool;
  m_LivenessProbe : option string;
  m_ReadinessProbe : option string;
  m_StartupProbe : option string;
  m_Lifecycle : option Lifecycle;
  m_Resources : option ResourceRequirements;
  m_TerminationGracePeriodSeconds : option Z;
  m_Volumes : list Volume;
  m_VolumeDevices : list VolumeDevice;
  m_VolumeMounts : list VolumeMount;
  m_Env : option (list EnvVar);
  m_MountOptions : option (list string)
}.
#[export] Instance MountPodPatch_eq_dec : EqDecision MountPodPatch.
Proof. solve_decision. Defined.

Definition set_m_MountImage (v : string) (r : MountPodPatch) : MountPodPatch :=
  MkMountPodPatch (m_PVCSelector r) v (m_Image r) (m_Labels r) (m_Annotations r) (m_HostNetwork r)
    (m_HostPID r) (m_LivenessProbe r) (m_ReadinessProbe r) (m_StartupProbe r) (m_Lifecycle
    r) (m_Resources r) (m_TerminationGracePeriodSeconds r) (m_Volumes r) (m_VolumeDevices r)
    (m_VolumeMounts r) (m_Env r) (m_MountOptions r).
Definition set_m_Image (v : string) (r : MountPodPatch) : MountPodPatch :=
  MkMountPodPatch (m_PVCSelector r) (m_MountImage r) v (m_Labels r) (m_Annotations r) (m_HostNetwork r)
    (m_HostPID r) (m_LivenessProbe r) (m_ReadinessProbe r) (m_StartupProbe r) (m_Lifecycle
    r) (m_Resources r) (m_TerminationGracePeriodSeconds r) (m_Volumes r) (m_VolumeDevices r)
    (m_VolumeMounts r) (m_Env r) (m_MountOptions r).
Definition set_m_Env (v : option (list EnvVar)) (r : MountPodPatch) : MountPodPatch :=
  MkMountPodPatch (m_PVCSelector r) (m_MountImage r) (m_Image r) (m_Labels r) (m_Annotations r)
    (m_HostNetwork r) (m_HostPID r) (m_LivenessProbe r) (m_ReadinessProbe r) (m_StartupProbe
    r) (m_Lifecycle r) (m_Resources r) (m_TerminationGracePeriodSeconds r) (m_Volumes r)
    (m_VolumeDevices r) (m_VolumeMounts r) v (m_MountOptions r).
Definition set_m_Volumes (v : list Volume) (r : MountPodPatch) : MountPodPatch :=
  MkMountPodPatch (m_PVCSelector r) (m_MountImage r) (m_Image r) (m_Labels r) (m_Annotations r)
    (m_HostNetwork r) (m_HostPID r) (m_LivenessProbe r) (m_ReadinessProbe r) (m_StartupProbe
    r) (m_Lifecycle r) (m_Resources r) (m_TerminationGracePeriodSeconds r) v
    (m_VolumeDevices r) (m_VolumeMounts r) (m_Env r) (m_MountOptions r).
Definition set_m_VolumeMounts (v : list VolumeMount) (r : MountPodPatch) : MountPodPatch :=
  MkMountPodPatch (m_PVCSelector r) (m_MountImage r) (m_Image r) (m_Labels r) (m_Annotations r)
    (m_HostNetwork r) (m_HostPID r) (m_LivenessProbe r) (m_ReadinessProbe r) (m_StartupProbe
    r) (m_Lifecycle r) (m_Resources r) (m_TerminationGracePeriodSeconds r) (m_Volumes r)
    (m_VolumeDevices r) v (m_Env r) (m_MountOptions r).
Definition set_m_VolumeDevices (v : list VolumeDevice) (r : MountPodPatch) : MountPodPatch :=
  MkMountPodPatch (m_PVCSelector r) (m_MountImage r) (m_Image r) (m_Labels r) (m_Annotations r)
    (m_HostNetwork r) (m_HostPID r) (m_LivenessProbe r) (m_ReadinessProbe r) (m_StartupProbe
    r) (m_Lifecycle r) (m_Resources r) (m_TerminationGracePeriodSeconds r) (m_Volumes r) v
    (m_VolumeMounts r) (m_Env r) (m_MountOptions r).

(** [DfsVol]. *)
Record DfsVol := MkDfsVol {
  dv_FsName : string;
  dv_MountPath : string
}.
#[export] Instance DfsVol_eq_dec : EqDecision DfsVol.
Proof. solve_decision. Defined.

(** ** Third-party functions

    [IsCorruptedMnt] is [k8s.io/mount-utils]'s; a quantity of
    [k8s.io/apimachinery] is a number of billionths, and [quantity_String]
    prints it; [LabelSelectorMatches] is [LabelSelectorAsSelector] followed by
    [Matches]; [UnmarshalStringMap] and [UnmarshalSetting] are
    [util/yaml.Unmarshal], with the JSON fallback, into a string map and into a
    [DfsSetting] whose document is the JSON object of a string map;
    [MarshalSetting] is the JSON text of a [DfsSetting], whose layout the
    Kubernetes types it contains decide; [AddFinalizer] is controller-runtime's.
    [map_range] is the order in which Go ranges over a map: any order.
    [RetryOnConflict] of client-go runs its function and repeats it,
    after a pause, as long as it returns a conflict and pauses are left
    ([RetryOnConflict_spec]).  [UnmarshalPodList] is [json.Unmarshal] into a
    pointer to a [PodList], which the document [null] makes nil; [HasCA] of a
    transport configuration is whether it names an authority; [OnErrorRetry] is
    client-go's [retry.OnError] with its default backoff, which repeats on every
    error. *)
Fixpoint attempts (pauses : list Z) (f : prog (option error)) : prog (option error) :=
  r <- f ;;
  match pauses with
  | d :: pauses => if on_err IsConflict r then call (Sleep d) ;;; attempts pauses f else Ret r
  | [] => Ret r
  end.

(** [retry.OnError] with a backoff and a test that is always true. *)
Fixpoint attempts_any (pauses : list Z) (f : prog (option error)) : prog (option error) :=
  r <- f ;;
  match pauses, r with
  | d :: pauses, Some _ => call (Sleep d) ;;; attempts_any pauses f
  | _, _ => Ret r
  end.

Class Ext := {
  IsCorruptedMnt : error → bool;
  ParseQuantity : string → result Z;
  quantity_String : Z → string;
  LabelSelectorMatches : LabelSelector → smap → result bool;
  UnmarshalStringMap : string → result smap;
  UnmarshalSetting : smap → DfsSetting → result DfsSetting;
  MarshalSetting : DfsSetting → string;
  map_range : ∀ {A : Type}, gmap string A → list (string * A);
  map_range_spec : ∀ {A : Type} (m : gmap string A), map_range m ≡ₚ map_to_list m;
  AddFinalizer : list string → string → list string;
  AddFinalizer_spec : ∀ l f, AddFinalizer l f = if decide (f ∈ l) then l else l ++ [f];
  RetryOnConflict : prog (option error) → prog (option error);
  RetryOnConflict_spec : ∃ pauses, ∀ f, RetryOnConflict f = attempts pauses f;
  UnmarshalPodList : string → result (option (list Pod));
  HasCA : transport_Config → bool;
  OnErrorRetry : prog (option error) → prog (option error);
  OnErrorRetry_spec : ∃ pauses, ∀ f, OnErrorRetry f = attempts_any pauses f;
  HasCA_spec c : HasCA c = bool_decide (t_CAData c ≠ "" ∨ t_CAFile c ≠ "")
}.

(** ** Reasoning about retries *)

Section retry.
Context {X : Ext} (E : env).

Lemma wp_attempts (I : trace → Prop) (Q : outcome (option error) → trace → Prop) f pauses tr :
  I tr →
  (∀ tr d, I tr → I (Call (Sleep d) tt :: tr)) →
  (∀ tr, I tr → wp E f tr (λ o tr', Q o tr' ∧ ((∃ r, o = Done r) → I tr'))) →
  wp E (attempts pauses f) tr Q.
Proof.
  intros HI HS Hf. revert tr HI. induction pauses as [|d pauses IH]; intros tr HI;
    cbn [attempts]; apply wp_bind; (eapply wp_mono; [|by apply Hf]);
    intros [r|m|] tr' [HQ HI']; try done.
  destruct (on_err IsConflict r); [|done]. cbn [call bind wp]. intros [] _.
  apply IH, HS, HI'. by exists r.
Qed.

(** An invariant of the trace that pauses keep, and that an attempt keeps and
    from which it establishes the postcondition. *)
Lemma wp_RetryOnConflict (I : trace → Prop) (Q : outcome (option error) → trace → Prop) f tr :
  I tr →
  (∀ tr d, I tr → I (Call (Sleep d) tt :: tr)) →
  (∀ tr, I tr → wp E f tr (λ o tr', Q o tr' ∧ ((∃ r, o = Done r) → I tr'))) →
  wp E (RetryOnConflict f) tr Q.
Proof. destruct RetryOnConflict_spec as [pauses ->]. apply wp_attempts. Qed.

Lemma within_RetryOnConflict (P : event_pred) f :
  (∀ d, P _ (Sleep d) = true) → within P f → within P (RetryOnConflict f).
Proof.
  intros HS Hf. destruct RetryOnConflict_spec as [pauses ->].
  induction pauses as [|d pauses IH]; cbn [attempts]; (apply within_bind; [done|]); intros r.
  - done.
  - destruct (on_err IsConflict r); [|done]. cbn. by split.
Qed.

(** Without a conflict there is one attempt. *)
Lemma interp_RetryOnConflict {W} (h : handler W) f w r w' :
  interp h f w = (Done r, w') → on_err IsConflict r = false →
  interp h (RetryOnConflict f) w = (Done r, w').
Proof.
  intros Hf Hr. destruct RetryOnConflict_spec as [pauses ->].
  destruct pauses; cbn [attempts]; rewrite interp_bind, Hf; [done|]. by rewrite Hr.
Qed.
End retry.
