(* ===== verification/Rely.v ===== *)
(** * Rely: programs that share a world, and critical sections

    [rwp] runs a program against a handler while other threads change the world
    between its calls, as far as a relation allows (a rely condition), and keeps
    an invariant at every instant.  [conc_step] is the interleaving of threads
    that share a world and its mutexes.  [conc_refines] is the reduction
    theorem: threads whose critical sections, run alone up to the rely, take an
    abstract state through the operations of a contract, do so in every
    interleaving, in the order in which they hold the mutex. *)

From S2P Require Import Prelude Objects Effects Config.

(** ** Running with interference *)

Section rwp.
Context {W : Type} (h : handler W) (R : relation W) `{!PreOrder R} (I : W → Prop).

Fixpoint rwp {A} (p : prog A) (w : W) (Q : outcome A → W → Prop) : Prop :=
  ∀ w', R w w' → I w' ∧
    match p with
    | Ret a => Q (Done a) w'
    | Panic m => Q (Panicked m) w'
    | OutOfFuel => Q Diverged w'
    | Vis e k => rwp (k (h _ e w').1) (h _ e w').2 Q
    end.

(** Interference before the first call is already accounted for. *)
Lemma rwp_rely {A} (p : prog A) w w' Q : rwp p w Q → R w w' → rwp p w' Q.
Proof.
  intros Hp Hw. assert (∀ w2, R w' w2 → R w w2) as HR by (intros; by etrans).
  destruct p; cbn [rwp] in *; intros w2 H2; by apply Hp, HR.
Qed.

Lemma rwp_inv {A} (p : prog A) w Q : rwp p w Q → I w.
Proof. intros Hp. destruct p; cbn [rwp] in *; by apply Hp. Qed.

Lemma rwp_mono {A} (p : prog A) w (Q Q' : outcome A → W → Prop) :
  (∀ o w, Q o w → Q' o w) → rwp p w Q → rwp p w Q'.
Proof.
  intros HQ. revert w. induction p as [a|X e k IH|m|]; intros w Hp; cbn [rwp] in *; intros w' Hw;
    (destruct (Hp w' Hw) as [Hi H]; split; [done|]); auto.
Qed.

Lemma rwp_bind {A B} (p : prog A) (f : A → prog B) w (Q : outcome B → W → Prop) :
  rwp p w (λ o w', match o with
    | Done a => rwp (f a) w' Q
    | Panicked m => Q (Panicked m) w'
    | Diverged => Q Diverged w' end) →
  rwp (bind p f) w Q.
Proof.
  revert w. induction p as [a|X e k IH|m|]; intros w Hp; cbn [rwp bind] in *; [|intros w' Hw..].
  - by apply (Hp w).
  - destruct (Hp w' Hw) as [Hi H]. split; [done|]. by apply IH.
  - by apply Hp.
  - by apply Hp.
Qed.

Lemma rwp_ret {A} (a : A) w (Q : outcome A → W → Prop) :
  (∀ w', R w w' → I w' ∧ Q (Done a) w') → rwp (Ret a) w Q.
Proof. done. Qed.

Lemma rwp_call {X A} (e : event X) (k : X → prog A) w (Q : outcome A → W → Prop) :
  (∀ w', R w w' → I w' ∧ ∀ x w2, h _ e w' = (x, w2) → rwp (k x) w2 Q) →
  rwp (bind (call e) k) w Q.
Proof.
  intros H w' Hw. destruct (H w' Hw) as [Hi Hk]. split; [done|]. apply Hk.
  by destruct (h X e w').
Qed.

(** Without a conflict there is one attempt. *)
Lemma rwp_retry `{!Ext} f w (Q : outcome (option error) → W → Prop) :
  rwp f w (λ o w', Q o w' ∧ ∀ r, o = Done r → on_err IsConflict r = false ∧
                                    ∀ w2, R w' w2 → I w2 ∧ Q o w2) →
  rwp (RetryOnConflict f) w Q.
Proof.
  intros Hf. destruct RetryOnConflict_spec as [pauses ->].
  destruct pauses; cbn [attempts]; apply rwp_bind; (eapply rwp_mono; [|exact Hf]);
    (intros [r|m|] w' [HQ Hr]; [|done..]); destruct (Hr r eq_refl) as [Hc HR]; [done|].
  by rewrite Hc.
Qed.

(** A run without interference is one of the runs. *)
Lemma rwp_interp {A} (p : prog A) w Q o w' : rwp p w Q → interp h p w = (o, w') → I w' ∧ Q o w'.
Proof.
  revert w. induction p as [a|X e k IH|m|]; intros w Hp; cbn [rwp interp] in *;
    [intros [= <- <-]; by apply Hp| |intros [= <- <-]; by apply Hp..].
  destruct (Hp w (PreOrder_Reflexive w)) as [_ H]. destruct (h X e w) as [x w1]. by apply IH.
Qed.

(** What the program yields anyway. *)
Lemma rwp_yields {A} (P : A → Prop) (p : prog A) w Q :
  yields P p → rwp p w Q → rwp p w (λ o w', Q o w' ∧ ∀ a, o = Done a → P a).
Proof.
  revert w. induction p as [a|X e k IH|m|]; intros w HP Hp; cbn [rwp yields] in *; intros w' Hw;
    (destruct (Hp w' Hw) as [Hi H]; split; [done|]); [|by apply IH|by split..].
  split; [done|]. by intros a' [= <-].
Qed.

End rwp.
Arguments rwp {W} h R I {A} p w Q.

(** ** Threads that share a world and its mutexes *)

Definition mutex_op {X} (e : event X) : option (bool * Z) :=
  match e with
  | MutexLock i => Some (true, i)
  | MutexUnlock i => Some (false, i)
  | _ => None
  end.

Section concurrent.
Context {W A : Type} (h : handler W).

(** The world, the mutexes that are held, and what each thread has left to do. *)
Record conc := MkConc { c_world : W; c_locks : gset Z; c_threads : list (prog A) }.

(** The next call of one thread, labelled with the thread and with what the call
    does to the mutexes.  Locking waits until the mutex is free. *)
Inductive conc_act : nat * option (bool * Z) → conc → conc → Prop :=
  | step_take i X (e : event X) k x m w L ths :
      ths !! i = Some (Vis e k) → mutex_op e = Some (true, m) → m ∉ L →
      conc_act (i, Some (true, m)) (MkConc w L ths) (MkConc w ({[ m ]} ∪ L) (<[i := k x]> ths))
  | step_give i X (e : event X) k x m w L ths :
      ths !! i = Some (Vis e k) → mutex_op e = Some (false, m) → m ∈ L →
      conc_act (i, Some (false, m)) (MkConc w L ths) (MkConc w (L ∖ {[ m ]}) (<[i := k x]> ths))
  | step_call i X (e : event X) k w L ths :
      ths !! i = Some (Vis e k) → mutex_op e = None →
      conc_act (i, None) (MkConc w L ths) (MkConc (h _ e w).2 L (<[i := k (h _ e w).1]> ths)).
Definition conc_step (st st' : conc) : Prop := ∃ a, conc_act a st st'.

(** A run, with the labels of its steps in their order. *)
Inductive conc_acts (st : conc) : list (nat * option (bool * Z)) → conc → Prop :=
  | acts_nil : conc_acts st [] st
  | acts_snoc acts st' a st'' :
      conc_acts st acts st' → conc_act a st' st'' → conc_acts st (acts ++ [a]) st''.

Lemma steps_acts st st' : rtc conc_step st st' → ∃ acts, conc_acts st acts st'.
Proof.
  revert st'. apply (rtc_ind_r (λ st', ∃ acts, conc_acts st acts st')).
  - eexists. apply acts_nil.
  - intros st1 st2 _ [a Ha] [acts IH]. eexists. by eapply acts_snoc.
Qed.

(** The same, run in the order of a list of threads. *)
Definition conc_turn (i : nat) (st : conc) : option conc :=
  match c_threads st !! i with
  | Some (Vis e k) =>
      let go w L x := Some (MkConc w L (<[i := k x]> (c_threads st))) in
      match mutex_op e with
      | Some (true, m) =>
          if decide (m ∈ c_locks st) then None
          else go (c_world st) ({[ m ]} ∪ c_locks st) (quiet e)
      | Some (false, m) =>
          if decide (m ∈ c_locks st) then go (c_world st) (c_locks st ∖ {[ m ]}) (quiet e) else None
      | None => go (h _ e (c_world st)).2 (c_locks st) (h _ e (c_world st)).1
      end
  | _ => None
  end.
(** A thread that cannot move is passed over. *)
Fixpoint conc_run (l : list nat) (st : conc) : conc :=
  match l with
  | [] => st
  | i :: l => conc_run l (default st (conc_turn i st))
  end.

Lemma conc_turn_step i st st' : conc_turn i st = Some st' → conc_step st st'.
Proof.
  destruct st as [w L ths]. unfold conc_turn. cbn [c_world c_locks c_threads].
  destruct (ths !! i) as [[a|X e k|m|]|] eqn:Hi; try done.
  destruct (mutex_op e) as [[[] m]|] eqn:He.
  - case_decide; [done|]. intros [= <-]. eexists. by eapply step_take.
  - case_decide; [|done]. intros [= <-]. eexists. by eapply step_give.
  - intros [= <-]. eexists. by apply step_call.
Qed.

Lemma conc_run_reachable l st : rtc conc_step st (conc_run l st).
Proof.
  revert st. induction l as [|i l IH]; intros st; cbn; [apply rtc_refl|].
  destruct (conc_turn i st) as [st1|] eqn:Ht; [|apply IH].
  eapply rtc_l; [by apply (conc_turn_step i)|apply IH].
Qed.
End concurrent.
Arguments conc_step {W A} h.
Arguments conc_act {W A} h.
Arguments conc_acts {W A} h.

(** The threads that took the mutex [m] ([true]) or gave it back ([false]), in the
    order in which they did. *)
Definition mutex_order (b : bool) (m : Z) (acts : list (nat * option (bool * Z))) : list nat :=
  omap (λ a, if decide (a.2 = Some (b, m)) then Some a.1 else None) acts.

Lemma mutex_order_snoc b m acts a :
  mutex_order b m (acts ++ [a])
  = mutex_order b m acts ++ if decide (a.2 = Some (b, m)) then [a.1] else [].
Proof. unfold mutex_order. rewrite omap_app. cbn. by case_decide. Qed.

(** The operations of the critical sections, one section after the other. *)
Definition sections_log {Op} (secs : list (nat * list Op)) : list (nat * Op) :=
  secs ≫= λ sec, (sec.1,.) <$> sec.2.

(** A log that has the operations of a thread where its critical section on [m]
    is: the threads give the mutex back in the order in which they took it, and
    the log lists what each did in its section, section by section. *)
Definition lock_ordered {Op} (m : Z) (acts : list (nat * option (bool * Z)))
    (log : list (nat * Op)) : Prop :=
  mutex_order false m acts `prefix_of` mutex_order true m acts ∧
  ∃ secs, fst <$> secs = mutex_order false m acts ∧ log = sections_log secs.
Arguments conc_turn {W A} h.
Arguments conc_run {W A} h.

(** ** Reduction of critical sections *)

(** The sequential run of operations of a contract. *)
Fixpoint contract_run {L Op} (step : Op → L → L * bool) (ops : list (Op * bool)) (l : L) : option L :=
  match ops with
  | [] => Some l
  | (o, b) :: ops =>
      if decide ((step o l).2 = b) then contract_run step ops (step o l).1 else None
  end.

Lemma contract_run_app {L Op} (step : Op → L → L * bool) ops ops' l :
  contract_run step (ops ++ ops') l = contract_run step ops l ≫= contract_run step ops'.
Proof.
  revert l. induction ops as [|[o b] ops IH]; intros l; cbn; [done|].
  case_decide; [|done]. apply IH.
Qed.

Section reduction.
Context {W L Op : Type} (h : handler W) (R : relation W) `{!PreOrder R}.
(** the contract, and which of its states a world implements *)
Context (step : Op → L → L * bool) (impl : W → L → Prop).
(** the mutex of the critical sections *)
Context (m : Z).
Hypothesis impl_rely : ∀ w w' l, impl w l → R w w' → impl w' l.

(** What a thread may show of the abstract state while it holds the mutex, which
    operations it may have performed, and what it promises of its result, given
    these operations. *)
Record tspec (A : Type) := MkSpec {
  ts_seen : L → L → Prop;
  ts_done : list (Op * bool) → Prop;
  ts_post : A → list (Op * bool) → Prop
}.
Arguments MkSpec {A}.
Arguments ts_seen {A}.
Arguments ts_done {A}.
Arguments ts_post {A}.

Definition seen_inv {A} (T : tspec A) (l : L) (w : W) : Prop := ∃ l', ts_seen T l l' ∧ impl w l'.

(** A thread keeps to its specification.  Outside, a call changes the world no
    more than the rely allows; between taking and giving back the mutex, from
    the abstract state [l], it is alone up to the rely, and what it has done in
    the end are operations of the contract. *)
Fixpoint tsafe {A} (T : tspec A) (done : list (Op * bool)) (g : option L) (p : prog A) (w : W)
    : Prop :=
  match g with
  | None =>
      match p with
      | Ret a => ts_post T a done
      | Vis e k =>
          match mutex_op e with
          | Some (true, i) => ∀ x,
              if decide (i = m) then ∀ w l, impl w l → tsafe T done (Some l) (k x) w
              else tsafe T done None (k x) w
          | Some (false, i) => i ≠ m ∧ ∀ x, tsafe T done None (k x) w
          | None => ∀ w l, impl w l → R w (h _ e w).2 ∧ tsafe T done None (k (h _ e w).1) w
          end
      | _ => True
      end
  | Some l => ∀ w', R w w' → seen_inv T l w' ∧
      match p with
      | Ret _ | Panic _ => False
      | OutOfFuel => True
      | Vis e k =>
          match mutex_op e with
          | Some (true, i) => i ≠ m ∧ ∀ x, tsafe T done (Some l) (k x) w'
          | Some (false, i) => ∀ x,
              if decide (i = m) then
                ∃ ops l', contract_run step ops l = Some l' ∧ impl w' l' ∧
                          ts_done T (done ++ ops) ∧ tsafe T (done ++ ops) None (k x) w'
              else tsafe T done (Some l) (k x) w'
          | None => tsafe T done (Some l) (k (h _ e w').1) (h _ e w').2
          end
      end
  end.

(** Outside, the world of the moment does not matter. *)
Lemma tsafe_outside {A} (T : tspec A) d p w w' : tsafe T d None p w → tsafe T d None p w'.
Proof.
  revert d. induction p as [a|X e k IH|s|]; intros d; cbn [tsafe]; try done.
  destruct (mutex_op e) as [[[] i]|].
  - intros H x. specialize (H x). case_decide; [done|]. by eapply IH.
  - intros [Hi H]. split; [done|]. intros x. by eapply IH.
  - done.
Qed.
(** Inside, the others change the world as far as the rely allows. *)
Lemma tsafe_inside {A} (T : tspec A) d l p w w' : tsafe T d (Some l) p w → R w w' → tsafe T d (Some l) p w'.
Proof.
  intros Hp Hw. assert (∀ w2, R w' w2 → R w w2) as HR by (intros; by etrans).
  destruct p; cbn [tsafe] in *; intros w2 H2; by apply Hp, HR.
Qed.
Lemma tsafe_rely {A} (T : tspec A) d g p w w' : tsafe T d g p w → R w w' → tsafe T d g p w'.
Proof. destruct g; [apply tsafe_inside|intros; by eapply tsafe_outside]. Qed.

(** *** The invariant of the pool *)

Section pool.
Context {A : Type}.

(** The operations of the log that thread [i] performed. *)
Definition ops_of (i : nat) (log : list (nat * (Op * bool))) : list (Op * bool) :=
  snd <$> filter (λ e, e.1 = i) log.

Record conc_inv (Ts : list (tspec A)) (l0 : L) (st : conc (W := W) (A := A)) (gs : list (option L))
    (log : list (nat * (Op * bool))) (l : L) : Prop := {
  ci_log : contract_run step (snd <$> log) l0 = Some l;
  ci_len : length gs = length (c_threads st);
  ci_specs : length Ts = length (c_threads st);
  ci_safe i T g p : Ts !! i = Some T → gs !! i = Some g → c_threads st !! i = Some p →
    tsafe T (ops_of i log) g p (c_world st);
  ci_done i T : Ts !! i = Some T → ts_done T (ops_of i log);
  ci_known i o : (i, o) ∈ log → i < length (c_threads st);
  ci_locked i l' : gs !! i = Some (Some l') → l' = l ∧ m ∈ c_locks st;
  ci_one i j l1 l2 : gs !! i = Some (Some l1) → gs !! j = Some (Some l2) → i = j;
  ci_free : (∀ i l', gs !! i ≠ Some (Some l')) → impl (c_world st) l
}.

Lemma ops_of_app i log ops : ops_of i (log ++ ((i,.) <$> ops)) = ops_of i log ++ ops.
Proof.
  unfold ops_of. rewrite filter_app, fmap_app. f_equal.
  induction ops as [|o ops IH]; [done|]. rewrite fmap_cons, filter_cons_True by done.
  rewrite fmap_cons. by f_equal.
Qed.
Lemma ops_of_app_ne i j log ops : j ≠ i → ops_of j (log ++ ((i,.) <$> ops)) = ops_of j log.
Proof.
  intros Hj. unfold ops_of. rewrite filter_app, fmap_app.
  assert (filter (λ e : nat * (Op * bool), e.1 = j) ((i,.) <$> ops) = []) as ->; [|by rewrite app_nil_r].
  induction ops as [|o ops IH]; [done|]. rewrite fmap_cons, filter_cons_False; [done|]. cbn. congruence.
Qed.
Lemma elem_of_ops i o log : (i, o) ∈ log ↔ o ∈ ops_of i log.
Proof.
  unfold ops_of. rewrite list_elem_of_fmap. setoid_rewrite list_elem_of_filter. split.
  - intros H. by exists (i, o).
  - by intros ([j o'] & -> & Ej & H); cbn in Ej; subst j.
Qed.
Lemma snd_tagged (i : nat) (ops : list (Op * bool)) : snd <$> ((i,.) <$> ops) = ops.
Proof. induction ops as [|o ops IH]; [done|]. cbn. by f_equal. Qed.

(** A step of thread [i], which performs [ops] and goes from outside or inside
    to outside or inside. *)
Lemma conc_inv_update Ts l0 w Lk ths gs log l i p p' T w' Lk' g' ops l' :
  conc_inv Ts l0 (MkConc w Lk ths) gs log l → ths !! i = Some p → Ts !! i = Some T →
  contract_run step ops l = Some l' → ts_done T (ops_of i log ++ ops) →
  tsafe T (ops_of i log ++ ops) g' p' w' →
  (∀ j (T : tspec A) d g p, j ≠ i → gs !! j = Some g → tsafe T d g p w → tsafe T d g p w') →
  (∀ j l1, j ≠ i → gs !! j = Some (Some l1) → l' = l ∧ m ∈ Lk' ∧ g' = None) →
  (∀ l1, g' = Some l1 → l1 = l' ∧ m ∈ Lk') →
  (g' = None → (∀ j l1, j ≠ i → gs !! j ≠ Some (Some l1)) → impl w' l') →
  conc_inv Ts l0 (MkConc w' Lk' (<[i := p']> ths)) (<[i := g']> gs) (log ++ ((i,.) <$> ops)) l'.
Proof.
  intros [H1 H2 H3 H4 Hd Hk H5 H6 H7] Hp HT Hops Hdone Hself Hothers Hin Hl Hfree. cbn [c_world c_locks c_threads] in *.
  assert (i < length gs) as Hi by (rewrite H2; by eapply lookup_lt_Some).
  assert (∀ j g, <[i := g']> gs !! j = Some g → (j = i ∧ g = g') ∨ (j ≠ i ∧ gs !! j = Some g)) as Hgs.
  { intros j g. destruct (decide (j = i)) as [->|Hne].
    - rewrite list_lookup_insert_eq by done. intros [= <-]. by left.
    - rewrite list_lookup_insert_ne by done. by right. }
  split; cbn [c_world c_locks c_threads].
  - rewrite fmap_app, snd_tagged, contract_run_app, H1. done.
  - by rewrite !length_insert.
  - by rewrite length_insert.
  - intros j T' g q HT' [[-> ->]|[Hne Hg]]%Hgs Hq.
    + rewrite list_lookup_insert_eq in Hq by (by eapply lookup_lt_Some). injection Hq as <-.
      rewrite HT in HT'. injection HT' as <-. by rewrite ops_of_app.
    + rewrite list_lookup_insert_ne in Hq by done. rewrite ops_of_app_ne by done.
      eapply Hothers; [done|done|]. by eapply H4.
  - intros j T' HT'. destruct (decide (j = i)) as [->|Hne].
    + rewrite HT in HT'. injection HT' as <-. by rewrite ops_of_app.
    + rewrite ops_of_app_ne by done. by apply Hd.
  - intros j o. rewrite length_insert, elem_of_app. intros [Hj|Hj]; [by eapply Hk|].
    apply list_elem_of_fmap in Hj as (o' & [= -> ->] & _). by eapply lookup_lt_Some.
  - intros j l1 [[-> E]|[Hne Hg]]%Hgs; [by apply Hl|].
    destruct (Hin j l1 Hne Hg) as (-> & Hm & _). destruct (H5 j l1 Hg). done.
  - intros j1 j2 l1 l2 [[-> E1]|[Hn1 Hg1]]%Hgs [[-> E2]|[Hn2 Hg2]]%Hgs; [done| | |by eapply H6].
    + destruct (Hin j2 l2 Hn2 Hg2) as (_ & _ & ->). done.
    + destruct (Hin j1 l1 Hn1 Hg1) as (_ & _ & ->). done.
  - intros Hno. apply Hfree.
    + destruct g' as [l1|]; [|done]. destruct (Hno i l1). by apply list_lookup_insert_eq.
    + intros j l1 Hne Hg. destruct (Hno j l1). by rewrite list_lookup_insert_ne.
Qed.

(** At every instant the world implements a state of the contract. *)
Lemma conc_inv_seen Ts l0 st gs log l :
  conc_inv Ts l0 st gs log l →
  impl (c_world st) l ∨
  ∃ i T l', Ts !! i = Some T ∧ ts_seen T l l' ∧ impl (c_world st) l' ∧ m ∈ c_locks st ∧
            gs !! i = Some (Some l).
Proof.
  intros [H1 H2 H3 H4 _ _ H5 H6 H7].
  destruct (decide (Exists (λ g, is_Some g) gs)) as [He|He].
  - apply Exists_exists in He as (g & [i Hi]%list_elem_of_lookup & l1 & ->). right.
    destruct (H5 i l1 Hi) as [-> Hm]. assert (i < length gs) as Hlt by (by eapply lookup_lt_Some).
    destruct (lookup_lt_is_Some_2 Ts i) as [T HT]; [lia|].
    destruct (lookup_lt_is_Some_2 (c_threads st) i) as [p Hp]; [lia|].
    specialize (H4 i T _ p HT Hi Hp).
    assert (seen_inv T l (c_world st)) as (l' & Hs & Hl').
    { destruct p; cbn [tsafe] in H4; by apply (H4 (c_world st)). }
    by exists i, T, l'.
  - left. apply H7. intros i l' Hi. apply He, Exists_exists. exists (Some l'). split; [|done].
    by eapply list_elem_of_lookup_2.
Qed.

Lemma nobody_inside Ts l0 st gs log l :
  conc_inv Ts l0 st gs log l → m ∉ c_locks st → ∀ i l', gs !! i ≠ Some (Some l').
Proof. intros H Hm i l' Hi. by apply (ci_locked _ _ _ _ _ _ H) in Hi as [_ Hi]. Qed.

(** The four ways a thread can move, each keeping the invariant. *)
Section moves.
Context (Ts : list (tspec A)) (l0 : L) (w : W) (Lk : gset Z) (ths : list (prog A)).
Context (gs : list (option L)) (log : list (nat * (Op * bool))) (l : L).
Context (Hinv : conc_inv Ts l0 (MkConc w Lk ths) gs log l).
Context (i : nat) (p p' : prog A) (T : tspec A) (Hp : ths !! i = Some p) (HT : Ts !! i = Some T).

Lemma others_outside l1 : gs !! i = Some (Some l1) → ∀ j g, j ≠ i → gs !! j = Some g → g = None.
Proof.
  intros Hi j [l2|] Hj Hg; [|done]. destruct Hj. by eapply (ci_one _ _ _ _ _ _ Hinv).
Qed.

Lemma move_outside w' Lk' :
  gs !! i = Some None → R w w' → (m ∈ Lk → m ∈ Lk') → tsafe T (ops_of i log) None p' w' →
  conc_inv Ts l0 (MkConc w' Lk' (<[i := p']> ths)) (<[i := None]> gs) (log ++ []) l.
Proof.
  intros Hg Hw Hm Hs.
  eapply (conc_inv_update _ _ _ _ _ _ _ _ i p p' T w' Lk' None [] l); try done.
  - rewrite app_nil_r. by apply (ci_done _ _ _ _ _ _ Hinv).
  - by rewrite app_nil_r.
  - intros. by eapply tsafe_rely.
  - intros j l1 _ [_ ?]%(ci_locked _ _ _ _ _ _ Hinv). auto.
  - intros _ Hno. eapply impl_rely; [|exact Hw]. apply (ci_free _ _ _ _ _ _ Hinv). intros j l1 Hj.
    destruct (decide (j = i)) as [->|Hne]; [by rewrite Hg in Hj|by destruct (Hno j l1)].
Qed.

Lemma move_inside l1 w' Lk' :
  gs !! i = Some (Some l1) → m ∈ Lk' → tsafe T (ops_of i log) (Some l1) p' w' →
  conc_inv Ts l0 (MkConc w' Lk' (<[i := p']> ths)) (<[i := Some l1]> gs) (log ++ []) l.
Proof.
  intros Hg Hm Hs. destruct (ci_locked _ _ _ _ _ _ Hinv _ _ Hg) as [-> _].
  eapply (conc_inv_update _ _ _ _ _ _ _ _ i p p' T w' Lk' (Some l) [] l); try done.
  - rewrite app_nil_r. by apply (ci_done _ _ _ _ _ _ Hinv).
  - by rewrite app_nil_r.
  - intros j T' d g q Hj Hgj. rewrite (others_outside _ Hg j g Hj Hgj). apply tsafe_outside.
  - intros j l1 Hj Hgj. by apply (others_outside _ Hg) in Hgj.
  - by intros l1 [= <-].
Qed.

Lemma move_enter :
  gs !! i = Some None → m ∉ Lk → (∀ w l, impl w l → tsafe T (ops_of i log) (Some l) p' w) →
  conc_inv Ts l0 (MkConc w ({[ m ]} ∪ Lk) (<[i := p']> ths)) (<[i := Some l]> gs) (log ++ []) l.
Proof.
  intros Hg Hm Hs. pose proof (nobody_inside _ _ _ _ _ _ Hinv Hm) as Hno.
  eapply (conc_inv_update _ _ _ _ _ _ _ _ i p p' T w _ (Some l) [] l); try done.
  - rewrite app_nil_r. by apply (ci_done _ _ _ _ _ _ Hinv).
  - rewrite app_nil_r. apply Hs. by apply (ci_free _ _ _ _ _ _ Hinv).
  - intros j l1 _ Hj. by destruct (Hno j l1).
  - intros l1 [= <-]. split; [done|]. apply elem_of_union. left. by apply elem_of_singleton.
Qed.

Lemma move_leave ops l' Lk' :
  gs !! i = Some (Some l) → contract_run step ops l = Some l' → impl w l' →
  ts_done T (ops_of i log ++ ops) → tsafe T (ops_of i log ++ ops) None p' w →
  conc_inv Ts l0 (MkConc w Lk' (<[i := p']> ths)) (<[i := None]> gs) (log ++ ((i,.) <$> ops)) l'.
Proof.
  intros Hg Hops Hl Hd Hs. eapply (conc_inv_update _ _ _ _ _ _ _ _ i p p' T w _ None ops l'); try done.
  intros j l1 Hj Hgj. by apply (others_outside _ Hg) in Hgj.
Qed.
End moves.

(** The log is in the order of the mutex: who is inside took it last. *)
Record conc_order (gs : list (option L)) (acts : list (nat * option (bool * Z)))
    (log : list (nat * (Op * bool))) : Prop := {
  co_secs : ∃ secs, fst <$> secs = mutex_order false m acts ∧ log = sections_log secs;
  co_out : (∀ i l', gs !! i ≠ Some (Some l')) → mutex_order true m acts = mutex_order false m acts;
  co_in i l' : gs !! i = Some (Some l') → mutex_order true m acts = mutex_order false m acts ++ [i]
}.

Lemma order_other gs acts log i o g :
  gs !! i = Some g → (∀ b, o ≠ Some (b, m)) → conc_order gs acts log →
  conc_order (<[i := g]> gs) (acts ++ [(i, o)]) (log ++ []).
Proof.
  intros Hg Ho [H1 H2 H3]. rewrite list_insert_id by done. rewrite app_nil_r.
  assert (∀ b, mutex_order b m (acts ++ [(i, o)]) = mutex_order b m acts) as E.
  { intros b. rewrite mutex_order_snoc, decide_False by apply Ho. apply app_nil_r. }
  split; by rewrite !E.
Qed.

Lemma mutex_order_own b m' acts i : mutex_order b m' (acts ++ [(i, Some (b, m'))]) = mutex_order b m' acts ++ [i].
Proof. by rewrite mutex_order_snoc, decide_True. Qed.
Lemma mutex_order_dual b m' acts i : mutex_order (negb b) m' (acts ++ [(i, Some (b, m'))]) = mutex_order (negb b) m' acts.
Proof. rewrite mutex_order_snoc, decide_False by (by destruct b). apply app_nil_r. Qed.

Lemma order_enter gs acts log i l :
  i < length gs → (∀ j l', gs !! j ≠ Some (Some l')) → conc_order gs acts log →
  conc_order (<[i := Some l]> gs) (acts ++ [(i, Some (true, m))]) (log ++ []).
Proof.
  intros Hi Hno [H1 H2 H3]. rewrite app_nil_r.
  split; rewrite ?(mutex_order_own true), (mutex_order_dual true).
  - done.
  - intros Hn. destruct (Hn i l). by apply list_lookup_insert_eq.
  - intros j l' Hj. rewrite (H2 Hno). destruct (decide (j = i)) as [->|Hne]; [done|].
    rewrite list_lookup_insert_ne in Hj by done. by destruct (Hno j l').
Qed.

Lemma order_leave gs acts log i l ops :
  gs !! i = Some (Some l) → (∀ j l', gs !! j = Some (Some l') → j = i) → conc_order gs acts log →
  conc_order (<[i := None]> gs) (acts ++ [(i, Some (false, m))]) (log ++ ((i,.) <$> ops)).
Proof.
  intros Hi Hone [(secs & H1 & ->) H2 H3]. assert (i < length gs) as Hlt by (by eapply lookup_lt_Some).
  split; rewrite (mutex_order_own false), ?(mutex_order_dual false).
  - exists (secs ++ [(i, ops)]). rewrite fmap_app, H1. split; [done|]. unfold sections_log.
    by rewrite bind_app; cbn; rewrite app_nil_r.
  - intros _. by apply (H3 i l).
  - intros j l' Hj. destruct (decide (j = i)) as [->|Hne].
    + by rewrite list_lookup_insert_eq in Hj.
    + rewrite list_lookup_insert_ne in Hj by done. destruct Hne. by eapply Hone.
Qed.

Lemma conc_act_inv Ts l0 st st' a gs log l acts :
  conc_act h a st st' → conc_inv Ts l0 st gs log l → conc_order gs acts log →
  ∃ gs' log' l', conc_inv Ts l0 st' gs' log' l' ∧ conc_order gs' (acts ++ [a]) log'.
Proof.
  intros Hs Hinv Hord. assert (∃ l1, impl (c_world st) l1) as [l1 Hl1].
  { destruct (conc_inv_seen _ _ _ _ _ _ Hinv) as [?|(? & ? & l' & _ & _ & ? & _)];
      [by exists l|by exists l']. }
  assert (∀ i p, c_threads st !! i = Some p → ∃ T g, Ts !! i = Some T ∧ gs !! i = Some g) as Hth.
  { intros i p Hi%lookup_lt_Some. destruct (lookup_lt_is_Some_2 Ts i) as [T HT];
      [rewrite (ci_specs _ _ _ _ _ _ Hinv); lia|].
    destruct (lookup_lt_is_Some_2 gs i) as [g Hg]; [rewrite (ci_len _ _ _ _ _ _ Hinv); lia|]. eauto. }
  destruct Hs as [i X e k x i' w Lk ths Hi He Hm|i X e k x i' w Lk ths Hi He Hm|i X e k w Lk ths Hi He];
    destruct (Hth i _ Hi) as (T & g & HT & Hg); cbn [c_world c_locks c_threads] in *;
    pose proof (ci_safe _ _ _ _ _ _ Hinv i T g _ HT Hg Hi) as Hsafe; cbn [c_world] in Hsafe;
    (destruct g as [l2|]; [destruct (ci_locked _ _ _ _ _ _ Hinv i l2 Hg) as [-> Hml]|]);
    cbn [tsafe] in Hsafe; rewrite He in Hsafe;
    try destruct (Hsafe w (PreOrder_Reflexive w)) as [_ Hin].
  - destruct Hin as [Hne Hk]. eexists _, _, _. split; [|by eapply order_other; [|congruence|]].
    eapply move_inside; try done. apply elem_of_union. by right.
  - specialize (Hsafe x). case_decide as Hd; eexists _, _, _; split.
    + subst i'. by eapply move_enter.
    + subst i'. apply order_enter; [by eapply lookup_lt_Some| |done]. by eapply nobody_inside.
    + eapply move_outside; try done. intros. apply elem_of_union. by right.
    + by eapply order_other; [|congruence|].
  - specialize (Hin x). case_decide as Hd.
    + destruct Hin as (ops & l' & Hops & Hl' & Hd' & Hk). eexists _, _, _.
      split; [by eapply move_leave|]. subst i'. eapply order_leave; [done| |done].
      intros j l2 Hj. by eapply (ci_one _ _ _ _ _ _ Hinv).
    + eexists _, _, _. split; [|by eapply order_other; [|congruence|]].
      eapply move_inside; try done. apply elem_of_difference. split; [done|]. by apply not_elem_of_singleton.
  - destruct Hsafe as [Hd Hk]. eexists _, _, _. split; [|by eapply order_other; [|congruence|]].
    eapply move_outside; try done. intros.
    apply elem_of_difference. split; [done|]. by apply not_elem_of_singleton.
  - eexists _, _, _. split; [by eapply move_inside|by eapply order_other].
  - destruct (Hsafe w l1 Hl1) as [Hw Hk]. eexists _, _, _. split; [|by eapply order_other].
    eapply move_outside; try done. by eapply tsafe_outside.
Qed.

Lemma conc_order_locks gs acts log :
  conc_order gs acts log → lock_ordered m acts log.
Proof.
  intros [H1 H2 H3]. split; [|done].
  destruct (decide (Exists (λ g, is_Some g) gs)) as [He|He].
  - apply Exists_exists in He as (g & [i Hi]%list_elem_of_lookup & l1 & ->). rewrite (H3 i l1 Hi).
    by apply prefix_app_r.
  - rewrite H2; [done|]. intros i l' Hi. apply He, Exists_exists. exists (Some l'). split; [|done].
    by eapply list_elem_of_lookup_2.
Qed.

(** In every state the threads can reach, what they have done to the abstract
    state is a sequential run of the contract, in the order in which they held
    the mutex; the world implements the state it ends in, or one that a thread
    inside its critical section may show; and the results of the threads that
    have returned are those of their operations. *)
Lemma conc_refines (Ts : list (tspec A)) (ps : list (prog A)) w0 l0 acts st :
  impl w0 l0 → Forall2 (λ T p, ts_done T [] ∧ ∀ w, tsafe T [] None p w) Ts ps →
  conc_acts h (MkConc w0 ∅ ps) acts st →
  ∃ log l, lock_ordered m acts log ∧ contract_run step (snd <$> log) l0 = Some l ∧
    (impl (c_world st) l ∨
     ∃ i T l', Ts !! i = Some T ∧ ts_seen T l l' ∧ impl (c_world st) l' ∧ m ∈ c_locks st ∧
               mutex_order true m acts = mutex_order false m acts ++ [i]) ∧
    (∀ i o, (i, o) ∈ log → is_Some (Ts !! i)) ∧
    (∀ i T, Ts !! i = Some T → ts_done T (ops_of i log) ∧
       ∀ a, c_threads st !! i = Some (Ret a) → ts_post T a (ops_of i log)).
Proof.
  intros Hl0 Hps Hr.
  assert (∀ i (l' : L), replicate (length ps) None !! i ≠ Some (Some l')) as Hnone.
  { by intros i l' [? _]%lookup_replicate. }
  assert (conc_inv Ts l0 (MkConc w0 ∅ ps) (replicate (length ps) None) [] l0) as Hinv.
  { split; cbn [c_world c_locks c_threads]; try done.
    - by rewrite length_replicate.
    - by eapply Forall2_length.
    - intros i T g p HT Hg Hp. apply lookup_replicate in Hg as [-> _].
      by apply (Forall2_lookup_lr _ _ _ _ _ _ Hps HT Hp).
    - intros i T HT. destruct (Forall2_lookup_l _ _ _ _ _ Hps HT) as (p & _ & Hd & _). done.
    - intros i o Hi. by apply elem_of_nil in Hi.
    - intros i l' Hg. by destruct (Hnone i l').
    - intros i j l1 l2 Hg. by destruct (Hnone i l1). }
  assert (∃ gs log l, conc_inv Ts l0 st gs log l ∧ conc_order gs acts log) as (gs & log & l & H & Hord).
  { clear Hps Hl0. induction Hr as [|acts st1 a st2 _ (gs & log & l & H & Hord) Hs].
    - eexists _, [], _. split; [exact Hinv|]. split; [by exists []|done|].
      intros i l' Hg. by destruct (Hnone i l').
    - by eapply conc_act_inv. }
  exists log, l. split; [|split; [by eapply ci_log|split; [|split]]].
  { by eapply conc_order_locks. }
  { destruct (conc_inv_seen _ _ _ _ _ _ H) as [?|(i & T & l' & ? & ? & ? & ? & Hg)]; [by left|].
    right. exists i, T, l'. split_and!; [done..|]. by apply (co_in _ _ _ Hord i l). }
  { intros i o Ho. apply lookup_lt_is_Some_2. rewrite (ci_specs _ _ _ _ _ _ H). by eapply ci_known. }
  intros i T HT. split; [by eapply ci_done|]. intros a Ha.
  assert (i < length (c_threads st)) as Hi by (by eapply lookup_lt_Some).
  destruct (lookup_lt_is_Some_2 gs i) as [g Hg]; [rewrite (ci_len _ _ _ _ _ _ H); lia|].
  pose proof (ci_safe _ _ _ _ _ _ H i T g _ HT Hg Ha) as Hs.
  destruct g as [l1|]; [|done]. by destruct (Hs (c_world st)).
Qed.

End pool.

(** *** Building threads *)

(** A program without mutexes whose calls change the world no more than the rely
    allows, and that returns what [P] says. *)
Fixpoint idle {B} (P : B → Prop) (p : prog B) : Prop :=
  match p with
  | Ret b => P b
  | Vis e k => mutex_op e = None ∧
      ∀ w l, impl w l → R w (h _ e w).2 ∧ idle P (k (h _ e w).1)
  | _ => True
  end.

Lemma idle_mono {B} (P Q : B → Prop) (p : prog B) : (∀ b, P b → Q b) → idle P p → idle Q p.
Proof.
  intros HPQ. induction p as [b|X e k IH|s|]; cbn [idle]; [apply HPQ| |done..].
  intros [He Hk]. split; [done|]. intros w l Hl. destruct (Hk w l Hl). auto.
Qed.

Lemma idle_bind {B C} (P : C → Prop) (p : prog B) (f : B → prog C) :
  idle (λ b, idle P (f b)) p → idle P (bind p f).
Proof.
  induction p as [b|X e k IH|s|]; cbn [idle bind]; [done| |done..].
  intros [He Hk]. split; [done|]. intros w l Hl. destruct (Hk w l Hl). auto.
Qed.

Lemma idle_yields {B} (P Q : B → Prop) (p : prog B) :
  yields Q p → idle P p → idle (λ b, P b ∧ Q b) p.
Proof.
  induction p as [b|X e k IH|s|]; cbn [idle yields]; [done| |done..].
  intros HQ [He Hk]. split; [done|]. intros w l Hl. destruct (Hk w l Hl). auto.
Qed.

Lemma idle_loop {S B} (P : B → Prop) (body : S → prog (S + B)) n s :
  (∀ s, idle (λ r, match r with inr b => P b | inl _ => True end) (body s)) →
  idle P (loop n body s).
Proof.
  intros Hb. revert s. induction n as [|n IH]; intros s; [done|]. cbn [loop].
  apply idle_bind. eapply idle_mono; [|apply Hb]. by intros [s'|b].
Qed.

Lemma idle_retry `{!Ext} f :
  (∀ d w, R w (h _ (Sleep d) w).2) → idle (λ _, True) f → idle (λ _, True) (RetryOnConflict f).
Proof.
  intros Hsl Hf. destruct RetryOnConflict_spec as [pauses ->].
  induction pauses as [|d pauses IH]; cbn [attempts]; apply idle_bind;
    (eapply idle_mono; [|exact Hf]); intros r _; [done|].
  destruct (on_err IsConflict r); [|done]. split; [done|]. intros w l _. split; [apply Hsl|].
  destruct (h _ (Sleep d) w).1. apply IH.
Qed.

(** Calls that are harmless whatever the answers. *)
Lemma idle_within {B} (E : event_pred) (P : B → Prop) (p : prog B) tr :
  (∀ X (e : event X), E X e = true → mutex_op e = None ∧ ∀ w l, impl w l → R w (h _ e w).2) →
  within E p → wp any_env p tr (λ o _, match o with Done b => P b | _ => True end) → idle P p.
Proof.
  intros HE. revert tr. induction p as [b|X e k IH|s|]; intros tr; cbn [within wp idle]; try done.
  intros [He Hk] Hwp. destruct (HE _ e He) as [Hm HR]. split; [done|]. intros w l Hl.
  split; [by eapply HR|]. by eapply IH; [apply Hk|apply Hwp].
Qed.

Lemma idle_within_any {B} (E : event_pred) (p : prog B) :
  (∀ X (e : event X), E X e = true → mutex_op e = None ∧ ∀ w l, impl w l → R w (h _ e w).2) →
  within E p → idle (λ _, True) p.
Proof.
  intros HE Hp. apply (idle_within E _ p []); [done..|]. generalize (@nil call_rec).
  clear Hp. induction p as [b|X e k IH|s|]; intros tr; cbn [wp]; auto.
Qed.

(** Run inside a critical section, such a program keeps the abstract state. *)
Lemma rwp_idle {B} (Iv : W → Prop) (P : B → Prop) (p : prog B) w l :
  idle P p → impl w l → (∀ w, impl w l → Iv w) →
  rwp h R Iv p w (λ o w', impl w' l ∧ ∀ b, o = Done b → P b).
Proof.
  intros Hp Hw HI. revert w Hw.
  induction p as [b|X e k IH|s|]; intros w Hw; cbn [rwp idle] in *; intros w' Hr;
    (assert (impl w' l) as Hw' by (by eapply impl_rely)); (split; [by apply HI|]); try done.
  - split; [done|]. by intros b' [= <-].
  - destruct Hp as [_ Hk]. destruct (Hk w' l Hw') as [Hr' Hk']. apply IH; [done|].
    by eapply impl_rely.
Qed.

Lemma rwp_idle_bind {B C} (Iv : W → Prop) (P : B → Prop) (p : prog B) (f : B → prog C) w l
    (Q : outcome C → W → Prop) :
  idle P p → impl w l → (∀ w, impl w l → Iv w) →
  (∀ b w', P b → impl w' l → rwp h R Iv (f b) w' Q) →
  (∀ s w', impl w' l → Q (Panicked s) w') → (∀ w', impl w' l → Q Diverged w') →
  rwp h R Iv (bind p f) w Q.
Proof.
  intros Hp Hw HI Hf HP HD. apply rwp_bind; [done|].
  eapply rwp_mono; [|by apply (rwp_idle _ P)]. intros [b|s|] w' [Hw' Hb]; auto.
Qed.

(** Sequencing: the postcondition of the first part is the specification of the
    rest. *)
Definition then_spec {A B} (T : tspec B) (f : A → prog B) : tspec A :=
  MkSpec (ts_seen T) (ts_done T) (λ a done, ∀ w, tsafe T done None (f a) w).

Lemma tsafe_bind {A B} (T : tspec B) d g (p : prog A) (f : A → prog B) w :
  tsafe (then_spec T f) d g p w → tsafe T d g (bind p f) w.
Proof.
  revert d g w. induction p as [a|X e k IH|s|]; intros d [l|] w Hp; cbn [tsafe bind] in *; try done.
  - by destruct (Hp w (PreOrder_Reflexive w)).
  - intros w' Hr. destruct (Hp w' Hr) as [Hs Hk]. split; [done|].
    destruct (mutex_op e) as [[[] i]|].
    + destruct Hk as [Hi Hk]. split; [done|]. intros x. by apply IH.
    + intros x. specialize (Hk x). case_decide; [|by apply IH].
      destruct Hk as (ops & l' & H1 & H2 & H3 & H4). exists ops, l'. split_and!; [done..|]. by apply IH.
    + by apply IH.
  - destruct (mutex_op e) as [[[] i]|].
    + intros x. specialize (Hp x). case_decide; [|by apply IH]. intros w1 l1 H1. by apply IH, Hp.
    + destruct Hp as [Hi Hp]. split; [done|]. intros x. by apply IH.
    + intros w1 l1 H1. destruct (Hp w1 l1 H1). split; [done|]. by apply IH.
Qed.

(** A weaker postcondition. *)
Lemma tsafe_post {A} (T T' : tspec A) d g (p : prog A) w :
  ts_seen T = ts_seen T' → ts_done T = ts_done T' → (∀ a d, ts_post T a d → ts_post T' a d) →
  tsafe T d g p w → tsafe T' d g p w.
Proof.
  destruct T as [se dn po], T' as [se' dn' po']. cbn. intros <- <- Hp. revert d g w.
  induction p as [a|X e k IH|s|]; intros d [l|] w; cbn [tsafe];
    try (by intros H; exact H); [apply Hp| |].
  - intros H w' Hr. destruct (H w' Hr) as [Hi Hk]. split; [done|].
    destruct (mutex_op e) as [[[] i]|]; [|intros x; specialize (Hk x); case_decide|].
    + destruct Hk. auto.
    + destruct Hk as (ops & l' & H1 & H2 & H3 & H4). exists ops, l'. auto.
    + auto.
    + auto.
  - destruct (mutex_op e) as [[[] i]|].
    + intros H x. specialize (H x). case_decide; auto.
    + intros [Hi H]. auto.
    + intros H w' l' Hl. destruct (H w' l' Hl). auto.
Qed.

Lemma tsafe_idle {A} (T : tspec A) d (p : prog A) w :
  idle (λ a, ts_post T a d) p → tsafe T d None p w.
Proof.
  intros Hp. revert w. induction p as [b|X e k IH|s|]; intros w; cbn [tsafe idle] in *; auto.
  destruct Hp as [He Hk]. rewrite He. intros w' l Hl. destruct (Hk w' l Hl). auto.
Qed.

(** A critical section of another mutex. *)
Lemma tsafe_other {A} (T : tspec A) d i (p : prog A) w :
  i ≠ m → idle (λ a, ts_post T a d) p → tsafe T d None (with_mutex i p) w.
Proof.
  intros Hi Hp. unfold with_mutex. cbn [tsafe mutex_op]. intros _.
  rewrite decide_False by done. revert w.
  induction p as [b|X e k IH|s|]; intros w; cbn [with_unlock tsafe idle mutex_op] in *; auto.
  destruct Hp as [He Hk]. rewrite He. intros w' l Hl. destruct (Hk w' l Hl). auto.
Qed.

Lemma lock_free_mutex {X} (e : event X) : lock_free X e = true → mutex_op e = None.
Proof. by destruct e. Qed.

(** A critical section of the mutex: what it does alone, up to the rely. *)
Definition section_post {A} (T : tspec A) (d : list (Op * bool)) (l : L) (o : outcome A) (w : W)
    : Prop :=
  match o with
  | Diverged => True
  | _ => ∃ ops l', contract_run step ops l = Some l' ∧ impl w l' ∧ ts_done T (d ++ ops) ∧
           ∀ a, o = Done a → ts_post T a (d ++ ops)
  end.

Lemma tsafe_critical {A} (T : tspec A) d (p : prog A) w :
  within lock_free p →
  (∀ w l, impl w l → rwp h R (seen_inv T l) p w (section_post T d l)) →
  tsafe T d None (with_mutex m p) w.
Proof.
  intros Hp Hc. unfold with_mutex. cbn [tsafe mutex_op]. intros _.
  rewrite decide_True by done. intros w1 l Hl. specialize (Hc w1 l Hl). clear w Hl. revert w1 Hc.
  induction p as [b|X e k IH|s|]; intros w1 Hc; cbn [with_unlock tsafe mutex_op rwp within] in *;
    intros w' Hr; destruct (Hc w' Hr) as [Hs Hk]; (split; [done|]); try done.
  - intros _. rewrite decide_True by done. destruct Hk as (ops & l' & H1 & H2 & H3 & H4).
    exists ops, l'. split_and!; [done..|]. by apply H4.
  - destruct Hp as [He Hp]. rewrite (lock_free_mutex e He). by apply IH.
  - intros _. rewrite decide_True by done. destruct Hk as (ops & l' & H1 & H2 & H3 & _).
    exists ops, l'. by split_and!.
Qed.

(** A critical section, of this or another mutex, that performs no operation. *)
Lemma tsafe_no_op {A} (T : tspec A) d i (p : prog A) w :
  (∀ l, ts_seen T l l) → ts_done T d → within lock_free p → idle (λ a, ts_post T a d) p →
  tsafe T d None (with_mutex i p) w.
Proof.
  intros Hseen Hdone Hlf Hp. destruct (decide (i = m)) as [->|Hi]; [|by apply tsafe_other].
  apply tsafe_critical; [done|]. intros w1 l Hl.
  eapply rwp_mono; [|apply (rwp_idle _ _ _ _ _ Hp Hl)].
  - intros [a|s|] w' [Hw' Ha]; [| |done]; exists [], l; rewrite app_nil_r; split_and!; try done; auto.
  - intros w2 H2. exists l. by split.
Qed.
End reduction.

(** A weaker invariant. *)
Lemma rwp_inv_mono {W B} (h : handler W) (R : relation W) (I I' : W → Prop) (p : prog B) w Q :
  (∀ w, I w → I' w) → rwp h R I p w Q → rwp h R I' p w Q.
Proof.
  intros HI. revert w. induction p as [b|X e k IH|s|]; intros w Hp; cbn [rwp] in *; intros w' Hw;
    destruct (Hp w' Hw) as [Hi H]; (split; [by apply HI|]); auto.
Qed.

(** A program whose calls change the world no more than [G] keeps, inside a
    critical section, what is stable under [G] and under the rely. *)
Lemma rwp_guarantee {W B} (h : handler W) (R G : relation W) (J Iv : W → Prop) (P : B → Prop)
    (p : prog B) w :
  idle h G (λ _ (_ : unit), True) P p →
  (∀ w w', J w → R w w' → J w') → (∀ w w', J w → G w w' → J w') → (∀ w, J w → Iv w) → J w →
  rwp h R Iv p w (λ o w', J w' ∧ ∀ b, o = Done b → P b).
Proof.
  intros Hp HR HG HI. revert w.
  induction p as [b|X e k IH|s|]; intros w Hw; cbn [rwp idle] in *; intros w' Hr;
    (assert (J w') as Hw' by (by eapply HR)); (split; [by apply HI|]); try done.
  - split; [done|]. by intros b' [= <-].
  - destruct Hp as [_ Hk]. destruct (Hk w' tt I) as [Hg Hk']. apply IH; [done|]. by eapply HG.
Qed.

(** The state of the contract plays no role when every call is harmless. *)
Lemma idle_weaken {W L L' B} (h : handler W) (R : relation W) (impl : W → L → Prop)
    (impl' : W → L' → Prop) (P : B → Prop) (p : prog B) :
  (∀ w l, impl w l → ∃ l', impl' w l') → idle h R impl' P p → idle h R impl P p.
Proof.
  intros Hi. induction p as [b|X e k IH|s|]; cbn [idle]; [done| |done..].
  intros [He Hk]. split; [done|]. intros w l [l' Hl']%Hi. destruct (Hk w l' Hl'). auto.
Qed.
Arguments tspec : clear implicits.
Arguments MkSpec {L Op A}.
Arguments ts_seen {L Op A}.
Arguments ts_done {L Op A}.
Arguments ts_post {L Op A}.
