(* ===== verification/Demo.v ===== *)
(** * Demo: a concrete configuration

    Values for the classes [Globals] and [Ext], at which the theorems that take
    them are instantiated in the examples. *)

From S2P Require Import Prelude GoStrings GoNum Objects Effects Config.
From Stdlib Require Import Ascii.

Definition demo_csi_pod : Pod :=
  set_pod_Spec
    (set_spec_Containers [set_cn_Image "dingodatabase/dingofs-csi:latest" empty_container]
       empty_spec)
    (set_pod_Name "dingofs-csi-node-x" (set_pod_Namespace "dingofs" empty_pod)).

Definition demo_globals : Globals :=
  {| DriverName := "csi.dingofs.com"; NodeName := "node1"; Namespace := "dingofs";
     HostIp := ""; KubeletPort := ""; CSIPod := demo_csi_pod;
     MountManager := false; Immutable := false; Provisioner := false; CacheClientConf := false;
     LocalPV := false; DFSConfigPath := "/var/lib/dingofs/config";
     DFSMountPriorityName := "system-node-critical"; DFSMountPreemptionPolicy := "";
     DefaultMountImage := "dingodatabase/dingofs-csi:latest";
     MountPointPath := "/var/lib/dingofs/volume"; HostDirPath := "/";
     enableAPIServerListCache := false;
     ReconcileTimeout := config.ReconcileTimeout;
     SecretReconcilerInterval := config.SecretReconcilerInterval;
     SHELL_MOUNT_POINT := "#!/bin/bash"; checkMountScript := "#!/bin/bash" |}.

(** Quantities with the suffixes [m] and [Gi], or none. *)
Definition demo_quantity (s : string) : result Z :=
  if HasSuffix s "Gi" then
    tri n := Atoi (TrimSuffix s "Gi") in Ok (n * 1073741824 * 1000000000)%Z
  else if HasSuffix s "m" then tri n := Atoi (TrimSuffix s "m") in Ok (n * 1000000)%Z
  else tri n := Atoi s in Ok (n * 1000000000)%Z.

Definition demo_corrupted (e : error) : bool :=
  match e with ErrOs n _ => bool_decide (n = 107%Z ∨ n = 116%Z) | _ => false end.

(** A list of pods by their names; those of the driver are its mount pods. *)
Definition demo_pod (name : string) : Pod :=
  set_pod_Labels (if HasPrefix name "dingofs-" then {[ config.PodTypeKey := config.PodTypeValue ]} else ∅)
    (set_pod_Name name (set_pod_Namespace "dingofs" empty_pod)).
Definition demo_pod_list (s : string) : result (option (list Pod)) :=
  if decide (s = "{}") then Ok (Some [])
  else if HasPrefix s "pods:" then Ok (Some (demo_pod <$> Split (TrimPrefix s "pods:") ","))
  else Err (ErrNew "json").

Definition demo_ext : Ext.
Proof.
  refine {|
    IsCorruptedMnt := demo_corrupted;
    ParseQuantity := demo_quantity;
    quantity_String := Itoa;
    LabelSelectorMatches sel ls := Ok (bool_decide (ls_MatchLabels sel ⊆ ls));
    UnmarshalStringMap s := if decide (s = "{}") then Ok ∅ else Err (ErrNew "yaml");
    UnmarshalSetting _ s := Ok s;
    MarshalSetting s := s_Name s +:+ s_UniqueId s;
    map_range _ m := map_to_list m;
    AddFinalizer l f := if decide (f ∈ l) then l else l ++ [f];
    RetryOnConflict := attempts [10000000; 10000000; 10000000]%Z;
    UnmarshalPodList := demo_pod_list;
    OnErrorRetry := attempts_any [10000000]%Z;
    HasCA c := bool_decide (t_CAData c ≠ "" ∨ t_CAFile c ≠ "")
  |}; eauto.
Defined.
