(* ===== verification/Kubelet.v ===== *)
(** * Kubelet: the client of the kubelet ([src/pkg/k8sclient/kubelet_client.go])

    The client asks the kubelet of the node for its pods over HTTPS.  What
    client-go makes of a transport configuration, and the requests, are events. *)

From S2P Require Import Prelude GoStrings GoNum GoTime Objects Effects Config Demo.

Definition defaultKubeletTimeout : Z := 10.
Definition serviceAccountTokenFile : string := "/var/run/secrets/kubernetes.io/serviceaccount/token".

(** [KubeletClientConfig] with its embedded [TLSClientConfig]. *)
Record KubeletClientConfig := MkKubeletConfig {
  kcc_Address : string;
  kcc_Port : Z;
  kcc_ServerName : string;
  kcc_Insecure : bool;
  kcc_CertFile : string; kcc_KeyFile : string; kcc_CAFile : string;
  kcc_CertData : string; kcc_KeyData : string; kcc_CAData : string;
  kcc_BearerToken : string;
  kcc_HTTPTimeout : Z
}.

Section kubelet.
Context `{X : !Ext}.

Definition set_insecure (c : transport_Config) : transport_Config :=
  MkTransport (t_CAFile c) (t_CAData c) (t_CertFile c) (t_CertData c) (t_KeyFile c) (t_KeyData c)
              true (t_BearerToken c).

Definition transportConfig (c : KubeletClientConfig) : transport_Config :=
  let cfg := MkTransport (kcc_CAFile c) (kcc_CAData c) (kcc_CertFile c) (kcc_CertData c)
                         (kcc_KeyFile c) (kcc_KeyData c) false (kcc_BearerToken c) in
  if negb (HasCA cfg) then set_insecure cfg else cfg.

(** The configuration without a check of the server's certificate. *)
Definition skip_verify (c : transport_Config) : transport_Config :=
  MkTransport "" "" (t_CertFile c) (t_CertData c) (t_KeyFile c) (t_KeyData c) true (t_BearerToken c).

Definition makeTransport (config : KubeletClientConfig) (insecureSkipTLSVerify : bool)
    : prog (result (round_tripper * transport_Config)) :=
  let preTLSConfig := transportConfig config in
  let preTLSConfig := if insecureSkipTLSVerify then skip_verify preTLSConfig else preTLSConfig in
  tlsConfig <-? call (TLSConfigFor preTLSConfig) ;;
  let rt := if tlsConfig : bool then TLSTransport preTLSConfig else DefaultTransport in
  check? call (HTTPWrappersForConfig (transportConfig config) rt) ;;
  Ret (Ok (rt, transportConfig config)).

(** The token of the service account, when there is no client certificate. *)
Definition client_token (cert key : string) : prog (result string) :=
  if decide (cert = "" ∧ key = "") then
    r <- call (ReadFile serviceAccountTokenFile) ;;
    Ret match r with
        | Ok token => Ok token
        | Err e => Err (ErrNew ("in cluster mode, find token failed: " +:+ error_text e))
        end
  else Ret (Ok "").

Definition kubelet_timeout : prog (result Z) :=
  set <- call (Getenv "KUBELET_TIMEOUT") ;;
  if decide (set ≠ "") then
    s <- call (Getenv "KUBELET_TIMEOUT") ;;
    Ret match Atoi s with
        | Ok n => Ok n
        | Err e => Err (ErrNew ("got error when parsing kubelet timeout: " +:+ error_text e))
        end
  else Ret (Ok defaultKubeletTimeout).

Definition NewKubeletClient (host : string) (port : Z) : prog (result KubeletClient) :=
  kubeletClientCert <- call (Getenv "KUBELET_CLIENT_CERT") ;;
  kubeletClientKey <- call (Getenv "KUBELET_CLIENT_KEY") ;;
  token <-? client_token kubeletClientCert kubeletClientKey ;;
  kubeletTimeout <-? kubelet_timeout ;;
  let config := MkKubeletConfig host port "kubelet" true kubeletClientCert kubeletClientKey ""
                                "" "" "" token (i64 (kubeletTimeout * Second)) in
  trans <-? makeTransport config (kcc_Insecure config) ;;
  Ret (Ok (MkKubeletClient (kcc_Address config) (kcc_Port config) trans.1 trans.2
                           (kcc_HTTPTimeout config))).

(** [GetNodeRunningPods]; a document [null] gives a nil list without an error. *)
Definition GetNodeRunningPods (kc : KubeletClient) : prog (result (option (list Pod))) :=
  check? call (HttpGet kc ("https://" +:+ kc_host kc +:+ ":" +:+ Itoa (kc_port kc) +:+ "/pods/")) ;;
  body <-? call ReadBody ;;
  if decide (body = "Unauthorized") then Ret (Err (ErrNew "unauthorized"))
  else Ret (UnmarshalPodList body).

(** ** What a client is *)

(** The credentials of a client: either the token of the service account, read
    from its file, or the certificate or key that the environment names, never
    both. *)
Definition kubelet_credentials (kc : KubeletClient) (tr : trace) : Prop :=
  let a := kc_auth kc in
  (t_CertFile a = "" ∧ t_KeyFile a = "" ∧
   happened (λ Y e, match e in event Y return Y → Prop with
                    | ReadFile f => λ r, f = serviceAccountTokenFile ∧ r = Ok (t_BearerToken a)
                    | _ => λ _, False end) tr) ∨
  (t_BearerToken a = "" ∧ (t_CertFile a ≠ "" ∨ t_KeyFile a ≠ "")).

Definition unverified (rt : round_tripper) : Prop :=
  match rt with
  | TLSTransport c => t_Insecure c = true ∧ t_CAFile c = "" ∧ t_CAData c = ""
  | DefaultTransport => True
  end.

(** The rest of the construction, after the credentials. *)
Lemma client_rest cert key token host port tr :
  wp any_env
    (kubeletTimeout <-? kubelet_timeout ;;
     let config := MkKubeletConfig host port "kubelet" true cert key "" "" "" "" token
                     (i64 (kubeletTimeout * Second)) in
     trans <-? makeTransport config (kcc_Insecure config) ;;
     Ret (Ok (MkKubeletClient (kcc_Address config) (kcc_Port config) trans.1 trans.2
                              (kcc_HTTPTimeout config)))) tr
    (λ o tr', ∀ kc, o = Done (Ok kc) → ((∃ new, tr' = new ++ tr) ∧
       kc_host kc = host ∧ kc_port kc = port ∧ unverified (kc_base kc)) ∧
       t_CertFile (kc_auth kc) = cert ∧ t_KeyFile (kc_auth kc) = key ∧ t_BearerToken (kc_auth kc) = token).
Proof.
  apply wp_bind. eapply wp_mono; [|apply wp_suffix]. intros [[n|e]|m|] tr' [new ->]; try done.
  unfold makeTransport. cbn [call bind wp]. intros [b|e] _; [|done]. cbn [call bind wp].
  intros [e|] _; [done|]. intros kc [= <-]. unfold transportConfig. rewrite HasCA_spec. cbn.
  split_and!; try done; [|by destruct b]. by eexists (_ :: _ :: new).
Qed.

(** The client talks to the address it was made for, with one kind of
    credentials, and whatever its configuration, it never checks the
    certificate of the kubelet: the transport it uses, when it has settings of
    its own, accepts any and knows no authority. *)
Theorem NewKubeletClient_ok host port :
  wp any_env (NewKubeletClient host port) [] (λ o tr, ∀ kc, o = Done (Ok kc) →
    kc_host kc = host ∧ kc_port kc = port ∧ kubelet_credentials kc tr ∧
    unverified (kc_base kc)).
Proof.
  unfold NewKubeletClient. cbn [call bind wp]. intros cert _ key _. unfold client_token.
  case_decide as Hc; cbn [call bind wp].
  - intros [token|e] _; cbn [bind wp]; [|done]. eapply wp_mono; [|apply client_rest].
    intros o tr H kc E. destruct (H kc E) as [([new ->] & Hh & Hp & Hu) (H1 & H2 & H3)].
    split_and!; [done|done| |done]. left. rewrite H1, H2, H3. split_and!; [apply Hc..|].
    apply Exists_app. right. by left.
  - eapply wp_mono; [|apply client_rest]. intros o tr H kc E.
    destruct (H kc E) as [(_ & Hh & Hp & Hu) (H1 & H2 & H3)]. split_and!; [done|done| |done].
    right. rewrite H1, H2, H3. split; [done|]. destruct (decide (cert = "")); [|by left].
    right. naive_solver.
Qed.
End kubelet.
