(* ===== verification/Security.v ===== *)
(** * Security: quoting of strings that end up in a bash command line

    [src/pkg/util/security/escape.go].  The theorem of this file reads the
    output with bash's rule for ANSI-C quoting (the section of the bash manual
    the source cites). *)

From S2P Require Import Prelude GoStrings.
From Stdlib Require Import Ascii.

(** [containsOne]; the runes the caller passes are ASCII, so looking at bytes
    and looking at runes is the same. *)
Definition containsOne (target : string) (cs : list ascii) : bool :=
  existsb (λ c, bool_decide (c ∈ cs)) (chars target).

Definition bash_special : list ascii :=
  ["$"; "`"; "&"; ";"; ">"; "|"; "("; ")"]%char.

(** [EscapeBashStr]. *)
Definition EscapeBashStr (s : string) : string :=
  if containsOne s bash_special then
    let s := ReplaceAll s "\" "\\" in
    let s := ReplaceAll s "'" "\'" in
    "$'" +:+ s +:+ "'"
  else s.

(** ** Reading an ANSI-C quoted word

    [bash_body s] reads up to the closing quote and gives the denoted string
    with what follows the quote.  The escapes [EscapeBashStr] does not produce
    are left out ([None]). *)
Fixpoint bash_body (s : string) : option (string * string) :=
  match s with
  | "" => None
  | String c s' =>
      if decide (c = "'"%char) then Some ("", s')
      else if decide (c = "\"%char) then
        match s' with
        | String d s'' =>
            if decide (d = "\"%char ∨ d = "'"%char)
            then prod_map (String d) id <$> bash_body s''
            else None
        | "" => None
        end
      else prod_map (String c) id <$> bash_body s'
  end.

Definition bash_ansi_c_word (s : string) : option string :=
  match strip_prefix "$'" s with
  | Some b => match bash_body b with Some (r, "") => Some r | _ => None end
  | None => None
  end.

(** ** Lemmas *)

Definition escape_body (s : string) : string := ReplaceAll (ReplaceAll s "\" "\\") "'" "\'".

Lemma escape_body_cons c s :
  escape_body (String c s) =
  (if decide (c = "\"%char) then "\\"
   else if decide (c = "'"%char) then "\'" else String c "") +:+ escape_body s.
Proof.
  unfold escape_body. rewrite ReplaceAll_char_cons. repeat case_decide; subst.
  - rewrite !append_cons, append_nil_l, !ReplaceAll_char_cons. by repeat case_decide.
  - rewrite !append_cons, append_nil_l, !ReplaceAll_char_cons. by repeat case_decide.
  - rewrite !append_cons, append_nil_l, !ReplaceAll_char_cons. repeat case_decide; done.
Qed.

Lemma bash_body_escape s rest : bash_body (escape_body s +:+ String "'" rest) = Some (s, rest).
Proof.
  induction s as [|c s IH].
  - unfold escape_body. rewrite !ReplaceAll_char_nil, append_nil_l. done.
  - rewrite escape_body_cons. repeat case_decide; subst;
      rewrite ?append_cons, ?append_nil_l, ?append_cons; simpl;
      rewrite ?append_cons, ?append_nil_l; simpl; repeat case_decide; try done;
      rewrite ?append_nil_l, IH; done || naive_solver.
Qed.

Lemma bash_word_escape s : bash_ansi_c_word ("$'" +:+ escape_body s +:+ "'") = Some s.
Proof.
  unfold bash_ansi_c_word. rewrite strip_prefix_app. by rewrite bash_body_escape.
Qed.

(** A string that [EscapeBashStr] leaves alone has none of the characters that
    start an expansion, a command separator, an output redirection or a
    subshell. *)
Lemma containsOne_false s cs c : containsOne s cs = false → c ∈ cs → c ∉ chars s.
Proof.
  intros H Hcs Hin. unfold containsOne in H.
  assert (existsb (λ c, bool_decide (c ∈ cs)) (chars s) = true) as Ht.
  { apply existsb_bool_decide. by exists c. }
  congruence.
Qed.

(** C36: Quoting for bash: a string with a special character becomes one ANSI-C
    quoted word that bash reads as exactly that string; any other string is
    left alone, and has none of those characters. *)
Theorem EscapeBashStr_correct s :
  if containsOne s bash_special then bash_ansi_c_word (EscapeBashStr s) = Some s
  else EscapeBashStr s = s ∧ ∀ c, c ∈ bash_special → c ∉ chars s.
Proof.
  unfold EscapeBashStr. destruct (containsOne s bash_special) eqn:E.
  - apply bash_word_escape.
  - split; [done|]. intros c. by apply containsOne_false.
Qed.

(** The last line of the comment on [EscapeBashStr] is not what it does: the word
    it gives there for [$'a'] is another, and bash does not read it as one word. *)
Theorem EscapeBashStr_comment :
  EscapeBashStr "$'a'" = "$'$\'a\''" ∧ bash_ansi_c_word "$'$\'a\''" = Some "$'a'" ∧
  bash_ansi_c_word "$'$\'$a'\'" = None.
Proof. split_and!; vm_compute; reflexivity. Qed.
