(* ===== verification/Setting.v ===== *)
(** * Setting: from secrets, volume context and mount options to a [DfsSetting]

    [src/pkg/config/dfs_setting.go]. *)

From S2P Require Import Prelude GoStrings GoHash GoTime GoNum Objects Effects Config Security Demo Kubelet.
From Stdlib Require Import Ascii SpecFloat.

Section setting.
Context `{!Globals, !Ext}.

(** ** Mount pod patches *)

(** [MountPodPatch.IsMatch]. *)
Definition IsMatch (mpp : MountPodPatch) (pvc : option PersistentVolumeClaim) : bool :=
  match m_PVCSelector mpp with
  | None => true
  | Some sel =>
      match pvc with
      | None => false
      | Some pvc =>
          if bool_decide (sel_MatchName sel ≠ "") && bool_decide (sel_MatchName sel ≠ pvc_Name pvc)
          then false
          else if bool_decide (sel_MatchStorageClassName sel ≠ "")
                  && match pvc_StorageClassName pvc with
                     | Some sc => bool_decide (sel_MatchStorageClassName sel ≠ sc)
                     | None => false
                     end
          then false
          else match LabelSelectorMatches (sel_Labels sel) (pvc_Labels pvc) with
               | Err _ => false
               | Ok b => b
               end
      end
  end.

(** [IsInterVolume]. *)
Definition interVolumesPrefix : list string :=
  ["rsa-key"; "init-config"; "config-"; "dfs-dir"; "update-db"; "cachedir-"].
Definition IsInterVolume (name : string) : bool :=
  existsb (λ p, HasPrefix name p) interVolumesPrefix.

(** The loop over [mp.Volumes] of [Merge]: the accepted names and the volumes. *)
Fixpoint merge_volumes (vok : list string) (have : list Volume) (new : list Volume)
    : list string * list Volume :=
  match new with
  | [] => (vok, have)
  | v :: new =>
      if IsInterVolume (vol_Name v) then merge_volumes vok have new
      else if existsb (λ vv, bool_decide (vol_Name vv = vol_Name v)) have
      then merge_volumes vok have new
      else merge_volumes (vol_Name v :: vok) (have ++ [v]) new
  end.

Definition over {A} (old new : option A) : option A :=
  match new with Some _ => new | None => old end.

(** [MountPodPatch.Merge]. *)
Definition Merge (mpp mp : MountPodPatch) : MountPodPatch :=
  let '(vok, volumes) := merge_volumes [] (m_Volumes mpp) (m_Volumes mp) in
  {| m_PVCSelector := m_PVCSelector mpp;
     m_MountImage := m_MountImage mp;
     m_Image := m_Image mpp;
     m_Labels := over (m_Labels mpp) (m_Labels mp);
     m_Annotations := over (m_Annotations mpp) (m_Annotations mp);
     m_HostNetwork := over (m_HostNetwork mpp) (m_HostNetwork mp);
     m_HostPID := over (m_HostPID mpp) (m_HostPID mp);
     m_LivenessProbe := over (m_LivenessProbe mpp) (m_LivenessProbe mp);
     m_ReadinessProbe := over (m_ReadinessProbe mpp) (m_ReadinessProbe mp);
     m_StartupProbe := m_StartupProbe mpp;
     m_Lifecycle := over (m_Lifecycle mpp) (m_Lifecycle mp);
     m_Resources := over (m_Resources mpp) (m_Resources mp);
     m_TerminationGracePeriodSeconds :=
       over (m_TerminationGracePeriodSeconds mpp) (m_TerminationGracePeriodSeconds mp);
     m_Volumes := volumes;
     m_VolumeDevices :=
       m_VolumeDevices mpp ++ filter (λ d, vd_Name d ∈ vok) (m_VolumeDevices mp);
     m_VolumeMounts :=
       m_VolumeMounts mpp ++ filter (λ m, vm_Name m ∈ vok) (m_VolumeMounts mp);
     m_Env := over (m_Env mpp) (m_Env mp);
     m_MountOptions := over (m_MountOptions mpp) (m_MountOptions mp) |}.

(** ** Environment variables of the mount pod *)

(** One option of [convertMountOptionsToEnvVars]. *)
Definition option_env (opt : string) : EnvVar :=
  match SplitN2 opt "=" with
  | [k; v] => MkEnvVar (ReplaceAll k "." "_") v
  | _ => MkEnvVar (ReplaceAll opt "." "_") ""
  end.

(** [convertMountOptionsToEnvVars]. *)
Definition convertMountOptionsToEnvVars (s : DfsSetting) : list EnvVar :=
  (option_env <$> s_MountOptions s) ++ [MkEnvVar config.MdsAddrKey (s_MdsAddr s)].

(** The four textual replacements [GenMountPodPatch] does on the JSON text of
    the patch, seen on one JSON string of it: the placeholders have no quote,
    so an occurrence lies within one string. *)
Definition expand_text (s : DfsSetting) (t : string) : string :=
  ReplaceAll (ReplaceAll (ReplaceAll (ReplaceAll t
    "${MOUNT_POINT}" (s_MountPath s)) "${VOLUME_ID}" (s_VolumeId s))
    "${VOLUME_NAME}" (s_Name s)) "${SUB_PATH}" (s_SubPath s).

Definition expand (s : DfsSetting) (v : string) : option string :=
  json_decode (expand_text s (json_encode v)).

(** An empty value is omitted from the JSON text, and so stays empty. *)
Definition expand_env (s : DfsSetting) (e : EnvVar) : option EnvVar :=
  n ← expand s (env_Name e);
  if decide (env_Value e = "") then Some (MkEnvVar n "")
  else v ← expand s (env_Value e); Some (MkEnvVar n v).

Definition empty_patch : MountPodPatch :=
  MkMountPodPatch None "" "" (Some ∅) (Some ∅) None None None None None None None None
    [] [] [] None None.

(** [GenMountPodPatch].  When a replacement leaves a text that is no JSON
    string, [json.Unmarshal] fails, its error is dropped, and the patch stays
    as it was. *)
Definition GenMountPodPatch (s : DfsSetting) : MountPodPatch :=
  let patch := set_m_Image (m_MountImage empty_patch) empty_patch in
  let env := convertMountOptionsToEnvVars s in
  set_m_Env (Some (default env (mapM (expand_env s) env))) patch.

(** ** Pod attributes *)

(** [for i, o := range opts { if key(o) == option { opts = append(opts[:i],
    opts[i+1:]...) } }]: the range runs over the original length while the
    deletions shift the array under it.  [arr] is the array, [l] the length of
    the slice; [None] is the panic of a slice expression out of range. *)
Definition arr_delete (arr : list string) (i l : nat) : list string :=
  take i arr ++ drop (S i) (take l arr) ++ drop (l - 1) arr.

Fixpoint delete_options (n i : nat) (opt : string) (arr : list string) (l : nat)
    : option (list string) :=
  match n with
  | O => Some (take l arr)
  | S n =>
      let o := default "" (arr !! i) in
      if bool_decide (default "" (head (Split o "=")) = opt) then
        if decide (S i ≤ l) then delete_options n (S i) opt (arr_delete arr i l) (l - 1)
        else None
      else delete_options n (S i) opt arr l
  end.

Fixpoint merge_options (opts patch : list string) : option (list string) :=
  match patch with
  | [] => Some opts
  | o :: patch =>
      opts ← delete_options (length opts) 0 o opts (length opts);
      merge_options (opts ++ [o]) patch
  end.

(** [ApplyConfigPatch] on the attributes. *)
Definition apply_patch (attr : PodAttr) (p : MountPodPatch) : PodAttr :=
  let attr := if decide (m_Image p = "") then attr else set_a_Image (m_Image p) attr in
  let attr := match m_HostNetwork p with Some b => set_a_HostNetwork b attr | None => attr end in
  let attr := match m_HostPID p with Some b => set_a_HostPID b attr | None => attr end in
  let attr := set_a_Labels (merge_into (a_Labels attr) (nil_map (m_Labels p))) attr in
  let attr :=
    set_a_Annotations (merge_into (a_Annotations attr) (nil_map (m_Annotations p))) attr in
  let attr := match m_Resources p with Some r => set_a_Resources r attr | None => attr end in
  let attr := set_a_Lifecycle (m_Lifecycle p) attr in
  let attr := set_a_LivenessProbe (m_LivenessProbe p) attr in
  let attr := set_a_ReadinessProbe (m_ReadinessProbe p) attr in
  let attr := set_a_StartupProbe (m_StartupProbe p) attr in
  let attr := set_a_TerminationGracePeriodSeconds (m_TerminationGracePeriodSeconds p) attr in
  let attr := set_a_VolumeDevices (m_VolumeDevices p) attr in
  let attr := set_a_VolumeMounts (m_VolumeMounts p) attr in
  let attr := set_a_Volumes (m_Volumes p) attr in
  set_a_Env (default [] (m_Env p)) attr.

(** [ApplyConfigPatch]; a setting without attributes is a nil dereference. *)
Definition ApplyConfigPatch (s : DfsSetting) : option DfsSetting :=
  attr ← s_Attr s;
  let p := GenMountPodPatch s in
  opts ← merge_options (s_MountOptions s) (default [] (m_MountOptions p));
  Some (set_s_MountOptions opts (set_s_Attr (Some (apply_patch attr p)) s)).

(** [resource.MustParse] of the default quantities. *)
Definition MustParse (q : string) : Z := match ParseQuantity q with Ok v => v | Err _ => 0 end.

(** [getDefaultResource]. *)
Definition getDefaultResource : ResourceRequirements :=
  {| res_Limits := {[ "cpu" := MustParse config.DefaultMountPodCpuLimit;
                      "memory" := MustParse config.DefaultMountPodMemLimit ]};
     res_Requests := {[ "cpu" := MustParse config.DefaultMountPodCpuRequest;
                        "memory" := MustParse config.DefaultMountPodMemRequest ]} |}.

(** One of the four blocks of [ParsePodResources]: an empty string keeps the
    default, a quantity that is not positive removes the entry. *)
Definition set_quantity (m : gmap string Z) (name text : string) : result (gmap string Z) :=
  if decide (text = "") then Ok m
  else tri q := ParseQuantity text in
       Ok (if decide (q ≤ 0)%Z then delete name m else <[name:=q]> m).

(** [ParsePodResources]. *)
Definition ParsePodResources (cpuLimit memoryLimit cpuRequest memoryRequest : string)
    : result ResourceRequirements :=
  let d := getDefaultResource in
  tri lim := set_quantity (res_Limits d) "cpu" cpuLimit in
  tri lim := set_quantity lim "memory" memoryLimit in
  tri req := set_quantity (res_Requests d) "cpu" cpuRequest in
  tri req := set_quantity req "memory" memoryRequest in
  Ok {| res_Limits := lim; res_Requests := req |}.

(** [ParseYamlOrJson] into a string map. *)
Definition ParseYamlOrJson (source : string) : result smap :=
  match UnmarshalStringMap source with
  | Ok m => Ok m
  | Err e => Err (ErrStatus CodeInvalidArgument ("Parse yaml or json error: " +:+ error_text e))
  end.

(** The attributes a setting starts from ([GenPodAttrWithCfg], first part). *)
Definition default_attr : PodAttr :=
  let spec := pod_Spec CSIPod in
  {| a_Namespace := Namespace; a_MountPointPath := MountPointPath;
     a_DFSConfigPath := ""; a_DFSMountPriorityName := "";
     a_ServiceAccountName := spec_ServiceAccountName spec;
     a_Resources := getDefaultResource; a_Labels := ∅; a_Annotations := ∅;
     a_LivenessProbe := None; a_ReadinessProbe := None; a_StartupProbe := None;
     a_Lifecycle := None; a_TerminationGracePeriodSeconds := None;
     a_Volumes := []; a_VolumeDevices := []; a_VolumeMounts := []; a_Env := [];
     a_Image := DefaultMountImage; a_HostNetwork := spec_HostNetwork spec;
     a_HostAliases := spec_HostAliases spec; a_HostPID := spec_HostPID spec;
     a_HostIPC := spec_HostIPC spec; a_DNSConfig := spec_DNSConfig spec;
     a_DNSPolicy := spec_DNSPolicy spec; a_ImagePullSecrets := spec_ImagePullSecrets spec;
     a_PreemptionPolicy := spec_PreemptionPolicy spec; a_Tolerations := spec_Tolerations spec |}.

(** A label or annotation map given in the volume context. *)
Definition ctx_map (volCtx : smap) (key : string) (m : smap) : result smap :=
  if decide (m_get volCtx key = "") then Ok m
  else tri new := ParseYamlOrJson (m_get volCtx key) in Ok (merge_into m new).

(** The [volCtx != nil] part of [GenPodAttrWithCfg]. *)
Definition attr_of_ctx (volCtx : smap) (attr : PodAttr) : result PodAttr :=
  let get := m_get volCtx in
  let attr := if decide (get config.MountPodImageKey = "") then attr
              else set_a_Image (get config.MountPodImageKey) attr in
  let attr := if decide (get config.MountPodServiceAccount = "") then attr
              else set_a_ServiceAccountName (get config.MountPodServiceAccount) attr in
  tri res := ParsePodResources (get config.MountPodCpuLimitKey) (get config.MountPodMemLimitKey)
               (get config.MountPodCpuRequestKey) (get config.MountPodMemRequestKey) in
  let attr := set_a_Resources res attr in
  tri labels := ctx_map volCtx config.MountPodLabelKey (a_Labels attr) in
  let attr := set_a_Labels labels attr in
  tri annos := ctx_map volCtx config.MountPodAnnotationKey (a_Annotations attr) in
  Ok (set_a_Annotations annos attr).

(** [GenPodAttrWithCfg]: the panic cases of [ApplyConfigPatch] cannot occur
    here, the attributes are set and the patch has no mount options
    ([ApplyConfigPatch_total] below). *)
Definition GenPodAttrWithCfg (s : DfsSetting) (volCtx : option smap) : result DfsSetting :=
  let attr := default default_attr (s_Attr s) in
  tri attr := match volCtx with Some m => attr_of_ctx m attr | None => Ok attr end in
  let s := set_s_Attr (Some attr) s in
  Ok (default s (ApplyConfigPatch s)).

(** ** Options *)

(** [ParseToBytes]. *)
Definition unit_shift (c : ascii) : option Z :=
  match c with
  | "k" | "K" => Some 10 | "m" | "M" => Some 20 | "g" | "G" => Some 30
  | "t" | "T" => Some 40 | "p" | "P" => Some 50 | "e" | "E" => Some 60
  | _ => None
  end%char%Z.

Definition last_byte (s : string) : option ascii := last (chars s).

Definition ParseToBytes (value : string) : result Z :=
  match last_byte value with
  | None => Ok 0%Z
  | Some c =>
      let '(s, unit) :=
        match digit_val c with
        | Some _ => (value, "M"%char)
        | None => (take_s (len value - 1) value, c)
        end in
      match ParseFloat s with
      | Err _ => Err (ErrNew ("cannot parse " +:+ value +:+ " to bytes"))
      | Ok val =>
          match unit_shift unit with
          | None => Err (ErrNew ("cannot parse " +:+ value +:+ " to bytes, invalid unit"))
          | Some sh => Ok (uint64_of_f64 (f64_mul val (f64_of_Z (2 ^ sh)%Z)))
          end
      end
  end.

(** [Quantity.Value]: rounded up to an integer. *)
Definition quantity_Value (q : Z) : Z := - ((- q) / 1000000000).

(** One iteration of [GenAndValidOptions]. *)
Definition valid_option (limits : gmap string Z) (opt : string) : result string :=
  let mountOption := TrimSpace opt in
  let ops := Split mountOption "=" in
  if decide (2 < length ops) then Err (ErrNew ("invalid mount option: " +:+ mountOption))
  else
    let mountOption :=
      match ops with
      | [k; v] => TrimSpace k +:+ "=" +:+ TrimSpace v
      | _ => mountOption
      end in
    match ops with
    | [k; v] =>
        if decide (k = "buffer-size") then
          let memLimit := default 0%Z (limits !! "memory") in
          match ParseToBytes v with
          | Err _ => Err (ErrNew ("invalid mount option: " +:+ mountOption))
          | Ok bufferSize =>
              if decide (bufferSize > u64 (quantity_Value memLimit))%Z
              then Err (ErrNew ("buffer-size " +:+ v +:+ " MiB is greater than pod memory limit "
                                +:+ quantity_String memLimit))
              else Ok mountOption
          end
        else Ok mountOption
    | _ => Ok mountOption
    end.

Fixpoint valid_options (limits : gmap string Z) (options : list string) : result (list string) :=
  match options with
  | [] => Ok []
  | o :: options =>
      tri o := valid_option limits o in
      tri os := valid_options limits options in
      Ok (o :: os)
  end.

(** [GenAndValidOptions]. *)
Definition GenAndValidOptions (s : DfsSetting) (options : list string) : result DfsSetting :=
  let limits := match s_Attr s with Some a => res_Limits (a_Resources a) | None => ∅ end in
  tri opts := valid_options limits options in Ok (set_s_MountOptions opts s).

(** ** Format options *)

(** One option of [ParseFormatOptions]: an error, nothing, or a pair. *)
Definition format_option (whole opt : string) : result (option (string * string)) :=
  match SplitN2 (TrimSpace opt) "=" with
  | [k; v] =>
      if decide (v = "") then Err (ErrNew ("invalid format options: " +:+ whole))
      else if decide (TrimSpace k = "") then Ok None
      else Ok (Some (TrimSpace k, TrimSpace v))
  | [k] => if decide (TrimSpace k = "") then Ok None else Ok (Some (TrimSpace k, ""))
  | _ => Ok None
  end.

Fixpoint format_options (whole : string) (l : list string) : result (list (string * string)) :=
  match l with
  | [] => Ok []
  | o :: l =>
      tri p := format_option whole o in
      tri ps := format_options whole l in
      Ok (match p with Some p => p :: ps | None => ps end)
  end.

(** [DfsSetting.ParseFormatOptions]. *)
Definition ParseFormatOptions (s : DfsSetting) : result (list (string * string)) :=
  format_options (s_FormatOptions s) (Split (s_FormatOptions s) ",").

(** [DfsSetting.RepresentFormatOptions]. *)
Definition RepresentFormatOptions (opts : list (string * string)) : list string :=
  (λ p : string * string,
     "--" +:+ (if decide (p.2 = "") then EscapeBashStr p.1
               else EscapeBashStr p.1 +:+ "=" +:+ EscapeBashStr p.2)) <$> opts.

(** [DfsSetting.StripFormatOptions]. *)
Definition StripFormatOptions (opts : list (string * string)) (stripped : list string)
    : list string :=
  (λ p : string * string,
     "--" +:+ (if decide (p.2 = "") then EscapeBashStr p.1
               else if decide (p.1 ∈ stripped)
               then EscapeBashStr p.1 +:+ "=${" +:+ p.1 +:+ "}"
               else EscapeBashStr p.1 +:+ "=" +:+ EscapeBashStr p.2)) <$> opts.

(** ** [ParseSetting] *)

(** The [volCtx != nil] block. *)
Definition setting_of_ctx (volCtx : smap) (s : DfsSetting) : result DfsSetting :=
  let get := m_get volCtx in
  let s := if decide (get "subPath" = "") then s else set_s_SubPath (get "subPath") s in
  let s := if decide (get config.CleanCacheKey = "true") then set_s_CleanCache true s else s in
  tri s :=
    if decide (get config.DeleteDelay = "") then Ok s
    else match ParseDuration (get config.DeleteDelay) with
         | Err _ => Err (ErrNew ("can't parse delay time " +:+ get config.DeleteDelay))
         | Ok _ => Ok (set_s_DeletedDelay (get config.DeleteDelay) s)
         end in
  Ok (if decide (get config.MountPodHostPath = "") then s
      else set_s_HostPath
             (filter (λ p, p ≠ "") (TrimSpace <$> Split (get config.MountPodHostPath) ",")) s).

(** A string map given as text in the secrets. *)
Definition secret_map (secrets : smap) (key : string) : result smap :=
  if decide (m_get secrets key = "") then Ok ∅ else ParseYamlOrJson (m_get secrets key).

(** [ParseSetting]. *)
Definition ParseSetting (secrets volCtx : option smap) (mountOptions : option (list string))
    (pv : option PersistentVolume) (pvc : option PersistentVolumeClaim) : result DfsSetting :=
  let s := set_s_MountOptions (default [] mountOptions) zero_setting in
  match secrets with
  | None => Ok s
  | Some secrets =>
      tri s := match UnmarshalSetting secrets s with
               | Ok s => Ok s
               | Err e => Err (ErrStatus CodeInvalidArgument
                                ("Parse yaml or json error: " +:+ error_text e))
               end in
      if decide (m_get secrets "name" = "") then Err (ErrStatus CodeInvalidArgument "Empty name")
      else
        let s := set_s_Name (m_get secrets "name") s in
        let s := set_s_Storage (m_get secrets "storage") s in
        let s := set_s_MdsAddr (m_get secrets "mdsAddr") s in
        let s := set_s_Envs ∅ (set_s_Configs ∅ s) in
        let s := set_s_ClientConfPath config.DefaultClientConfPath s in
        let s := set_s_CacheDirs [] (set_s_CachePVCs [] s) in
        let s := set_s_PV pv (set_s_PVC pvc s) in
        let s := if decide (m_get secrets "secretkey" = "") then s
                 else set_s_SecretKey (m_get secrets "secretkey") s in
        let s := if decide (m_get secrets "secretkey2" = "") then s
                 else set_s_SecretKey2 (m_get secrets "secretkey2") s in
        tri configs := secret_map secrets "configs" in
        let s := set_s_Configs configs s in
        tri envs := secret_map secrets "envs" in
        let s := set_s_Envs envs s in
        tri s := match volCtx with Some m => setting_of_ctx m s | None => Ok s end in
        tri s := match GenPodAttrWithCfg s volCtx with
                 | Ok s => Ok s
                 | Err e => Err (ErrNew ("GenPodAttrWithCfg error: " +:+ error_text e))
                 end in
        match GenAndValidOptions s (default [] mountOptions) with
        | Ok s => Ok s
        | Err e => Err (ErrNew ("genAndValidOptions error: " +:+ error_text e))
        end
  end.

(** [ParseAppInfo]. *)
Definition ParseAppInfo (volCtx : option smap) : prog (result (option AppInfo)) :=
  let app := match volCtx with
             | Some m => Some (MkAppInfo (m_get m config.PodInfoName)
                                         (m_get m config.PodInfoNamespace))
             | None => None
             end in
  if bool_decide (KubeletPort ≠ "") && bool_decide (HostIp ≠ "") then
    match Atoi KubeletPort with
    | Err e => Ret (Err e)
    | Ok port =>
        c <- NewKubeletClient HostIp port ;;
        match c with
        | Err e => Ret (Err e)
        | Ok kc =>
            r <- GetNodeRunningPods kc ;;
            if negb (is_ok r)
               && bool_decide (m_get (nil_map volCtx) config.PodInfoName = "")
            then Ret (Err (ErrNew "can not connect to kubelet, please turn `podInfoOnMount` on in csiDriver, and fallback to apiServer"))
            else Ret (Ok app)
        end
    end
  else Ret (Ok app).

(** [s[len(s)-n:]], which panics on a shorter string. *)
Definition last_n (n : nat) (s : string) : prog string :=
  if decide (n ≤ len s) then Ret (drop_s (len s - n) s)
  else Panic "slice bounds out of range".

(** [GenPodAttrWithMountPod]. *)
Definition attr_of_pod (p : Pod) : PodAttr :=
  let spec := pod_Spec p in
  {| a_Namespace := pod_Namespace p; a_MountPointPath := MountPointPath;
     a_DFSConfigPath := DFSConfigPath; a_DFSMountPriorityName := DFSMountPriorityName;
     a_ServiceAccountName := spec_ServiceAccountName spec;
     a_Resources := match spec_Containers spec with
                    | c :: _ => cn_Resources c | [] => empty_resources end;
     a_Labels := pod_Labels p; a_Annotations := annotations p;
     a_LivenessProbe := None; a_ReadinessProbe := None; a_StartupProbe := None;
     a_Lifecycle := None; a_TerminationGracePeriodSeconds := None;
     a_Volumes := []; a_VolumeDevices := []; a_VolumeMounts := []; a_Env := [];
     a_Image := match spec_Containers spec with c :: _ => cn_Image c | [] => "" end;
     a_HostNetwork := spec_HostNetwork spec;
     a_HostAliases := spec_HostAliases spec; a_HostPID := spec_HostPID spec;
     a_HostIPC := spec_HostIPC spec; a_DNSConfig := spec_DNSConfig spec;
     a_DNSPolicy := spec_DNSPolicy spec; a_ImagePullSecrets := spec_ImagePullSecrets spec;
     a_PreemptionPolicy := spec_PreemptionPolicy spec; a_Tolerations := spec_Tolerations spec |}.

Definition GenPodAttrWithMountPod (mountPod : Pod) : prog (result PodAttr) :=
  let attr := attr_of_pod mountPod in
  let pvName := m_get (annotations mountPod) config.UniqueId in
  pv <-? call (PVGet pvName) ;;
  match pv_ClaimRef pv with
  | None => Panic "nil pointer dereference"
  | Some (claim, ns) =>
      pvc <-? call (PVCGet claim ns) ;;
      let get := m_get (pvc_Annotations pvc) in
      match ParsePodResources (get config.MountPodCpuLimitKey) (get config.MountPodMemLimitKey)
              (get config.MountPodCpuRequestKey) (get config.MountPodMemRequestKey) with
      | Err e => Ret (Err (ErrNew ("parse pvc resources error: " +:+ error_text e)))
      | Ok res =>
          let attr := set_a_Resources res attr in
          suffix <- last_n 7 (pod_Name mountPod) ;;
          match pv_CSI pv with
          | None => Panic "nil pointer dereference"
          | Some csi =>
              let s := set_s_PV (Some pv) (set_s_PVC (Some pvc) zero_setting) in
              let s := set_s_Name (m_get (annotations mountPod) config.DingoFSID) s in
              let s := set_s_VolumeId pvName s in
              let s := set_s_MountPath (path_Join [config.PodMountBase; pvName] +:+ suffix) s in
              let s := set_s_MountOptions (pv_MountOptions pv) s in
              let s := set_s_SubPath (m_get (csi_VolumeAttributes csi) "subPath") s in
              let s := set_s_Attr (Some attr) s in
              let s := default s (ApplyConfigPatch s) in
              Ret (Ok (default attr (s_Attr s)))
          end
      end
  end.
End setting.

(** * Properties *)

Section setting_facts.
Context {G : Globals} {X : Ext}.

(** ** Mount pod patches *)

Lemma merge_volumes_spec vok have new vok' out :
  merge_volumes vok have new = (vok', out) →
  NoDup (vol_Name <$> have) →
  NoDup (vol_Name <$> out) ∧
  (∃ added, out = have ++ added ∧ Forall (λ v, v ∈ new ∧ IsInterVolume (vol_Name v) = false) added ∧
    ∀ n, n ∈ vok' ↔ n ∈ vok ∨ n ∈ (vol_Name <$> added)).
Proof.
  revert vok have. induction new as [|v new IH]; intros vok have; simpl.
  - intros [= <- <-] Hnd. split; [done|]. exists []. rewrite app_nil_r. set_solver.
  - intros Hm Hnd. destruct (IsInterVolume (vol_Name v)) eqn:Hi;
      [|destruct (existsb _ have) eqn:Hex].
    1-2: destruct (IH _ _ Hm Hnd) as (? & added & -> & Ha & Hv); split; [done|];
      exists added; split; [done|]; split; [|done];
      eapply Forall_impl; [exact Ha|]; simpl; set_solver.
    assert (vol_Name v ∉ (vol_Name <$> have)) as Hnew.
    { intros (w & Hw & Hin)%list_elem_of_fmap. apply not_true_iff_false in Hex. apply Hex.
      apply existsb_bool_decide. by exists w. }
    destruct (IH _ _ Hm) as (? & added & -> & Ha & Hv).
    { rewrite fmap_app, NoDup_app. split_and!; [done| |apply NoDup_singleton]. set_solver. }
    split; [done|]. exists (v :: added). rewrite <-app_assoc. split; [done|]. split.
    + constructor; [set_solver|]. eapply Forall_impl; [exact Ha|]. simpl. set_solver.
    + intros n. rewrite Hv, fmap_cons. set_solver.
Qed.

(** Merging a patch keeps the volume names distinct, keeps the volumes that
    were there, adds no volume with an internal name, and adds a mount or a
    device only for a volume that the same patch added. *)
Theorem Merge_volumes mpp mp :
  NoDup (vol_Name <$> m_Volumes mpp) →
  let r := Merge mpp mp in
  NoDup (vol_Name <$> m_Volumes r) ∧
  ∃ added, m_Volumes r = m_Volumes mpp ++ added ∧
    Forall (λ v, v ∈ m_Volumes mp ∧ IsInterVolume (vol_Name v) = false) added ∧
    (∀ m, m ∈ m_VolumeMounts r ↔ m ∈ m_VolumeMounts mpp ∨
       m ∈ m_VolumeMounts mp ∧ vm_Name m ∈ (vol_Name <$> added)) ∧
    (∀ d, d ∈ m_VolumeDevices r ↔ d ∈ m_VolumeDevices mpp ∨
       d ∈ m_VolumeDevices mp ∧ vd_Name d ∈ (vol_Name <$> added)).
Proof.
  intros Hnd r. unfold r, Merge.
  destruct (merge_volumes [] (m_Volumes mpp) (m_Volumes mp)) as [vok vols] eqn:E.
  apply merge_volumes_spec in E as (? & added & -> & Ha & Hv); [|done]. simpl.
  split; [done|]. exists added. split; [done|]. split; [done|].
  split; intros x; rewrite elem_of_app, list_elem_of_filter, Hv; set_solver.
Qed.

(** ** Environment variables *)

Lemma mapM_expand s l f :
  (∀ e, e ∈ l → expand_env s e = Some (f e)) → mapM (expand_env s) l = Some (f <$> l).
Proof.
  induction l as [|e l IH]; intros H; [done|]. simpl.
  rewrite (H e) by set_solver. simpl. rewrite IH by set_solver. done.
Qed.

Lemma expand_plain s v :
  Forall (all_chars json_plain) [s_MountPath s; s_VolumeId s; s_Name s; s_SubPath s; v] →
  expand s v = Some (expand_text s v).
Proof.
  rewrite !Forall_cons. intros (Hm & Hv & Hn & Hs & Ht & _). unfold expand.
  rewrite json_encode_plain by done. apply json_decode_plain.
  unfold expand_text. by repeat (apply all_chars_ReplaceAll; [done| |done]).
Qed.

Definition plain_env (e : EnvVar) : Prop :=
  all_chars json_plain (env_Name e) ∧ all_chars json_plain (env_Value e).

Definition expand_both (s : DfsSetting) (e : EnvVar) : EnvVar :=
  MkEnvVar (expand_text s (env_Name e))
    (if decide (env_Value e = "") then "" else expand_text s (env_Value e)).

(** The environment of the mount pod is the list of its mount options (dots
    in the name replaced by underscores) followed by the address of the
    metadata service, with the four placeholders replaced by the values of the
    volume: replacing them in the JSON text of the patch and reading it back is
    replacing them in each name and value, when none of the strings needs JSON
    escapes. *)
Theorem GenMountPodPatch_env s :
  Forall (all_chars json_plain) [s_MountPath s; s_VolumeId s; s_Name s; s_SubPath s] →
  Forall plain_env (convertMountOptionsToEnvVars s) →
  m_Env (GenMountPodPatch s) =
  Some (expand_both s <$> (option_env <$> s_MountOptions s)
                          ++ [MkEnvVar config.MdsAddrKey (s_MdsAddr s)]).
Proof.
  intros Hs He. change (m_Env (GenMountPodPatch s))
    with (Some (default (convertMountOptionsToEnvVars s)
                 (mapM (expand_env s) (convertMountOptionsToEnvVars s)))).
  rewrite (mapM_expand _ _ (expand_both s)); [done|]. intros e Hin.
  rewrite Forall_forall in He. destruct (He e Hin) as [Hn Hv].
  unfold expand_env, expand_both. rewrite !Forall_cons in Hs.
  rewrite (expand_plain s (env_Name e)) by (rewrite !Forall_cons; intuition). cbn [mbind option_bind].
  destruct (decide (env_Value e = "")) as [E|]; [reflexivity|].
  by rewrite (expand_plain s (env_Value e)) by (rewrite !Forall_cons; intuition).
Qed.

(** ** Attributes *)

Lemma ApplyConfigPatch_total s a :
  s_Attr s = Some a →
  ApplyConfigPatch s = Some (set_s_MountOptions (s_MountOptions s)
    (set_s_Attr (Some (apply_patch a (GenMountPodPatch s))) s)).
Proof. intros Ha. unfold ApplyConfigPatch. by rewrite Ha. Qed.

(** A text that is given, or else a default. *)
Definition given (text def : string) : string := if decide (text = "") then def else text.

(** The attributes of a pod but for those that a volume context or a patch sets. *)
Definition attr_rest (a : PodAttr) : PodAttr :=
  set_a_Image "" (set_a_ServiceAccountName "" (set_a_Resources empty_resources
    (set_a_Labels ∅ (set_a_Annotations ∅ (set_a_Lifecycle None (set_a_LivenessProbe None
    (set_a_ReadinessProbe None (set_a_StartupProbe None (set_a_TerminationGracePeriodSeconds None
    (set_a_VolumeDevices [] (set_a_VolumeMounts [] (set_a_Volumes [] (set_a_Env [] a))))))))))))).

(** What [GenPodAttrWithCfg] makes of the attributes [base]: image, account,
    resources, labels and annotations are those of the volume context where it
    gives them; hooks, probes and volumes are dropped, and the rest is kept.  A
    context that is not nil sets the resources to its own or the defaults, also
    where [base] has others. *)
Record attr_read (volCtx : option smap) (base a : PodAttr) : Prop := {
  ar_image : a_Image a = given (m_get (nil_map volCtx) config.MountPodImageKey) (a_Image base);
  ar_account : a_ServiceAccountName a =
    given (m_get (nil_map volCtx) config.MountPodServiceAccount) (a_ServiceAccountName base);
  ar_resources : match volCtx with
    | None => a_Resources a = a_Resources base
    | Some m => ParsePodResources (m_get m config.MountPodCpuLimitKey)
        (m_get m config.MountPodMemLimitKey) (m_get m config.MountPodCpuRequestKey)
        (m_get m config.MountPodMemRequestKey) = Ok (a_Resources a)
    end;
  ar_labels : ctx_map (nil_map volCtx) config.MountPodLabelKey (a_Labels base) = Ok (a_Labels a);
  ar_annotations :
    ctx_map (nil_map volCtx) config.MountPodAnnotationKey (a_Annotations base) = Ok (a_Annotations a);
  ar_dropped : a_Lifecycle a = None ∧ a_LivenessProbe a = None ∧ a_ReadinessProbe a = None ∧
    a_StartupProbe a = None ∧ a_TerminationGracePeriodSeconds a = None ∧
    a_Volumes a = [] ∧ a_VolumeMounts a = [] ∧ a_VolumeDevices a = [];
  ar_rest : attr_rest a = attr_rest base
}.

Lemma apply_patch_read a s :
  let b := apply_patch a (GenMountPodPatch s) in
  a_Env b = default [] (m_Env (GenMountPodPatch s)) ∧ a_Image b = a_Image a ∧
  a_ServiceAccountName b = a_ServiceAccountName a ∧ a_Resources b = a_Resources a ∧
  a_Labels b = a_Labels a ∧ a_Annotations b = a_Annotations a ∧ attr_rest b = attr_rest a.
Proof.
  unfold apply_patch. cbn. unfold merge_into. rewrite !(left_id_L ∅ (∪)). done.
Qed.

Lemma GenPodAttrWithCfg_ok s volCtx s' :
  GenPodAttrWithCfg s volCtx = Ok s' →
  ∃ a, s' = set_s_Attr (Some a) s ∧ a_Env a = default [] (m_Env (GenMountPodPatch s)) ∧
    attr_read volCtx (default default_attr (s_Attr s)) a.
Proof.
  unfold GenPodAttrWithCfg. set (a0 := default default_attr (s_Attr s)). intros H.
  destruct (match volCtx with Some m => attr_of_ctx m a0 | None => Ok a0 end) as [a|] eqn:E;
    cbn [result_bind] in H; [|done].
  rewrite (ApplyConfigPatch_total _ a) in H by done. cbn [from_option] in H.
  injection H as <-. set (s1 := set_s_Attr (Some a) s).
  destruct (apply_patch_read a s1) as (H1 & H2 & H3 & H4 & H5 & H6 & H7).
  eexists. split; [by destruct s|]. split; [done|]. destruct volCtx as [m|]; cbn [nil_map default].
  - unfold attr_of_ctx in E. cbv zeta in E.
    set (a1 := if decide (m_get m config.MountPodImageKey = "") then a0 else _) in E.
    set (a2 := if decide (m_get m config.MountPodServiceAccount = "") then a1 else _) in E.
    assert (a_Image a2 = given (m_get m config.MountPodImageKey) (a_Image a0) ∧
      a_ServiceAccountName a2 = given (m_get m config.MountPodServiceAccount) (a_ServiceAccountName a0) ∧
      a_Labels a2 = a_Labels a0 ∧ a_Annotations a2 = a_Annotations a0 ∧ attr_rest a2 = attr_rest a0)
      as (G1 & G2 & G3 & G4 & G5).
    { unfold a2, a1, given. clear. repeat case_decide; done. }
    destruct (ParsePodResources _ _ _ _) as [res|] eqn:Er; cbn [result_bind] in E; [|done].
    destruct (ctx_map m config.MountPodLabelKey _) as [labels|] eqn:El; cbn [result_bind] in E; [|done].
    destruct (ctx_map m config.MountPodAnnotationKey _) as [annos|] eqn:Ea; cbn [result_bind] in E; [|done].
    injection E as <-. cbn [a_Labels a_Annotations set_a_Resources set_a_Labels] in El, Ea.
    rewrite G3 in El. rewrite G4 in Ea.
    split; cbn [nil_map default]; [by rewrite H2|by rewrite H3|by rewrite H4|by rewrite H5|by rewrite H6|done|].
    by rewrite H7.
  - injection E as <-.
    split; cbn [nil_map default]; [by rewrite H2|by rewrite H3|by rewrite H4|by rewrite H5|by rewrite H6|done|done].
Qed.

(** The value a resource entry gets from a default and a text. *)
Definition quantity_of (def text : string) : option Z :=
  if decide (text = "") then Some (MustParse def)
  else match ParseQuantity text with
       | Ok q => if decide (q ≤ 0)%Z then None else Some q
       | Err _ => None
       end.

Lemma set_quantity_spec m name text m' :
  set_quantity m name text = Ok m' →
  (text = "" ∨ is_ok (ParseQuantity text) = true) ∧
  (∀ def, m !! name = Some (MustParse def) → m' !! name = quantity_of def text) ∧
  (∀ k, k ≠ name → m' !! k = m !! k).
Proof.
  unfold set_quantity, quantity_of. destruct (decide (text = "")); [naive_solver|].
  destruct (ParseQuantity text) as [q|e]; simpl; [|done]. intros [= <-].
  split; [by right|]. case_decide; split; intros; by simplify_map_eq.
Qed.

(** The resources of a mount pod: an empty text stands for the default, a
    positive quantity is taken as it is, a quantity that is not positive removes
    the entry; the call succeeds when every text is empty or parses. *)
Theorem ParsePodResources_spec cl ml cr mr r :
  ParsePodResources cl ml cr mr = Ok r →
  Forall (λ t, t = "" ∨ is_ok (ParseQuantity t) = true) [cl; ml; cr; mr] ∧
  res_Limits r !! "cpu" = quantity_of config.DefaultMountPodCpuLimit cl ∧
  res_Limits r !! "memory" = quantity_of config.DefaultMountPodMemLimit ml ∧
  res_Requests r !! "cpu" = quantity_of config.DefaultMountPodCpuRequest cr ∧
  res_Requests r !! "memory" = quantity_of config.DefaultMountPodMemRequest mr.
Proof.
  unfold ParsePodResources. intros H.
  destruct (set_quantity _ "cpu" cl) as [l1|] eqn:E1; simpl in H; [|done].
  destruct (set_quantity l1 "memory" ml) as [l2|] eqn:E2; simpl in H; [|done].
  destruct (set_quantity _ "cpu" cr) as [r1|] eqn:E3; simpl in H; [|done].
  destruct (set_quantity r1 "memory" mr) as [r2|] eqn:E4; simpl in H; [|done].
  injection H as <-. simpl.
  apply set_quantity_spec in E1 as (P1 & L1 & N1), E2 as (P2 & L2 & N2),
    E3 as (P3 & L3 & N3), E4 as (P4 & L4 & N4).
  split; [rewrite !Forall_cons; auto|].
  rewrite N2, N4 by done. split_and!; [apply L1|apply L2; rewrite N1 by done|apply L3|apply L4; rewrite N3 by done];
    by simplify_map_eq.
Qed.

(** A quantity that does not parse makes the whole call fail. *)
Lemma ParsePodResources_err cl ml cr mr :
  (∃ t, t ∈ [cl; ml; cr; mr] ∧ t ≠ "" ∧ is_ok (ParseQuantity t) = false) →
  is_ok (ParsePodResources cl ml cr mr) = false.
Proof.
  intros (t & Ht & Hne & Hq). destruct (ParsePodResources cl ml cr mr) as [r|] eqn:E; [|done].
  unfold ParsePodResources in E.
  assert (∀ m n, is_ok (set_quantity m n t) = false) as Hbad.
  { intros m n. unfold set_quantity. rewrite decide_False by done.
    by destruct (ParseQuantity t). }
  rewrite !elem_of_cons in Ht. exfalso.
  repeat match type of E with
  | result_bind ?x _ = _ => destruct x eqn:?; simpl in E; [|done]
  end.
  destruct Ht as [->|[->|[->|[->|Ht]]]]; [..|inversion Ht];
    match goal with
    | H : set_quantity ?m ?n _ = Ok _ |- _ => specialize (Hbad m n); rewrite H in Hbad; done
    end.
Qed.

(** ** Mount options *)

Lemma valid_options_Forall2 limits opts out :
  valid_options limits opts = Ok out →
  Forall2 (λ o o', valid_option limits o = Ok o') opts out.
Proof.
  revert out. induction opts as [|o opts IH]; simpl; intros out H; [by injection H as <-|].
  destruct (valid_option limits o) as [o'|] eqn:E; simpl in H; [|done].
  destruct (valid_options limits opts) as [os|] eqn:E'; simpl in H; [|done].
  injection H as <-. constructor; [done|]. by apply IH.
Qed.

(** What an accepted option looks like: a flag, or a key and a value around a
    single equals sign, both trimmed; a buffer size does not exceed the memory
    limit. *)
Definition accepted (limits : gmap string Z) (o o' : string) : Prop :=
  match Split (TrimSpace o) "=" with
  | [f] => o' = TrimSpace o
  | [k; v] =>
      o' = TrimSpace k +:+ "=" +:+ TrimSpace v ∧
      (k = "buffer-size" → ∃ b, ParseToBytes v = Ok b ∧
         (b ≤ u64 (quantity_Value (default 0 (limits !! "memory"))))%Z)
  | _ => False
  end.

Lemma valid_option_accepted limits o o' :
  valid_option limits o = Ok o' → accepted limits o o'.
Proof.
  unfold valid_option, accepted. pose proof (Split_not_nil (TrimSpace o) "=").
  destruct (Split (TrimSpace o) "=") as [|k [|v [|x l]]]; [done|..]; simpl.
  - by intros [= <-].
  - destruct (decide (k = "buffer-size")) as [->|].
    + destruct (ParseToBytes v) as [b|]; [|done]. case_decide; [done|]. intros [= <-].
      split; [done|]. intros _. exists b. split; [done|lia].
    + intros [= <-]. split; done.
  - done.
Qed.

(** [GenAndValidOptions] either fails or keeps every option, in order, in
    the normal form [accepted] describes. *)
Theorem GenAndValidOptions_accepted s opts s' :
  GenAndValidOptions s opts = Ok s' →
  let limits := match s_Attr s with Some a => res_Limits (a_Resources a) | None => ∅ end in
  s' = set_s_MountOptions (s_MountOptions s') s ∧
  Forall2 (accepted limits) opts (s_MountOptions s').
Proof.
  unfold GenAndValidOptions. intros H.
  destruct (valid_options _ opts) as [os|] eqn:E; simpl in H; [|done]. injection H as <-.
  split; [done|]. simpl. eapply Forall2_impl; [by apply valid_options_Forall2|].
  apply valid_option_accepted.
Qed.

(** The limit on the buffer size is checked against the untrimmed key: with
    a blank before the equals sign any size passes, and is then stored without
    the blank. *)
Theorem buffer_size_unchecked s :
  GenAndValidOptions s ["buffer-size =15E"] = Ok (set_s_MountOptions ["buffer-size=15E"] s) ∧
  ∀ a, s_Attr s = Some a → res_Limits (a_Resources a) !! "memory" = Some (12 * 2 ^ 30 * 10 ^ 9)%Z →
    is_ok (GenAndValidOptions s ["buffer-size=15E"]) = false.
Proof.
  split; [reflexivity|]. intros a Ha Hm. unfold GenAndValidOptions. rewrite Ha.
  cbn [valid_options]. unfold valid_option.
  change (Split (TrimSpace "buffer-size=15E") "=") with ["buffer-size"; "15E"].
  rewrite decide_False by (simpl; lia). cbv beta iota zeta. rewrite decide_True by done.
  rewrite Hm. reflexivity.
Qed.

(** ** Format options *)

(** A pair in the notation of the secret. *)
Definition render_option (p : string * string) : string :=
  if decide (p.2 = "") then p.1 else p.1 +:+ "=" +:+ p.2.

Definition clean_char (c : ascii) : bool :=
  graph c && negb (bool_decide (c = ","%char)) && negb (bool_decide (c = "="%char)).
Definition clean_pair (p : string * string) : Prop :=
  p.1 ≠ "" ∧ all_chars clean_char p.1 ∧ all_chars clean_char p.2.

Lemma clean_graph s : all_chars clean_char s → all_chars graph s.
Proof. apply all_chars_impl. intros c. unfold clean_char. rewrite !andb_true_iff. tauto. Qed.

Lemma clean_no s c : all_chars clean_char s → c = ","%char ∨ c = "="%char → c ∉ chars s.
Proof. intros Hs Hc. eapply all_chars_not; [exact Hs|]. by destruct Hc as [-> | ->]. Qed.

Lemma render_graph p : clean_pair p → all_chars graph (render_option p).
Proof.
  intros (_ & H1%clean_graph & H2%clean_graph). unfold render_option. case_decide; [done|].
  rewrite !all_chars_app. split_and!; [done| |done]. by apply (bool_decide_unpack _).
Qed.

Lemma format_option_render whole p :
  clean_pair p → format_option whole (render_option p) = Ok (Some p).
Proof.
  intros Hp. unfold format_option. rewrite TrimSpace_graph by by apply render_graph.
  destruct p as [k v]. destruct Hp as (Hk & H1 & H2); simpl in *.
  unfold render_option, SplitN2; simpl. destruct (decide (v = "")) as [->|Hv].
  - rewrite Cut_char_None by (apply clean_no; auto).
    rewrite TrimSpace_graph by by apply clean_graph. by rewrite decide_False.
  - change ("=" +:+ v) with (String "=" v).
    rewrite Cut_char_app by (apply clean_no; auto).
    rewrite !TrimSpace_graph by by apply clean_graph. by rewrite !decide_False.
Qed.

(** Printing pairs as format options and parsing them gives the pairs back,
    in order, for keys and values without blanks, commas and equals signs. *)
Theorem ParseFormatOptions_roundtrip s ps :
  ps ≠ [] → Forall clean_pair ps →
  s_FormatOptions s = Join (render_option <$> ps) "," →
  ParseFormatOptions s = Ok ps.
Proof.
  intros Hne Hps Hs. unfold ParseFormatOptions. rewrite Hs, Split_Join; last first.
  { apply Forall_fmap. eapply Forall_impl; [exact Hps|]. intros [k v] (_ & H1 & H2).
    unfold compose, render_option; simpl in *. case_decide; [apply clean_no; auto|].
    rewrite !chars_append, !elem_of_app. intros [Hin|[Hin|Hin]];
      [by apply (clean_no k ","%char); auto| |by apply (clean_no v ","%char); auto].
    apply list_elem_of_singleton in Hin. done. }
  { by destruct ps. }
  clear Hs Hne. generalize (Join (render_option <$> ps) ","). intros whole.
  induction Hps as [|p ps Hp Hps IH]; [done|]. rewrite fmap_cons. cbn [format_options].
  rewrite format_option_render by done. cbn [result_bind]. by rewrite IH.
Qed.

(** ** Parsing a setting *)

(** What a setting is read from: the secret [secrets], the volume context, the
    objects of the volume, and the fields [s0] that [json.Unmarshal] took from the
    secret. *)
Record setting_read (secrets : smap) (volCtx : option smap) (opts : list string)
    (pv : option PersistentVolume) (pvc : option PersistentVolumeClaim) (s0 s : DfsSetting) : Prop := {
  sr_name : s_Name s = m_get secrets "name" ∧ s_Name s ≠ "";
  sr_storage : s_Storage s = m_get secrets "storage";
  sr_mds : s_MdsAddr s = m_get secrets "mdsAddr";
  sr_conf : s_ClientConfPath s = config.DefaultClientConfPath;
  sr_caches : s_CacheDirs s = [] ∧ s_CachePVCs s = [];
  sr_objects : s_PV s = pv ∧ s_PVC s = pvc;
  sr_key : s_SecretKey s = given (m_get secrets "secretkey") (s_SecretKey s0);
  sr_key2 : s_SecretKey2 s = given (m_get secrets "secretkey2") (s_SecretKey2 s0);
  sr_configs : secret_map secrets "configs" = Ok (s_Configs s);
  sr_envs : secret_map secrets "envs" = Ok (s_Envs s);
  sr_sub : s_SubPath s = given (m_get (nil_map volCtx) "subPath") (s_SubPath s0);
  sr_clean : s_CleanCache s =
    bool_decide (m_get (nil_map volCtx) config.CleanCacheKey = "true") || s_CleanCache s0;
  sr_delay : s_DeletedDelay s = given (m_get (nil_map volCtx) config.DeleteDelay) (s_DeletedDelay s0) ∧
    (m_get (nil_map volCtx) config.DeleteDelay ≠ "" → is_ok (ParseDuration (s_DeletedDelay s)) = true);
  sr_host : s_HostPath s =
    let paths := m_get (nil_map volCtx) config.MountPodHostPath in
    if decide (paths = "") then s_HostPath s0 else filter (λ p, p ≠ "") (TrimSpace <$> Split paths ",");
  sr_attr : ∃ a, s_Attr s = Some a ∧ attr_read volCtx (default default_attr (s_Attr s0)) a ∧
    a_Env a = default [] (m_Env (GenMountPodPatch (set_s_MountOptions (s_MountOptions s0) s))) ∧
    Forall2 (accepted (res_Limits (a_Resources a))) opts (s_MountOptions s);
  sr_strings : s_HashVal s = s_HashVal s0 ∧ s_FSID s = s_FSID s0 ∧ s_Source s = s_Source s0 ∧
    s_FormatOptions s = s_FormatOptions s0 ∧ s_VolumeId s = s_VolumeId s0 ∧
    s_UniqueId s = s_UniqueId s0 ∧ s_MountPath s = s_MountPath s0 ∧ s_TargetPath s = s_TargetPath s0 ∧
    s_SecretName s = s_SecretName s0 ∧ s_Token s = s_Token s0 ∧ s_Passphrase s = s_Passphrase s0 ∧
    s_EncryptRsaKey s = s_EncryptRsaKey s0 ∧ s_InitConfig s = s_InitConfig s0 ∧
    s_FormatCmd s = s_FormatCmd s0;
  sr_inline : s_EmptyDir s = s_EmptyDir s0 ∧ s_CacheInlineVolumes s = s_CacheInlineVolumes s0
}.

Lemma given_key k s : (if decide (k = "") then s else set_s_SecretKey k s)
  = set_s_SecretKey (given k (s_SecretKey s)) s.
Proof. unfold given. case_decide; [by destruct s|done]. Qed.
Lemma given_key2 k s : (if decide (k = "") then s else set_s_SecretKey2 k s)
  = set_s_SecretKey2 (given k (s_SecretKey2 s)) s.
Proof. unfold given. case_decide; [by destruct s|done]. Qed.

Lemma setting_of_ctx_ok m s s' :
  setting_of_ctx m s = Ok s' →
  s' = set_s_HostPath (let paths := m_get m config.MountPodHostPath in
         if decide (paths = "") then s_HostPath s
         else filter (λ p, p ≠ "") (TrimSpace <$> Split paths ","))
       (set_s_DeletedDelay (given (m_get m config.DeleteDelay) (s_DeletedDelay s))
       (set_s_CleanCache (bool_decide (m_get m config.CleanCacheKey = "true") || s_CleanCache s)
       (set_s_SubPath (given (m_get m "subPath") (s_SubPath s)) s))) ∧
  (m_get m config.DeleteDelay ≠ "" → is_ok (ParseDuration (m_get m config.DeleteDelay)) = true).
Proof.
  unfold setting_of_ctx, given. cbv zeta. intros H.
  destruct (decide (m_get m config.DeleteDelay = "")) as [Hd|Hd];
    [|destruct (ParseDuration (m_get m config.DeleteDelay)) as [d|] eqn:Ed; [|done]];
    cbn [result_bind] in H; injection H as <-; (split; [|done]);
    destruct (decide (m_get m "subPath" = "")), (decide (m_get m config.MountPodHostPath = ""));
    case_bool_decide; case_decide; try done; by destruct s.
Qed.

End setting_facts.

(** ** Examples *)

Section setting_examples.
#[local] Existing Instances demo_globals demo_ext.

Definition demo_patch : MountPodPatch :=
  set_m_VolumeMounts [MkVolumeMount "data" "/data" false None; MkVolumeMount "other" "/o" false None]
    (set_m_Volumes [MkVolume "data" (HostPath "/data" None); MkVolume "cachedir-1" (HostPath "/c" None)]
       empty_patch).

Lemma Merge_volumes_witness :
  NoDup (vol_Name <$> m_Volumes (Merge empty_patch demo_patch)) ∧
  m_VolumeMounts (Merge empty_patch demo_patch) = [MkVolumeMount "data" "/data" false None].
Proof. split; [apply (Merge_volumes empty_patch demo_patch); constructor|reflexivity]. Defined.

Definition demo_setting : DfsSetting :=
  set_s_MountPath "/dfs/pvc-1-abcdef" (set_s_VolumeId "pvc-1" (set_s_Name "fs1"
    (set_s_MdsAddr "10.0.0.1:6700" (set_s_MountOptions ["disk.path=${MOUNT_POINT}"; "ro"]
      zero_setting)))).

Lemma GenMountPodPatch_env_witness :
  m_Env (GenMountPodPatch demo_setting) =
  Some [MkEnvVar "disk_path" "/dfs/pvc-1-abcdef"; MkEnvVar "ro" "";
        MkEnvVar config.MdsAddrKey "10.0.0.1:6700"].
Proof.
  etrans; [apply (GenMountPodPatch_env demo_setting)|reflexivity].
  - apply (bool_decide_unpack _). vm_compute. exact I.
  - repeat constructor; apply (bool_decide_unpack _); vm_compute; exact I.
Defined.

Lemma ParsePodResources_spec_witness :
  ∃ r, ParsePodResources "" "0" "500m" "2Gi" = Ok r ∧ res_Limits r !! "memory" = None.
Proof.
  destruct (ParsePodResources "" "0" "500m" "2Gi") as [r|] eqn:E; [|vm_compute in E; discriminate].
  exists r. split; [done|]. by apply (ParsePodResources_spec "" "0" "500m" "2Gi") in E as (_ & _ & -> & _).
Defined.

Lemma GenAndValidOptions_accepted_witness :
  Forall2 (accepted ∅) [" a = b "; "ro"] ["a=b"; "ro"].
Proof.
  apply (GenAndValidOptions_accepted zero_setting [" a = b "; "ro"]
           (set_s_MountOptions ["a=b"; "ro"] zero_setting)). reflexivity.
Defined.

Lemma ParseFormatOptions_roundtrip_witness :
  ParseFormatOptions (MkDfsSetting "" "" "" "" "" "" "trash-days=1,no-update" [] "" [] None [] ""
    "" "" "" [] "" "" None "" "" "" "" ∅ "" "" ∅ "" false [] "" None None)
  = Ok [("trash-days", "1"); ("no-update", "")].
Proof.
  apply ParseFormatOptions_roundtrip; [done| |reflexivity].
  repeat constructor; try done; apply (bool_decide_unpack _); vm_compute; exact I.
Defined.

End setting_examples.
