(* ===== verification/Endpoint.v ===== *)
(** * Endpoint: where the driver listens ([ParseEndpoint] of [src/pkg/util/util.go]) *)

From S2P Require Import Prelude GoStrings GoNum GoUrl Objects Effects.
From Stdlib Require Import Ascii.

(** [ParseEndpoint]: the scheme and the address; the socket of an earlier run is
    removed. *)
Definition ParseEndpoint (endpoint : string) : prog (result (string * string)) :=
  match url_Parse endpoint with
  | Err e => Ret (Err (ErrNew ("could not parse endpoint: " +:+ error_text e)))
  | Ok u =>
      let addr := path_Join [u_Host u; u_Path u] in
      let scheme := ToLower (u_Scheme u) in
      if decide (scheme = "tcp") then Ret (Ok (scheme, addr))
      else if decide (scheme = "unix") then
        let addr := path_Join ["/"; addr] in
        e <- call (Remove addr) ;;
        match e with
        | Some e =>
            if os_IsNotExist e then Ret (Ok (scheme, addr))
            else Ret (Err (ErrNew ("could not remove unix domain socket " +:+ quote addr +:+ ": "
                                   +:+ error_text e)))
        | None => Ret (Ok (scheme, addr))
        end
      else Ret (Err (ErrNew ("unsupported protocol: " +:+ scheme)))
  end.

(** A segment of a path: letters, digits and some marks, and not a dot or two. *)
Definition plain_char (c : ascii) : bool :=
  is_letter c || is_digit c || bool_decide (c ∈ chars "-_.~").
Definition segment (s : string) : Prop :=
  s ≠ "" ∧ s ≠ "." ∧ s ≠ ".." ∧ all_chars plain_char s.

(** What a byte that is plain, or a slash, is not. *)
Definition inert (c : ascii) : bool :=
  negb (bool_decide (c = "%"%char)) && negb (host_escape c) && negb (is_ctl c)
  && negb (bool_decide (c ∈ chars "#?@:[")).

Lemma plain_inert c : plain_char c = true → inert c = true.
Proof.
  intros H. destruct (inert c) eqn:E; [done|]. exfalso. revert H E.
  by destruct c as [[] [] [] [] [] [] [] []]; vm_compute.
Qed.

(** ** The parts of a plain URL *)

Lemma unescape_inert m s :
  all_chars (λ c, inert c || bool_decide (c = "/"%char ∧ m = encodePath)) s → unescape m s = Ok s.
Proof.
  induction s as [|c s IH]; [done|]. rewrite all_chars_cons. intros [Hc Hs].
  apply orb_true_iff in Hc. cbn [unescape]. rewrite decide_False, IH by (done || intros ->; naive_solver).
  replace (_ && _) with false; [done|]. symmetry. apply not_true_is_false. intros H.
  destruct Hc as [Hc|Hc].
  - unfold inert in Hc. destruct (host_escape c); [|by rewrite andb_false_r in H].
    by rewrite andb_false_r in Hc.
  - apply bool_decide_eq_true in Hc as [-> ->]. done.
Qed.

Lemma segment_chars (f : ascii → bool) s :
  (∀ c, plain_char c = true → f c = true) → segment s → all_chars f s.
Proof. intros Hf (_ & _ & _ & H). by eapply all_chars_impl. Qed.

Lemma segments_chars (f : ascii → bool) l :
  (∀ c, plain_char c = true → f c = true) → f "/"%char = true → Forall segment l →
  all_chars f (Join l "/").
Proof.
  intros Hf Hs Hl. apply all_chars_Join; [|by repeat constructor].
  eapply Forall_impl; [exact Hl|]. intros s. by apply segment_chars.
Qed.

(** ** Paths of segments *)

Definition component (s : string) : Prop := s = "" ∨ segment s.

Lemma clean_components b cs out :
  Forall component cs → foldl (clean_step b) out cs = reverse (filter (.≠ "") cs) ++ out.
Proof.
  intros H. revert out. induction H as [|c cs Hc _ IH]; intros out; [done|]. cbn [foldl].
  rewrite IH, filter_cons. unfold clean_step. destruct Hc as [->|(H1 & H2 & H3 & _)].
  - by rewrite decide_True, decide_False by auto.
  - rewrite decide_False, decide_False, decide_True by naive_solver.
    by rewrite reverse_cons, <-app_assoc.
Qed.

Lemma component_no_slash c : component c → "/"%char ∉ chars c.
Proof.
  intros [->|H]; [apply not_elem_of_nil|]. apply (all_chars_not plain_char); [apply H|done].
Qed.

Lemma clean_Join cs :
  Forall component cs → cs ≠ [] → Join cs "/" ≠ "" →
  path_Clean (Join cs "/") =
    let out := Join (filter (.≠ "") cs) "/" in
    if HasPrefix (Join cs "/") "/" then "/" +:+ out else if decide (out = "") then "." else out.
Proof.
  intros Hcs Hne Hj. unfold path_Clean. rewrite decide_False by done.
  rewrite Split_Join, clean_components, app_nil_r, reverse_involutive; [done|done|done|].
  eapply Forall_impl; [exact Hcs|]. apply component_no_slash.
Qed.

Lemma filter_segments l : Forall segment l → filter (.≠ "") l = l.
Proof.
  intros H. apply filter_all. eapply Forall_impl; [exact H|]. by intros s [? _].
Qed.

Lemma segment_not_slash s t : segment s → HasPrefix (s +:+ t) "/" = false.
Proof.
  intros (Hn & _ & _ & H). destruct s as [|c s]; [done|]. apply all_chars_cons in H as [H _].
  apply not_true_is_false. intros (u & E)%HasPrefix_true. by injection E as ->.
Qed.

Lemma Join_segments_ne s l : segment s → Join (s :: l) "/" ≠ "".
Proof. intros [Hn _]. by destruct s, l. Qed.

(** Joining with a slash in front, whatever slashes are between. *)
Lemma clean_rooted n s l :
  Forall segment (s :: l) →
  path_Clean (Join (replicate (S n) "" ++ s :: l) "/") = "/" +:+ Join (s :: l) "/".
Proof.
  intros H. rewrite clean_Join.
  - cbn zeta. rewrite filter_app, (filter_segments (s :: l)) by done.
    rewrite filter_none by (apply Forall_replicate; naive_solver). cbn [replicate app Join].
    by destruct (replicate n "" ++ s :: l) eqn:E; [destruct n|].
  - apply Forall_app. split; [apply Forall_replicate; by left|].
    eapply Forall_impl; [exact H|]. by right.
  - done.
  - cbn [replicate app Join]. by destruct (replicate n "" ++ s :: l) eqn:E; [destruct n|].
Qed.

Lemma clean_host s l :
  Forall segment (s :: l) → path_Clean (Join (s :: "" :: l) "/") = Join (s :: l) "/".
Proof.
  intros H. assert (segment s) as Hs by (by inversion H). rewrite clean_Join.
  - cbn zeta. rewrite filter_cons_True, filter_cons_False by (done || apply Hs || naive_solver).
    rewrite filter_segments by (by inversion H).
    replace (Join (s :: "" :: l) "/") with (s +:+ "/" +:+ Join ("" :: l) "/") by done.
    rewrite segment_not_slash, decide_False by (done || by apply Join_segments_ne). done.
  - inversion H. constructor; [by right|]. constructor; [by left|].
    eapply Forall_impl; [done|]. by right.
  - done.
  - destruct Hs as [Hn _]. by destruct s.
Qed.

(** ** Endpoints of Unix sockets *)

Lemma plain_not c d : plain_char d = false → plain_char c = true → c ≠ d.
Proof. by intros Hd Hc ->; rewrite Hd in Hc. Qed.

Lemma Cut_none p body d :
  d ∉ chars p → d ∉ chars body → Cut (p +:+ body) (String d "") = None.
Proof. intros. apply Cut_char_None. rewrite chars_append. by intros [?|?]%elem_of_app. Qed.

(** A URL of inert characters and slashes behind [unix://]. *)
Definition inert_path (c : ascii) : bool := inert c || bool_decide (c = "/"%char).

Lemma inert_path_not_ctl c : inert_path c = true → is_ctl c = false.
Proof. by destruct c as [[] [] [] [] [] [] [] []]; vm_compute. Qed.

Lemma url_Parse_unix_body body u :
  all_chars inert_path body →
  parse_rest "unix" ("//" +:+ body) = Ok u → url_Parse ("unix://" +:+ body) = Ok u.
Proof.
  intros Hb Hu. assert (∀ d, inert_path d = false → d ∉ chars body) as Hno.
  { intros d. by apply all_chars_not. }
  unfold url_Parse, cut. rewrite Cut_none by first [by apply (bool_decide_unpack _) | by apply Hno].
  cbn [default from_option]. unfold parse_url. replace (existsb is_ctl _) with false.
  2:{ symmetry. apply not_true_is_false. intros (c & Hin & Hc)%existsb_exists.
      apply list_elem_of_In in Hin. rewrite chars_append in Hin. apply elem_of_app in Hin as [Hin|Hin].
      - repeat (apply elem_of_cons in Hin as [->|Hin]; [done|]). by inversion Hin.
      - unfold all_chars in Hb. rewrite Forall_forall in Hb. apply Hb, inert_path_not_ctl in Hin. congruence. }
  rewrite decide_False by done. change (getScheme _) with (Ok ("unix", "//" +:+ body)).
  cbn [result_bind]. unfold cut. rewrite Cut_none by first [by apply (bool_decide_unpack _) | by apply Hno].
  cbn [default from_option fst]. change (ToLower "unix") with "unix".
  change ("//" +:+ body) with ("/" +:+ "/" +:+ body) at 1. rewrite HasPrefix_app. cbn [negb]. by rewrite Hu.
Qed.

(** The host and the path of the two forms. *)
Lemma parse_rest_host s l :
  Forall segment (s :: l) →
  parse_rest "unix" ("//" +:+ Join (s :: l) "/") =
  Ok (MkURL "unix" s (match l with [] => "" | _ => "/" +:+ Join l "/" end)).
Proof.
  intros H. assert (segment s) as Hs by (by inversion H).
  assert (∀ t, Cut (s +:+ "/" +:+ t) "/" = Some (s, t)) as Hc.
  { intros t. apply Cut_char_app. apply component_no_slash. by right. }
  assert (parseAuthority s = Ok s) as Ha.
  { assert (∀ d, plain_char d = false → d ∉ chars s) as Hno.
    { intros d. apply all_chars_not, Hs. }
    unfold parseAuthority. rewrite CutLast_None by (by apply Hno). unfold parseHost.
    replace (HasPrefix s "[") with false.
    2:{ symmetry. apply not_true_is_false. intros (t & ->)%HasPrefix_true. by apply (Hno "["%char), elem_of_cons; [|left]. }
    unfold LastIndex. rewrite CutLast_None by (by apply Hno). apply unescape_inert.
    apply (segment_chars _ s); [|done]. intros c Hc'. by rewrite plain_inert. }
  unfold parse_rest. rewrite (HasPrefix_app "//"). rewrite bool_decide_true by done. cbn [orb andb].
  change (drop_s 2 _) with (Join (s :: l) "/"). destruct l as [|a l].
  - cbn [Join]. rewrite Cut_char_None by (apply component_no_slash; by right). by rewrite Ha.
  - change (Join (s :: a :: l) "/") with (s +:+ "/" +:+ Join (a :: l) "/"). rewrite Hc, Ha.
    cbn [result_bind]. change (String "/" (Join (a :: l) "/")) with ("/" +:+ Join (a :: l) "/").
    rewrite unescape_inert; [done|]. apply all_chars_app. split; [by repeat constructor|].
    apply segments_chars; [|done|by inversion H]. intros c Hc'. by rewrite plain_inert.
Qed.

Lemma parse_rest_path s l :
  Forall segment (s :: l) →
  parse_rest "unix" ("//" +:+ "/" +:+ Join (s :: l) "/") = Ok (MkURL "unix" "" ("/" +:+ Join (s :: l) "/")).
Proof.
  intros H. unfold parse_rest. rewrite (HasPrefix_app "//"). rewrite bool_decide_true by done. cbn [orb andb].
  replace (Cut (drop_s 2 _) "/") with (Some ("", Join (s :: l) "/"))
    by (symmetry; apply (Cut_char_app "" "/"%char), not_elem_of_nil).
  change (parseAuthority "") with (Ok "" : result string).
  cbn [result_bind]. change (String "/" ?x) with ("/" +:+ x).
  rewrite unescape_inert; [done|]. apply all_chars_app. split; [by repeat constructor|].
  apply segments_chars; [|done|done]. intros c Hc'. by rewrite plain_inert.
Qed.

(** The socket of an endpoint: with two slashes or three, the path of the
    segments behind them.  It is removed first; that it is not there is fine,
    any other failure is an error. *)
Theorem ParseEndpoint_unix s l prefix :
  Forall segment (s :: l) → prefix ∈ ["unix://"; "unix:///"] →
  let addr := "/" +:+ Join (s :: l) "/" in
  wp any_env (ParseEndpoint (prefix +:+ Join (s :: l) "/")) [] (λ o tr, ∃ r,
    tr = [Call (Remove addr) r] ∧
    if on_err (negb ∘ os_IsNotExist) r then ∃ e, o = Done (Err e)
    else o = Done (Ok ("unix", addr))).
Proof.
  intros H Hp addr. assert (segment s) as Hs by (by inversion H).
  assert (all_chars inert_path (Join (s :: l) "/")) as Hi.
  { apply segments_chars; [|done|done]. intros c Hc. unfold inert_path. by rewrite plain_inert. }
  assert (∃ u, url_Parse (prefix +:+ Join (s :: l) "/") = Ok u ∧ u_Scheme u = "unix" ∧
    path_Join ["/"; path_Join [u_Host u; u_Path u]] = addr) as (u & Hu & Hsch & Ha).
  { apply elem_of_cons in Hp as [->|Hp]; [|apply list_elem_of_singleton in Hp as ->].
    - eexists. split; [apply url_Parse_unix_body; [done|by apply parse_rest_host]|]. split; [done|].
      cbn [u_Host u_Path path_Join]. rewrite decide_False by done.
      rewrite (decide_False (P := s = "")) by apply Hs. replace (Join [s; _] "/") with (Join (s :: "" :: l) "/") by (by destruct l).
      rewrite clean_host by done. apply (clean_rooted 1 s l H).
    - eexists. split.
      { change ("unix:///" +:+ ?x) with ("unix://" +:+ "/" +:+ x). apply url_Parse_unix_body.
        - apply all_chars_app. split; [by repeat constructor|done].
        - by apply parse_rest_path. }
      split; [done|].
      assert (path_Clean ("/" +:+ Join (s :: l) "/") = addr) as H0 by apply (clean_rooted 0 s l H).
      assert (path_Clean ("/" +:+ "/" +:+ "/" +:+ Join (s :: l) "/") = addr) as H2
        by apply (clean_rooted 2 s l H).
      revert H0 H2. unfold addr. generalize (Join (s :: l) "/"). intros J H0 H2.
      cbn [u_Host u_Path path_Join]. rewrite decide_False, decide_True, decide_False by done.
      cbn [Join]. by rewrite H0. }
  unfold ParseEndpoint. rewrite Hu, Hsch, Ha. cbn. intros [e|] _; cbn [on_err].
  - destruct (os_IsNotExist e) eqn:He; cbn [wp]; exists (Some e); (split; [done|]); cbn; rewrite He; [done|by eexists].
  - by exists None.
Qed.

(** ** Examples *)

(** The default endpoint. *)
Lemma ParseEndpoint_unix_witness :
  wp any_env (ParseEndpoint "unix://tmp/csi.sock") [] (λ o tr, ∃ r,
    tr = [Call (Remove "/tmp/csi.sock") r] ∧
    if on_err (negb ∘ os_IsNotExist) r then ∃ e, o = Done (Err e)
    else o = Done (Ok ("unix", "/tmp/csi.sock"))).
Proof.
  apply (ParseEndpoint_unix "tmp" ["csi.sock"] "unix://");
    repeat first [apply (bool_decide_unpack _); exact I | constructor | done].
Defined.
