(* ===== verification/FsTool.v ===== *)
(** * FsTool: the wrapper of the [dingo] command ([src/pkg/util/fs_util.go])

    [dingofsTool] collects the parameters of a command in two maps and runs
    [dingo create fs], [list fs], [config fs] and others; [dingofsMounter] does
    the same for the fuse client and derives a configuration file from the
    mount flags.  A method that fills the maps returns the receiver.  The order
    in which Go visits a map is [map_range]. *)

From S2P Require Import Prelude GoStrings GoNum Objects Effects Config Demo Util.
From Stdlib Require Import Ascii.

Section tool.
Context `{X : !Ext}.

Definition toolPath : string := "/dingofs/tools-v2/sbin/dingo".
Definition clientPath : string := "/dingofs/client/sbin/dingo-fuse".
Definition defaultClientExampleConfPath : string := "/dingofs/conf/client.conf".

Record dingofsTool := MkTool { ToolParams : smap; QuotaParams : smap }.
Definition NewDingofsTool : dingofsTool := MkTool ∅ ∅.

Definition set_tool (k v : string) (ct : dingofsTool) : dingofsTool :=
  MkTool (<[k := v]> (ToolParams ct)) (QuotaParams ct).
Definition set_quota (k v : string) (ct : dingofsTool) : dingofsTool :=
  MkTool (ToolParams ct) (<[k := v]> (QuotaParams ct)).

(** [if v, ok := params[k]; ok { ct.ToolParams[k'] = v }]. *)
Definition copy_tool (params : smap) (k k' : string) (ct : dingofsTool) : dingofsTool :=
  match params !! k with Some v => set_tool k' v ct | None => ct end.
Definition copy_quota (params : smap) (k k' : string) (ct : dingofsTool) : dingofsTool :=
  match params !! k with Some v => set_quota k' v ct | None => ct end.

(** ** Parameters *)

Definition invalid {A} (msg : string) : result A := Err (ErrStatus CodeInvalidArgument msg).

Definition ValidateCommonParams (params : smap) (ct : dingofsTool) : result dingofsTool :=
  match params !! "mdsAddr" with
  | Some mdsAddr => Ok (set_tool "mdsaddr" mdsAddr ct)
  | None => invalid "mdsAddr is missing"
  end.

Definition s3_params (params : smap) (ct : dingofsTool) : result dingofsTool :=
  match params !! "s3Endpoint", params !! "s3AccessKey", params !! "s3SecretKey",
        params !! "s3Bucket" with
  | Some endpoint, Some ak, Some sk, Some bucket =>
      Ok (set_tool "s3.bucketname" bucket (set_tool "s3.sk" sk
            (set_tool "s3.ak" ak (set_tool "s3.endpoint" endpoint ct))))
  | _, _, _, _ => invalid "s3Info is incomplete"
  end.

Definition rados_params (params : smap) (ct : dingofsTool) : result dingofsTool :=
  let ct := copy_tool params "radosClustername" "rados.clustername" ct in
  match params !! "radosPoolname", params !! "radosUsername", params !! "radosKey",
        params !! "radosMon" with
  | Some pool, Some user, Some key, Some mon =>
      Ok (set_tool "rados.mon" mon (set_tool "rados.key" key
            (set_tool "rados.username" user (set_tool "rados.poolname" pool ct))))
  | _, _, _, _ => invalid "radosInfo is incomplete"
  end.

Definition volume_params (params : smap) (ct : dingofsTool) : result dingofsTool :=
  match params !! "backendVolName" with
  | None => invalid "backendVolName is missing"
  | Some name =>
      let ct := set_tool "volumeName" name ct in
      match params !! "backendVolSizeGB" with
      | None => invalid "backendVolSize is missing"
      | Some size =>
          match ParseInt0 size with
          | None => invalid "backendVolSize is not integer"
          | Some n =>
              if decide (n < 10)%Z then invalid "backendVolSize must larger than 10GB"
              else Ok (set_tool "volumeSize" size ct)
          end
      end
  end.

Definition ValidateCreateFsParams (params : smap) (ct : dingofsTool) : result dingofsTool :=
  let fsType := m_get params "fsType" in
  let storagetype := m_get params "storagetype" in
  let ct := copy_tool params "storagetype" "storagetype"
              (copy_tool params "fsType" "fstype" ct) in
  tri ct :=
    (if decide (fsType = "s3" ∨ storagetype = "s3") then s3_params params ct
     else if decide (fsType = "rados" ∨ storagetype = "rados") then rados_params params ct
     else if decide (fsType = "volume") then volume_params params ct
     else invalid ("unsupported fsType " +:+ fsType)) in
  Ok (copy_quota params "quotaInodes" "inodes"
        (copy_quota params "quotaCapacity" "capacity" ct)).

(** ** Commands *)

(** The flags of a parameter map, in the order of the iteration. *)
Definition flags (dashes : string) (m : smap) : list string :=
  (λ kv, dashes +:+ kv.1 +:+ "=" +:+ kv.2) <$> map_range m.

(** [status.Errorf(codes.Internal, ...)] for a command that failed. *)
Definition cmd_failed (what cmd : string) (args : list string) (out : string) (e : option error)
    : error :=
  ErrStatus CodeInternal (what +:+ cmd +:+ " " +:+ fmt_strings args +:+ ", output: " +:+ out
                          +:+ ", err: " +:+ nil_text e).

Record FsInfo := MkFsInfo { fs_ID : Z; fs_Name : string; fs_Status : string }.

(** A line of the table of [dingo list fs]: skipped, or its entry. *)
Definition fs_line (line : string) : prog (option FsInfo) :=
  if HasPrefix line "+" || HasPrefix line "| ID" || bool_decide (line = "") then Ret None
  else
    let fields := Fields line in
    if decide (length fields < 3) then Ret None
    else match fields !! 1%nat, fields !! 3%nat, fields !! 5%nat with
         | Some id, Some name, Some st => Ret (Some (MkFsInfo (ParseInt id) name st))
         | _, _, _ => Panic "index out of range"
         end.

Fixpoint fs_lines (lines : list string) : prog (list FsInfo) :=
  match lines with
  | [] => Ret []
  | l :: lines =>
      o <- fs_line l ;;
      infos <- fs_lines lines ;;
      Ret (match o with Some i => i :: infos | None => infos end)
  end.

Definition CheckFsExisted (fsName mdsAddr : string) : prog (result bool) :=
  r <- call (Exec Background toolPath ["list"; "fs"; "--mdsaddr=" +:+ mdsAddr]) ;;
  match r.2 with
  | Some e => Ret (Err e)
  | None =>
      let lines := Split r.1 (String (byte 10) "") in
      if decide (length lines < 3) then Ret (Ok false)
      else
        infos <- fs_lines lines ;;
        Ret (Ok (existsb (λ i, bool_decide (fs_Name i = fsName)) infos))
  end.

(** The quota of a new file system, as two functions set it. *)
Definition config_quota (tool fsName : string) (ct : dingofsTool) : prog (option error) :=
  if decide (QuotaParams ct = ∅) then Ret None
  else
    let args := ["config"; "fs"; "--fsname=" +:+ fsName;
                 "--mdsaddr=" +:+ m_get (ToolParams ct) "mdsaddr"]
                ++ flags "--" (QuotaParams ct) in
    r <- call (Exec Background tool args) ;;
    match r.2 with
    | Some e => Ret (Some (cmd_failed "dingo config fs quota failed. cmd: " tool args r.1 (Some e)))
    | None => Ret None
    end.

Definition CreateFsV1 (secrets : smap) (ct : dingofsTool) : prog (option error) :=
  let fsName := m_get secrets "name" in
  match ValidateCommonParams secrets ct with
  | Err e => Ret (Some e)
  | Ok ct =>
      fsExisted <-! CheckFsExisted fsName (m_get (ToolParams ct) "mdsaddr") ;;
      if fsExisted : bool then Ret None
      else match ValidateCreateFsParams secrets ct with
      | Err e => Ret (Some e)
      | Ok ct =>
          let ct := set_tool "fsname" fsName ct in
          let args := ["create"; "fs"] ++ flags "--" (ToolParams ct) in
          r <- call (Exec Background toolPath args) ;;
          match r.2 with
          | Some e => Ret (Some (cmd_failed "dingo create fs failed. cmd: " toolPath args r.1 (Some e)))
          | None =>
              let query := ["query"; "fs"; "--fsname=" +:+ fsName;
                            "--mdsaddr=" +:+ m_get (ToolParams ct) "mdsaddr"] in
              r <- call (Exec Background toolPath query) ;;
              if bool_decide (r.2 ≠ None) || Contains r.1 "Error"
              then Ret (Some (cmd_failed "dingo query fs failed. cmd: " toolPath query r.1 r.2))
              else config_quota toolPath fsName ct
          end
      end
  end.

Definition DeleteFs (volumeID : string) (params : smap) (ct : dingofsTool) : prog (option error) :=
  match ValidateCommonParams params ct with
  | Err e => Ret (Some e)
  | Ok ct =>
      let ct := set_tool "noconfirm" "1" (set_tool "fsname" volumeID ct) in
      let args := ["delete-fs"] ++ flags "-" (ToolParams ct) in
      r <- call (Exec Background toolPath args) ;;
      match r.2 with
      | Some e => Ret (Some (cmd_failed "dingo tool delete-fs failed. cmd:" toolPath args r.1 (Some e)))
      | None => Ret None
      end
  end.

Definition SetVolumeQuota (mdsaddr path fsname capacity inodes : string) : prog (option error) :=
  let args := ["quota"; "set"; "--mdsaddr=" +:+ mdsaddr; "--path=" +:+ path;
               "--fsname=" +:+ fsname; "--capacity=" +:+ capacity]
              ++ (if decide (TrimSpace inodes = "") then [] else ["--inodes=" +:+ inodes]) in
  r <- call (Exec Background toolPath args) ;;
  match r.2 with
  | Some e =>
      Ret (Some (cmd_failed "dingofs config volume quota failed. cmd:" toolPath args r.1 (Some e)))
  | None => Ret None
  end.

(** ** The fuse client *)

Record dingofsMounter := MkMounter { mounterParams : smap }.
Definition NewDingofsMounter : dingofsMounter := MkMounter ∅.
Definition set_param (k v : string) (cm : dingofsMounter) : dingofsMounter :=
  MkMounter (<[k := v]> (mounterParams cm)).
Definition GetCacheDir (cm : dingofsMounter) : string := m_get (mounterParams cm) "cache_dir".

Definition validateMountFsParams (params : smap) (cm : dingofsMounter)
    : dingofsMounter * option error :=
  match params !! "mdsAddr" with
  | None => (cm, Some (ErrStatus CodeInvalidArgument "mdsAddr is missing"))
  | Some mdsAddr =>
      let cm := set_param "mdsaddr" mdsAddr cm in
      let cm := set_param "conf" (default defaultClientExampleConfPath (params !! "clientConfPath"))
                  cm in
      match params !! "fsType" with
      | None => (cm, Some (ErrStatus CodeInvalidArgument "fsType is missing"))
      | Some fsType => (set_param "fstype" fsType cm, None)
      end
  end.

(** A line of the configuration that sets a key, as key and value. *)
Definition conf_entry (line : string) : option (string * string) :=
  if HasPrefix line "#" then None else Cut line "=".

Definition conf_map (lines : list string) : smap :=
  foldl (λ m line, match conf_entry line with Some (k, v) => <[k := v]> m | None => m end) ∅ lines.

Definition flag_map (mountFlags : list string) (m : smap) : smap :=
  foldl (λ m flag, match Cut flag "=" with Some (k, v) => <[k := v]> m | None => m end)
    m mountFlags.

Definition cache_flag (flag : string) : bool :=
  match Cut flag "=" with
  | Some (k, v) => bool_decide (k = "diskCache.diskCacheType" ∧ (v = "2" ∨ v = "1"))
  | None => false
  end.

(** The cache directories, each below a directory of its own for the mount:
    with their capacities, and the paths alone. *)
Definition cache_dir_capacity (mountUUID cacheDir : string) : string :=
  match Cut cacheDir ":" with
  | Some (dir, capacity) => dir +:+ "/" +:+ mountUUID +:+ ":" +:+ capacity
  | None => cacheDir +:+ "/" +:+ mountUUID
  end.
Definition cache_dir_path (mountUUID cacheDir : string) : string :=
  match Cut cacheDir ":" with
  | Some (dir, _) => dir +:+ "/" +:+ mountUUID
  | None => cacheDir +:+ "/" +:+ mountUUID
  end.

(** The rewriting of one line: what is left of the map, the line written, and
    the mounter. *)
Definition conf_line (mountUUID line : string) (m : smap) (cm : dingofsMounter)
    : smap * string * dingofsMounter :=
  match conf_entry line with
  | None => (m, line, cm)
  | Some (k, _) =>
      match m !! k with
      | None => (m, line, cm)
      | Some v =>
          if decide (k = "disk_cache.cache_dir") then
            let dirs := Split v ";" in
            (delete k m, k +:+ "=" +:+ Join (cache_dir_capacity mountUUID <$> dirs) ";",
             set_param "cache_dir" (Join (cache_dir_path mountUUID <$> dirs) ";") cm)
          else (delete k m, k +:+ "=" +:+ v, cm)
      end
  end.

Fixpoint conf_lines (mountUUID : string) (lines : list string) (m : smap) (cm : dingofsMounter)
    : smap * list string * dingofsMounter :=
  match lines with
  | [] => (m, [], cm)
  | l :: lines =>
      let '(m, l, cm) := conf_line mountUUID l m cm in
      let '(m, ls, cm) := conf_lines mountUUID lines m cm in
      (m, l :: ls, cm)
  end.

(** The new configuration: the lines of the old one with the values of the
    flags, then the flags that are new, each line ended. *)
Definition apply_flags (mountUUID : string) (mountFlags : list string) (data : string)
    (cm : dingofsMounter) : string * dingofsMounter :=
  let lines := Split data newline in
  let '(m, ls, cm) := conf_lines mountUUID lines (flag_map mountFlags (conf_map lines)) cm in
  (String.concat "" ((λ l, l +:+ newline) <$> ls ++ ((λ kv, kv.1 +:+ "=" +:+ kv.2) <$> map_range m)),
   cm).

Definition conf_failed (what path : string) (e : error) : error :=
  ErrStatus CodeInternal ("applyMountFlag: failed to " +:+ what +:+ " " +:+ path +:+ ", "
                          +:+ error_text e).

Definition applyMountFlags (origConfPath : string) (mountFlags : list string)
    (mountUUID : string) (cm : dingofsMounter) : prog (dingofsMounter * result string) :=
  let confPath := defaultClientExampleConfPath +:+ "." +:+ mountUUID in
  data <- call (ReadFile origConfPath) ;;
  match data with
  | Err e => Ret (cm, Err (conf_failed "read conf" origConfPath e))
  | Ok data =>
      e <- call (WriteFile confPath data 420) ;;
      match e with
      | Some e => Ret (cm, Err (conf_failed "write new conf" confPath e))
      | None =>
          data <- call (ReadFile confPath) ;;
          match data with
          | Err e => Ret (cm, Err (conf_failed "read new conf" confPath e))
          | Ok data =>
              let '(newData, cm) := apply_flags mountUUID mountFlags data cm in
              e <- call (WriteFile confPath newData 420) ;;
              match e with
              | Some e => Ret (cm, Err (conf_failed "write updated conf" confPath e))
              | None =>
                  if existsb cache_flag mountFlags then
                    for_each (Split (GetCacheDir cm) ";") (λ dir,
                        e <- call (MkdirAll dir 511) ;;
                        Ret match e with Some e => Some (cm, Err e) | None => None end)
                      (Ret (cm, Ok confPath))
                  else Ret (cm, Ok confPath)
              end
          end
      end
  end.

(** The arguments of the client for the parameters of the mounter. *)
Definition mount_args (params : smap) (mountPath : string) : list string :=
  ["-o"; "default_permissions"; "-o"; "allow_other"]
  ++ mjoin ((λ kv, if decide (kv.1 = "cache_dir") then []
                   else if decide (kv.1 = "mdsaddr") then ["--" +:+ kv.1 +:+ "=" +:+ kv.2]
                   else ["-o"; kv.1 +:+ "=" +:+ kv.2]) <$> map_range params)
  ++ [mountPath].

(** [MountFs]; [mountFlags] is that of a mount capability, if there is one. *)
Definition MountFs_client (mountPath : string) (mountFlags : option (list string))
    (mountUUID : string) (secrets : smap) (cm : dingofsMounter)
    : prog (dingofsMounter * result Z) :=
  let '(cm, e) := validateMountFsParams secrets cm in
  match e with
  | Some e => Ret (cm, Err e)
  | None =>
      r <- match mountFlags with
           | None => Ret (cm, Ok tt)
           | Some fl =>
               r <- applyMountFlags (m_get (mounterParams cm) "conf") fl mountUUID cm ;;
               Ret match r with
                   | (cm, Ok confPath) => (set_param "conf" confPath cm, Ok tt)
                   | (cm, Err e) => (cm, Err e)
                   end
           end ;;
      match r with
      | (cm, Err e) => Ret (cm, Err e)
      | (cm, Ok _) =>
          let cm := set_param "fsname" (m_get secrets "name") cm in
          let args := mount_args (mounterParams cm) mountPath in
          e <- CreatePath mountPath ;;
          match e with
          | Some e =>
              Ret (cm, Err (ErrStatus CodeInternal
                ("Failed to create mount point path " +:+ mountPath +:+ ", err: " +:+ error_text e)))
          | None =>
              r <- call (Exec Background clientPath args) ;;
              match r.2 with
              | Some e =>
                  Ret (cm, Err (cmd_failed "dingo-fuse mount failed. cmd: " clientPath args r.1
                                  (Some e)))
              | None => pid <- call ProcessPid ;; Ret (cm, Ok (pid + 2)%Z)
              end
          end
      end
  end.

Definition umount_failed (dir out : string) (e : error) : error :=
  ErrStatus CodeInternal ("umount " +:+ dir +:+ " failed. output: " +:+ out +:+ ", err: "
                          +:+ error_text e).

Definition UmountFs (targetPath mountUUID cacheDirs : string) : prog (option error) :=
  r <- call (Exec Background "umount" [targetPath]) ;;
  match r.2 with
  | Some e => Ret (Some (umount_failed targetPath r.1 e))
  | None =>
      let mountDir := config.PodMountBase +:+ "/" +:+ mountUUID in
      r <- call (Exec Background "umount" [mountDir]) ;;
      match r.2 with
      | Some e => Ret (Some (umount_failed mountDir r.1 e))
      | None =>
          if decide (mountUUID = "") then Ret None
          else
            call (Spawn (TaskRemove (defaultClientExampleConfPath +:+ "." +:+ mountUUID))) ;;;
            for_each (Split cacheDirs ";")
              (λ path, call (Spawn (TaskRemoveAll path)) ;;; Ret None)
              (call (Spawn (TaskRemoveAll mountDir)) ;;; Ret None)
      end
  end.
End tool.

(** Reading the list makes no calls. *)
Lemma fs_lines_within P l : within P (fs_lines l).
Proof. induction l as [|y l IH]; cbn [fs_lines]; [done|]. unfold fs_line. within_run. Qed.
#[export] Hint Resolve fs_lines_within : go.

(** * Properties *)

(** ** The table of file systems *)

(** A table as [dingo list fs] prints it: rules, a header, and rows. *)
Inductive table_line :=
  | Rule (s : string)
  | Header (s : string)
  | Row (id name status : string) (more : list string).

Definition line_text (l : table_line) : string :=
  match l with
  | Rule s => "+" +:+ s
  | Header s => "| ID" +:+ s
  | Row id name status more => Join (["|"; id; "|"; name; "|"; status] ++ more) " "
  end.

Definition one_line (s : string) : Prop := byte 10 ∉ chars s.
Definition table_ok (l : table_line) : Prop :=
  match l with
  | Rule s | Header s => one_line s
  | Row id name status more =>
      Forall word ([id; name; status] ++ more) ∧ HasPrefix id "ID" = false
  end.

Definition row_name (l : table_line) : option string :=
  match l with Row _ name _ _ => Some name | _ => None end.
Definition row_info (l : table_line) : option FsInfo :=
  match l with Row id name status _ => Some (MkFsInfo (ParseInt id) name status) | _ => None end.

Lemma row_not_header id s :
  word id → HasPrefix id "ID" = false → HasPrefix ("| " +:+ id +:+ " " +:+ s) "| ID" = false.
Proof.
  intros [Hne _] Hid. apply not_true_is_false. intros (t & Ht)%HasPrefix_true.
  destruct id as [|a [|b id]]; [done| |]; cbn in Ht; [by injection Ht|].
  injection Ht as -> -> _. pose proof (HasPrefix_app "ID" id). by cbn in *.
Qed.

Lemma fs_line_table l : table_ok l → fs_line (line_text l) = Ret (row_info l).
Proof.
  destruct l as [s|s|id name status more]; intros Hok; unfold fs_line; cbn [line_text row_info].
  - by rewrite HasPrefix_app.
  - rewrite (HasPrefix_app "| ID"). by rewrite orb_true_r.
  - destruct Hok as [Hw Hid].
    assert (Forall word (["|"; id; "|"; name; "|"; status] ++ more)) as Hall.
    { assert (word "|") by (split; [done|by repeat constructor]).
      rewrite !Forall_app, !Forall_cons in *. by destruct Hw as [(? & ? & ? & ?) ?]. }
    rewrite Fields_Join by done. cbn [app] in *.
    change (Join ("|" :: id :: ?l) " ") with ("| " +:+ id +:+ " " +:+ Join l " ").
    rewrite row_not_header by (done || by inversion_clear Hw).
    cbn [HasPrefix strip_prefix]. cbn. done.
Qed.

Lemma fs_lines_table t :
  Forall table_ok t → fs_lines ((line_text <$> t) ++ [""]) = Ret (omap row_info t).
Proof.
  induction 1 as [|l t Hl _ IH]; [done|]. cbn [fmap list_fmap app fs_lines].
  rewrite (fs_line_table l Hl), IH. cbn [bind]. cbn [omap list_omap]. by destruct (row_info l).
Qed.

Lemma one_line_table l : table_ok l → one_line (line_text l).
Proof.
  unfold one_line. destruct l as [s|s|id name status more]; cbn [table_ok line_text].
  - intros Hs. rewrite chars_append, elem_of_app. intros [H|H]; [|done].
    by apply (bool_decide_unpack (byte 10 ∉ chars "+")).
  - intros Hs. rewrite chars_append, elem_of_app. intros [H|H]; [|done].
    by apply (bool_decide_unpack (byte 10 ∉ chars "| ID")).
  - intros [Hw _]. apply (all_chars_not (λ c, graph c || bool_decide (c = " "%char))); [|done].
    apply all_chars_Join; [|by repeat constructor].
    assert (∀ s, word s → all_chars (λ c, graph c || bool_decide (c = " "%char)) s) as H.
    { intros s [_ Hs]. eapply all_chars_impl; [|exact Hs]. intros c ->. done. }
    assert (all_chars (λ c, graph c || bool_decide (c = " "%char)) "|") by (by repeat constructor).
    rewrite !Forall_app, !Forall_cons in *. destruct Hw as [(? & ? & ? & ?) Hm].
    split_and!; auto. eapply Forall_impl; [exact Hm|]. auto.
Qed.

(** The environment in which every command succeeds with the output [out]. *)
Definition prints (out : string) : env := λ _ Y e,
  match e in event Y return Y → Prop with
  | Exec _ _ _ => λ r, r = (out, None)
  | _ => λ _, True
  end.

(** Whether a file system exists is read correctly off the table that the tool
    prints: for every table of at least two lines the answer is whether a row
    has the name. *)
Theorem CheckFsExisted_table fsName mdsAddr t :
  Forall table_ok t → 2 ≤ length t →
  wp (prints (Join ((line_text <$> t) ++ [""]) newline)) (CheckFsExisted fsName mdsAddr) []
    (λ o _, o = Done (Ok (bool_decide (fsName ∈ omap row_name t)))).
Proof.
  intros Ht Hlen. unfold CheckFsExisted. cbn [call bind wp]. intros r Hr. cbn in Hr. subst r. cbn [fst snd].
  change (String (byte 10) "") with newline. unfold newline. rewrite Split_Join.
  - rewrite decide_False by (rewrite length_app, length_fmap; cbn; lia).
    rewrite fs_lines_table by done. cbn [bind wp]. do 2 f_equal.
    apply Bool.eq_iff_eq_true. rewrite existsb_bool_decide, bool_decide_eq_true.
    setoid_rewrite list_elem_of_omap. split.
    + intros (x & (l & Hl & Hx) & <-). exists l. split; [done|]. by destruct l; simplify_eq/=.
    + intros (l & Hl & Hn). destruct l as [| |id name st more]; simplify_eq/=.
      eexists. split; [by eexists (Row id fsName st more)|done].
  - by destruct t.
  - apply Forall_app. split; [|repeat constructor; set_solver].
    apply Forall_fmap. eapply Forall_impl; [exact Ht|]. apply one_line_table.
Qed.

(** A line of the output that is neither a row nor skipped, with three to five
    fields: the code takes it for a row and indexes past its end. *)
Definition short_line (line : string) : Prop :=
  HasPrefix line "+" = false ∧ HasPrefix line "| ID" = false ∧ line ≠ "" ∧
  3 ≤ length (Fields line) < 6.

Lemma fs_lines_short lines :
  Exists short_line lines → ∃ m, fs_lines lines = Panic m.
Proof.
  intros H. assert (∀ l, (∃ o, fs_line l = Ret o) ∨ ∃ m, fs_line l = Panic m) as Hc.
  { intros l. unfold fs_line. repeat case_match; eauto. }
  induction H as [l lines (H1 & H2 & H3 & H4)|l lines _ [m IH]]; cbn [fs_lines].
  - unfold fs_line. rewrite H1, H2, bool_decide_eq_false_2, decide_False by (done || lia).
    cbn [orb]. destruct (Fields l !! 5%nat) as [s|] eqn:E; [apply lookup_lt_Some in E; lia|].
    destruct (Fields l !! 1%nat), (Fields l !! 3%nat); by eexists.
  - rewrite IH. destruct (Hc l) as [[o ->]|[m' ->]]; by eexists.
Qed.

(** A line of three to five words in the output of the tool, a message among
    the rows for instance, makes the check of the file system panic. *)
Theorem CheckFsExisted_panics fsName mdsAddr out :
  3 ≤ length (Split out newline) → Exists short_line (Split out newline) →
  wp (prints out) (CheckFsExisted fsName mdsAddr) [] (λ o _, ∃ m, o = Panicked m).
Proof.
  intros Hlen Hs. unfold CheckFsExisted. cbn [call bind wp]. intros r Hr. cbn in Hr. subst r.
  cbn [fst snd]. change (String (byte 10) "") with newline. rewrite decide_False by lia.
  destruct (fs_lines_short _ Hs) as [m ->]. by exists m.
Qed.

(** ** Parameters *)

Section tool_facts.
Context `{X : !Ext}.

(** The keys that the parameters of a new file system set. *)
Definition create_keys : list string :=
  ["fstype"; "storagetype"; "s3.endpoint"; "s3.ak"; "s3.sk"; "s3.bucketname";
   "rados.clustername"; "rados.poolname"; "rados.username"; "rados.key"; "rados.mon";
   "volumeName"; "volumeSize"].

Lemma copy_tool_other params k k' ct q :
  q ≠ k' → ToolParams (copy_tool params k k' ct) !! q = ToolParams ct !! q.
Proof. intros Hq. unfold copy_tool, set_tool. case_match; [cbn; by rewrite lookup_insert_ne|done]. Qed.
Lemma copy_quota_tool params k k' ct : ToolParams (copy_quota params k k' ct) = ToolParams ct.
Proof. unfold copy_quota. by case_match. Qed.

Lemma ValidateCreateFsParams_other params ct ct' q :
  ValidateCreateFsParams params ct = Ok ct' → q ∉ create_keys →
  ToolParams ct' !! q = ToolParams ct !! q.
Proof.
  intros H Hq. unfold create_keys in Hq. rewrite !not_elem_of_cons in Hq.
  destruct_and! Hq. revert H. unfold ValidateCreateFsParams.
  set (ct1 := copy_tool _ _ _ _). assert (ToolParams ct1 !! q = ToolParams ct !! q) as <-.
  { unfold ct1. by rewrite !copy_tool_other. }
  clearbody ct1. unfold s3_params, rados_params, volume_params, invalid, result_bind, set_tool.
  repeat case_match; intros; simplify_eq; rewrite !copy_quota_tool; cbn;
    rewrite ?lookup_insert_ne, ?copy_tool_other by done; done.
Qed.

(** The flags of a map are those of its entries, in some order. *)
Lemma flags_perm d m :
  flags d m ≡ₚ (λ kv, d +:+ kv.1 +:+ "=" +:+ kv.2) <$> map_to_list m.
Proof. unfold flags. by rewrite map_range_spec. Qed.
End tool_facts.

(** ** Examples *)

Definition demo_table : list table_line :=
  [Rule "----+"; Header " | NAME | STATUS |"; Rule "----+"; Row "1" "fs1" "NORMAL" ["|"]].

Lemma CheckFsExisted_table_witness :
  Forall table_ok demo_table ∧ 2 ≤ length demo_table ∧
  wp (prints (Join ((line_text <$> demo_table) ++ [""]) newline))
    (CheckFsExisted "fs1" "10.0.0.1:6900") [] (λ o _, o = Done (Ok true)).
Proof.
  assert (Forall table_ok demo_table) as Ht.
  { unfold demo_table. repeat first [apply (bool_decide_unpack _); exact I | constructor]. }
  assert (2 ≤ length demo_table) as Hl by (cbn; lia).
  split; [exact Ht|]. split; [exact Hl|].
  exact (CheckFsExisted_table "fs1" "10.0.0.1:6900" demo_table Ht Hl).
Defined.
