(* ===== verification/PassFd.v ===== *)
(** * PassFd: the table of FUSE descriptors ([src/pkg/fuse/passfd.go])

    The driver keeps the FUSE descriptor of a mount pod so that a new client can
    take it over.  The table maps the hash of a pod to a shared object, whose
    fields the goroutines change under locks: pointers, the fields behind them
    and the locks are events, and [fd_serve] is the memory behind them.  The
    control messages of a socket are what the kernel makes of them: the events
    of [Recvmsg] and [Sendmsg]. *)

From S2P Require Import Prelude GoStrings Objects Effects Util.

Definition sock_name : string := "fuse_fd_csi_comm.sock".

(** [net.Listen] and the rest run with this timeout around the file calls. *)
Definition fd_timeout : Z := 2 * Second.

Section passfd.
Context `{F : !Fuel} (basePath : string).

(** [syscall.CmsgSpace] on a 64-bit machine. *)
Definition CmsgSpace (n : Z) : Z := (16 + (n + 7) / 8 * 8)%Z.

Fixpoint close_all (fds : list Z) : prog unit :=
  match fds with
  | [] => Ret tt
  | fd :: fds => call (CloseDescriptor fd) ;;; close_all fds
  end.

(** The rights of the control messages; an error closes those read so far. *)
Fixpoint read_rights (fds : list Z) (err : option error) (msgs : list (list Z * option error))
    : prog (list Z * option error) :=
  match msgs with
  | [] => Ret (fds, err)
  | (rights, e) :: msgs =>
      let fds := fds ++ rights in
      match e with
      | Some e => close_all fds ;;; Ret ([], Some e)
      | None => read_rights fds None msgs
      end
  end.

(** [getFd] and [putFd]. *)
Definition getFd (conn : Z) (num : Z) : prog (string * list Z * option error) :=
  if (num <? 1)%Z then Ret ("", [], None)
  else
    e <- call (ConnFile conn) ;;
    match e with
    | Some e => Ret ("", [], Some e)
    | None =>
        r <- call (Recvmsg conn (CmsgSpace (num * 4))) ;;
        match r with
        | Err e => Ret ("", [], Some e)
        | Ok (msg, msgs, err) =>
            r <- read_rights [] err msgs ;;
            Ret (msg, r.1, r.2)
        end
    end.

Definition putFd (conn : Z) (msg : string) (fds : list Z) : prog (option error) :=
  if decide (fds = []) then Ret None
  else check call (ConnFile conn) ;; call (Sendmsg conn msg fds).

(** [getFuseFd]: the descriptor a running client gives away, and its setting. *)
Definition getFuseFd (path : string) : prog (Z * string) :=
  exists_ <- DoWithTimeout Background (3 * Second)
    (r <- call (PathExists path) ;;
     Ret match r.2 with Some e => Err e | None => Ok r.1 end) ;;
  match exists_ with
  | Err _ | Ok false => Ret (-1, "")%Z
  | Ok true =>
      conn <- call (Dial path) ;;
      match conn with
      | Err _ => Ret (-1, "")%Z
      | Ok conn =>
          defer (SockClose conn)
            (r <- getFd conn 2 ;;
             let '(msg, fds, err) := r in
             match err with
             | Some _ => Ret (-1, "")%Z
             | None =>
                 match fds with
                 | [] => Panic "index out of range"
                 | fd0 :: fds =>
                     call (CloseDescriptor fd0) ;;;
                     match fds with
                     | fd1 :: _ => putFd conn msg [fd1] ;;; Ret (fd1, msg)
                     | [] => Ret (0, "")%Z
                     end
                 end
             end)
      end
  end.

(** ** Serving *)

Definition remove_socket (c : ctx) (path : string) : prog unit :=
  DoWithTimeout_err c fd_timeout (call (Remove path) ;;; Ret None) ;;; Ret tt.

(** [serveFuseFD]; its two goroutines are [closer] and [acceptor]. *)
Definition serveFuseFD (c : ctx) (podHashVal : string) : prog unit :=
  p <- call (FdsGet podHashVal) ;;
  match p with
  | None => Ret tt
  | Some p =>
      f <- call (FdRead p) ;;
      remove_socket c (fd_serverAddress f) ;;;
      sock <- call (Listen (fd_serverAddress f)) ;;
      match sock with
      | Err _ => Ret tt
      | Ok sock =>
          call (Spawn (TaskFdCloser p sock)) ;;;
          call (Spawn (TaskFdAcceptor podHashVal sock))
      end
  end.

Definition closer (c : ctx) (p : nat) (sock : Z) : prog unit :=
  call (DoneWait p) ;;;
  f <- call (FdRead p) ;;
  call (CloseDescriptor (fd_fuseFd f)) ;;;
  call (SockClose sock) ;;;
  remove_socket c (fd_serverAddress f).

Definition acceptor (podHashVal : string) (sock : Z) : prog unit :=
  loop fuel (λ _ : unit,
    conn <- call (Accept sock) ;;
    match conn with
    | Err e =>
        if Contains (error_text e) "use of closed network connection" then Ret (inr tt)
        else Ret (inl tt)
    | Ok conn => call (Spawn (TaskFdRequest podHashVal conn)) ;;; Ret (inl tt)
    end) tt.

(** What is done with the answer of a client. *)
Definition take_answer (p : nat) (msg : string) (fds : list Z) : prog unit :=
  call (FdLock p) ;;;
  f <- call (FdRead p) ;;
  match fds with
  | fd0 :: _ =>
      if decide (msg ≠ "CLOSE" ∧ (fd_fuseFd f ≤ 0)%Z) then
        call (FdSetFd p fd0) ;;; call (FdSetSetting p msg)
      else close_all fds
  | [] => Ret tt
  end ;;;
  call (FdUnlock p).

(** [handleFDRequest]. *)
Definition handleFDRequest (podHashVal : string) (conn : Z) : prog unit :=
  defer (SockClose conn)
    (p <- call (FdsGet podHashVal) ;;
     match p with
     | None => Ret tt
     | Some p =>
         call (FdLock p) ;;;
         f <- call (FdRead p) ;;
         let fds := if (0 <? fd_fuseFd f)%Z then [0; fd_fuseFd f]%Z else [0%Z] in
         err <- putFd conn (fd_fuseSetting f) fds ;;
         match err with
         | Some _ => call (FdUnlock p)
         | None =>
             f <- call (FdRead p) ;;
             (if (0 <? fd_fuseFd f)%Z then
                call (CloseDescriptor (fd_fuseFd f)) ;;; call (FdSetFd p (-1))
              else Ret tt) ;;;
             call (FdUnlock p) ;;;
             r <- getFd conn 1 ;;
             let '(msg, fds, err) := r in
             match err with
             | Some _ => Ret tt
             | None =>
                 take_answer p msg fds ;;;
                 call FdsLock ;;;
                 call (FdsSet podHashVal p) ;;;
                 call FdsUnlock
             end
         end
     end).

(** ** The operations on the table *)

(** The object of a pod, with a descriptor and a setting. *)
Definition new_fd (podHashVal : string) (fd : Z) (setting : string) : fuse_fd :=
  {| fd_fuseFd := fd; fd_fuseSetting := setting;
     fd_serverAddress := path_Join [basePath; podHashVal; sock_name];
     fd_serverAddressInPod := path_Join [basePath; sock_name];
     fd_closed := false |}.

Definition parseFuse (c : ctx) (podHashVal fusePath : string) : prog unit :=
  r <- getFuseFd fusePath ;;
  let '(fuseFd, fuseSetting) := r in
  if (fuseFd <=? 0)%Z then Ret tt
  else
    p <- call (FdNew (new_fd podHashVal fuseFd fuseSetting)) ;;
    call FdsLock ;;;
    call (FdsSet podHashVal p) ;;;
    call FdsUnlock ;;;
    serveFuseFD c podHashVal.

Definition GetFdAddress (c : ctx) (podHashVal : string) : prog (result string) :=
  p <- call (FdsGet podHashVal) ;;
  match p with
  | Some p => f <- call (FdRead p) ;; Ret (Ok (fd_serverAddressInPod f))
  | None =>
      let addressInPod := path_Join [basePath; sock_name] in
      let parentPath := path_Join [basePath; podHashVal] in
      check? DoWithTimeout_err c fd_timeout
               (r <- call (PathExists parentPath) ;;
                if r.1 : bool then Ret None else call (MkdirAll parentPath 511)) ;;
      call FdsLock ;;;
      p <- call (FdNew (new_fd podHashVal 0 "FUSE")) ;;
      call (FdsSet podHashVal p) ;;;
      call FdsUnlock ;;;
      Ret (Ok addressInPod)
  end.

Definition StopFd (c : ctx) (podHashVal : string) : prog unit :=
  call FdsLock ;;;
  p <- call (FdsGet podHashVal) ;;
  let serverParentPath := path_Join [basePath; podHashVal] in
  match p with
  | None =>
      DoWithTimeout_err c fd_timeout
        (r <- call (Stat serverParentPath) ;;
         match r with
         | Ok _ => call (RemoveAll serverParentPath) ;;; Ret None
         | Err _ => Ret None
         end) ;;;
      call FdsUnlock
  | Some p =>
      ok <- call (DoneClose p) ;;
      if negb ok then Panic "close of closed channel"
      else
        call (FdsDelete podHashVal) ;;;
        DoWithTimeout_err c fd_timeout (call (RemoveAll serverParentPath) ;;; Ret None) ;;;
        call FdsUnlock
  end.

Definition fds_CloseFd (podHashVal : string) : prog unit :=
  call FdsLock ;;;
  p <- call (FdsGet podHashVal) ;;
  match p with
  | None => call FdsUnlock
  | Some p =>
      f <- call (FdRead p) ;;
      call (CloseDescriptor (fd_fuseFd f)) ;;;
      call (FdSetFd p (-1)) ;;;
      call (FdsSet podHashVal p) ;;;
      call FdsUnlock
  end.

Definition ServeFuseFd (c : ctx) (podHashVal : string) : prog (option error) :=
  p <- call (FdsGet podHashVal) ;;
  match p with
  | Some _ => serveFuseFD c podHashVal ;;; Ret None
  | None => Ret (Some (ErrNew ("fuse fd of podHashVal " +:+ podHashVal
                               +:+ " not found in global fuse fds")))
  end.

(** [ParseFuseFds]: the sockets below the directories of the pods. *)
Fixpoint parse_sockets (c : ctx) (dir : string) (subs : list (string * bool)) : prog unit :=
  match subs with
  | [] => Ret tt
  | (name, _) :: subs =>
      (if HasPrefix name "fuse_fd_comm." then parseFuse c dir (path_Join [basePath; dir; name])
       else Ret tt) ;;;
      parse_sockets c dir subs
  end.
Definition ParseFuseFds (c : ctx) : prog (option error) :=
  entries <-! DoWithTimeout c fd_timeout (call (ReadDir basePath)) ;;
  for_each entries (λ entry,
    if negb entry.2 then Ret None
    else
      r <- DoWithTimeout c fd_timeout (call (ReadDir (path_Join [basePath; entry.1]))) ;;
      match r with
      | Err e => Ret (Some (Some e))
      | Ok subs => parse_sockets c entry.1 subs ;;; Ret None
      end) (Ret None).

(** [InitGlobalFds], on the empty table. *)
Definition InitGlobalFds (c : ctx) : prog (option error) := ParseFuseFds c.
End passfd.

(** ** The memory *)

Record FdsState := MkFds {
  st_fds : gmap string nat;
  st_objs : gmap nat fuse_fd;
  st_mu : bool;
  st_fuseMu : gset nat;
  st_next : nat
}.

Definition upd_obj (f : nat) (g : fuse_fd → fuse_fd) (s : FdsState) : FdsState :=
  MkFds (st_fds s) (alter g f (st_objs s)) (st_mu s) (st_fuseMu s) (st_next s).
Definition set_fds (m : gmap string nat) (s : FdsState) : FdsState :=
  MkFds m (st_objs s) (st_mu s) (st_fuseMu s) (st_next s).
Definition set_mu (b : bool) (s : FdsState) : FdsState :=
  MkFds (st_fds s) (st_objs s) b (st_fuseMu s) (st_next s).
Definition set_fuseMu (l : gset nat) (s : FdsState) : FdsState :=
  MkFds (st_fds s) (st_objs s) (st_mu s) l (st_next s).

(** The answer to a call on the table: [None] when the call is not one,
    [Some None] when the goroutine does not go on: it has to wait, or it unlocks
    a mutex that is not locked, which ends the process. *)
Definition fd_serve {X} (e : event X) (s : FdsState) : option (option (X * FdsState)) :=
  match e in event X return option (option (X * FdsState)) with
  | FdsGet h => Some (Some (st_fds s !! h, s))
  | FdsSet h f => Some (Some (tt, set_fds (<[h := f]> (st_fds s)) s))
  | FdsDelete h => Some (Some (tt, set_fds (delete h (st_fds s)) s))
  | FdsLock => Some (if st_mu s then None else Some (tt, set_mu true s))
  | FdsUnlock => Some (if st_mu s then Some (tt, set_mu false s) else None)
  | FdNew f =>
      Some (Some (st_next s, MkFds (st_fds s) (<[st_next s := f]> (st_objs s)) (st_mu s)
                               (st_fuseMu s) (S (st_next s))))
  | FdRead f => Some ((λ o, (o, s)) <$> st_objs s !! f)
  | FdSetFd f d =>
      Some (Some (tt, upd_obj f (λ o, MkFuseFd d (fd_fuseSetting o) (fd_serverAddress o)
                                        (fd_serverAddressInPod o) (fd_closed o)) s))
  | FdSetSetting f m =>
      Some (Some (tt, upd_obj f (λ o, MkFuseFd (fd_fuseFd o) m (fd_serverAddress o)
                                        (fd_serverAddressInPod o) (fd_closed o)) s))
  | FdLock f => Some (if decide (f ∈ st_fuseMu s) then None
                      else Some (tt, set_fuseMu ({[ f ]} ∪ st_fuseMu s) s))
  | FdUnlock f => Some (if decide (f ∈ st_fuseMu s)
                        then Some (tt, set_fuseMu (st_fuseMu s ∖ {[ f ]}) s) else None)
  | DoneClose f =>
      Some ((λ o, (negb (fd_closed o),
                   upd_obj f (λ o, MkFuseFd (fd_fuseFd o) (fd_fuseSetting o) (fd_serverAddress o)
                                     (fd_serverAddressInPod o) true) s)) <$> st_objs s !! f)
  | DoneWait f => Some (if (fd_closed <$> st_objs s !! f) is Some true then Some (tt, s) else None)
  | _ => None
  end.

(** ** Goroutines that share the table *)

Definition fd_pool : Type := FdsState * list (prog unit).

Inductive fd_step : fd_pool → fd_pool → Prop :=
  | fd_step_own i X (e : event X) k x s s' ths :
      ths !! i = Some (Vis e k) → fd_serve e s = Some (Some (x, s')) →
      fd_step (s, ths) (s', <[i := k x]> ths)
  | fd_step_free i X (e : event X) k x s ths :
      ths !! i = Some (Vis e k) → fd_serve e s = None →
      fd_step (s, ths) (s, <[i := k x]> ths).

(** ** One operation at a time *)

(** The weakest precondition of a program that has the table to itself; the other
    calls are answered in any way. *)
Fixpoint fwp {A} (p : prog A) (s : FdsState) (Q : outcome A → FdsState → Prop) : Prop :=
  match p with
  | Ret a => Q (Done a) s
  | Panic m => Q (Panicked m) s
  | OutOfFuel => Q Diverged s
  | Vis e k =>
      match fd_serve e s with
      | Some (Some (x, s')) => fwp (k x) s' Q
      | Some None => False
      | None => ∀ x, fwp (k x) s Q
      end
  end.

Lemma fwp_mono {A} (p : prog A) s (Q Q' : outcome A → FdsState → Prop) :
  (∀ o s', Q o s' → Q' o s') → fwp p s Q → fwp p s Q'.
Proof.
  intros HQ. revert s. induction p as [a|X e k IH|m|]; intros s; cbn; auto.
  destruct (fd_serve e s) as [[[x s']|]|]; eauto.
Qed.

Lemma fwp_bind {A B} (p : prog A) (f : A → prog B) s (Q : outcome B → FdsState → Prop) :
  fwp p s (λ o s', match o with
    | Done a => fwp (f a) s' Q
    | Panicked m => Q (Panicked m) s'
    | Diverged => Q Diverged s' end) →
  fwp (bind p f) s Q.
Proof.
  revert s. induction p as [a|X e k IH|m|]; intros s; cbn; auto.
  destruct (fd_serve e s) as [[[x s']|]|]; auto.
Qed.

(** A program that does not touch the table. *)
Definition off_table : event_pred := λ X e,
  match e with
  | FdsGet _ | FdsSet _ _ | FdsDelete _ | FdsLock | FdsUnlock | FdNew _ | FdRead _ | FdSetFd _ _
  | FdSetSetting _ _ | FdLock _ | FdUnlock _ | DoneClose _ | DoneWait _ => false
  | _ => true
  end.

Lemma off_table_serve X (e : event X) s : off_table X e = true → fd_serve e s = None.
Proof. by destruct e. Qed.

Lemma fwp_off {A} (p : prog A) s : within off_table p → fwp p s (λ _ s', s' = s).
Proof.
  induction p as [a|X e k IH|m|]; cbn; try done. intros [He Hk].
  rewrite off_table_serve by done. auto.
Qed.

Lemma fwp_defer {A Y} (e : event Y) (p : prog A) s (Q : outcome A → FdsState → Prop) :
  off_table Y e = true → fwp p s Q → fwp (defer e p) s Q.
Proof.
  intros He. revert s. induction p as [a|X e' k IH|m|]; intros s; cbn; auto.
  - by rewrite off_table_serve.
  - destruct (fd_serve e' s) as [[[x s']|]|]; auto.
  - by rewrite off_table_serve.
Qed.

(** The entries of the table point to different objects, whose channels are open. *)
Record fds_ok (s : FdsState) : Prop := {
  ok_open h f : st_fds s !! h = Some f → ∃ o, st_objs s !! f = Some o ∧ fd_closed o = false;
  ok_inj h h' f : st_fds s !! h = Some f → st_fds s !! h' = Some f → h = h';
  ok_fresh f : is_Some (st_objs s !! f) → f < st_next s
}.
(** No lock is held. *)
Definition unlocked (s : FdsState) : Prop := st_mu s = false ∧ st_fuseMu s = ∅.

Lemma fds_ok_set_mu b s : fds_ok s → fds_ok (set_mu b s).
Proof. by intros []. Qed.
Lemma fds_ok_set_fuseMu l s : fds_ok s → fds_ok (set_fuseMu l s).
Proof. by intros []. Qed.
Lemma fds_ok_ext s s' :
  fds_ok s → st_fds s' = st_fds s → st_objs s' = st_objs s → st_next s' = st_next s → fds_ok s'.
Proof. intros [H1 H2 H3] E1 E2 E3. split; rewrite ?E1, ?E2, ?E3; done. Qed.

Section facts.
Context `{F : !Fuel} (basePath : string).

(** Changing the descriptor or the setting of an object. *)
Lemma fds_ok_upd f g s :
  (∀ o, fd_closed (g o) = fd_closed o) → fds_ok s → fds_ok (upd_obj f g s).
Proof.
  intros Hg [H1 H2 H3]. split; cbn; try done.
  - intros h f' Hh. destruct (H1 h f' Hh) as (o & Ho & Hc). destruct (decide (f = f')) as [->|Hne].
    + exists (g o). by rewrite lookup_alter_eq, Ho, Hg.
    + exists o. by rewrite lookup_alter_ne.
  - intros f' [o Ho]. apply H3. apply lookup_alter_Some in Ho as [(_ & o' & ? & _)|[_ ?]]; by eexists.
Qed.

(** A new object, entered under a name. *)
Lemma fds_ok_new h o s :
  fd_closed o = false → fds_ok s →
  fds_ok (MkFds (<[h := st_next s]> (st_fds s)) (<[st_next s := o]> (st_objs s)) (st_mu s)
            (st_fuseMu s) (S (st_next s))).
Proof.
  intros Hc [H1 H2 H3].
  assert (∀ h', st_fds s !! h' ≠ Some (st_next s)) as Hn.
  { intros h' Hh'. destruct (H1 _ _ Hh') as (o' & Ho' & _). pose proof (H3 (st_next s) ltac:(by eexists)). lia. }
  split; cbn; try done.
  - intros h' f Hh'. apply lookup_insert_Some in Hh' as [[<- <-]|[Hne Hh']].
    + exists o. by rewrite lookup_insert_eq.
    + destruct (H1 _ _ Hh') as (o' & Ho' & ?). exists o'. rewrite lookup_insert_ne; [done|].
      intros E. subst f. by destruct (Hn h').
  - intros h1 h2 f Hh1%lookup_insert_Some Hh2%lookup_insert_Some.
    destruct Hh1 as [[<- <-]|[? Hh1]], Hh2 as [[<- ?]|[? Hh2]]; try done; subst.
    + by destruct (Hn h2).
    + by destruct (Hn h1).
    + by eapply H2.
  - intros f [o' Ho']. apply lookup_insert_Some in Ho' as [[<- _]|[_ Ho']]; [lia|].
    pose proof (H3 f ltac:(by eexists)). lia.
Qed.

(** Closing the channel of an entry and taking the entry out. *)
Lemma fds_ok_stop h f g s :
  st_fds s !! h = Some f → fds_ok s → fds_ok (set_fds (delete h (st_fds s)) (upd_obj f g s)).
Proof.
  intros Hf [H1 H2 H3]. split; cbn; try done.
  - intros h' f' Hh'. apply lookup_delete_Some in Hh' as [Hne Hh'].
    destruct (H1 _ _ Hh') as (o & Ho & ?). exists o. rewrite lookup_alter_ne; [done|].
    intros <-. apply Hne. by eapply H2.
  - intros h1 h2 f' [_ Hh1]%lookup_delete_Some [_ Hh2]%lookup_delete_Some. by eapply H2.
  - intros f' [o Ho]. apply H3. apply lookup_alter_Some in Ho as [(_ & o' & ? & _)|[_ ?]]; by eexists.
Qed.

(** Entering an object again under its own name. *)
Lemma fds_ok_reset h f s : st_fds s !! h = Some f → fds_ok s → fds_ok (set_fds (<[h := f]> (st_fds s)) s).
Proof. intros Hf Hs. rewrite insert_id by done. by destruct Hs. Qed.

(** An operation with a table of its own. *)
Inductive fd_op :=
  | OpParse (h path : string)
  | OpAddress (h : string)
  | OpStop (h : string)
  | OpClose (h : string)
  | OpServe (h : string)
  | OpRequest (h : string) (conn : Z).
Definition fd_run (c : ctx) (op : fd_op) : prog unit :=
  match op with
  | OpParse h path => parseFuse basePath c h path
  | OpAddress h => GetFdAddress basePath c h ;;; Ret tt
  | OpStop h => StopFd basePath c h
  | OpClose h => fds_CloseFd h
  | OpServe h => ServeFuseFd c h ;;; Ret tt
  | OpRequest h conn => handleFDRequest h conn
  end.

Definition ends_ok (o : outcome unit) (s : FdsState) : Prop := o = Done tt ∧ fds_ok s ∧ unlocked s.

End facts.

(** A program that leaves the table alone and returns. *)
Fixpoint aside {A} (p : prog A) : Prop :=
  match p with
  | Ret _ => True
  | Vis e k => off_table _ e = true ∧ ∀ x, aside (k x)
  | _ => False
  end.

Lemma aside_bind {A B} (p : prog A) (f : A → prog B) :
  aside p → (∀ a, aside (f a)) → aside (bind p f).
Proof. intros Hp Hf. induction p as [a|X e k IH|m|]; cbn in *; [done| |done..]. destruct Hp. auto. Qed.

Lemma fwp_aside {A B} (p : prog A) (f : A → prog B) s (Q : outcome B → FdsState → Prop) :
  aside p → (∀ a, fwp (f a) s Q) → fwp (bind p f) s Q.
Proof.
  intros Hp Hf. induction p as [a|X e k IH|m|]; cbn in *; [done| |done..].
  destruct Hp as [He Hk]. rewrite off_table_serve by done. auto.
Qed.

Ltac aside_run :=
  repeat match goal with
  | |- aside (bind _ _) => apply aside_bind; [|intros ?]
  | |- aside (call _) => split; [reflexivity|intros ?]
  | |- aside (Vis _ _) => split; [reflexivity|intros ?]
  | |- aside (Ret _) => exact I
  | |- aside (match ?x with _ => _ end) => destruct x
  | |- aside _ => progress cbv beta iota zeta
  | |- aside _ => progress autounfold with go
  | |- aside _ => solve [auto with go]
  end.

Lemma close_all_aside l : aside (close_all l).
Proof. induction l; cbn [close_all]; aside_run. Qed.
#[export] Hint Resolve close_all_aside : go.
Lemma read_rights_aside l fds err : aside (read_rights fds err l).
Proof. revert fds err. induction l as [|[r e] l IH]; intros fds err; cbn [read_rights]; aside_run. Qed.
#[export] Hint Resolve read_rights_aside : go.
Lemma getFd_aside conn n : aside (getFd conn n).
Proof. unfold getFd. aside_run. Qed.
Lemma putFd_aside conn m l : aside (putFd conn m l).
Proof. unfold putFd. aside_run. Qed.
Lemma timeout_aside c d (p : prog (option error)) : aside p → aside (DoWithTimeout_err c d p).
Proof. intros Hp. unfold DoWithTimeout_err, DoWithTimeout. aside_run. Qed.
Lemma remove_socket_aside c path : aside (remove_socket c path).
Proof. unfold remove_socket. apply aside_bind; [|done]. apply timeout_aside. aside_run. Qed.

Section ops.
Context `{F : !Fuel} (basePath : string).

(** The next calls on the table. *)
Ltac fstep := cbn [call bind fwp fd_serve fst snd negb fmap option_fmap option_map st_mu st_fuseMu st_fds
  st_objs set_mu set_fds set_fuseMu upd_obj].

Lemma getFuseFd_ok path s : fwp (getFuseFd path) s (λ o s', s' = s ∧ o ≠ Diverged).
Proof.
  unfold getFuseFd. apply fwp_aside; [unfold DoWithTimeout; aside_run|].
  intros [[|]|e]; fstep; [|done|done]. intros [conn|e]; fstep; [|done]. apply fwp_defer; [done|].
  apply fwp_aside; [apply getFd_aside|]. intros [[msg fds] [e|]]; fstep; [done|].
  destruct fds as [|fd0 [|fd1 fds]]; fstep; [done|done|]. intros _.
  apply fwp_aside; [apply putFd_aside|]. done.
Qed.

Lemma serveFuseFD_ok c h s : fds_ok s → unlocked s → fwp (serveFuseFD c h) s ends_ok.
Proof.
  intros Hs Hu. unfold serveFuseFD. fstep. destruct (st_fds s !! h) as [f|] eqn:Hf; fstep; [|done].
  destruct (ok_open _ Hs _ _ Hf) as (o & -> & _). fstep.
  apply fwp_aside; [apply remove_socket_aside|]. intros _. fstep.
  intros [sock|e]; fstep; [intros _ []|]; done.
Qed.

Lemma StopFd_ok c h s : fds_ok s → unlocked s → fwp (StopFd basePath c h) s ends_ok.
Proof.
  intros Hs [Hm Hf]. unfold StopFd. fstep. rewrite Hm. fstep.
  destruct (st_fds s !! h) as [f|] eqn:Hh; fstep.
  - destruct (ok_open _ Hs _ _ Hh) as (o & Ho & Hc). rewrite Ho. fstep. rewrite Hc. fstep.
    apply fwp_aside; [apply timeout_aside; aside_run|]. intros _. fstep. split; [done|]. split; [|done].
    apply (fds_ok_set_mu false), (fds_ok_stop h f _ (set_mu true s)); [done|].
    by apply (fds_ok_set_mu true).
  - apply fwp_aside; [apply timeout_aside; aside_run|]. intros _. fstep. split; [done|]. split; [|done].
    by apply (fds_ok_set_mu false), (fds_ok_set_mu true).
Qed.

Lemma CloseFd_ok h s : fds_ok s → unlocked s → fwp (fds_CloseFd h) s ends_ok.
Proof.
  intros Hs [Hm Hf]. unfold fds_CloseFd. fstep. rewrite Hm. fstep.
  destruct (st_fds s !! h) as [f|] eqn:Hh; fstep.
  - destruct (ok_open _ Hs _ _ Hh) as (o & Ho & Hc). rewrite Ho. fstep. intros _.
    split; [done|]. split; [|done]. apply (fds_ok_set_mu false).
    apply (fds_ok_reset h f (upd_obj f _ (set_mu true s))); [done|].
    by apply fds_ok_upd, (fds_ok_set_mu true).
  - split; [done|]. split; [|done]. by apply (fds_ok_set_mu false), (fds_ok_set_mu true).
Qed.

Lemma parseFuse_ok c h path s :
  fds_ok s → unlocked s → fwp (parseFuse basePath c h path) s (λ o s',
    ends_ok o s' ∨ s' = s ∧ ∃ m, o = Panicked m).
Proof.
  intros Hs Hu. unfold parseFuse. apply fwp_bind. eapply fwp_mono; [|apply getFuseFd_ok].
  intros [[fd set]|m|] s' [-> Ho]; [|right; by eauto|done].
  destruct (fd <=? 0)%Z; fstep; [by left|]. destruct Hu as [Hm Hf]. rewrite Hm. fstep.
  eapply fwp_mono; [|apply serveFuseFD_ok; [|done]]; [by left|].
  eapply fds_ok_ext; [by apply (fds_ok_new h (new_fd basePath h fd set) s)|done..].
Qed.

Lemma GetFdAddress_ok c h s :
  fds_ok s → unlocked s → fwp (GetFdAddress basePath c h ;;; Ret tt) s ends_ok.
Proof.
  intros Hs Hu. apply fwp_bind. unfold GetFdAddress. fstep.
  destruct (st_fds s !! h) as [f|] eqn:Hf; fstep.
  - destruct (ok_open _ Hs _ _ Hf) as (o & -> & _). by fstep.
  - apply fwp_aside; [apply timeout_aside; aside_run|]. intros [e|]; fstep; [done|].
    destruct Hu as [Hm Hfm]. rewrite Hm. fstep. split; [done|]. split; [|done].
    eapply fds_ok_ext; [by apply (fds_ok_new h (new_fd basePath h 0 "FUSE") s)|done..].
Qed.

Lemma take_answer_ok f msg fds s (Q : outcome unit → FdsState → Prop) :
  fds_ok s → unlocked s → is_Some (st_objs s !! f) →
  (∀ s', fds_ok s' → unlocked s' → st_fds s' = st_fds s → Q (Done tt) s') →
  fwp (take_answer f msg fds) s Q.
Proof.
  intros Hs [Hm Hfm] [o Ho] HQ. unfold take_answer. fstep.
  rewrite decide_False by (rewrite Hfm; apply not_elem_of_empty). fstep. rewrite Ho. fstep.
  assert (({[f]} ∪ st_fuseMu s) ∖ {[f]} = ∅) as Hl by (rewrite Hfm, union_empty_r_L; apply difference_diag_L).
  assert (fds_ok (set_fuseMu ({[f]} ∪ st_fuseMu s) s)) as Hs1 by by apply fds_ok_set_fuseMu.
  assert (f ∈ {[f]} ∪ st_fuseMu s) as Hin by set_solver.
  destruct fds as [|fd0 fds]; [|case_decide]; fstep.
  - rewrite decide_True by done. apply HQ; [by apply fds_ok_set_fuseMu|by split|done].
  - rewrite decide_True by done. apply HQ; [|by split|done]. apply fds_ok_set_fuseMu.
    by do 2 (apply fds_ok_upd; [done|]).
  - intros ?. apply fwp_aside; [apply close_all_aside|]. intros ?. fstep. rewrite decide_True by done.
    apply HQ; [by apply fds_ok_set_fuseMu|by split|done].
Qed.

Lemma handleFDRequest_ok h conn s : fds_ok s → unlocked s → fwp (handleFDRequest h conn) s ends_ok.
Proof.
  intros Hs [Hm Hfm]. unfold handleFDRequest. apply fwp_defer; [done|]. fstep.
  destruct (st_fds s !! h) as [f|] eqn:Hf; fstep; [|done].
  destruct (ok_open _ Hs _ _ Hf) as (o & Ho & Hc).
  rewrite decide_False by (rewrite Hfm; apply not_elem_of_empty). fstep. rewrite Ho. fstep.
  assert (({[f]} ∪ st_fuseMu s) ∖ {[f]} = ∅) as Hl by (rewrite Hfm, union_empty_r_L; apply difference_diag_L).
  set (s1 := set_fuseMu _ s). assert (fds_ok s1) as Hs1 by by apply fds_ok_set_fuseMu.
  assert (∀ s2, fds_ok s2 → unlocked s2 → st_fds s2 = st_fds s → is_Some (st_objs s2 !! f) →
    fwp (r <- getFd conn 1 ;;
         let '(msg, fds, err) := r in
         match err with
         | Some _ => Ret tt
         | None => take_answer f msg fds ;;; call FdsLock ;;; call (FdsSet h f) ;;; call FdsUnlock
         end) s2 ends_ok) as Hrest.
  { intros s2 Hs2 Hu2 Hf2 Hi2. apply fwp_aside; [apply getFd_aside|]. intros [[msg fds] [e|]]; fstep; [done|].
    apply fwp_bind, take_answer_ok; [done..|]. intros s3 Hs3 [Hm3 Hfm3] Hf3. fstep. rewrite Hm3. fstep.
    split; [done|]. split; [|done]. apply (fds_ok_set_mu false).
    apply (fds_ok_reset h f (set_mu true s3)); [cbn; congruence|by apply fds_ok_set_mu]. }
  assert (f ∈ {[f]} ∪ st_fuseMu s) as Hin by set_solver.
  apply fwp_aside; [apply putFd_aside|]. intros [e|]; fstep.
  - rewrite decide_True by done. split; [done|]. split; [by apply fds_ok_set_fuseMu|by split].
  - subst s1. fstep. rewrite Ho. fstep.
    destruct (0 <? fd_fuseFd o)%Z; fstep; [intros _|]; fstep; rewrite decide_True by done; apply Hrest; try done.
    + by apply fds_ok_set_fuseMu, fds_ok_upd.
    + cbn. rewrite lookup_alter_eq, Ho. by eexists.
    + by apply fds_ok_set_fuseMu.
Qed.

(** C37: One operation at a time, the table of descriptors is sound: from a table
    whose entries point to different objects with open channels, and with no
    lock held, every operation, whatever sockets, files and clients answer, ends
    in such a table with the locks released, and neither blocks nor panics; only
    reading a descriptor from a running client can panic. *)
Theorem fds_operations_safe c op s :
  fds_ok s → unlocked s →
  fwp (fd_run basePath c op) s (λ o s',
    ends_ok o s' ∨ s' = s ∧ ∃ m h path, o = Panicked m ∧ op = OpParse h path).
Proof.
  intros Hs Hu. assert (∀ p, fwp p s ends_ok → fwp p s (λ o s', ends_ok o s' ∨ s' = s ∧
    ∃ m h path, o = Panicked m ∧ op = OpParse h path)) as Hw.
  { intros p. apply fwp_mono. by left. }
  destruct op as [h path|h|h|h|h|h conn]; cbn [fd_run].
  - eapply fwp_mono; [|by apply parseFuse_ok]. intros o s' [?|(-> & m & ->)]; [by left|].
    right. split; [done|]. by exists m, h, path.
  - by apply Hw, GetFdAddress_ok.
  - by apply Hw, StopFd_ok.
  - by apply Hw, CloseFd_ok.
  - apply Hw. unfold ServeFuseFd. fstep. destruct (st_fds s !! h); fstep; [|done].
    apply fwp_bind, fwp_bind. eapply fwp_mono; [|by apply serveFuseFD_ok]. by intros o s' [-> H].
  - by apply Hw, handleFDRequest_ok.
Qed.

(** ** Defects *)

(** A table with one entry, which holds the descriptor 5. *)
Definition one_entry : FdsState :=
  MkFds {[ "h" := 0%nat ]} {[ 0%nat := MkFuseFd 5 "FUSE" "/tmp/h/s" "/tmp/s" false ]} false ∅ 1.

Lemma one_entry_ok : fds_ok one_entry.
Proof.
  split; cbn; [intros h f [<- <-]%lookup_singleton_Some; eexists; by rewrite lookup_singleton_eq|..].
  - by intros h h' f [<- _]%lookup_singleton_Some [<- _]%lookup_singleton_Some.
  - intros f [o [<- _]%lookup_singleton_Some]. lia.
Qed.

(** A goroutine that runs alone for a while. *)
Inductive fd_go : prog unit * FdsState → prog unit * FdsState → Prop :=
  | go_own X (e : event X) k x s s' :
      fd_serve e s = Some (Some (x, s')) → fd_go (Vis e k, s) (k x, s')
  | go_free X (e : event X) k x s : fd_serve e s = None → fd_go (Vis e k, s) (k x, s).

Lemma fd_go_steps i p s p' s' ths :
  rtc fd_go (p, s) (p', s') → ths !! i = Some p → rtc fd_step (s, ths) (s', <[i := p']> ths).
Proof.
  remember (p, s) as st eqn:E. remember (p', s') as st' eqn:E'. intros Hr.
  revert p s E ths. induction Hr as [st|st1 st2 st3 Hs _ IH]; intros p s -> ths Hi; simplify_eq.
  - rewrite list_insert_id by done. apply rtc_refl.
  - assert (∃ p2 s2, st2 = (p2, s2) ∧ fd_step (s, ths) (s2, <[i := p2]> ths)) as (p2 & s2 & -> & Hst).
    { inversion Hs; simplify_eq; eexists _, _; (split; [done|]);
        [by eapply fd_step_own|by eapply fd_step_free]. }
    eapply rtc_l; [exact Hst|].
    replace (<[i := p']> ths) with (<[i := p']> (<[i := p2]> ths)) by apply list_insert_insert_eq.
    eapply IH; [done|done|]. apply list_lookup_insert_eq, lookup_lt_is_Some_1. by eexists.
Qed.

(** The goroutine may come to a point at which [Q] holds. *)
Definition may (p : prog unit) (s : FdsState) (Q : prog unit → FdsState → Prop) : Prop :=
  ∃ p' s', rtc fd_go (p, s) (p', s') ∧ Q p' s'.

Lemma may_here p s (Q : prog unit → FdsState → Prop) : Q p s → may p s Q.
Proof. intros HQ. exists p, s. split; [apply rtc_refl|done]. Qed.
Lemma may_own {X} (e : event X) k x s s' Q :
  fd_serve e s = Some (Some (x, s')) → may (k x) s' Q → may (Vis e k) s Q.
Proof. intros He (p' & s2 & Hr & HQ). exists p', s2. split; [|done]. eapply rtc_l; [by apply go_own|done]. Qed.
Lemma may_free {X} (e : event X) k x s Q : fd_serve e s = None → may (k x) s Q → may (Vis e k) s Q.
Proof. intros He (p' & s2 & Hr & HQ). exists p', s2. split; [|done]. eapply rtc_l; [by apply go_free|done]. Qed.

(** The next call, which the table answers, and one with a given answer. *)
Ltac own := cbn [call bind defer]; eapply may_own; [cbn [fd_serve fmap option_fmap option_map st_mu st_fuseMu
  st_fds st_objs set_mu set_fds set_fuseMu upd_obj]; try reflexivity|].
Ltac answered x := cbn [call bind defer]; apply (may_free _ _ x); [reflexivity|].

(** What is left of a request once its descriptor is sent: the answer. *)
Definition awaiting (h : string) (conn : Z) (p : nat) : prog unit :=
  defer (SockClose conn)
    (r <- getFd conn 1 ;;
     let '(msg, fds, err) := r in
     match err with
     | Some _ => Ret tt
     | None =>
         take_answer p msg fds ;;; call FdsLock ;;; call (FdsSet h p) ;;; call FdsUnlock
     end).

(** The request of a client, up to the answer. *)
Lemma request_sent h conn s f :
  fds_ok s → unlocked s → st_fds s !! h = Some f →
  may (handleFDRequest h conn) s (λ p s1,
    p = awaiting h conn f ∧ fds_ok s1 ∧ unlocked s1 ∧ st_fds s1 = st_fds s).
Proof.
  intros Hs [Hm Hfm] Hf. destruct (ok_open _ Hs _ _ Hf) as (o & Ho & Hc). unfold handleFDRequest.
  assert (({[f]} ∪ st_fuseMu s) ∖ {[f]} = ∅) as Hl by (rewrite Hfm, union_empty_r_L; apply difference_diag_L).
  assert (f ∈ {[f]} ∪ st_fuseMu s) as Hin by set_solver.
  own. rewrite Hf. own; [by rewrite decide_False by (rewrite Hfm; apply not_elem_of_empty)|].
  own; [by rewrite Ho|]. cbv zeta. set (fds := if (0 <? fd_fuseFd o)%Z then _ else _).
  unfold putFd. rewrite decide_False by (subst fds; by case_match).
  answered (@None error). answered (@None error). own; [by rewrite Ho|]. case_match.
  - answered tt. own. own; [by rewrite decide_True|]. apply may_here. repeat split; try done.
    all: by apply fds_ok_set_fuseMu, fds_ok_upd, fds_ok_set_fuseMu.
  - own; [by rewrite decide_True|]. apply may_here. repeat split; try done.
    all: by do 2 apply fds_ok_set_fuseMu.
Qed.

(** Stopping the pod: its channel is closed and its entry is gone. *)
Lemma stop_runs c h s f :
  fds_ok s → unlocked s → st_fds s !! h = Some f →
  may (StopFd basePath c h) s (λ p s1, p = Ret tt ∧ unlocked s1 ∧ st_fds s1 = delete h (st_fds s) ∧
    fd_closed <$> st_objs s1 !! f = Some true).
Proof.
  intros Hs [Hm Hfm] Hf. destruct (ok_open _ Hs _ _ Hf) as (o & Ho & Hc). unfold StopFd.
  own; [by rewrite Hm|]. own. cbn [st_fds set_mu]. rewrite Hf. cbv zeta. own; [by rewrite Ho|].
  rewrite Hc. own. unfold DoWithTimeout_err, DoWithTimeout. answered RaceDone. answered (@None error). own.
  apply may_here. repeat split; try done. cbn. by rewrite lookup_alter_eq, Ho.
Qed.

(** The answer of the client, a message without a descriptor: the object is
    entered again. *)
Lemma request_answered h conn s f o :
  unlocked s → st_objs s !! f = Some o →
  may (awaiting h conn f) s (λ p s1, p = Ret tt ∧ unlocked s1 ∧ st_fds s1 = <[h := f]> (st_fds s) ∧
    st_objs s1 = st_objs s).
Proof.
  intros [Hm Hfm] Ho. unfold awaiting, getFd.
  assert (({[f]} ∪ st_fuseMu s) ∖ {[f]} = ∅) as Hl by (rewrite Hfm, union_empty_r_L; apply difference_diag_L).
  assert (f ∈ {[f]} ∪ st_fuseMu s) as Hin by set_solver.
  answered (@None error). answered (Ok (A := string * list (list Z * option error) * option error) ("", [], None)).
  cbn [read_rights bind fst snd]. unfold take_answer.
  own; [by rewrite decide_False by (rewrite Hfm; apply not_elem_of_empty)|]. own; [by rewrite Ho|].
  own; [by rewrite decide_True|]. own; [by rewrite Hm|]. own. own. answered tt.
  by apply may_here.
Qed.

(** A stop that finds an entry whose channel is closed. *)
Lemma stop_panics c h s f :
  unlocked s → st_fds s !! h = Some f → fd_closed <$> st_objs s !! f = Some true →
  may (StopFd basePath c h) s (λ p _, p = Panic "close of closed channel").
Proof.
  intros [Hm Hfm] Hf Ho. destruct (st_objs s !! f) as [o|] eqn:Eo; [|done]. cbn in Ho. injection Ho as Hc.
  unfold StopFd. own; [by rewrite Hm|]. own. cbn [st_fds set_mu]. rewrite Hf. cbv zeta. own; [by rewrite Eo|].
  rewrite Hc. by apply may_here.
Qed.

(** A step of a goroutine of the pool, to where it may come. *)
Lemma may_steps i p s Q ths :
  may p s Q → ths !! i = Some p → ∃ p' s', rtc fd_step (s, ths) (s', <[i := p']> ths) ∧ Q p' s'.
Proof. intros (p' & s' & Hr & HQ) Hi. exists p', s'. split; [by eapply fd_go_steps|done]. Qed.

(** C40: For every sound table with no lock held and every pod in it there is an
    interleaving of a request of a client with two stops of the pod that ends
    the driver: the request reads the object; the first stop closes its channel
    and takes the entry out; the answer of the client brings the entry back, to
    the same object with its closed channel; and the second stop panics, closing
    the channel again. *)
Theorem second_stop_panics c h conn s f :
  fds_ok s → unlocked s → st_fds s !! h = Some f →
  ∃ k s1 s2 s3,
    rtc fd_step (s, [handleFDRequest h conn; StopFd basePath c h; StopFd basePath c h])
                (s1, [k; Ret tt; StopFd basePath c h]) ∧ st_fds s1 !! h = None ∧
    rtc fd_step (s1, [k; Ret tt; StopFd basePath c h])
                (s2, [Ret tt; Ret tt; StopFd basePath c h]) ∧
    st_fds s2 !! h = Some f ∧ fd_closed <$> st_objs s2 !! f = Some true ∧
    rtc fd_step (s2, [Ret tt; Ret tt; StopFd basePath c h])
                (s3, [Ret tt; Ret tt; Panic "close of closed channel"]).
Proof.
  intros Hs Hu Hf. set (st := StopFd basePath c h).
  destruct (may_steps 0 _ _ _ [handleFDRequest h conn; st; st] (request_sent h conn s f Hs Hu Hf) eq_refl)
    as (k & s0 & Hr0 & -> & Hs0 & Hu0 & Hf0). rewrite <- Hf0 in Hf.
  destruct (may_steps 1 _ _ _ [awaiting h conn f; st; st] (stop_runs c h s0 f Hs0 Hu0 Hf) eq_refl)
    as (k & s1 & Hr1 & -> & Hu1 & Hf1 & Hc1).
  destruct (st_objs s1 !! f) as [o|] eqn:Ho; [|done].
  destruct (may_steps 0 _ _ _ [awaiting h conn f; Ret tt; st] (request_answered h conn s1 f o Hu1 Ho) eq_refl)
    as (k & s2 & Hr2 & -> & Hu2 & Hf2 & Ho2).
  assert (st_fds s2 !! h = Some f) as Hh2 by by rewrite Hf2, lookup_insert_eq.
  assert (fd_closed <$> st_objs s2 !! f = Some true) as Hc2 by by rewrite Ho2, Ho.
  destruct (may_steps 2 _ _ _ [Ret tt; Ret tt; st] (stop_panics c h s2 f Hu2 Hh2 Hc2) eq_refl)
    as (k & s3 & Hr3 & ->).
  exists (awaiting h conn f), s1, s2, s3. split; [by etransitivity|].
  split; [by rewrite Hf1, lookup_delete_eq|]. done.
Qed.

(** The answer of a client with a message but no descriptor. *)
Definition bare_answer : env := λ _ X e x,
  match e in event X return X → Prop with
  | Race _ _ => λ r, r = RaceDone
  | PathExists _ => λ r, r = (true, None)
  | Dial _ => λ r, is_ok r = true
  | ConnFile _ => λ r, r = None
  | Recvmsg _ _ => λ r, ∃ msg, r = Ok (msg, [], None)
  | _ => λ _, True
  end x.

(** A client that answers with a message but no descriptor ends the driver:
    the first descriptor is used without looking whether there is one. *)
Theorem getFuseFd_panics path :
  wp bare_answer (getFuseFd path) [] (λ o _, o = Panicked "index out of range").
Proof.
  unfold getFuseFd, DoWithTimeout. cbn [call bind wp]. intros r Hr. cbn in Hr. subst r. cbn [call bind wp].
  intros r Hr. cbn in Hr. subst r. cbn [call bind wp fst snd]. intros [conn|e] Hc; [|done].
  apply wp_defer. unfold getFd. cbn [call bind wp]. intros r Hr. cbn in Hr. subst r.
  cbn [call bind wp]. intros r [msg ->]. cbn [read_rights bind wp]. done.
Qed.
End ops.

(** ** Examples *)

Lemma fds_operations_safe_witness :
  fwp (fd_run "/tmp" Background (OpStop "h")) one_entry (λ o s',
    ends_ok o s' ∨ s' = one_entry ∧ ∃ m h path, o = Panicked m ∧ OpStop "h" = OpParse h path).
Proof. apply (fds_operations_safe "/tmp" Background (OpStop "h") one_entry one_entry_ok). done. Defined.

Lemma second_stop_panics_witness : ∃ k s1 s2 s3,
  rtc fd_step (one_entry, [handleFDRequest "h" 7; StopFd "/tmp" Background "h"; StopFd "/tmp" Background "h"])
              (s1, [k; Ret tt; StopFd "/tmp" Background "h"]) ∧ st_fds s1 !! "h" = None ∧
  rtc fd_step (s1, [k; Ret tt; StopFd "/tmp" Background "h"])
              (s2, [Ret tt; Ret tt; StopFd "/tmp" Background "h"]) ∧
  st_fds s2 !! "h" = Some 0 ∧ fd_closed <$> st_objs s2 !! 0 = Some true ∧
  rtc fd_step (s2, [Ret tt; Ret tt; StopFd "/tmp" Background "h"])
              (s3, [Ret tt; Ret tt; Panic "close of closed channel"]).
Proof.
  apply (second_stop_panics "/tmp" Background "h" 7 one_entry 0); [exact one_entry_ok|done|reflexivity].
Defined.
