(* ===== verification/K8sClient.v ===== *)
(** * K8sClient: the driver's wrapper of the Kubernetes client

    [src/pkg/k8sclient/client.go].  Each method adds its nil checks, its
    selectors and, for pods, the metrics service to the raw call, which is an
    event.  Logging is left out.  A nil object is [None]. *)

From S2P Require Import Prelude GoStrings GoHash GoNum Objects Effects Config Setting.

Section client.
Context `{!Globals}.

Definition nodePortMin : Z := 31000.
Definition nodePortMax : Z := 31999.
Definition defaultMetric : Z := 9000.
Definition SvcUniqueIdLabelKey : string := "service-uniqueid".
Definition hostname_label : string := "kubernetes.io/hostname".

(** ** Node ports *)

(** [generateNodePort]: the first two bytes of the hash, folded into the range. *)
Definition generateNodePort (podName : string) : Z :=
  match sha256_bytes podName with
  | b0 :: b1 :: _ =>
      let port := (Z.shiftl b0 8 + b1)%Z in
      (nodePortMin + Z.rem port (nodePortMax - nodePortMin))%Z
  | _ => nodePortMin
  end.

Definition isPortAvailable (port : Z) : prog bool := call (PortFree port).

(** [NewClient]: the client, by whether its lists come from the cache of the API
    server.  Two numbers of the environment limit the rate of its requests, and
    one that cannot be read fails the call.  [InClusterConfig] answers with a
    configuration or an error, so that the test for nil after it never holds. *)
Definition client_timeout : Z := (10 * Second)%Z.
Definition env_number (name : string) : prog (result (option Z)) :=
  v <- call (Getenv name) ;;
  if decide (v = "") then Ret (Ok None)
  else
    v <- call (Getenv name) ;;
    Ret match Atoi v with Ok k => Ok (Some k) | Err e => Err e end.
Definition NewClient : prog (result bool) :=
  _ <-? call InClusterConfig ;;
  qps <-? env_number "KUBE_QPS" ;;
  burst <-? env_number "KUBE_BURST" ;;
  check? call (NewForConfig (MkRestConfig client_timeout qps burst)) ;;
  cache <- call (Getenv "ENABLE_APISERVER_LIST_CACHE") ;;
  Ret (Ok (bool_decide (cache = "true"))).

(** The 100 random tries of [findAvailableNodePort]; [klog.Fatalf] ends the
    process. *)
Fixpoint random_ports (n : nat) : prog Z :=
  match n with
  | O => Panic "Failed to find an available NodePort after 100 attempts"
  | S n =>
      i <- call (RandIntn (nodePortMax - nodePortMin)) ;;
      let port := (nodePortMin + i)%Z in
      ok <- isPortAvailable port ;;
      if ok : bool then Ret port else random_ports n
  end.

Definition findAvailableNodePort (basePort : Z) : prog Z :=
  ok <- isPortAvailable basePort ;;
  if ok : bool then Ret basePort else random_ports 100.

(** ** Services *)

(** The name under which the metrics service of a mount pod is created and
    deleted. *)
Definition service_name (nodeName uniqueId : string) : string :=
  nodeName +:+ "-" +:+ uniqueId +:+ "-metrics".

(** [createSerivce]. *)
Definition createSerivce (nodeName namespace podName : string) (metricPort : Z)
    : prog (result Service) :=
  uniqueId <- last_n 6 podName ;;
  call (ServiceCreate
    {| svc_Name := service_name nodeName uniqueId;
       svc_Namespace := namespace;
       svc_Labels := {[ SvcUniqueIdLabelKey := uniqueId ]};
       svc_Port := defaultMetric; svc_TargetPort := defaultMetric;
       svc_NodePort := wrap_s 32 metricPort;
       svc_Selector := {[ "pod-uniqueid" := uniqueId ]} |}).

(** [DeleteService]. *)
Definition DeleteService (svcName namespace : string) : prog (option error) :=
  call (ServiceDelete svcName namespace).

(** ** Pods *)

(** [CreatePod]: the pod, then a service on a free node port; a failure of the
    service is only logged. *)
Definition CreatePod (pod : option Pod) : prog (result (option Pod)) :=
  match pod with
  | None => Ret (Ok None)
  | Some pod =>
      mntPod <-? call (PodCreate pod) ;;
      metricPort <- findAvailableNodePort (generateNodePort (pod_Name pod)) ;;
      createSerivce (m_get (spec_NodeSelector (pod_Spec pod)) hostname_label)
        (pod_Namespace pod) (pod_Name pod) metricPort ;;;
      Ret (Ok (Some mntPod))
  end.

(** [GetPod]. *)
Definition GetPod (c : ctx) (podName namespace : string) : prog (result Pod) :=
  call (PodGet c podName namespace).

(** [ListPod]. *)
Definition ListPod (namespace : string) (sel : option LabelSelector) (fields : option smap)
    : prog (result (list Pod)) :=
  call (PodList namespace sel fields enableAPIServerListCache).

(** [ListNode]. *)
Definition ListNode (sel : option LabelSelector) : prog (result (list Node)) :=
  call (NodeList sel).

(** [GetPodLog]. *)
Definition GetPodLog (podName namespace container : string) : prog (result string) :=
  call (PodLogs podName namespace container).

(** [PatchPod]. *)
Definition PatchPod (pod : option Pod) (body : patch) : prog (option error) :=
  match pod with
  | None => Ret None
  | Some pod => call (PodPatch (pod_Name pod) (pod_Namespace pod) body)
  end.

(** [UpdatePod]. *)
Definition UpdatePod (pod : option Pod) : prog (option error) :=
  match pod with None => Ret None | Some pod => call (PodUpdate pod) end.

(** [DeletePod]. *)
Definition DeletePod (pod : option Pod) : prog (option error) :=
  match pod with
  | None => Ret None
  | Some pod => call (PodDelete (pod_Name pod) (pod_Namespace pod))
  end.

(** [ExecuteInContainer], with [execute]; the command runs with the
    configuration of the cluster, read again. *)
Definition ExecuteInContainer (podName namespace container : string) (cmd : list string)
    : prog (string * string * option error) :=
  cfg <- call InClusterConfig ;;
  match cfg with
  | Err e => Ret ("", "", Some e)
  | Ok _ =>
      r <- call (PodExec podName namespace container cmd) ;;
      let '(sout, serr, err) := r in
      Ret (TrimSpace sout, TrimSpace serr, err)
  end.

(** ** Secrets *)

Definition GetSecret (secretName namespace : string) : prog (result Secret) :=
  call (SecretGet secretName namespace).
Definition CreateSecret (secret : option Secret) : prog (result (option Secret)) :=
  match secret with
  | None => Ret (Ok None)
  | Some s => s <-? call (SecretCreate s) ;; Ret (Ok (Some s))
  end.
Definition UpdateSecret (secret : option Secret) : prog (option error) :=
  match secret with None => Ret None | Some s => call (SecretUpdate s) end.
Definition DeleteSecret (secretName namespace : string) : prog (option error) :=
  call (SecretDelete secretName namespace).
Definition PatchSecret (secret : option Secret) (body : patch) : prog (option error) :=
  match secret with
  | None => Ret None
  | Some s => call (SecretPatch (sec_Name s) (sec_Namespace s) body)
  end.

(** ** Jobs *)

Definition GetJob (c : ctx) (jobName namespace : string) : prog (result Job) :=
  call (JobGet c jobName namespace).
Definition CreateJob (job : option Job) : prog (result (option Job)) :=
  match job with
  | None => Ret (Ok None)
  | Some j => j <-? call (JobCreate j) ;; Ret (Ok (Some j))
  end.
Definition UpdateJob (job : option Job) : prog (option error) :=
  match job with None => Ret None | Some j => call (JobUpdate j) end.
Definition DeleteJob (jobName namespace : string) : prog (option error) :=
  call (JobDelete jobName namespace).

(** ** Volumes and storage classes *)

Definition GetPersistentVolume (pvName : string) : prog (result PersistentVolume) :=
  call (PVGet pvName).
(** Every caller lists without selectors. *)
Definition ListPersistentVolumes : prog (result (list PersistentVolume)) := call PVList.
Definition ListPersistentVolumesByVolumeHandle (volumeHandle : string)
    : prog (result (list PersistentVolume)) :=
  pvs <-? ListPersistentVolumes ;;
  Ret (Ok (filter (λ pv, csi_VolumeHandle <$> pv_CSI pv = Some volumeHandle) pvs)).
Definition ListStorageClasses : prog (result (list StorageClass)) := call SCList.
Definition GetPersistentVolumeClaim (pvcName namespace : string)
    : prog (result PersistentVolumeClaim) := call (PVCGet pvcName namespace).
Definition GetStorageClass (scName : string) : prog (result StorageClass) := call (SCGet scName).

(** [GetReplicaSet], [GetStatefulSet] and [GetDaemonSet]: the callers only look
    at the error. *)
Definition GetReplicaSet (name namespace : string) : prog (option error) :=
  call (OwnerGet "ReplicaSet" name namespace).
Definition GetStatefulSet (name namespace : string) : prog (option error) :=
  call (OwnerGet "StatefulSet" name namespace).
Definition GetDaemonSet (name namespace : string) : prog (result PodSpec) :=
  call (DaemonSetGet name namespace).
End client.

(** The methods that are one call are seen through by [autounfold with go]. *)
#[export] Hint Unfold NewClient env_number isPortAvailable DeleteService GetPod ListPod ListNode GetPodLog PatchPod
  UpdatePod DeletePod GetSecret CreateSecret UpdateSecret DeleteSecret PatchSecret GetJob CreateJob
  UpdateJob DeleteJob GetPersistentVolume ListPersistentVolumes GetPersistentVolumeClaim
  GetStorageClass : go.

(** ** Node ports stay in the range *)

Definition node_port (p : Z) : Prop := (nodePortMin ≤ p < nodePortMax)%Z.

Lemma generateNodePort_range podName : node_port (generateNodePort podName).
Proof.
  unfold generateNodePort, node_port, nodePortMin, nodePortMax.
  pose proof (sha256_bytes_range podName) as Hr.
  pose proof (sha256_bytes_length podName) as Hl.
  destruct (sha256_bytes podName) as [|b0 [|b1 l]]; try done.
  apply Forall_cons in Hr as [H0 [H1 _]%Forall_cons].
  rewrite Z.shiftl_mul_pow2 by lia.
  pose proof (Z.rem_bound_pos (b0 * 2 ^ 8 + b1) (31999 - 31000)). lia.
Qed.

(** [rand.Intn(n)] is in [0, n). *)
Definition rand_env : env := λ _ X e x,
  match e in event X return X → Prop with
  | RandIntn n => λ x, (0 ≤ x < n)%Z
  | _ => λ _, True
  end x.

(** The last port that was probed was free and is [p]. *)
Definition probed_free (p : Z) (tr : trace) : Prop :=
  ∃ tr', tr = Call (PortFree p) true :: tr'.

Lemma random_ports_ok n tr :
  wp rand_env (random_ports n) tr (λ o tr',
    match o with Done p => node_port p ∧ probed_free p tr' | _ => True end).
Proof.
  revert tr. induction n as [|n IH]; intros tr; simpl; [done|].
  intros i Hi [|] _; simpl.
  - split; [|by eexists]. unfold node_port, nodePortMin, nodePortMax in *. lia.
  - apply IH.
Qed.

(** The node port of a metrics service is in the driver's range, 31000 to
    31998, and is a port that was free when it was probed, for every pod name
    and every outcome of the probes. *)
Theorem findAvailableNodePort_ok podName :
  wp rand_env (findAvailableNodePort (generateNodePort podName)) [] (λ o tr,
    match o with Done p => node_port p ∧ probed_free p tr | _ => True end).
Proof.
  cbn [findAvailableNodePort isPortAvailable call bind wp]. intros [|] _; cbn [wp].
  - split; [apply generateNodePort_range|by eexists].
  - apply random_ports_ok.
Qed.

Fixpoint probes (tr : trace) : nat :=
  match tr with
  | Call (PortFree _) _ :: tr => S (probes tr)
  | _ :: tr => probes tr
  | [] => 0
  end.

Lemma random_ports_probes n tr :
  wp any_env (random_ports n) tr (λ o tr', o ≠ Diverged ∧ probes tr' ≤ probes tr + n).
Proof.
  revert tr. induction n as [|n IH]; intros tr; simpl; [split; [done|lia]|].
  intros i _ [|] _; simpl; [split; [done|lia]|].
  eapply wp_mono; [|apply IH]. simpl. intros ?? [??]. split; [done|lia].
Qed.

(** The search for a node port ends: it probes at most 101 ports, and then
    returns a port or aborts the process. *)
Theorem findAvailableNodePort_probes basePort :
  wp any_env (findAvailableNodePort basePort) [] (λ o tr, o ≠ Diverged ∧ probes tr ≤ 101).
Proof.
  cbn [findAvailableNodePort isPortAvailable call bind wp].
  intros [|] _; cbn [wp probes]; [split; [done|lia]|].
  eapply wp_mono; [|apply random_ports_probes]. simpl. intros ?? [??]. split; [done|lia].
Qed.
