(* ===== verification/Resource.v ===== *)
(** * Resource: pods, jobs, volumes and namespaces seen through the client

    [src/pkg/util/resource]: pod.go, job.go, volume.go, namespace.go, pvc.go. *)

From S2P Require Import Prelude GoStrings GoHash GoTime GoNum Objects Effects Config Demo Setting.
From S2P Require Import Util K8sClient.
From Stdlib Require Import Ascii.

(** ** The state of a pod *)

(** [IsPodReady]: exactly two true conditions of the two types. *)
Definition IsPodReady (pod : Pod) : bool :=
  bool_decide (length (filter (λ c, pc_Status c = "True" ∧
      (pc_Type c = "ContainersReady" ∨ pc_Type c = "Ready")) (ps_Conditions (pod_Status pod))) = 2).

(** [containError]. *)
Definition containError (statuses : list ContainerStatus) : bool :=
  existsb (λ s,
    match cs_Waiting s with Some r => bool_decide (r ≠ "ContainerCreating") | None => false end
    || match cs_Terminated s with Some (code, _) => bool_decide (code ≠ 0%Z) | None => false end)
    statuses.

(** [IsPodError]. *)
Definition IsPodError (pod : Pod) : bool :=
  bool_decide (ps_Phase (pod_Status pod) = "Failed" ∨ ps_Phase (pod_Status pod) = "Unknown")
  || containError (ps_ContainerStatuses (pod_Status pod)).

(** [IsPodResourceError]. *)
Definition IsPodResourceError (pod : Pod) : bool :=
  let st := pod_Status pod in
  bool_decide (ps_Phase st = "Failed")
  && (Contains (ps_Reason st) "OutOf"
      || bool_decide (ps_Reason st = "UnexpectedAdmissionError")
         && Contains (ps_Message st) "to reclaim resources")
  || existsb (λ c,
       bool_decide (pc_Status c = "False" ∧ pc_Type c = "PodScheduled" ∧
                    pc_Reason c = "Unschedulable")
       && (Contains (pc_Message c) "Insufficient cpu"
           || Contains (pc_Message c) "Insufficient memory"))
       (ps_Conditions st).

(** [DeleteResourceOfPod]. *)
Definition DeleteResourceOfPod (pod : Pod) : Pod :=
  upd_spec (λ s, set_spec_Containers
    (set_cn_Resources empty_resources <$> spec_Containers s) s) pod.

(** [IsPodHasResource]. *)
Definition IsPodHasResource (pod : Pod) : bool :=
  existsb (λ cn, bool_decide (res_Requests (cn_Resources cn) ≠ ∅))
    (spec_Containers (pod_Spec pod)).

(** [GetAllRefKeys]: the annotations whose key is the reference key of their
    value. *)
Definition GetAllRefKeys (pod : Pod) : smap :=
  filter (λ kv, kv.1 = GetReferenceKey kv.2) (annotations pod).

(** [parseMntPath] and [GetMountPathOfPod]. *)
Definition parseMntPath (cmd : string) : prog (result (string * string)) :=
  let mountCmd := default "" (last (Split cmd (String (byte 10) ""))) in
  match Fields mountCmd with
  | [] => Ret (Err (ErrNew ("invalid command: " +:+ cmd)))
  | a0 :: rest =>
      let args := if decide (a0 = "exec") then rest else a0 :: rest in
      match last args with
      | None => Panic "index out of range"
      | Some arg =>
          let mountArg := Trim arg "'" in
          if negb (HasPrefix mountArg config.PodMountBase)
          then Ret (Err (ErrNew ("invalid mountArg:" +:+ mountArg)))
          else match Split mountArg "/" with
               | _ :: _ :: volumeId :: _ => Ret (Ok (mountArg, volumeId))
               | _ => match args !! 2%nat with
                      | Some a2 => Ret (Err (ErrNew ("err mntPath:" +:+ a2)))
                      | None => Panic "index out of range"
                      end
               end
      end
  end.

Definition GetMountPathOfPod (pod : Pod) : prog (result (string * string)) :=
  match spec_Containers (pod_Spec pod) with
  | [] => Ret (Err (ErrNew ("pod " +:+ pod_Name pod +:+ " has no container")))
  | c :: _ =>
      match cn_Command c with
      | _ :: _ :: cmd :: _ => parseMntPath cmd
      | cmd => Ret (Err (ErrNew ("get error pod command:" +:+ fmt_strings cmd)))
      end
  end.

(** ** Jobs *)

Definition job_condition (typ : string) (job : Job) : bool :=
  existsb (λ c, bool_decide (jc_Status c = "True" ∧ jc_Type c = typ)) (job_Conditions job).
Definition IsJobCompleted (job : Job) : bool := job_condition "Complete" job.
Definition IsJobFailed (job : Job) : bool := job_condition "Failed" job.

(** [IsJobShouldBeRecycled] at the instant [now]; a duration is 64 bits wide. *)
Definition job_recyclable (now : Z) (job : Job) : bool :=
  if negb (IsJobCompleted job) && negb (IsJobFailed job) then false
  else match job_TTLSecondsAfterFinished job with
       | None => true
       | Some ttl =>
           match job_CompletionTime job with
           | None => false
           | Some t => (t + i64 (ttl * Second) <? now)%Z
           end
       end.
Definition IsJobShouldBeRecycled (job : Job) : prog bool :=
  if negb (IsJobCompleted job) && negb (IsJobFailed job) then Ret false
  else match job_TTLSecondsAfterFinished job, job_CompletionTime job with
       | None, _ => Ret true
       | Some _, None => Ret false
       | Some _, Some _ => now <- call Now ;; Ret (job_recyclable now job)
       end.

Section resource.
Context `{!Globals, !Ext, !Fuel}.

(** ** Patches of a pod *)

(** [RemoveFinalizer]: every occurrence is taken out of the list. *)
Definition RemoveFinalizer (pod : Pod) (finalizer : string) : prog (option error) :=
  PatchPod (Some pod)
    (JSONPatch [ReplaceList "/metadata/finalizers"
                  (filter (λ f, f ≠ finalizer) (pod_Finalizers pod))]).

Definition AddPodLabel (pod : Pod) (addLabels : smap) : prog (option error) :=
  PatchPod (Some pod) (MergeLabels addLabels).
Definition AddPodAnnotation (pod : Pod) (addAnnotations : smap) : prog (option error) :=
  PatchPod (Some pod) (MergeAnnotations addAnnotations).

(** [DelPodAnnotation]: one JSON patch operation per key. *)
Definition annotation_path (k : string) : string := "/metadata/annotations/" +:+ k.
Definition DelPodAnnotation (pod : Pod) (keys : list string) : prog (option error) :=
  PatchPod (Some pod) (JSONPatch ((λ k, RemovePath (annotation_path k)) <$> keys)).
Definition ReplacePodAnnotation (pod : Pod) (annotation : smap) : prog (option error) :=
  PatchPod (Some pod) (JSONPatch [ReplaceMap "/metadata/annotations" annotation]).

(** ** Waiting for the mount *)

(** One round of the loop of [WaitUtilMountReady]: [Some] leaves the loop. *)
Definition mount_ready_round (podName mntPath : string) (waitCtx : ctx) (timeout : Z)
    : prog (option (option error)) :=
  fi <- DoWithTimeout waitCtx timeout (call (Stat mntPath)) ;;
  match fi with
  | Err (ErrCtx _) =>
      Ret (Some (Some (ErrNew ("mount point is not ready eventually, mountpod: " +:+ podName))))
  | Err e =>
      r <- (if Contains (error_text e) "transport endpoint is not connected"
            then umount_until_gone mntPath else Ret None) ;;
      match r with
      | Some e => Ret (Some (Some e))
      | None => call (Sleep (500 * Millisecond)) ;;; Ret None
      end
  | Ok fi =>
      if decide (fi_Ino fi = 1%Z) then
        DevMinorTableStore mntPath (fi_Dev fi) ;;; Ret (Some None)
      else call (Sleep (500 * Millisecond)) ;;; Ret None
  end.

(** [WaitUtilMountReady]. *)
Definition WaitUtilMountReady (c : ctx) (podName mntPath : string) (timeout : Z)
    : prog (option error) :=
  let waitCtx := WithTimeout c (60 * Second) in
  loop fuel (λ _ : unit,
    r <- mount_ready_round podName mntPath waitCtx timeout ;;
    Ret match r with Some e => inr e | None => inl tt end) tt.

(** ** Delayed deletion *)

(** [ShouldDelay]. *)
Definition ShouldDelay (pod : Pod) : prog (result bool) :=
  match annotations pod !! config.DeleteDelayTimeKey with
  | None => Ret (Ok false)
  | Some delayStr =>
      match annotations pod !! config.DeleteDelayAtKey with
      | None =>
          d <- GetTimeAfterDelay delayStr ;;
          match d with
          | Err _ => Ret (Ok false)
          | Ok d =>
              r <- AddPodAnnotation pod {[ config.DeleteDelayAtKey := d ]} ;;
              match r with
              | Some e => Ret (Err e)
              | None => Ret (Ok true)
              end
          end
      | Some delayAtStr =>
          match GetTime delayAtStr with
          | Err _ => Ret (Ok false)
          | Ok delayAt => now <- call Now ;; Ret (Ok (now <? delayAt)%Z)
          end
      end
  end.

(** ** Volumes of pods *)

Definition claims (pod : Pod) : list string :=
  omap (λ v, match vol_Source v with PVCSource c _ => Some c | _ => None end)
    (spec_Volumes (pod_Spec pod)).

Definition is_driver_pv (pv : PersistentVolume) : bool :=
  bool_decide (csi_Driver <$> pv_CSI pv = Some DriverName).

(** [GetPVWithVolumeHandleOrAppInfo] (the client is never nil here). *)
Definition GetPVWithVolumeHandleOrAppInfo (volumeHandle : string) (volCtx : smap)
    : prog (result (PersistentVolume * PersistentVolumeClaim)) :=
  r <- GetPersistentVolume volumeHandle ;;
  match r with
  | Err e =>
      if IsNotFound e then
        let ns := m_get volCtx config.PodInfoNamespace in
        appPod <-? GetPod Request (m_get volCtx config.PodInfoName) ns ;;
        for_each (claims appPod) (λ claim,
          pvc <- GetPersistentVolumeClaim claim ns ;;
          match pvc with
          | Err e => Ret (Some (Err e))
          | Ok pvc =>
              if decide (pvc_VolumeName pvc = "") then Ret None
              else
                pv <- GetPersistentVolume (pvc_VolumeName pvc) ;;
                match pv with
                | Err e => Ret (Some (Err e))
                | Ok pv =>
                    if is_driver_pv pv
                       && bool_decide (csi_VolumeHandle <$> pv_CSI pv = Some volumeHandle)
                    then Ret (Some (Ok (pv, pvc))) else Ret None
                end
          end)
          (Ret (Err (ErrNew ("pv not found by volumeHandle " +:+ volumeHandle))))
      else Ret (Err e)
  | Ok pv =>
      match pv_ClaimRef pv with
      | None => Panic "nil pointer dereference"
      | Some (name, ns) =>
          pvc <-? GetPersistentVolumeClaim name ns ;; Ret (Ok (pv, pvc))
      end
  end.

(** [GetErrContainerLog]. *)
Definition GetErrContainerLog (podName : string) : prog (result string) :=
  pod <-? GetPod Request podName Namespace ;;
  let st := pod_Status pod in
  match list_find (λ cn, cs_Ready cn = false)
          (ps_InitContainerStatuses st ++ ps_ContainerStatuses st) with
  | Some (_, cn) => GetPodLog (pod_Name pod) (pod_Namespace pod) (cs_Name cn)
  | None => Ret (Ok "")
  end.

(** ** Names of mount pods *)

(** [GenPodNameByUniqueId]. *)
Definition GenPodNameByUniqueId (uniqueId : string) (withRandom : bool) : prog string :=
  if withRandom then
    r <- RandStringRunes 6 ;;
    Ret ("dingofs-" +:+ NodeName +:+ "-" +:+ uniqueId +:+ "-" +:+ r)
  else Ret ("dingofs-" +:+ NodeName +:+ "-" +:+ uniqueId).

(** The mount pods of a setting. *)
Definition mount_pod_selector (s : DfsSetting) : LabelSelector :=
  {| ls_MatchLabels := {[ config.PodTypeKey := config.PodTypeValue;
                          config.PodVolumeIdLabelKey := s_UniqueId s;
                          config.PodHashLabelKey := s_HashVal s ]};
     ls_MatchExpressions := [] |}.

Definition on_this_node (pod : Pod) : bool :=
  bool_decide (spec_NodeName (pod_Spec pod) = NodeName)
  || bool_decide (m_get (spec_NodeSelector (pod_Spec pod)) hostname_label = NodeName).

Definition reusable (pod : Pod) : bool :=
  bool_decide (pod_DeletionTimestamp pod = None) && on_this_node pod.

(** [GenMountPodName]: the name of the first live pod of the setting on this
    node, or a fresh name. *)
Definition GenMountPodName (s : DfsSetting) : prog (result string) :=
  pods <-? ListPod Namespace (Some (mount_pod_selector s)) None ;;
  match list_find (λ p, reusable p = true) pods with
  | Some (_, p) => Ret (Ok (pod_Name p))
  | None => name <- GenPodNameByUniqueId (s_UniqueId s) true ;; Ret (Ok name)
  end.

(** [SetMountLabel]. *)
Definition SetMountLabel (podName podNamespace : string) : prog (option error) :=
  pod <-! GetPod Background podName podNamespace ;;
  AddPodLabel pod {[ config.UniqueId := "" ]}.

(** [SetFSIDAnnotation]. *)
Definition SetFSIDAnnotation (podName fsid : string) : prog (option error) :=
  pod <-! GetPod Background podName Namespace ;;
  AddPodAnnotation pod {[ config.DingoFSID := fsid ]}.

(** ** Secrets *)

(** The owner references of an existing secret after the merge. *)
Definition merge_owner (old new : list OwnerReference) : list OwnerReference :=
  match new with
  | [] => old
  | o :: _ => if existsb (λ r, bool_decide (or_UID r = or_UID o)) old then old else old ++ [o]
  end.

(** One attempt of [CreateOrUpdateSecret]. *)
Definition create_or_update_secret (secret : Secret) : prog (option error) :=
  old <- GetSecret (sec_Name secret) Namespace ;;
  match old with
  | Err e =>
      if IsNotFound e then r <- CreateSecret (Some secret) ;; Ret (result_err r)
      else Ret (Some e)
  | Ok old =>
      UpdateSecret (Some (set_sec_OwnerReferences
        (merge_owner (sec_OwnerReferences old) (sec_OwnerReferences secret))
        (set_sec_StringData (sec_StringData secret) (set_sec_Data None old))))
  end.
Definition CreateOrUpdateSecret (secret : Secret) : prog (option error) :=
  RetryOnConflict (create_or_update_secret secret).

(** ** Namespaces ([namespace.go]) *)

(** [checkOwner]: the first owner of a known kind decides. *)
Fixpoint checkOwner (owner : list OwnerReference) (namespace : string) : prog (option error) :=
  match owner with
  | [] => Ret (Some (ErrNew "no owner found"))
  | o :: owner =>
      if decide (or_Kind o = "ReplicaSet") then GetReplicaSet (or_Name o) namespace
      else if decide (or_Kind o = "StatefulSet") then GetStatefulSet (or_Name o) namespace
      else if decide (or_Kind o = "DaemonSet") then
        ds <- GetDaemonSet (or_Name o) namespace ;; Ret (result_err ds)
      else if decide (or_Kind o = "Job") then
        r <- GetJob Request (or_Name o) namespace ;; Ret (result_err r)
      else checkOwner owner namespace
  end.

(** [GetNamespace]. *)
Definition GetNamespace (pod : Pod) : prog (result string) :=
  if decide (pod_Namespace pod ≠ "") then Ret (Ok (pod_Namespace pod))
  else if decide (pod_OwnerReferences pod = []) then Ret (Ok "default")
  else
    pvs <-? ListPersistentVolumes ;;
    let refs := omap (λ pv, if is_driver_pv pv then pv_ClaimRef pv else None) pvs in
    let pairs := claim ← claims pod; ref ← refs;
                 if decide (ref.1 = claim) then [ref.2] else [] in
    for_each pairs (λ ns,
      r <- checkOwner (pod_OwnerReferences pod) ns ;;
      match r with
      | Some e => if IsNotFound e then Ret None else Ret (Some (Err e))
      | None => Ret (Some (Ok ns))
      end) (Ret (Ok "")).

(** ** Volumes ([volume.go]) *)

(** One claim of [getVol]: an error that ends the loop, or the pair the claim
    contributes with the value the named result [err] is left at.  A storage
    class that does not exist leaves it set, and only the read of the volume
    clears it. *)
Definition getVol_claim (namespace claim : string)
    : prog (result (option (PersistentVolume * PersistentVolumeClaim) * option error)) :=
  pvc <-? GetPersistentVolumeClaim claim namespace ;;
  sc <-?
    match pvc_StorageClassName pvc with
    | None => Ret (Ok (false, None))
    | Some scn =>
        if decide (scn = "") then Ret (Ok (false, None))
        else
          sc <- GetStorageClass scn ;;
          match sc with
          | Err e => if IsNotFound e then Ret (Ok (false, Some e)) else Ret (Err e)
          | Ok sc => Ret (Ok (bool_decide (sc_Provisioner sc = DriverName), None))
          end
    end ;;
  let '(used, err) := sc in
  if decide (pvc_VolumeName pvc = "") then
    if used : bool then Ret (Err (ErrNew ("pvc " +:+ pvc_Name pvc +:+ " is not bound")))
    else Ret (Ok (None, err))
  else
    pv <-? GetPersistentVolume (pvc_VolumeName pvc) ;;
    Ret (Ok (if is_driver_pv pv then Some (pv, pvc) else None, None)).

(** [getVol], over the claims of the pod: the pairs and the error it returns. *)
Fixpoint getVol_loop (namespace : string) (cl : list string)
    (pairs : list (PersistentVolume * PersistentVolumeClaim)) (err : option error)
    : prog (list (PersistentVolume * PersistentVolumeClaim) * option error) :=
  match cl with
  | [] => Ret (pairs, err)
  | c :: cl =>
      r <- getVol_claim namespace c ;;
      match r with
      | Err e => Ret (pairs, Some e)
      | Ok (p, err) =>
          getVol_loop namespace cl (match p with Some p => pairs ++ [p] | None => pairs end) err
      end
  end.
Definition getVol (pod : Pod) (namespace : string)
    : prog (list (PersistentVolume * PersistentVolumeClaim) * option error) :=
  getVol_loop namespace (claims pod) [] None.

(** [GetVolumes]: the pod with its namespace filled in, whether it uses volumes
    of the driver, these volumes, and the error. *)
Definition GetVolumes (pod : Pod)
    : prog (Pod * bool * list (PersistentVolume * PersistentVolumeClaim) * option error) :=
  namespace <- GetNamespace pod ;;
  match namespace with
  | Err e => Ret (pod, false, [], Some e)
  | Ok namespace =>
      let pod := set_pod_Namespace namespace pod in
      r <- getVol pod namespace ;;
      Ret (pod, bool_decide (r.1 ≠ []), r.1, r.2)
  end.

(** ** Persistent volumes ([pvc.go]) *)

Definition csi_attr (pv : PersistentVolume) (key : string) : prog string :=
  match pv_CSI pv with
  | Some csi => Ret (m_get (csi_VolumeAttributes csi) key)
  | None => Panic "nil pointer dereference"
  end.

Definition other_volume (volume pv : PersistentVolume) : bool :=
  negb (bool_decide (pv_Name pv = pv_Name volume)
        || bool_decide (pv_DeletionTimestamp pv ≠ None)
        || bool_decide (pv_StorageClassName pv ≠ pv_StorageClassName volume)).

(** [CheckForSubPath]: whether no other live volume of the class uses the
    subdirectory of [volume]. *)
Definition CheckForSubPath (volume : PersistentVolume) (pathPattern : string)
    : prog (result bool) :=
  if decide (pathPattern = "") then Ret (Ok true)
  else
    nowSubPath <- csi_attr volume "subPath" ;;
    if decide (pv_StorageClassName volume = "") then Ret (Ok false)
    else
      pvs <-? ListPersistentVolumes ;;
      for_each pvs (λ pv,
        if other_volume volume pv then
          subPath <- csi_attr pv "subPath" ;;
          if decide (subPath = nowSubPath) then Ret (Some (Ok false)) else Ret None
        else Ret None) (Ret (Ok true)).

(** [CheckForSecretFinalizer]. *)
Definition CheckForSecretFinalizer (volume : PersistentVolume) : prog (result bool) :=
  ns <- csi_attr volume config.ProvisionerSecretNamespace ;;
  name <- csi_attr volume config.ProvisionerSecretName ;;
  if decide (pv_StorageClassName volume = "" ∨ ns = "" ∨ name = "") then Ret (Ok false)
  else
    pvs <-? ListPersistentVolumes ;;
    for_each pvs (λ pv,
      if other_volume volume pv then
        ns' <- csi_attr pv config.ProvisionerSecretNamespace ;;
        name' <- csi_attr pv config.ProvisionerSecretName ;;
        if decide (ns = ns' ∧ name = name') then Ret (Some (Ok false)) else Ret None
      else Ret None) (Ret (Ok true)).

(** [patchSecretFinalizer], [AddSecretFinalizer] and [RemoveSecretFinalizer]. *)
Definition patchSecretFinalizer (secret : Secret) : prog (option error) :=
  PatchSecret (Some secret)
    (JSONPatch [ReplaceList "/metadata/finalizers" (sec_Finalizers secret)]).
Definition AddSecretFinalizer (secret : Secret) (finalizer : string) : prog (option error) :=
  if decide (finalizer ∈ sec_Finalizers secret) then Ret None
  else patchSecretFinalizer
         (set_sec_Finalizers (AddFinalizer (sec_Finalizers secret) finalizer) secret).
Definition RemoveSecretFinalizer (secret : Secret) (finalizer : string) : prog (option error) :=
  if decide (finalizer ∈ sec_Finalizers secret) then
    patchSecretFinalizer
      (set_sec_Finalizers (filter (λ f, f ≠ finalizer) (sec_Finalizers secret)) secret)
  else Ret None.
End resource.

(** ** Volume locks ([VolumeLocks]) *)

Definition VolumeLocks := gset string.
Definition TryAcquire (vl : VolumeLocks) (volumeID : string) : bool * VolumeLocks :=
  if decide (volumeID ∈ vl) then (false, vl) else (true, {[ volumeID ]} ∪ vl).
Definition Release (vl : VolumeLocks) (volumeID : string) : VolumeLocks := vl ∖ {[ volumeID ]}.

(** * Properties *)

(** ** Removing annotations by JSON pointer *)

(** The reference tokens of a JSON pointer (RFC 6901). *)
Definition pointer_unescape (t : string) : string := ReplaceAll (ReplaceAll t "~1" "/") "~0" "~".
Definition pointer_tokens (path : string) : option (list string) :=
  match Split path "/" with
  | "" :: l => Some (pointer_unescape <$> l)
  | _ => None
  end.

Lemma pointer_unescape_id t : "~"%char ∉ chars t → pointer_unescape t = t.
Proof.
  intros H. unfold pointer_unescape.
  assert (∀ d, Contains t (String "~" (String d "")) = false) as Hc.
  { intros d. apply not_true_is_false. intros (a & r & ->)%Contains_true. apply H.
    rewrite !chars_append. simpl. set_solver. }
  rewrite (ReplaceAll_id t "~1"), (ReplaceAll_id t "~0"); try done; apply Hc.
Qed.

Lemma pointer_tokens_annotation k :
  "/"%char ∉ chars k → "~"%char ∉ chars k →
  pointer_tokens (annotation_path k) = Some ["metadata"; "annotations"; k].
Proof.
  intros H1 H2. unfold pointer_tokens, annotation_path.
  assert (Split ("/metadata/annotations/" +:+ k) "/" = [""; "metadata"; "annotations"; k]) as ->.
  { change ("/metadata/annotations/" +:+ k) with (Join [""; "metadata"; "annotations"; k] "/").
    apply Split_Join; [done|].
    rewrite !Forall_cons. split_and!; [| | |done|done]; apply (bool_decide_unpack _); done. }
  rewrite !fmap_cons, fmap_nil, (pointer_unescape_id k) by done. reflexivity.
Qed.

(** The JSON patch that drops the reference of a target names exactly the
    annotation of that reference: the key needs no escape in a JSON pointer,
    and has the 63 characters Kubernetes allows. *)
Theorem reference_pointer_exact target :
  pointer_tokens (annotation_path (GetReferenceKey target))
    = Some ["metadata"; "annotations"; GetReferenceKey target] ∧
  len (GetReferenceKey target) = 63 ∧
  pointer_tokens (annotation_path config.DeleteDelayAtKey)
    = Some ["metadata"; "annotations"; config.DeleteDelayAtKey].
Proof.
  split_and!.
  - apply pointer_tokens_annotation; apply GetReferenceKey_no_special; set_solver.
  - destruct (GetReferenceKey_shape target) as (h & -> & Hh & _). by rewrite len_append, Hh.
  - reflexivity.
Qed.

(** ** Jobs *)

(** Whether a job is recycled, with its time to live a 32-bit number: when
    it is finished and has no time to live, or has completed longer ago than
    it; the product with a second does not overflow. *)
Theorem IsJobShouldBeRecycled_spec job now off :
  (∀ t, job_TTLSecondsAfterFinished job = Some t → - 2 ^ 31 ≤ t < 2 ^ 31)%Z →
  wp (clock_env now off) (IsJobShouldBeRecycled job) [] (λ o _,
    ∃ b, o = Done b ∧ (b = true ↔
      (IsJobCompleted job = true ∨ IsJobFailed job = true) ∧
      match job_TTLSecondsAfterFinished job, job_CompletionTime job with
      | None, _ => True
      | Some _, None => False
      | Some ttl, Some t => (t + ttl * Second < now)%Z
      end)).
Proof.
  intros Httl. unfold IsJobShouldBeRecycled, job_recyclable.
  destruct (IsJobCompleted job || IsJobFailed job) eqn:E; rewrite <-negb_orb, E; simpl.
  - apply orb_true_iff in E.
    destruct (job_TTLSecondsAfterFinished job) as [ttl|]; [|by eexists; split; [done|]].
    destruct (job_CompletionTime job) as [t|]; simpl; [|by eexists; split; [done|naive_solver]].
    intros ? ->. eexists. split; [done|]. rewrite wrap_s_id, Z.ltb_lt; [naive_solver|lia|].
    unfold Second. specialize (Httl _ eq_refl). lia.
  - apply orb_false_iff in E as [-> ->]. eexists. split; [done|]. naive_solver.
Qed.

Section resource_facts.
Context {G : Globals} {X : Ext} {F : Fuel}.

(** ** Delayed deletion *)

(** C34: Deferring the deletion of a mount pod with a delay.  The first call
    stamps the pod with the time at which the delay ends and answers "wait";
    a later call on the pod with that stamp answers "wait" exactly until then,
    seconds cut off and displaced by the offset of the local zone. *)
Theorem ShouldDelay_two_phase pod delayStr delay now off now' off' :
  annotations pod !! config.DeleteDelayTimeKey = Some delayStr →
  annotations pod !! config.DeleteDelayAtKey = None →
  ParseDuration delayStr = Ok delay →
  (0 ≤ year_of off (now + delay) < 10000)%Z →
  wp (clock_env now off) (ShouldDelay pod) [] (λ o tr,
    ∃ at' r tr', tr = Call (PodPatch (pod_Name pod) (pod_Namespace pod)
                         (MergeAnnotations {[ config.DeleteDelayAtKey := at' ]})) r :: tr' ∧
      o = Done match r with None => Ok true | Some e => Err e end ∧
      ∀ pod', annotations pod' !! config.DeleteDelayTimeKey = Some delayStr →
        annotations pod' !! config.DeleteDelayAtKey = Some at' →
        wp (clock_env now' off') (ShouldDelay pod') [] (λ o _,
          o = Done (Ok (bool_decide (now' < ((now + delay) / Second + off) * Second))%Z))).
Proof.
  intros H1 H2 Hd Hy. unfold ShouldDelay. rewrite H1, H2. unfold GetTimeAfterDelay. rewrite Hd.
  simpl. intros ? -> ? -> r _. destruct r as [e|]; simpl.
  all: eexists _, _, _; split; [done|]; split; [done|].
  all: intros pod' H1' H2'; rewrite H1', H2'; unfold GetTime;
    rewrite time_Parse_Format by done; simpl; intros ? ->; do 2 f_equal.
  all: destruct (Z.ltb_spec now' (((now + delay) / Second + off) * Second));
    [by rewrite bool_decide_eq_true_2|by rewrite bool_decide_eq_false_2 by lia].
Qed.

(** ** The volumes of a pod *)

Lemma getVol_claim_returns E namespace claim tr :
  wp E (getVol_claim namespace claim) tr (λ o _, ∃ r, o = Done r).
Proof.
  unfold getVol_claim. autounfold with go. cbn [call bind wp]. intros [pvc|e] _; [|by eexists].
  assert (∀ (x : bool * option error) tr, wp E (let '(used, err) := x in
    if decide (pvc_VolumeName pvc = "") then
      if used : bool then Ret (Err (ErrNew ("pvc " +:+ pvc_Name pvc +:+ " is not bound")))
      else Ret (Ok (None, err))
    else pv <-? call (PVGet (pvc_VolumeName pvc)) ;;
      Ret (Ok (if is_driver_pv pv then Some (pv, pvc) else None, None))) tr
    (λ o _, ∃ r, o = Done r)) as Hrest.
  { intros [used err] tr'. case_decide; [by destruct used; eexists|]. cbn [call bind wp].
    intros [pv|e] _; by eexists. }
  destruct (pvc_StorageClassName pvc) as [scn|]; [|apply (Hrest (false, None))].
  destruct (decide (scn = "")); [apply (Hrest (false, None))|]. cbn [call bind wp].
  intros [sc|e] _; [apply (Hrest (_, None))|].
  destruct (IsNotFound e); [apply (Hrest (false, Some e))|by eexists].
Qed.

(** The claim [claim] is [pvc], and its storage class does not exist. *)
Definition missing_class (claim : string) (pvc : PersistentVolumeClaim) (e : error) : env :=
  λ _ Y ev x, match ev in event Y return Y → Prop with
  | PVCGet n _ => λ r, n = claim → r = Ok pvc
  | SCGet n => λ r, Some n = pvc_StorageClassName pvc → r = Err e
  | _ => λ _, True
  end x.

(** A claim that is not bound and names a storage class that does not exist
    makes the search for the volumes of a pod fail with "not found" when it is
    the last one, although the code means to go on: the error of the storage
    class stays in the named result. *)
Theorem getVol_keeps_error pod namespace cls claim pvc scn e :
  claims pod = cls ++ [claim] → pvc_StorageClassName pvc = Some scn → scn ≠ "" →
  pvc_VolumeName pvc = "" → IsNotFound e = true →
  wp (missing_class claim pvc e) (getVol pod namespace) []
    (λ o _, ∃ pairs err, o = Done (pairs, Some err)).
Proof.
  intros Hc Hscn Hne Hv He. unfold getVol. rewrite Hc. clear Hc.
  generalize (@nil (PersistentVolume * PersistentVolumeClaim)), (@None error), (@nil call_rec).
  induction cls as [|c cls IH]; intros pairs err tr; cbn [app getVol_loop]; apply wp_bind.
  - unfold getVol_claim. autounfold with go. cbn [call bind wp].
    intros r Hr. rewrite (Hr eq_refl). cbn [bind]. rewrite Hscn, decide_False by done.
    cbn [call bind wp]. intros r' Hr'. rewrite (Hr' (eq_sym Hscn)), He. cbn [bind].
    rewrite decide_True by done. cbn [wp getVol_loop]. eauto.
  - eapply wp_mono; [|apply getVol_claim_returns]. intros o tr' [[[p err']|e'] ->]; [apply IH|].
    cbn [wp]. eauto.
Qed.

(** ** Sharing of sub paths *)

Definition uses_subpath (volume pv : PersistentVolume) : Prop :=
  other_volume volume pv = true ∧
  ∃ c c', pv_CSI volume = Some c ∧ pv_CSI pv = Some c' ∧
    m_get (csi_VolumeAttributes c') "subPath" = m_get (csi_VolumeAttributes c) "subPath".

Lemma CheckForSubPath_ok volume pathPattern tr :
  pathPattern ≠ "" →
  wp any_env (CheckForSubPath volume pathPattern) tr (λ o tr',
    match o with
    | Done (Ok true) => ∃ pvs, tr' = Call PVList (Ok pvs) :: tr ∧
        Forall (λ pv, ¬ uses_subpath volume pv) pvs
    | Done (Ok false) => pv_StorageClassName volume = "" ∨
        ∃ pvs, tr' = Call PVList (Ok pvs) :: tr ∧ Exists (uses_subpath volume) pvs
    | _ => True
    end).
Proof.
  intros Hp. unfold CheckForSubPath, csi_attr. rewrite decide_False by done.
  destruct (pv_CSI volume) as [c|] eqn:Ec; simpl; [|done].
  destruct (decide (pv_StorageClassName volume = "")); simpl; [by left|].
  intros [pvs|e] _; [|done].
  set (tr0 := Call PVList (Ok pvs) :: tr).
  apply (wp_for_each _ (λ l tr1, tr1 = tr0 ∧ ∃ l0, pvs = l0 ++ l ∧
           Forall (λ pv, ¬ uses_subpath volume pv) l0)).
  - split; [done|]. by exists [].
  - intros pv l tr1 (-> & l0 & -> & Hl0).
    assert (¬ uses_subpath volume pv → ∃ l1, l0 ++ pv :: l = l1 ++ l ∧
              Forall (λ pv, ¬ uses_subpath volume pv) l1) as Hnext.
    { intros Hn. exists (l0 ++ [pv]). rewrite <-app_assoc. split; [done|].
      apply Forall_app. split; [done|]. by apply Forall_singleton. }
    destruct (other_volume volume pv) eqn:Ho; simpl.
    + destruct (pv_CSI pv) as [c'|] eqn:Ec'; simpl; [|done].
      case_decide as Hs; simpl.
      * right. eexists. split; [done|]. apply Exists_app. right. left.
        split; [done|]. eauto.
      * split; [done|]. apply Hnext. intros (_ & x & x' & Hx & Hx' & Heq). congruence.
    + split; [done|]. apply Hnext. intros [? _]. congruence.
  - intros tr1 (-> & l0 & -> & Hl0). cbn [wp]. eexists. split; [done|]. by rewrite app_nil_r.
Qed.

(** The data of a volume is declared deletable only when the list of
    volumes just read has no other live volume of the same class on the same
    sub path; it is kept because of one only when there is one. *)
Theorem CheckForSubPath_safe volume pathPattern :
  pathPattern ≠ "" →
  wp any_env (CheckForSubPath volume pathPattern) [] (λ o tr,
    match o with
    | Done (Ok true) => ∃ pvs tr', tr = Call PVList (Ok pvs) :: tr' ∧
        Forall (λ pv, ¬ uses_subpath volume pv) pvs
    | Done (Ok false) => pv_StorageClassName volume = "" ∨
        ∃ pvs tr', tr = Call PVList (Ok pvs) :: tr' ∧ Exists (uses_subpath volume) pvs
    | _ => True
    end).
Proof.
  intros Hp. eapply wp_mono; [|by apply CheckForSubPath_ok]. intros [[[|]|e]|m|] tr H; try done.
  - destruct H as (pvs & -> & H). by exists pvs, [].
  - destruct H as [H|(pvs & -> & H)]; [by left|]. right. by exists pvs, [].
Qed.

(** ** Secrets *)

Lemma merge_owner_spec old new :
  (∀ r, r ∈ old → r ∈ merge_owner old new) ∧
  (∀ r o l, new = o :: l → r ∈ merge_owner old new → r ∈ old ∨ r = o) ∧
  (∀ o l, new = o :: l → Exists (λ r, or_UID r = or_UID o) (merge_owner old new)) ∧
  (NoDup (or_UID <$> old) → NoDup (or_UID <$> merge_owner old new)).
Proof.
  unfold merge_owner. destruct new as [|o l]; [naive_solver|].
  destruct (existsb _ old) eqn:E.
  - apply existsb_bool_decide in E as (x & Hx & Hu). split_and!; [naive_solver|set_solver| |done].
    intros ? ? [= -> ->]. apply Exists_exists. eauto.
  - assert (or_UID o ∉ (or_UID <$> old)) as Hn.
    { intros (w & Hw & Hin)%list_elem_of_fmap. apply not_true_iff_false in E. apply E.
      apply existsb_bool_decide. by exists w. }
    split_and!.
    + set_solver.
    + intros r ? ? [= <- <-]. set_solver.
    + intros ? ? [= <- <-]. apply Exists_app. right. by left.
    + intros Hnd. rewrite fmap_app, NoDup_app. split_and!; [done| |apply NoDup_singleton].
      set_solver.
Qed.

(** Writing the secret of a volume: after the read there is exactly one
    write.  A secret that is absent is created as given; one that exists keeps
    all its owners and gains the new one unless its UID is there already, and
    its data is replaced. *)
Theorem create_or_update_secret_spec secret :
  wp any_env (create_or_update_secret secret) [] (λ o tr,
    match tr with
    | [Call (SecretCreate s') _; Call (SecretGet n ns) (Err e)] =>
        s' = secret ∧ n = sec_Name secret ∧ ns = Namespace ∧ IsNotFound e = true
    | [Call (SecretUpdate s') r; Call (SecretGet n ns) (Ok old)] =>
        n = sec_Name secret ∧ o = Done r ∧ sec_StringData s' = sec_StringData secret ∧
        sec_Name s' = sec_Name old ∧
        (∀ r, r ∈ sec_OwnerReferences old → r ∈ sec_OwnerReferences s') ∧
        (∀ o l, sec_OwnerReferences secret = o :: l →
           Exists (λ r, or_UID r = or_UID o) (sec_OwnerReferences s')) ∧
        (NoDup (or_UID <$> sec_OwnerReferences old) →
         NoDup (or_UID <$> sec_OwnerReferences s'))
    | [Call (SecretGet n ns) (Err e)] => o = Done (Some e) ∧ IsNotFound e = false
    | _ => False
    end).
Proof.
  unfold create_or_update_secret. simpl. intros [old|e] _.
  - simpl. intros r _. pose proof (merge_owner_spec (sec_OwnerReferences old)
      (sec_OwnerReferences secret)) as (H1 & _ & H2 & H3). by split_and!.
  - destruct (IsNotFound e) eqn:E; simpl; [|done]. intros [s|e'] _; simpl; by split_and!.
Qed.

(** ** Names of mount pods *)

Definition is_lower (c : ascii) : bool := bool_decide (c ∈ chars letterRunes).

Lemma RandStringRunes_ok n tr :
  wp rand_env (RandStringRunes n) tr (λ o tr',
    ∃ s new, o = Done s ∧ len s = n ∧ all_chars is_lower s ∧ tr' = new ++ tr).
Proof.
  revert tr. induction n as [|n IH]; intros tr; cbn [RandStringRunes call bind wp].
  - exists "", []. split_and!; try done. apply all_chars_nil.
  - intros i Hi. change (0 ≤ i < 26)%Z in Hi. apply wp_bind. eapply wp_mono; [|apply IH].
    intros o tr' (s & new & -> & Hlen & Hs & ->).
    destruct (lookup_lt_is_Some_2 (chars letterRunes) (Z.to_nat i)) as [c Hc].
    { change (length (chars letterRunes)) with 26. lia. }
    rewrite Hc. cbn [wp]. exists (String c s), (new ++ [Call (RandIntn 26) i]).
    split_and!; [done|by rewrite len_cons, Hlen| |by rewrite <-app_assoc].
    apply all_chars_cons. split; [|done]. unfold is_lower. apply bool_decide_eq_true_2.
    by eapply list_elem_of_lookup_2.
Qed.

(** A mount pod is shared only with a pod the API server just listed for
    the same volume and hash, that is not being deleted and that is on this
    node; otherwise the name is new, with a suffix of six lower-case letters. *)
Theorem GenMountPodName_ok s :
  wp rand_env (GenMountPodName s) [] (λ o tr,
    match o with
    | Done (Ok name) => ∃ pods,
        In (Call (PodList Namespace (Some (mount_pod_selector s)) None
                    enableAPIServerListCache) (Ok pods)) tr ∧
        ((∃ p, p ∈ pods ∧ reusable p = true ∧ name = pod_Name p) ∨
         (Forall (λ p, reusable p = false) pods ∧
          ∃ r, name = "dingofs-" +:+ NodeName +:+ "-" +:+ s_UniqueId s +:+ "-" +:+ r ∧
            len r = 6 ∧ all_chars is_lower r))
    | Done (Err _) => True
    | _ => False
    end).
Proof.
  unfold GenMountPodName, ListPod. cbn [call bind wp]. intros [pods|e] _; [|done].
  destruct (list_find _ pods) as [[i p]|] eqn:E.
  - apply list_find_Some in E as (Hi & Hp & _). cbn [wp]. exists pods. split; [by left|].
    left. exists p. split_and!; [by eapply list_elem_of_lookup_2|done..].
  - apply wp_bind. unfold GenPodNameByUniqueId. apply wp_bind.
    eapply wp_mono; [|apply RandStringRunes_ok].
    intros o tr (r & new & -> & Hlen & Hr & ->). cbn [wp]. exists pods. split.
    { apply in_or_app. right. by left. }
    right. split; [|by exists r]. apply list_find_None in E.
    eapply Forall_impl; [exact E|]. intros p Hp. by apply not_true_is_false.
Qed.

(** The suffix keeps the slice expressions on the name within bounds. *)
Lemma last_n_ok n s : n ≤ len s → ∃ t, last_n n s = Ret t ∧ len t = n ∧ ∃ p, s = p +:+ t.
Proof.
  intros Hn. unfold last_n. rewrite decide_True by done. eexists. split; [done|]. split.
  - rewrite len_drop_s. lia.
  - exists (take_s (len s - n) s). by rewrite take_drop_s.
Qed.
End resource_facts.

(** ** Volume locks *)

(** The callers of [VolumeLocks]: who holds which volume.  A caller releases
    what it acquired. *)
Definition lock_state : Type := VolumeLocks * gset (nat * string).

Inductive lock_step : lock_state → lock_state → Prop :=
  | step_acquired c v l l' h :
      TryAcquire l v = (true, l') → lock_step (l, h) (l', {[ (c, v) ]} ∪ h)
  | step_refused v l l' h :
      TryAcquire l v = (false, l') → lock_step (l, h) (l', h)
  | step_released c v l h :
      (c, v) ∈ h → lock_step (l, h) (Release l v, h ∖ {[ (c, v) ]}).

Definition lock_inv (st : lock_state) : Prop :=
  (∀ v, v ∈ st.1 ↔ ∃ c, (c, v) ∈ st.2) ∧
  (∀ c c' v, (c, v) ∈ st.2 → (c', v) ∈ st.2 → c = c').

Lemma lock_step_inv st st' : lock_step st st' → lock_inv st → lock_inv st'.
Proof.
  intros Hs [H1 H2]. destruct Hs as [c v l l' h E|v l l' h E|c v l h Hin]; simpl in *.
  - unfold TryAcquire in E. destruct (decide (v ∈ l)) as [|Hv]; [done|].
    injection E as <-. split; simpl.
    + intros w. rewrite elem_of_union, elem_of_singleton, H1. split.
      * intros [-> |(c' & ?)]; [exists c; set_solver|exists c'; set_solver].
      * intros (c' & Hc'). apply elem_of_union in Hc' as [Hc'|Hc']; [set_solver|]. right. eauto.
    + intros a b w. rewrite !elem_of_union, !elem_of_singleton.
      intros [Ha|Ha] [Hb|Hb]; simplify_eq; [done| | |by eapply H2];
        destruct Hv; apply H1; eauto.
  - unfold TryAcquire in E. destruct (decide (v ∈ l)); by simplify_eq.
  - split; simpl.
    + intros w. unfold Release. rewrite elem_of_difference, elem_of_singleton, H1. split.
      * intros [(c' & Hc') Hw]. exists c'. set_solver.
      * intros (c' & [Hc' Hne]%elem_of_difference). split; [by exists c'|]. intros ->.
        apply Hne. rewrite (H2 c' c v) by done. set_solver.
    + intros a b w [Ha _]%elem_of_difference [Hb _]%elem_of_difference. by eapply H2.
Qed.

(** Volume locks exclude each other: in every state the callers can reach
    from no locks at all, a volume is held by at most one caller, and it is
    marked exactly when it is held. *)
Theorem VolumeLocks_exclusive st :
  rtc lock_step (∅, ∅) st → lock_inv st.
Proof.
  intros Hr. assert (lock_inv (∅, ∅)) as H0 by (split; set_solver).
  remember (∅, ∅) as st0 eqn:E0. clear E0. revert H0.
  induction Hr as [|a b c Hs Hr IH]; [done|]. intros Ha. apply IH. by eapply lock_step_inv.
Qed.

(** ** Examples *)

Section resource_examples.
#[local] Existing Instances demo_globals demo_ext.
#[local] Instance demo_fuel : Fuel := 10.

Definition finished_job : Job :=
  MkJob "j" "ns" "u" ∅ None empty_spec (Some 5%Z) [MkJobCondition "Complete" "True"] (Some 0%Z).

Lemma IsJobShouldBeRecycled_spec_witness :
  wp (clock_env (6 * Second) 0) (IsJobShouldBeRecycled finished_job) [] (λ o _,
    ∃ b, o = Done b ∧ (b = true ↔
      (IsJobCompleted finished_job = true ∨ IsJobFailed finished_job = true) ∧
      (0 + 5 * Second < 6 * Second)%Z)).
Proof.
  apply (IsJobShouldBeRecycled_spec finished_job). intros t [= <-]. split; vm_compute; done.
Defined.

Definition delayed_pod (at' : option string) : Pod :=
  set_pod_Annotations (Some (match at' with
    | Some a => {[ config.DeleteDelayTimeKey := "10m"; config.DeleteDelayAtKey := a ]}
    | None => {[ config.DeleteDelayTimeKey := "10m" ]} end)) empty_pod.

Lemma ShouldDelay_two_phase_witness :
  wp (clock_env (1709251199 * Second) 0) (ShouldDelay (delayed_pod None)) [] (λ o tr,
    ∃ at' r tr', tr = Call (PodPatch "" ""
                         (MergeAnnotations {[ config.DeleteDelayAtKey := at' ]})) r :: tr' ∧
      o = Done match r with None => Ok true | Some e => Err e end ∧
      wp (clock_env (1709251799 * Second) 0) (ShouldDelay (delayed_pod (Some at'))) [] (λ o _,
        o = Done (Ok false))).
Proof.
  eapply wp_mono; [|apply (ShouldDelay_two_phase (delayed_pod None) "10m" (10 * Minute)%Z
    (1709251199 * Second)%Z 0 (1709251799 * Second)%Z 0)]; try reflexivity;
    [|split; vm_compute; done].
  intros o tr (at' & r & tr' & -> & -> & H2). exists at', r, tr'. split; [done|]. split; [done|].
  eapply wp_mono; [|apply H2; reflexivity]. intros o' _ ->. reflexivity.
Defined.

Definition unbound_claim : PersistentVolumeClaim :=
  MkPersistentVolumeClaim "c" "ns" "" ∅ ∅ "" (Some "gone") None [] 0 None.

Lemma getVol_keeps_error_witness :
  wp (missing_class "c" unbound_claim (ErrApi NotFound "storageclass gone not found"))
    (getVol (upd_spec (set_spec_Volumes [MkVolume "v" (PVCSource "c" false)]) empty_pod) "ns") []
    (λ o _, ∃ pairs err, o = Done (pairs, Some err)).
Proof. by apply (getVol_keeps_error _ "ns" [] "c" unbound_claim "gone"). Defined.

Definition demo_pv (name sub : string) : PersistentVolume :=
  MkPersistentVolume name "" (Some (MkCSISource "csi.dingofs.com" name {[ "subPath" := sub ]} None false "" None))
    None "sc" [] ∅ 0 None "Delete" [] None.

Lemma CheckForSubPath_safe_witness :
  wp any_env (CheckForSubPath (demo_pv "a" "s") "p") [] (λ o tr,
    match o with
    | Done (Ok true) => ∃ pvs tr', tr = Call PVList (Ok pvs) :: tr' ∧
        Forall (λ pv, ¬ uses_subpath (demo_pv "a" "s") pv) pvs
    | Done (Ok false) => pv_StorageClassName (demo_pv "a" "s") = "" ∨
        ∃ pvs tr', tr = Call PVList (Ok pvs) :: tr' ∧
          Exists (uses_subpath (demo_pv "a" "s")) pvs
    | _ => True
    end).
Proof. apply (CheckForSubPath_safe (demo_pv "a" "s") "p"). done. Defined.

Lemma VolumeLocks_exclusive_witness : lock_inv ({[ "v" ]} ∪ ∅, {[ (1, "v") ]} ∪ ∅).
Proof.
  apply VolumeLocks_exclusive. eapply rtc_l; [|apply rtc_refl].
  by apply (step_acquired 1 "v").
Defined.
End resource_examples.
