(* ===== verification/Template.v ===== *)
(** * Template: references to the claim and the node in a storage class

    The [ObjectMeta] of [src/pkg/util/resource/pvc.go]: [StringParser] replaces
    the references [${.pvc.name}], [${.PVC.labels.k}], [${.node.annotations.k}]
    and the like, [ResolveSecret] the shell-like ones of secret names.  Of the
    standard library, the matches of the regular expression and [os.Expand] are
    written out. *)

From S2P Require Import Prelude GoStrings GoNum Objects.
From Stdlib Require Import Ascii.

(** [objectMetadata] and [ObjectMeta]. *)
Record objectMetadata := MkObjectMetadata {
  om_data : smap;
  om_labels : smap;
  om_annotations : smap
}.
Record ObjectMeta := MkObjectMeta { om_pvc : objectMetadata; om_node : objectMetadata }.

Definition NewObjectMeta (pvc : PersistentVolumeClaim) (node : option Node) : ObjectMeta :=
  {| om_pvc := {| om_data := {[ "name" := pvc_Name pvc; "namespace" := pvc_Namespace pvc ]};
                  om_labels := pvc_Labels pvc; om_annotations := pvc_Annotations pvc |};
     om_node := match node with
                | None => MkObjectMetadata ∅ ∅ ∅
                | Some n =>
                    {| om_data := {[ "name" := node_Name n; "podCIDR" := node_PodCIDR n ]};
                       om_labels := node_Labels n; om_annotations := node_Annotations n |}
                end |}.

(** ** The pattern

    [\${\.(PVC|pvc|node)\.((labels|annotations)\.(.*?)|.*?)}]: the text from the
    second dot to the first closing brace, which no newline interrupts. *)

Inductive kind := PVC | pvc | node.
#[export] Instance kind_eq_dec : EqDecision kind.
Proof. solve_decision. Defined.
Definition kind_text (k : kind) : string :=
  match k with PVC => "PVC" | pvc => "pvc" | node => "node" end.

(** A match: the first group, and the text of the second. *)
Record ref := MkRef { ref_kind : kind; ref_body : string }.
#[export] Instance ref_eq_dec : EqDecision ref.
Proof. solve_decision. Defined.

(** The whole text of a match. *)
Definition ref_text (r : ref) : string :=
  "${." +:+ kind_text (ref_kind r) +:+ "." +:+ ref_body r +:+ "}".

Definition match_body (k : kind) (s : string) : option (ref * string) :=
  t ← strip_prefix (kind_text k +:+ ".") s;
  br ← Cut t "}";
  if Contains br.1 newline then None else Some (MkRef k br.1, br.2).

(** The match at the head of a string, with the rest. *)
Definition match_at (s : string) : option (ref * string) :=
  t ← strip_prefix "${." s;
  match match_body PVC t with
  | Some r => Some r
  | None => match match_body pvc t with Some r => Some r | None => match_body node t end
  end.

(** [FindAllStringSubmatch]: leftmost matches that do not overlap. *)
Fixpoint find_refs (n : nat) (s : string) : list ref :=
  match n with
  | O => []
  | S n =>
      match match_at s with
      | Some (r, rest) => r :: find_refs n rest
      | None => match s with "" => [] | String _ s => find_refs n s end
      end
  end.
Definition FindAll (s : string) : list ref := find_refs (S (len s)) s.

(** ** [StringParser] *)

(** The value of a reference; groups three and four are the kind of map and the
    key in it. *)
Definition om_value (m : objectMetadata) (body : string) : string :=
  match strip_prefix "labels." body with
  | Some k => m_get (om_labels m) k
  | None =>
      match strip_prefix "annotations." body with
      | Some k => m_get (om_annotations m) k
      | None => m_get (om_data m) body
      end
  end.
Definition ref_value (meta : ObjectMeta) (r : ref) : string :=
  om_value (match ref_kind r with PVC | pvc => om_pvc meta | node => om_node meta end) (ref_body r).

Definition StringParser (meta : ObjectMeta) (str : string) : string :=
  foldl (λ str r, ReplaceAll str (ref_text r) (ref_value meta r)) str (FindAll str).

(** ** [ResolveSecret] *)

Definition is_special (c : ascii) : bool :=
  bool_decide (c ∈ ["*"; "#"; "$"; "@"; "!"; "?"; "-"]%char)
  || ((48 <=? bval c)%Z && (bval c <=? 57)%Z).
Definition is_alnum (c : ascii) : bool :=
  let v := bval c in
  bool_decide (c = "_"%char) || ((48 <=? v)%Z && (v <=? 57)%Z)
  || ((97 <=? v)%Z && (v <=? 122)%Z) || ((65 <=? v)%Z && (v <=? 90)%Z).

Fixpoint span_alnum (s : string) : string * string :=
  match s with
  | String c s' => if is_alnum c then let '(a, r) := span_alnum s' in (String c a, r) else ("", s)
  | "" => ("", "")
  end.

(** [os.getShellName] after a dollar sign: the name, whether characters were
    taken, and the rest. *)
Definition getShellName (s : string) : string * bool * string :=
  match s with
  | String "{" (String c (String "}" r)) =>
      if is_special c then (String c "", true, r)
      else match Cut (String c (String "}" r)) "}" with
           | Some (name, rest) => (name, true, rest)
           | None => ("", true, String c (String "}" r))
           end
  | String "{" t =>
      match Cut t "}" with
      | Some (name, rest) => (name, true, rest)
      | None => ("", true, t)
      end
  | String c t =>
      if is_special c then (String c "", true, t)
      else let '(a, r) := span_alnum s in (a, negb (bool_decide (a = "")), r)
  | "" => ("", false, "")
  end.

(** [os.Expand]. *)
Fixpoint expand_shell (n : nat) (mapping : string → string) (s : string) : string :=
  match n with
  | O => s
  | S n =>
      match s with
      | String "$" (String _ _ as t) =>
          let '(name, taken, rest) := getShellName t in
          if decide (name = "") then
            if taken : bool then expand_shell n mapping rest else String "$" (expand_shell n mapping rest)
          else mapping name +:+ expand_shell n mapping rest
      | String c t => String c (expand_shell n mapping t)
      | "" => ""
      end
  end.
Definition Expand (s : string) (mapping : string → string) : string := expand_shell (len s) mapping s.

Definition secret_value (meta : ObjectMeta) (pvName k : string) : string :=
  if decide (k = "pvc.name") then m_get (om_data (om_pvc meta)) "name"
  else if decide (k = "pvc.namespace") then m_get (om_data (om_pvc meta)) "namespace"
  else if decide (k = "pv.name") then pvName
  else match strip_prefix "pvc.annotations['" k with
       | Some t => if HasSuffix t "']" then m_get (om_annotations (om_pvc meta)) (TrimSuffix t "']")
                   else ""
       | None => ""
       end.
Definition ResolveSecret (meta : ObjectMeta) (str pvName : string) : string :=
  Expand str (secret_value meta pvName).

(** * Properties *)

(** ** Replacing *)

Lemma ReplaceAll_unfold s old new :
  old ≠ "" →
  ReplaceAll s old new =
  match Cut s old with None => s | Some (a, r) => a +:+ new +:+ ReplaceAll r old new end.
Proof.
  intros Ho. unfold ReplaceAll. rewrite (Split_unfold s) by done.
  destruct (Cut s old) as [[a r]|]; [|done]. pose proof (Split_not_nil r old).
  by destruct (Split r old).
Qed.

(** A pattern that starts with a character which a prefix does not have. *)
Lemma Cut_skip c p l s :
  c ∉ chars l → Cut (l +:+ s) (String c p) = (prod_map (String.append l) id <$> Cut s (String c p)).
Proof.
  intros Hc. induction l as [|b l IH].
  - rewrite append_nil_l. by destruct (Cut s _) as [[??]|].
  - cbn [chars] in Hc. apply not_elem_of_cons in Hc as [Hb Hc].
    rewrite append_cons, Cut_unfold. cbn [strip_prefix]. rewrite decide_False by done.
    rewrite IH by done. by destruct (Cut s _) as [[??]|].
Qed.

Lemma ReplaceAll_skip c p new l s :
  c ∉ chars l → ReplaceAll (l +:+ s) (String c p) new = l +:+ ReplaceAll s (String c p) new.
Proof.
  intros Hc. rewrite (ReplaceAll_unfold (l +:+ s)), (ReplaceAll_unfold s) by done.
  rewrite Cut_skip by done. destruct (Cut s _) as [[a r]|]; [|done]. cbn. by rewrite append_assoc.
Qed.

(** ** Templates *)

(** A template: text and references. *)
Inductive piece := Lit (s : string) | Ref (r : ref).
#[export] Instance piece_eq_dec : EqDecision piece.
Proof. solve_decision. Defined.

Definition piece_text (p : piece) : string := match p with Lit s => s | Ref r => ref_text r end.
Definition piece_value (meta : ObjectMeta) (p : piece) : string :=
  match p with Lit s => s | Ref r => ref_value meta r end.
Definition render (f : piece → string) (l : list piece) : string :=
  foldr (λ p s, f p +:+ s) "" l.
Definition refs (l : list piece) : list ref :=
  omap (λ p, match p with Ref r => Some r | Lit _ => None end) l.

(** Text without a dollar sign; a reference whose body has none, and neither a
    brace nor a newline. *)
Definition plain (s : string) : Prop := "$"%char ∉ chars s.
Definition ref_ok (r : ref) : Prop :=
  plain (ref_body r) ∧ ("}"%char ∉ chars (ref_body r)) ∧ byte 10 ∉ chars (ref_body r).
Definition piece_ok (p : piece) : Prop := match p with Lit s => plain s | Ref r => ref_ok r end.

#[export] Instance piece_ok_dec p : Decision (piece_ok p).
Proof. unfold piece_ok, ref_ok, plain. destruct p; apply _. Defined.

(** The text of a reference after its dollar sign. *)
Definition ref_tail (r : ref) : string :=
  "{." +:+ kind_text (ref_kind r) +:+ "." +:+ ref_body r +:+ "}".
Lemma ref_text_tail r : ref_text r = String "$" (ref_tail r).
Proof. done. Qed.

Lemma ref_tail_plain r : ref_ok r → plain (ref_tail r).
Proof.
  intros [Hp _]. unfold plain, ref_tail in *. rewrite !chars_append, !not_elem_of_app.
  split_and!; try done; [by apply (bool_decide_unpack _)| |by apply (bool_decide_unpack _)..].
  destruct (ref_kind r); by apply (bool_decide_unpack _).
Qed.

Lemma match_body_ok k b s :
  "}"%char ∉ chars b → byte 10 ∉ chars b →
  match_body k (kind_text k +:+ "." +:+ b +:+ "}" +:+ s) = Some (MkRef k b, s).
Proof.
  intros Hb Hn. unfold match_body.
  rewrite <-(append_assoc (kind_text k)), strip_prefix_app. cbn [mbind option_bind].
  rewrite append_cons, append_nil_l, Cut_char_app by done. cbn [mbind option_bind fst snd].
  destruct (Contains b newline) eqn:Hc; [|done].
  apply Contains_true in Hc as (x & y & ->). destruct Hn.
  rewrite !chars_append, !elem_of_app. right. left. by apply elem_of_cons; left.
Qed.

Lemma match_at_ref r s : ref_ok r → match_at (ref_text r +:+ s) = Some (r, s).
Proof.
  intros (_ & Hb & Hn). unfold match_at, ref_text. rewrite append_assoc, strip_prefix_app.
  cbn [mbind option_bind]. rewrite !append_assoc.
  destruct r as [k b]. cbn [ref_kind ref_body] in *. pose proof (match_body_ok k b s Hb Hn) as Hm.
  destruct k; [by rewrite Hm|by rewrite Hm|by rewrite Hm].
Qed.

Lemma match_at_plain c s : c ≠ "$"%char → match_at (String c s) = None.
Proof. intros Hc. unfold match_at. cbn [strip_prefix]. by rewrite decide_False. Qed.

Lemma find_refs_lit n l s :
  plain l → find_refs (len l + n) (l +:+ s) = find_refs n s.
Proof.
  intros Hl. induction l as [|c l IH]; [done|]. unfold plain in Hl. cbn [chars] in Hl.
  apply not_elem_of_cons in Hl as [Hc Hl]. rewrite append_cons, len_cons. cbn [Nat.add find_refs].
  rewrite match_at_plain by done. by apply IH.
Qed.

(** The matches of a template are its references. *)
Lemma find_refs_render l n :
  Forall piece_ok l → len (render piece_text l) < n → find_refs n (render piece_text l) = refs l.
Proof.
  intros Hl. revert n. induction Hl as [|[s|r] l Hp Hl IH]; intros n Hn.
  - destruct n; [lia|done].
  - change (render piece_text (Lit s :: l)) with (s +:+ render piece_text l) in *.
    rewrite len_append in Hn. replace n with (len s + (n - len s)) by lia.
    rewrite find_refs_lit by done. apply IH. lia.
  - change (render piece_text (Ref r :: l)) with (ref_text r +:+ render piece_text l) in *.
    rewrite len_append, ref_text_tail, len_cons in Hn. destruct n as [|n]; [lia|]. cbn [find_refs].
    rewrite match_at_ref by done. cbn. f_equal. apply IH. lia.
Qed.

(** Replacing one reference by a text. *)
Definition put (r : ref) (v : string) (p : piece) : piece := if decide (p = Ref r) then Lit v else p.

Lemma ReplaceAll_render r v l :
  ref_ok r → Forall piece_ok l →
  ReplaceAll (render piece_text l) (ref_text r) v = render piece_text (put r v <$> l).
Proof.
  intros Hr Hl. induction Hl as [|[s|r'] l Hp Hl IH].
  - rewrite ReplaceAll_unfold by done. by rewrite ref_text_tail.
  - change (render piece_text (Lit s :: l)) with (s +:+ render piece_text l).
    rewrite ref_text_tail, ReplaceAll_skip, <-ref_text_tail, IH by done.
    rewrite fmap_cons. unfold put at 2. by rewrite decide_False.
  - change (render piece_text (Ref r' :: l)) with (ref_text r' +:+ render piece_text l).
    rewrite fmap_cons. unfold put at 1. destruct (decide (r' = r)) as [->|Hne].
    + rewrite decide_True by done. rewrite ReplaceAll_unfold by done.
      rewrite Cut_unfold, strip_prefix_app, append_nil_l, IH. done.
    + rewrite decide_False by congruence.
      assert (Cut (ref_text r' +:+ render piece_text l) (ref_text r) =
              (prod_map (String.append (ref_text r')) id <$> Cut (render piece_text l) (ref_text r)))
        as Hc.
      { rewrite Cut_unfold. destruct (strip_prefix _ _) as [t|] eqn:Hs.
        - apply strip_prefix_Some in Hs. pose proof (match_at_ref r' (render piece_text l) Hp) as Hm.
          rewrite Hs, match_at_ref in Hm by done. congruence.
        - rewrite (ref_text_tail r'), append_cons, (ref_text_tail r), Cut_skip by by apply ref_tail_plain.
          by destruct (Cut _ _) as [[??]|]. }
      change (render piece_text (Ref r' :: (put r v <$> l)))
        with (ref_text r' +:+ render piece_text (put r v <$> l)). rewrite <-IH.
      rewrite (ReplaceAll_unfold (ref_text r' +:+ _)), (ReplaceAll_unfold (render _ l)) by done. rewrite Hc.
      destruct (Cut (render _ l) _) as [[a b]|]; [|done]. cbn. by rewrite append_assoc.
Qed.

Lemma put_ok r v p : plain v → piece_ok p → piece_ok (put r v p).
Proof. unfold put. by case_decide. Qed.

(** Replacing references one after the other. *)
Definition put_all (meta : ObjectMeta) (rs : list ref) (p : piece) : piece :=
  foldl (λ p r, put r (ref_value meta r) p) p rs.

Lemma foldl_ReplaceAll meta rs l :
  Forall ref_ok rs → Forall (λ r, plain (ref_value meta r)) rs → Forall piece_ok l →
  foldl (λ str r, ReplaceAll str (ref_text r) (ref_value meta r)) (render piece_text l) rs =
  render piece_text (put_all meta rs <$> l).
Proof.
  intros Hr Hv. revert l. induction Hr as [|r rs Hr Hrs IH]; intros l Hl.
  { cbn. by rewrite list_fmap_id. }
  inversion Hv; subst. cbn [foldl]. rewrite ReplaceAll_render by done. rewrite IH; [|done|].
  - by rewrite <-list_fmap_compose.
  - apply Forall_fmap. eapply Forall_impl; [exact Hl|]. intros p. by apply put_ok.
Qed.

Lemma put_all_lit meta rs s : put_all meta rs (Lit s) = Lit s.
Proof. induction rs as [|r rs IH]; [done|]. cbn. unfold put. by rewrite decide_False. Qed.

Lemma put_all_ref meta rs r : r ∈ rs → put_all meta rs (Ref r) = Lit (ref_value meta r).
Proof.
  induction rs as [|r' rs IH]; [by intros ?%not_elem_of_nil|]. intros Hin. cbn. unfold put.
  case_decide as He; [simplify_eq; apply put_all_lit|].
  apply IH. apply elem_of_cons in Hin as [->|?]; [done|done].
Qed.

(** C30: On templates and values without stray dollar signs [StringParser] is
    substitution: on a template, pieces of text without a dollar sign and
    references to the claim or the node in any order and number, it gives the text
    with each reference replaced by the label, the annotation or the field it
    names, provided none of these values has a dollar sign either.  The source
    replaces one reference after the other in the whole string, so the second
    condition is needed: a value that is spelled like a later reference is replaced
    too ([StringParser_nested]). *)
Theorem StringParser_render meta l :
  Forall piece_ok l → Forall (λ r, plain (ref_value meta r)) (refs l) →
  StringParser meta (render piece_text l) = render (piece_value meta) l.
Proof.
  intros Hl Hv. unfold StringParser, FindAll. rewrite find_refs_render by (done || lia).
  rewrite foldl_ReplaceAll; [| |done|done].
  - clear Hv. assert (∀ r, Ref r ∈ l → r ∈ refs l) as Hin.
    { intros r Hr. apply list_elem_of_omap. by exists (Ref r). }
    revert Hin. generalize (refs l). intros rs. clear Hl.
    induction l as [|p l IH]; intros Hin; [done|]. cbn. f_equal.
    + destruct p as [s|r]; [by rewrite put_all_lit|]. rewrite put_all_ref; [done|].
      apply Hin, elem_of_cons. by left.
    + apply IH. intros r Hr. apply Hin, elem_of_cons. by right.
  - apply Forall_forall. intros r (p & Hp & Hr)%list_elem_of_omap.
    rewrite Forall_forall in Hl. specialize (Hl _ Hp). by destruct p; simplify_eq.
Qed.

(** ** Examples *)
Section template_examples.
Definition demo_claim : PersistentVolumeClaim :=
  MkPersistentVolumeClaim "data" "team-a" "u1" {[ "app" := "web" ]} {[ "dir" := "logs" ]} "" None None
    [] 0 None.
Definition demo_template : list piece :=
  [Ref (MkRef PVC "namespace"); Lit "/"; Ref (MkRef pvc "labels.app"); Lit "-";
   Ref (MkRef pvc "annotations.dir"); Lit "-"; Ref (MkRef PVC "namespace")].

Lemma StringParser_render_witness :
  Forall piece_ok demo_template ∧
  StringParser (NewObjectMeta demo_claim None)
    "${.PVC.namespace}/${.pvc.labels.app}-${.pvc.annotations.dir}-${.PVC.namespace}"
  = "team-a/web-logs-team-a".
Proof.
  assert (Forall piece_ok demo_template) as H.
  { apply (bool_decide_unpack _). vm_compute. done. }
  split; [exact H|].
  apply (StringParser_render (NewObjectMeta demo_claim None) demo_template H).
  unfold plain. apply (bool_decide_unpack _). vm_compute. done.
Defined.

Example ResolveSecret_example :
  ResolveSecret (NewObjectMeta demo_claim None)
    "${pvc.namespace}-${pvc.annotations['dir']}-${pv.name}-${x}$$" "pv1" = "team-a-logs-pv1-".
Proof. vm_compute. reflexivity. Qed.

(** A value that is spelled like a reference that follows is replaced once more:
    the annotation names the namespace by its reference, and the text of that
    reference does not come out. *)
Definition nested_claim : PersistentVolumeClaim :=
  MkPersistentVolumeClaim "data" "team-a" "u1" ∅ {[ "dir" := "${.pvc.namespace}" ]} "" None None [] 0 None.

Theorem StringParser_nested :
  StringParser (NewObjectMeta nested_claim None) "${.pvc.annotations.dir}" = "${.pvc.namespace}" ∧
  StringParser (NewObjectMeta nested_claim None) "${.pvc.annotations.dir}/${.pvc.namespace}"
  = "team-a/team-a".
Proof. split; vm_compute; reflexivity. Qed.
End template_examples.
