(* ===== verification/Builder.v ===== *)
(** * Builder: the pods, jobs and secrets the driver creates

    [src/pkg/builder]: base.go, pod.go, job.go, secret.go.  A builder holds a
    pointer to the settings of a volume and some of its methods change them;
    such a method takes the settings and returns them with its result. *)

From S2P Require Import Prelude GoStrings GoHash GoNum Objects Effects Config Security Demo Setting.
From S2P Require Import Util K8sClient Resource.
From Stdlib Require Import Ascii.

Section builder.
Context `{!Globals, !Ext}.

(** The attributes, which [genCommonPod] has just set. *)
Definition attr_of (s : DfsSetting) : PodAttr := default default_attr (s_Attr s).

(** ** base.go *)

(** [genPodTemplate]. *)
Definition genPodTemplate (s : DfsSetting) (cn : Container) : Pod :=
  let a := attr_of s in
  {| pod_Name := ""; pod_Namespace := a_Namespace a; pod_UID := "";
     pod_Labels := {[ config.PodTypeKey := config.PodTypeValue;
                      config.PodVolumeIdLabelKey := s_UniqueId s ]};
     pod_Annotations := Some ∅; pod_DeletionTimestamp := None; pod_Finalizers := [];
     pod_OwnerReferences := [];
     pod_Spec :=
       {| spec_Containers := [cn]; spec_InitContainers := []; spec_Volumes := [];
          spec_NodeName := NodeName; spec_NodeSelector := ∅;
          spec_HostNetwork := a_HostNetwork a; spec_HostAliases := a_HostAliases a;
          spec_HostPID := a_HostPID a; spec_HostIPC := a_HostIPC a;
          spec_DNSConfig := a_DNSConfig a; spec_DNSPolicy := a_DNSPolicy a;
          spec_ServiceAccountName := a_ServiceAccountName a;
          spec_ImagePullSecrets := a_ImagePullSecrets a;
          spec_PreemptionPolicy := a_PreemptionPolicy a; spec_Tolerations := a_Tolerations a;
          spec_PriorityClassName := ""; spec_RestartPolicy := ""; spec_Hostname := "";
          spec_TerminationGracePeriodSeconds := None; spec_Affinity := None;
          spec_SchedulerName := "" |};
     pod_Status := empty_status |}.

(** [_genMetadata]. *)
Definition genMetadata (s : DfsSetting) : smap * smap :=
  let a := attr_of s in
  let labels := merge_into {[ config.PodTypeKey := config.PodTypeValue;
                              config.PodVolumeIdLabelKey := s_UniqueId s ]} (a_Labels a) in
  let annos := a_Annotations a in
  let annos := if decide (s_DeletedDelay s = "") then annos
               else <[config.DeleteDelayTimeKey := s_DeletedDelay s]> annos in
  let annos := <[config.DingoFSID := s_FSID s]> annos in
  let annos := <[config.UniqueId := s_UniqueId s]> annos in
  (labels, if s_CleanCache s then <[config.CleanCache := "true"]> annos else annos).

(** The volume and the mount of the [i]th entry of [Configs]. *)
Definition config_name (i : nat) : string := "config-" +:+ pretty i.
Fixpoint config_volumes (i : nat) (l : list (string * string)) : list Volume * list VolumeMount :=
  match l with
  | [] => ([], [])
  | (k, v) :: l =>
      let '(vs, ms) := config_volumes (S i) l in
      (MkVolume (config_name i) (SecretSource k []) :: vs,
       MkVolumeMount (config_name i) v false None :: ms)
  end.

(** [_genDfsVolumes]; it indexes the first container of the CSI pod. *)
Definition genDfsVolumes (s : DfsSetting) : prog (list Volume * list VolumeMount) :=
  match spec_Containers (pod_Spec CSIPod) with
  | [] => Panic "index out of range"
  | c0 :: _ =>
      let mounts := filter (λ m, HasPrefix (vm_Name m) "dingofs-disk" = true) (cn_VolumeMounts c0) in
      let vols := filter (λ v, HasPrefix (vol_Name v) "dingofs-disk" = true)
                    (spec_Volumes (pod_Spec CSIPod)) in
      let rsa := bool_decide (s_EncryptRsaKey s ≠ "") in
      let ini := bool_decide (s_InitConfig s ≠ "") in
      let '(cvs, cms) := config_volumes 1 (map_range (s_Configs s)) in
      Ret
        (vols
         ++ (if rsa then [MkVolume "rsa-key" (SecretSource (s_SecretName s)
                            [("encrypt_rsa_key", "rsa-key.pem")])] else [])
         ++ (if ini then [MkVolume "init-config" (SecretSource (s_SecretName s)
                            [("initconfig", s_Name s +:+ ".conf")])] else [])
         ++ cvs,
         mounts
         ++ (if rsa then [MkVolumeMount "rsa-key" "/root/.rsa" false None] else [])
         ++ (if ini then [MkVolumeMount "init-config" config.ROConfPath false None] else [])
         ++ cms)
  end.

(** [genCommonPod] with the container of [genCommonContainer]. *)
Definition genCommonContainer (s : DfsSetting) : Container :=
  {| cn_Name := config.MountContainerName; cn_Image := a_Image (attr_of s);
     cn_ImagePullPolicy := ""; cn_Command := [];
     cn_Env := [MkEnvVar config.DfsInsideContainer "1"]; cn_EnvFrom := [];
     cn_VolumeMounts := []; cn_VolumeDevices := []; cn_Resources := empty_resources;
     cn_SecurityContext := Some (MkSecurityContext true (Some 0%Z)); cn_Lifecycle := None;
     cn_StartupProbe := None; cn_LivenessProbe := None; cn_ReadinessProbe := None |}.

Definition common_spec (s : DfsSetting) (volumes : list Volume) (spec : PodSpec) : PodSpec :=
  let a := attr_of s in
  set_spec_Volumes volumes
  (set_spec_TerminationGracePeriodSeconds
     (Some (default 10%Z (a_TerminationGracePeriodSeconds a)))
  (set_spec_Hostname (s_VolumeId s)
  (set_spec_RestartPolicy "Always"
  (set_spec_PriorityClassName DFSMountPriorityName
  (set_spec_ServiceAccountName (a_ServiceAccountName a) spec))))).

Definition common_container (s : DfsSetting) (mounts : list VolumeMount) (c : Container)
    : Container :=
  let a := attr_of s in
  let c := set_cn_VolumeMounts mounts c in
  let c := set_cn_EnvFrom [s_SecretName s] c in
  let c := set_cn_Env (a_Env a) c in
  let c := set_cn_Resources (a_Resources a) c in
  let c := match a_Lifecycle a with Some l => set_cn_Lifecycle (Some l) c | None => c end in
  let c := set_cn_StartupProbe (a_StartupProbe a) c in
  let c := set_cn_LivenessProbe (a_LivenessProbe a) c in
  set_cn_ReadinessProbe (a_ReadinessProbe a) c.

Definition genCommonPod (s : DfsSetting) : prog (DfsSetting * Pod) :=
  let s := match GenPodAttrWithCfg s None with Ok s => s | Err _ => s end in
  let pod := genPodTemplate s (genCommonContainer s) in
  let '(labels, annos) := genMetadata s in
  let pod := set_pod_Annotations (Some annos) (set_pod_Labels labels pod) in
  let pod := set_pod_Finalizers (AddFinalizer (pod_Finalizers pod) config.Finalizer) pod in
  vm <- genDfsVolumes s ;;
  let pod := upd_spec (common_spec s vm.1) pod in
  Ret (s, upd_container0 (common_container s vm.2) pod).

(** [genMountFSCommand] (its log line applies [StripPasswd] to the source). *)
Definition genMountFSCommand (s : DfsSetting) : prog string :=
  let options := s_MountOptions s in
  StripPasswd (s_Source s) ;;;
  let options :=
    if ContainsPrefix options "metrics=" then options
    else options ++ [if a_HostNetwork (attr_of s) then "metrics=0.0.0.0:0"
                     else "metrics=0.0.0.0:9567"] in
  Ret (QuoteForShell (Join ["exec"; config.DfsCMDPath; "${metaurl}"; EscapeBashStr (s_MountPath s);
                            "-o"; EscapeBashStr (Join options ",")] " ")).

(** [genInitFSCommand]. *)
Definition genInitFSCommand (s : DfsSetting) : string :=
  let formatCmd := if decide (s_EncryptRsaKey s = "") then s_FormatCmd s
                   else s_FormatCmd s +:+ " --encrypt-rsa-key=/root/.rsa/rsa-key.pem" in
  if decide (s_InitConfig s = "") then formatCmd
  else Join ["cp"; path_Join [config.ROConfPath; s_Name s +:+ ".conf"]; s_ClientConfPath s] " ".

(** [getQuotaPath]: the last well-formed [subdir=] option wins. *)
Definition subdir_of (acc o : string) : string :=
  match Split o "=" with
  | [k; v] => if decide (k = "subdir") then path_Join ["/"; v] else acc
  | _ => acc
  end.
Definition getQuotaPath (s : DfsSetting) : string :=
  path_Join [foldl subdir_of "" (s_MountOptions s); s_SubPath s].

(** [overwriteSubdirWithSubPath]. *)
Definition overwriteSubdirWithSubPath (s : DfsSetting) : DfsSetting :=
  if decide (s_SubPath s = "") then s
  else
    let step (acc : list string * string) (o : string) :=
      if HasPrefix o "subdir=" then
        match Split o "=" with
        | [k; v] => (acc.1, if decide (k = "subdir") then path_Join [v; s_SubPath s] else acc.2)
        | _ => acc
        end
      else (acc.1 ++ [o], acc.2) in
    let '(options, subdir) := foldl step ([], s_SubPath s) (s_MountOptions s) in
    set_s_MountOptions (options ++ ["subdir=" +:+ subdir]) s.

(** [getJobCommand]. *)
Definition getJobCommand (s : DfsSetting) : string :=
  let options := StripReadonlyOption (s_MountOptions s) in
  let args := [config.DfsCMDPath; "${metaurl}"; "/mnt/dfs"]
              ++ (if decide (options = []) then []
                  else ["-o"; EscapeBashStr (Join options ",")]) in
  QuoteForShell (Join args " ").

(** ** pod.go *)

(** Append volumes to a pod and their mounts to its first container. *)
Definition add_volumes (vm : list Volume * list VolumeMount) (pod : Pod) : Pod :=
  upd_container0 (λ c, set_cn_VolumeMounts (cn_VolumeMounts c ++ vm.2) c)
    (upd_spec (λ sp, set_spec_Volumes (spec_Volumes sp ++ vm.1) sp) pod).

Definition fuse_config_volume : list Volume * list VolumeMount :=
  ([MkVolume "config-volume" (ConfigMapSource "dingo-fuse-config" (Some 493%Z))],
   [MkVolumeMount "config-volume" config.DefaultBootstrapPath false None]).

(** [initFuseConfig]: the config map with the start script, and its mount. *)
Definition initFuseConfig (s : DfsSetting) (pod : Pod) : prog (result Pod) :=
  r <- call (ConfigMapCreate
         (MkConfigMap "dingo-fuse-config" (a_Namespace (attr_of s))
            {[ config.DefaultBootstrapShell := SHELL_MOUNT_POINT ]})) ;;
  match result_err r with
  | Some e =>
      if IsAlreadyExists e then Ret (Ok (add_volumes fuse_config_volume pod)) else Ret (Err e)
  | None => Ret (Ok (add_volumes fuse_config_volume pod))
  end.

(** [genCacheDirVolumes]. *)
Definition cachedir_name (i : nat) : string := "cachedir-" +:+ pretty i.
Definition genCacheDirVolumes (s : DfsSetting) : list Volume * list VolumeMount :=
  let dirs := imap (λ i d, (MkVolume (cachedir_name i) (HostPath d (Some "DirectoryOrCreate")),
                            MkVolumeMount (cachedir_name i) d false None)) (s_CacheDirs s) in
  let pvcs := imap (λ i c, let name := "cachedir-pvc-" +:+ pretty i in
                           (MkVolume name (PVCSource (cp_PVCName c) false),
                            MkVolumeMount name (cp_Path c) false None)) (s_CachePVCs s) in
  let empty := match s_EmptyDir s with
               | Some e => [(MkVolume "cachedir-empty-dir" (EmptyDirSource (ce_Medium e) (ce_SizeLimit e)),
                             MkVolumeMount "cachedir-empty-dir" (ce_Path e) false None)]
               | None => []
               end in
  let inl := imap (λ i v, let name := "cachedir-inline-volume-" +:+ pretty i in
                          (MkVolume name (CSISourceInline (ci_CSI v)),
                           MkVolumeMount name (ci_Path v) false None)) (s_CacheInlineVolumes s) in
  let all := dirs ++ pvcs ++ empty ++ inl in
  (all.*1, all.*2).

(** [genHostPathVolumes]. *)
Definition hostpath_name (i : nat) : string := "hostpath-" +:+ pretty i.
Definition genHostPathVolumes (s : DfsSetting) : list Volume * list VolumeMount :=
  (imap (λ i p, MkVolume (hostpath_name i) (HostPath p None)) (s_HostPath s),
   imap (λ i p, MkVolumeMount (hostpath_name i) p false None) (s_HostPath s)).

(** [genPodVolumes]. *)
Definition genPodVolumes (s : DfsSetting) : list Volume * list VolumeMount :=
  let dir := Some "DirectoryOrCreate" in
  ([MkVolume config.DfsDirName (HostPath MountPointPath dir);
    MkVolume config.DfsFuseFdPathName
      (HostPath (path_Join [config.DfsFuseFsPathInHost; s_HashVal s]) dir)]
   ++ (if Immutable then []
       else [MkVolume config.UpdateDBDirName (HostPath config.UpdateDBCfgFile (Some "FileOrCreate"))]),
   [MkVolumeMount config.DfsDirName config.PodMountBase false (Some "Bidirectional");
    MkVolumeMount config.DfsFuseFdPathName config.DfsFuseFsPathInPod false None]
   ++ (if Immutable then []
       else [MkVolumeMount config.UpdateDBDirName config.UpdateDBCfgFile false None])).

(** The command line of the mount pod. *)
Definition mountFsCMD (s : DfsSetting) : string :=
  config.DefaultBootstrapPath +:+ "/" +:+ config.DefaultBootstrapShell +:+ " " +:+ s_Name s
  +:+ " s3 --role=client --args='"
  +:+ fuse_args (s_Name s) "s3" (s_ClientConfPath s) (s_MountPath s) +:+ "'".

(** [NewMountPod]. *)
Definition NewMountPod (s : DfsSetting) (podName : string) : prog (DfsSetting * result Pod) :=
  r <- genCommonPod s ;;
  let '(s, pod) := r in
  r <- initFuseConfig s pod ;;
  match r with
  | Err e => Ret (s, Err e)
  | Ok pod =>
      let pod := set_pod_Name podName pod in
      let pod := upd_container0 (λ c,
        set_cn_Env (cn_Env c ++ [MkEnvVar "DFS_FOREGROUND" "1"])
          (set_cn_Command ["sh"; "-c"; mountFsCMD s] c)) pod in
      let pod := add_volumes (genPodVolumes s) pod in
      let pod := add_volumes (genCacheDirVolumes s) pod in
      let pod := add_volumes (genHostPathVolumes s) pod in
      let a := attr_of s in
      let pod := add_volumes (a_Volumes a, a_VolumeMounts a) pod in
      let pod := upd_container0 (λ c,
        set_cn_VolumeDevices (cn_VolumeDevices c ++ a_VolumeDevices a) c) pod in
      Ret (s, Ok pod)
  end.

(** [genCleanCachePod]. *)
Definition genCleanCachePod (s : DfsSetting) : Pod :=
  let vols := imap (λ i d, MkVolume (cachedir_name i)
                (HostPath (path_Join [d; s_FSID s; "raw"]) (Some "Directory"))) (s_CacheDirs s) in
  let mounts := imap (λ i _, MkVolumeMount (cachedir_name i)
                  (path_Join ["/var/dfsCache"; cachedir_name i]) false None) (s_CacheDirs s) in
  let cn := set_cn_VolumeMounts mounts
             (set_cn_Command ["sh"; "-c"; "rm -rf /var/dfsCache/*/chunks"]
               (MkContainer "dfs-cache-clean" (a_Image (attr_of s)) "" [] [] [] [] []
                  empty_resources None None None None None)) in
  MkPod "" (a_Namespace (attr_of s)) "" {[ config.PodTypeKey := config.PodTypeValue ]} (Some ∅)
    None [] [] (set_spec_Volumes vols (set_spec_Containers [cn] empty_spec)) empty_status.

(** ** job.go *)

Definition DefaultJobTTLSecond : Z := 5.

(** [GenJobNameByVolumeId]. *)
Definition GenJobNameByVolumeId (volumeId : string) : string :=
  take_s 16 ("dingofs-" +:+ sha256_hex volumeId).

Definition job_of (s : DfsSetting) (jobName : string) (spec : PodSpec) : Job :=
  {| job_Name := jobName; job_Namespace := a_Namespace (attr_of s); job_UID := "";
     job_Labels := {[ config.JobTypeKey := config.JobTypeValue ]};
     job_DeletionTimestamp := None; job_Template := spec;
     job_TTLSecondsAfterFinished := Some DefaultJobTTLSecond;
     job_Conditions := []; job_CompletionTime := None |}.

(** [newJob]. *)
Definition newJob (s : DfsSetting) (jobName : string) : prog (DfsSetting * Job) :=
  let s := set_s_SecretName (jobName +:+ "-secret") s in
  r <- genCommonPod s ;;
  let '(s, pod) := r in
  let csi := pod_Spec CSIPod in
  let pod := upd_container0 (set_cn_Lifecycle (Some (MkLifecycle
               (Some ["sh"; "-c"; "umount /mnt/dfs -l && rmdir /mnt/dfs"]) ""))) pod in
  let spec := set_spec_NodeName "" (pod_Spec pod) in
  let spec := set_spec_NodeSelector (spec_NodeSelector csi) spec in
  let spec := set_spec_Affinity (spec_Affinity csi) spec in
  let spec := set_spec_Tolerations (spec_Tolerations csi) spec in
  let spec := set_spec_PriorityClassName "" spec in
  let spec := set_spec_RestartPolicy "OnFailure" spec in
  Ret (s, job_of s jobName spec).

(** [newCleanJob]. *)
Definition newCleanJob (s : DfsSetting) (jobName : string) : Job :=
  job_of s jobName (set_spec_NodeName NodeName
    (set_spec_RestartPolicy "Never" (pod_Spec (genCleanCachePod s)))).

(** [getCreateVolumeCmd] and [getDeleteVolumeCmd]. *)
Definition getCreateVolumeCmd (s : DfsSetting) : string :=
  let subpath := EscapeBashStr (s_SubPath s) in
  getJobCommand s +:+ " && if [ ! -d /mnt/dfs/" +:+ subpath
  +:+ " ]; then mkdir -m 777 /mnt/dfs/" +:+ subpath +:+ "; fi;".
Definition getDeleteVolumeCmd (s : DfsSetting) : string :=
  let subpath := EscapeBashStr (s_SubPath s) in
  getJobCommand s +:+ " && if [ -d /mnt/dfs/" +:+ subpath +:+ " ]; then " +:+ config.DfsCMDPath
  +:+ " rmr /mnt/dfs/" +:+ subpath +:+ "; fi;".

Definition with_command (cmd : string) (j : Job) : Job :=
  set_job_Template (set_spec_Containers
    match spec_Containers (job_Template j) with
    | c :: cs => set_cn_Command ["sh"; "-c"; cmd] c :: cs
    | [] => []
    end (job_Template j)) j.

(** [NewJobForCreateVolume] and [NewJobForDeleteVolume]. *)
Definition NewJobForCreateVolume (s : DfsSetting) : prog (DfsSetting * Job) :=
  r <- newJob s (GenJobNameByVolumeId (s_VolumeId s) +:+ "-createvol") ;;
  let '(s, job) := r in
  Ret (s, with_command (Join [genInitFSCommand s; getCreateVolumeCmd s] newline) job).
Definition NewJobForDeleteVolume (s : DfsSetting) : prog (DfsSetting * Job) :=
  r <- newJob s (GenJobNameByVolumeId (s_VolumeId s) +:+ "-delvol") ;;
  let '(s, job) := r in
  Ret (s, with_command (Join [genInitFSCommand s; getDeleteVolumeCmd s] newline) job).

(** [NewJobForCleanCache]. *)
Definition NewJobForCleanCache (s : DfsSetting) : prog Job :=
  r <- RandStringRunes 6 ;;
  Ret (newCleanJob s (GenJobNameByVolumeId (s_VolumeId s) +:+ "-cleancache-" +:+ r)).

(** [NewFuseAbortJob]. *)
Definition NewFuseAbortJob (mountpod : Pod) (devMinor : Z) : prog Job :=
  match spec_Containers (pod_Spec mountpod) with
  | [] => Panic "index out of range"
  | c0 :: _ =>
      let conn := "/sys/fs/fuse/connections/" +:+ Itoa devMinor in
      let cn := {| cn_Name := "fuse-abort"; cn_Image := cn_Image c0;
                   cn_ImagePullPolicy := "IfNotPresent";
                   cn_Command := ["sh"; "-c";
                     "if [ $(cat " +:+ conn +:+ "/waiting) -gt 0 ]; then echo 1 > " +:+ conn
                     +:+ "/abort; fi;"];
                   cn_Env := []; cn_EnvFrom := [];
                   cn_VolumeMounts := [MkVolumeMount "fuse-connections"
                                         "/sys/fs/fuse/connections" false None];
                   cn_VolumeDevices := []; cn_Resources := empty_resources;
                   cn_SecurityContext := Some (MkSecurityContext true None);
                   cn_Lifecycle := None; cn_StartupProbe := None; cn_LivenessProbe := None;
                   cn_ReadinessProbe := None |} in
      let spec := set_spec_Volumes [MkVolume "fuse-connections"
                                      (HostPath "/sys/fs/fuse/connections" None)]
                   (set_spec_RestartPolicy "Never"
                   (set_spec_NodeName (spec_NodeName (pod_Spec mountpod))
                   (set_spec_Containers [cn] empty_spec))) in
      Ret {| job_Name := GenJobNameByVolumeId (pod_Name mountpod) +:+ "-abort-fuse";
             job_Namespace := pod_Namespace mountpod; job_UID := ""; job_Labels := ∅;
             job_DeletionTimestamp := None; job_Template := spec;
             job_TTLSecondsAfterFinished := Some DefaultJobTTLSecond;
             job_Conditions := []; job_CompletionTime := None |}
  end.

(** ** secret.go *)

Definition put_if (key value : string) (m : smap) : smap :=
  if decide (value = "") then m else <[key:=value]> m.

Definition checkMountScriptName : string := "check_mount.sh".

(** [NewSecret]. *)
Definition NewSecret (s : DfsSetting) : Secret :=
  let data := put_if "mdsaddr" (s_MdsAddr s) ∅ in
  let data := put_if "secretkey" (s_SecretKey s) data in
  let data := put_if "secretkey2" (s_SecretKey2 s) data in
  let data := put_if "token" (s_Token s) data in
  let data := put_if "passphrase" (s_Passphrase s) data in
  let data := put_if "encrypt_rsa_key" (s_EncryptRsaKey s) data in
  let data := put_if "initconfig" (s_InitConfig s) data in
  let data := <[checkMountScriptName := checkMountScript]> data in
  let data := match ParseFormatOptions s with
              | Ok opts =>
                  foldl (λ m p, if decide (p.1 = "session-token")
                                then <["session-token" := p.2]> m else m) data opts
              | Err _ => data
              end in
  {| sec_Name := s_SecretName s; sec_Namespace := a_Namespace (attr_of s);
     sec_Labels := {[ config.DingofsSecretLabelKey := "true" ]};
     sec_OwnerReferences := []; sec_Finalizers := []; sec_Data := None;
     sec_StringData := merge_into data (s_Envs s); sec_CreationTimestamp := zero_time |}.

(** The owner setters. *)
Definition SetPodAsOwner (secret : Secret) (owner : Pod) : Secret :=
  set_sec_OwnerReferences [MkOwnerReference "v1" "Pod" (pod_Name owner) (pod_UID owner) true] secret.
Definition SetPVCAsOwner (secret : Secret) (owner : PersistentVolumeClaim) : Secret :=
  set_sec_OwnerReferences
    [MkOwnerReference "v1" "PersistentVolumeClaim" (pvc_Name owner) (pvc_UID owner) true] secret.
Definition SetPVAsOwner (secret : Secret) (owner : option PersistentVolume) : Secret :=
  match owner with
  | None => secret
  | Some pv => set_sec_OwnerReferences
      [MkOwnerReference "v1" "PersistentVolume" (pv_Name pv) (pv_UID pv) false] secret
  end.
Definition SetJobAsOwner (secret : Secret) (owner : Job) : Secret :=
  set_sec_OwnerReferences
    [MkOwnerReference "batch/v1" "Job" (job_Name owner) (job_UID owner) true] secret.
End builder.

(** * Properties *)

Section builder_facts.
Context {G : Globals} {X : Ext}.

(** ** The command line and its parser *)

Definition fuse_words (s : DfsSetting) : list string :=
  ["/scripts/mountpoint.sh"; s_Name s; "s3"; "--role=client"; "--args='-f";
   "-o"; "default_permissions"; "-o"; "allow_other"; "-o"; "fsname=" +:+ s_Name s;
   "-o"; "fstype=s3"; "-o"; "user=dingofs"; "-o"; "conf=" +:+ s_ClientConfPath s;
   s_MountPath s +:+ "'"].

Lemma mountFsCMD_words s : mountFsCMD s = Join (fuse_words s) " ".
Proof.
  unfold mountFsCMD, fuse_args, fuse_words. cbn [Join].
  apply chars_inj. rewrite ?chars_append. cbn [chars app].
  rewrite ?chars_append, <- ?app_assoc. cbn [chars app].
  by repeat (rewrite <- ?app_assoc; cbn [chars app]).
Qed.

(** A mount path the driver composes: [/dfs/] and one name of printable
    characters without quotes and slashes. *)
Definition path_char (c : ascii) : bool :=
  graph c && negb (bool_decide (c = "'"%char)) && negb (bool_decide (c = "/"%char)).

Definition mountable (s : DfsSetting) (vol : string) : Prop :=
  word (s_Name s) ∧ all_chars graph (s_ClientConfPath s) ∧
  s_MountPath s = "/dfs/" +:+ vol ∧ all_chars path_char vol.

Lemma path_char_graph v : all_chars path_char v → all_chars graph v.
Proof. apply all_chars_impl. intros c. unfold path_char. rewrite !andb_true_iff. tauto. Qed.

Lemma word_app a b : word a → all_chars graph b → word (a +:+ b).
Proof.
  intros [Ha Hc] Hb. split; [by intros [-> _]%append_eq_nil|]. by apply all_chars_app.
Qed.

Lemma fuse_words_words s vol : mountable s vol → Forall word (fuse_words s).
Proof.
  intros (Hn & Hc & Hm & Hv). unfold fuse_words.
  assert (∀ w, bool_decide (word w) = true → word w) as Hdec.
  { intros w. apply bool_decide_eq_true. }
  rewrite !Forall_cons. split_and!; try done; try (apply Hdec; reflexivity).
  - apply word_app; [apply Hdec; reflexivity|apply Hn].
  - apply word_app; [apply Hdec; reflexivity|done].
  - rewrite Hm, append_assoc. apply word_app; [apply Hdec; reflexivity|].
    apply all_chars_app. split; [by apply path_char_graph|]. by apply (bool_decide_unpack _).
Qed.

Lemma parseMntPath_mountFsCMD s vol :
  mountable s vol → parseMntPath (mountFsCMD s) = Ret (Ok (s_MountPath s, vol)).
Proof.
  intros Hok. pose proof (fuse_words_words s vol Hok) as Hw.
  destruct Hok as (Hn & Hc & Hm & Hv). unfold parseMntPath. rewrite mountFsCMD_words.
  rewrite Split_char_single; last first.
  { eapply (all_chars_not (λ c, graph c || bool_decide (c = " "%char))); [|reflexivity].
    apply all_chars_Join; [|by apply (bool_decide_unpack _)].
    eapply Forall_impl; [exact Hw|]. intros w [_ H]. eapply all_chars_impl; [|exact H].
    simpl. intros c ->. done. }
  cbn [last default from_option id]. rewrite Fields_Join by done.
  unfold fuse_words. rewrite decide_False by done. cbn [last].
  assert ("'"%char ∉ chars (s_MountPath s)) as Hq.
  { rewrite Hm, chars_append, elem_of_app. intros [Hin|Hin].
    - by repeat (apply elem_of_cons in Hin as [?|Hin]; [done|]); inversion Hin.
    - revert Hin. by apply (all_chars_not path_char). }
  rewrite Trim_trailing by done. rewrite Hm.
  assert (HasPrefix ("/dfs/" +:+ vol) config.PodMountBase = true) as ->.
  { apply HasPrefix_true. by exists ("/" +:+ vol). }
  cbn [negb].
  assert (Split ("/dfs/" +:+ vol) "/" = [""; "dfs"; vol]) as ->; [|done].
  change ("/dfs/" +:+ vol) with (Join [""; "dfs"; vol] "/"). apply Split_Join; [done|].
  rewrite !Forall_cons. split_and!; [apply (bool_decide_unpack _); done..| |done].
  by apply (all_chars_not path_char).
Qed.

(** ** The mount pod *)

Definition container0 (pod : Pod) : option Container := head (spec_Containers (pod_Spec pod)).

Lemma container0_upd f pod : container0 (upd_container0 f pod) = f <$> container0 pod.
Proof. unfold container0, upd_container0, upd_spec. simpl. by destruct (spec_Containers _). Qed.

Lemma containers_upd f pod c :
  container0 pod = Some c → ∃ cs, spec_Containers (pod_Spec (upd_container0 f pod)) = f c :: cs.
Proof.
  unfold container0. destruct pod as [? ? ? ? ? ? ? ? [cns] ?]. simpl.
  destruct cns as [|c' cs]; intros H; simplify_eq/=. by exists cs.
Qed.

Lemma container0_upd_spec f pod :
  (∀ sp, spec_Containers (f sp) = spec_Containers sp) →
  container0 (upd_spec f pod) = container0 pod.
Proof. intros H. unfold container0, upd_spec. simpl. by rewrite H. Qed.

Lemma spec_Volumes_upd_container0 f pod :
  spec_Volumes (pod_Spec (upd_container0 f pod)) = spec_Volumes (pod_Spec pod).
Proof. done. Qed.

Lemma GenPodAttrWithCfg_nil s :
  ∃ a, GenPodAttrWithCfg s None = Ok (set_s_Attr (Some a) s) ∧
    a_Volumes a = [] ∧ a_VolumeMounts a = [].
Proof.
  destruct (GenPodAttrWithCfg s None) as [s'|] eqn:E; [|done].
  apply GenPodAttrWithCfg_ok in E as (a & -> & _ & Ha).
    destruct (ar_dropped _ _ _ Ha) as (_ & _ & _ & _ & _ & ? & ? & _). by exists a.
Qed.

(** Every mount of the first container names a volume of the pod. *)
Definition mounts_ok (vs : list Volume) (ms : list VolumeMount) : Prop :=
  Forall (λ m, vm_Name m ∈ (vol_Name <$> vs)) ms.

Lemma mounts_ok_app vs vs' ms ms' :
  mounts_ok vs ms → mounts_ok vs' ms' → mounts_ok (vs ++ vs') (ms ++ ms').
Proof.
  intros H H'. apply Forall_app. split; (eapply Forall_impl; [eassumption|]);
    simpl; intros m; rewrite fmap_app; set_solver.
Qed.

Lemma mounts_ok_same vs ms : vol_Name <$> vs = vm_Name <$> ms → mounts_ok vs ms.
Proof.
  intros H. apply Forall_forall. intros m Hm. rewrite H. apply list_elem_of_fmap. eauto.
Qed.

Lemma config_volumes_names i l vs ms :
  config_volumes i l = (vs, ms) → vol_Name <$> vs = vm_Name <$> ms.
Proof.
  revert i vs ms. induction l as [|[k v] l IH]; intros i vs ms; simpl; [by intros [= <- <-]|].
  destruct (config_volumes (S i) l) as [vs' ms'] eqn:E. intros [= <- <-]. simpl.
  f_equal. by eapply IH.
Qed.

(** The pod of the CSI node plugin names a volume for every mount. *)
Definition csi_pod_ok : Prop :=
  ∀ c0, container0 CSIPod = Some c0 →
  mounts_ok (spec_Volumes (pod_Spec CSIPod)) (cn_VolumeMounts c0).

Lemma genDfsVolumes_ok s tr :
  csi_pod_ok →
  wp any_env (genDfsVolumes s) tr (λ o tr',
    match o with
    | Done vm => mounts_ok vm.1 vm.2
    | Panicked _ => container0 CSIPod = None
    | Diverged => False
    end).
Proof.
  intros Hcsi. unfold genDfsVolumes. unfold csi_pod_ok, container0 in *.
  destruct (spec_Containers (pod_Spec CSIPod)) as [|c0 cs]; [done|].
  destruct (config_volumes 1 _) as [cvs cms] eqn:Ec. cbn [wp fst snd].
  apply mounts_ok_app; [|apply mounts_ok_app; [|apply mounts_ok_app]].
  - specialize (Hcsi c0 eq_refl). apply Forall_forall. intros m.
    rewrite list_elem_of_filter. intros [Hp Hm]. unfold mounts_ok in Hcsi.
    rewrite Forall_forall in Hcsi. specialize (Hcsi m Hm).
    apply list_elem_of_fmap in Hcsi as (v & Hv & Hin). apply list_elem_of_fmap.
    exists v. split; [done|]. apply list_elem_of_filter. by rewrite <-Hv.
  - by case_bool_decide; apply mounts_ok_same.
  - by case_bool_decide; apply mounts_ok_same.
  - eapply mounts_ok_same, config_volumes_names, Ec.
Qed.

Lemma imap_names {A} (f : nat → A → Volume) (g : nat → A → VolumeMount) l :
  (∀ i a, vol_Name (f i a) = vm_Name (g i a)) → vol_Name <$> imap f l = vm_Name <$> imap g l.
Proof.
  intros H. rewrite !fmap_imap. apply imap_ext. intros i a _. by unfold compose; simpl.
Qed.

Lemma mounts_ok_pairs (l : list (Volume * VolumeMount)) :
  Forall (λ p, vol_Name p.1 = vm_Name p.2) l → mounts_ok l.*1 l.*2.
Proof.
  intros H. apply mounts_ok_same. induction H as [|p l Hp H IH]; [done|].
  rewrite !fmap_cons. by rewrite Hp, IH.
Qed.

Lemma Forall_imap_pair {A B} (P : B → Prop) (f : nat → A → B) l :
  (∀ i a, P (f i a)) → Forall P (imap f l).
Proof.
  intros H. apply Forall_lookup. intros i x. rewrite list_lookup_imap.
  destruct (l !! i); intros [= <-]. apply H.
Qed.

Lemma genCacheDirVolumes_ok s :
  mounts_ok (genCacheDirVolumes s).1 (genCacheDirVolumes s).2.
Proof.
  unfold genCacheDirVolumes. cbn [fst snd]. apply mounts_ok_pairs.
  rewrite !Forall_app. split_and!; try by apply Forall_imap_pair.
  destruct (s_EmptyDir s); [by apply Forall_singleton|done].
Qed.

Lemma genHostPathVolumes_ok s :
  mounts_ok (genHostPathVolumes s).1 (genHostPathVolumes s).2.
Proof. apply mounts_ok_same. by apply imap_names. Qed.

Lemma genPodVolumes_ok s : mounts_ok (genPodVolumes s).1 (genPodVolumes s).2.
Proof. apply mounts_ok_same. unfold genPodVolumes. by destruct Immutable. Qed.

(** A pod whose first container mounts only volumes of the pod. *)
Definition pod_mounts_ok (pod : Pod) : Prop :=
  ∃ c, container0 pod = Some c ∧ mounts_ok (spec_Volumes (pod_Spec pod)) (cn_VolumeMounts c).

Lemma add_volumes_ok vm pod :
  mounts_ok vm.1 vm.2 → pod_mounts_ok pod → pod_mounts_ok (add_volumes vm pod).
Proof.
  intros Hvm (c & Hc & Hm). unfold add_volumes. eexists. rewrite container0_upd.
  rewrite container0_upd_spec by done. rewrite Hc. split; [done|].
  rewrite spec_Volumes_upd_container0. by apply mounts_ok_app.
Qed.

Lemma add_volumes_container0 vm pod c :
  container0 pod = Some c →
  container0 (add_volumes vm pod) = Some (set_cn_VolumeMounts (cn_VolumeMounts c ++ vm.2) c).
Proof.
  intros Hc. unfold add_volumes. rewrite container0_upd, container0_upd_spec by done. by rewrite Hc.
Qed.

(** What [genCommonPod] builds. *)
Lemma genCommonPod_ok s tr :
  csi_pod_ok →
  wp any_env (genCommonPod s) tr (λ o _,
    match o with
    | Done (s', pod) => ∃ a, s' = set_s_Attr (Some a) s ∧ pod_mounts_ok pod ∧
        config.Finalizer ∈ pod_Finalizers pod ∧
        pod_Labels pod = (genMetadata s').1 ∧ pod_Annotations pod = Some (genMetadata s').2 ∧
        a_Volumes a = [] ∧ a_VolumeMounts a = [] ∧ pod_DeletionTimestamp pod = None ∧
        pod_Namespace pod = a_Namespace a ∧ spec_NodeName (pod_Spec pod) = NodeName ∧
        ∃ c, container0 pod = Some c ∧ cn_Env c = a_Env a
    | Panicked _ => container0 CSIPod = None
    | Diverged => False
    end).
Proof.
  intros Hcsi. unfold genCommonPod. destruct (GenPodAttrWithCfg_nil s) as (a & -> & Hav & Ham).
  destruct (genMetadata _) as [labels annos] eqn:Em. apply wp_bind.
  eapply wp_mono; [|by apply genDfsVolumes_ok]. intros [[vs ms]|m|] tr' Hvm; [|done..].
  simpl in Hvm. cbn [wp]. exists a. split; [done|]. split.
  { eexists. rewrite container0_upd, container0_upd_spec by done. split; [reflexivity|].
    unfold common_container. cbn. by destruct (a_Lifecycle a). }
  rewrite Em. split_and!; try done.
  - change (config.Finalizer ∈ AddFinalizer [] config.Finalizer). rewrite AddFinalizer_spec.
    case_decide; set_solver.
  - eexists. split; [reflexivity|]. unfold common_container. cbn. by destruct (a_Lifecycle a).
Qed.

(** The labels, annotations and namespace of a pod are those of the attributes
    [a] of the setting. *)
Definition made_from (s : DfsSetting) (a : PodAttr) (pod : Pod) : Prop :=
  GenPodAttrWithCfg s None = Ok (set_s_Attr (Some a) s) ∧
  pod_Labels pod = (genMetadata (set_s_Attr (Some a) s)).1 ∧
  pod_Annotations pod = Some (genMetadata (set_s_Attr (Some a) s)).2 ∧
  pod_Namespace pod = a_Namespace a.

(** The metadata of the mount pod, whatever the CSI pod mounts. *)
Lemma genCommonPod_meta s tr :
  wp any_env (genCommonPod s) tr (λ o tr',
    tr' = tr ∧ match o with
    | Done (s', pod) => ∃ a, s' = set_s_Attr (Some a) s ∧
        config.Finalizer ∈ pod_Finalizers pod ∧ pod_DeletionTimestamp pod = None ∧
        spec_NodeName (pod_Spec pod) = NodeName ∧ made_from s a pod
    | _ => True
    end).
Proof.
  unfold genCommonPod, made_from. destruct (GenPodAttrWithCfg_nil s) as (a & Ea & _). rewrite Ea.
  destruct (genMetadata _) as [labels annos] eqn:Em. apply wp_bind. unfold genDfsVolumes.
  destruct (spec_Containers (pod_Spec CSIPod)); [done|].
  destruct (config_volumes 1 _) as [cvs cms]. cbn [wp]. split; [done|]. exists a. rewrite ?Em.
  split_and!; try done. change (config.Finalizer ∈ AddFinalizer [] config.Finalizer).
  rewrite AddFinalizer_spec. case_decide; set_solver.
Qed.

Definition config_map_only : event_pred := λ X e,
  match e with ConfigMapCreate _ => true | _ => false end.

Lemma NewMountPod_meta s podName tr :
  wp any_env (NewMountPod s podName) tr (λ o tr',
    extends config_map_only tr tr' ∧
    match o with
    | Done (s', Ok pod) => ∃ a, s' = set_s_Attr (Some a) s ∧ pod_Name pod = podName ∧
        config.Finalizer ∈ pod_Finalizers pod ∧ pod_DeletionTimestamp pod = None ∧
        spec_NodeName (pod_Spec pod) = NodeName ∧ made_from s a pod
    | Done (s', Err _) => ∃ a, s' = set_s_Attr (Some a) s
    | _ => True
    end).
Proof.
  unfold NewMountPod. apply wp_bind. eapply wp_mono; [|apply genCommonPod_meta].
  intros [[s' pod]|m|] tr' [-> H]; [|done..].
  destruct H as (a & -> & Hf & Hd & Hn & Hmade). unfold initFuseConfig. cbn [call bind wp].
  intros r _. assert (∀ e : event (result ConfigMap), config_map_only _ e = true →
    extends config_map_only tr (Call e r :: tr)) as Hnew by (intros; by eapply extends_call).
  assert (∃ a' : PodAttr, set_s_Attr (Some a) s = set_s_Attr (Some a') s) by eauto.
  destruct (result_err r) as [e|]; [destruct (IsAlreadyExists e)|]; cbn [bind wp];
    (split; [by apply Hnew|]); try done; exists a; by split_and!.
Qed.

(** The first container runs the mount command in the environment, and mounts
    only volumes of the pod; what is added to the pod afterwards keeps that. *)
Definition runs_mount (s : DfsSetting) (env : list EnvVar) (pod : Pod) : Prop :=
  ∃ c, container0 pod = Some c ∧ mounts_ok (spec_Volumes (pod_Spec pod)) (cn_VolumeMounts c) ∧
    cn_Command c = ["sh"; "-c"; mountFsCMD s] ∧ cn_Env c = env.

Lemma runs_mount_add s env vm pod :
  mounts_ok vm.1 vm.2 → runs_mount s env pod → runs_mount s env (add_volumes vm pod).
Proof.
  intros Hvm (c & Hc & Hm & Hcmd & Henv).
  destruct (add_volumes_ok vm pod Hvm) as (c' & Hc' & Hm'); [by exists c|].
  exists c'. split; [done|]. split; [done|]. rewrite (add_volumes_container0 _ _ _ Hc) in Hc'.
  by injection Hc' as <-.
Qed.

Lemma runs_mount_devices s env devices pod :
  runs_mount s env pod →
  runs_mount s env (upd_container0 (λ c, set_cn_VolumeDevices (cn_VolumeDevices c ++ devices) c) pod).
Proof.
  intros (c & Hc & Hm & Hcmd & Henv). eexists. rewrite container0_upd, Hc. split; [done|]. by split_and!.
Qed.

Lemma runs_mount_path s env vol pod :
  mountable s vol → runs_mount s env pod → GetMountPathOfPod pod = Ret (Ok (s_MountPath s, vol)).
Proof.
  intros Hok (c & Hc & _ & Hcmd & _). unfold GetMountPathOfPod. unfold container0 in Hc.
  destruct (spec_Containers (pod_Spec pod)) as [|c' cs]; [done|]. injection Hc as ->.
  rewrite Hcmd. by apply parseMntPath_mountFsCMD.
Qed.

Lemma initFuseConfig_ok s pod tr :
  wp any_env (initFuseConfig s pod) tr (λ o _,
    match o with
    | Done (Ok p) => p = add_volumes fuse_config_volume pod
    | Done (Err e) => IsAlreadyExists e = false
    | _ => False
    end).
Proof.
  unfold initFuseConfig. cbn [call bind wp]. intros [cm|e] _; cbn [result_err wp]; [done|].
  by destruct (IsAlreadyExists e) eqn:E.
Qed.

(** C33: The mount pod of a volume.  Every volume mount of its container names a
    volume of the pod; the pod has the finalizer; its environment is that of
    the attributes and the foreground flag; and the mount path that the driver
    later reads from its command line is the one of the setting. *)
Theorem NewMountPod_ok s podName vol :
  csi_pod_ok → mountable s vol →
  wp any_env (NewMountPod s podName) [] (λ o _,
    match o with
    | Done (s', Ok pod) =>
        pod_Name pod = podName ∧ pod_mounts_ok pod ∧ config.Finalizer ∈ pod_Finalizers pod ∧
        GetMountPathOfPod pod = Ret (Ok (s_MountPath s, vol)) ∧
        ∃ c, container0 pod = Some c ∧
          cn_Env c = a_Env (attr_of s') ++ [MkEnvVar "DFS_FOREGROUND" "1"]
    | Done (_, Err e) => IsAlreadyExists e = false
    | Panicked _ => container0 CSIPod = None
    | Diverged => False
    end).
Proof.
  intros Hcsi Hok. unfold NewMountPod. apply wp_bind.
  eapply wp_mono; [|by apply genCommonPod_ok]. intros [[s' pod]|m|] tr; [|done..].
  intros (a & -> & Hm & Hf & _ & _ & Hav & Ham & _ & _ & _ & c & Hc & Henv).
  set (s' := set_s_Attr (Some a) s). cbv beta iota.
  apply wp_bind. eapply wp_mono; [|apply initFuseConfig_ok]. intros [[pod'|e]|m|] tr'; [|done..].
  intros ->. cbn [wp].
  set (p1 := upd_container0 _ (set_pod_Name podName (add_volumes fuse_config_volume pod))).
  set (env := a_Env a ++ [MkEnvVar "DFS_FOREGROUND" "1"]).
  assert (runs_mount s' env p1) as Hp1.
  { destruct (add_volumes_ok fuse_config_volume pod) as (c1 & Hc1 & Hm1);
      [by apply mounts_ok_same|done|].
    eexists. unfold p1. rewrite container0_upd. change (container0 (set_pod_Name ?n ?p))
      with (container0 p). rewrite Hc1. split; [done|]. split; [done|]. split; [done|].
    rewrite (add_volumes_container0 _ _ _ Hc) in Hc1. injection Hc1 as <-. cbn. by rewrite Henv. }
  change (attr_of s') with a. rewrite Hav, Ham. set (p2 := upd_container0 _ _).
  assert (runs_mount s' env p2) as Hp2.
  { apply runs_mount_devices. do 4 (apply runs_mount_add; [first [apply genHostPathVolumes_ok
      |apply genCacheDirVolumes_ok|apply genPodVolumes_ok|by apply mounts_ok_same]|]). done. }
  split; [done|]. split; [|split; [done|split]].
  - destruct Hp2 as (c2 & Hc2 & Hm2 & _). by exists c2.
  - by apply (runs_mount_path s' env).
  - destruct Hp2 as (c2 & Hc2 & _ & _ & He2). by exists c2.
Qed.
End builder_facts.

(** ** Examples *)

Section builder_examples.
#[local] Existing Instances demo_globals demo_ext.

Definition demo_mount : DfsSetting :=
  set_s_ClientConfPath config.DefaultClientConfPath demo_setting.

Lemma NewMountPod_ok_witness :
  wp any_env (NewMountPod demo_mount "dingofs-node1-pvc-1-abcdef") [] (λ o _,
    match o with
    | Done (_, Ok pod) => GetMountPathOfPod pod = Ret (Ok ("/dfs/pvc-1-abcdef", "pvc-1-abcdef"))
    | Done (_, Err e) => IsAlreadyExists e = false
    | _ => container0 CSIPod = None
    end).
Proof.
  eapply wp_mono; [|apply (NewMountPod_ok demo_mount "dingofs-node1-pvc-1-abcdef" "pvc-1-abcdef")].
  - intros [[s' [pod|e]]|m|]; naive_solver.
  - intros c0 [= <-]. apply (bool_decide_unpack _). vm_compute. exact I.
  - split; [|split; [|split]];
      first [reflexivity|apply (bool_decide_unpack _); vm_compute; exact I].
Defined.
End builder_examples.
