(* ===== verification/ApiServer.v ===== *)
(** * ApiServer: what the driver relies on of the API server and the kernel

    The class [ApiServer] is the interface between the driver and its
    environment for the theorems on the outcome of an operation: a handler of
    events, the pods it stores and the mounts it has, with the documented
    behaviour of reads, JSON patches (RFC 6901 and 6902), deletions with
    finalizers, [umount -l] and [CleanupMountPoint].  The behaviour is that of a
    healthy server; the theorems on safety, in the files of the components, hold
    for every answer instead.  [memory_server] is an instance that runs. *)

From S2P Require Import Prelude GoStrings Objects Effects Config Rely Util K8sClient Resource.

(** The pod that an event writes, by name and namespace, and the event that adds
    mounts. *)
Definition pod_written {X} (e : event X) : option (string * string) :=
  match e with
  | PodCreate p | PodUpdate p => Some (pod_Name p, pod_Namespace p)
  | PodPatch n ns _ | PodDelete n ns => Some (n, ns)
  | _ => None
  end.
Definition writes_pods {X} (e : event X) : bool :=
  match pod_written e with Some _ => true | None => false end.
Definition adds_mounts {X} (e : event X) : bool :=
  match e with Mount _ _ _ _ => true | _ => false end.

Abbreviation pod_store := (gmap (string * string) Pod).

(** A deletion: with finalizers the pod stays, marked with the time. *)
Definition deleted_to (p : Pod) (p' : option Pod) : Prop :=
  if decide (pod_Finalizers p = []) then p' = None
  else ∃ t, p' = Some (set_pod_DeletionTimestamp (Some t) p) ∧
            (∀ t', pod_DeletionTimestamp p = Some t' → t = t').

(** What the server keeps of a pod it is asked to create. *)
Definition created_as (p p' : Pod) : Prop :=
  pod_Name p' = pod_Name p ∧ pod_Namespace p' = pod_Namespace p ∧
  pod_Labels p' = pod_Labels p ∧ pod_Annotations p' = pod_Annotations p ∧
  pod_Finalizers p' = pod_Finalizers p ∧ pod_DeletionTimestamp p' = None.

(** A pod that a label selector without expressions selects. *)
Definition selected (sel : option LabelSelector) (p : Pod) : Prop :=
  ∀ s, sel = Some s → ls_MatchLabels s ⊆ pod_Labels p.

(** A patch of annotations, labels or finalizers, and what it does to the
    labels. *)
Definition op_path (o : json_op) : string :=
  match o with ReplaceList p _ | ReplaceMap p _ | RemovePath p => p end.
Definition metadata_patch (b : patch) : bool :=
  match b with
  | JSONPatch ops => forallb (λ o, HasPrefix (op_path o) "/metadata/annotations" ||
                                   bool_decide (op_path o = "/metadata/finalizers")) ops
  | _ => true
  end.
Definition patched_labels (b : patch) (l l' : smap) : Prop :=
  l' = l ∨ match b with MergeLabels m => l' = m ∪ l | _ => False end.

Class ApiServer (W : Type) := {
  serve : handler W;
  (** the pods, by name and namespace *)
  store : W → pod_store;
  (** the number of mounts stacked on a path *)
  mounts : W → string → nat;
  store_named n ns w p : store w !! (n, ns) = Some p → pod_Name p = n ∧ pod_Namespace p = ns;
  serve_get c n ns w p : store w !! (n, ns) = Some p → (serve _ (PodGet c n ns) w).1 = Ok p;
  serve_get_none c n ns w : store w !! (n, ns) = None →
    ∃ e, (serve _ (PodGet c n ns) w).1 = Err e ∧ IsNotFound e = true;
  serve_replace n ns m w p :
    store w !! (n, ns) = Some p → annotations p ≠ ∅ →
    ∃ w', serve _ (PodPatch n ns (JSONPatch [ReplaceMap "/metadata/annotations" m])) w = (None, w')
      ∧ store w' = <[(n, ns) := set_pod_Annotations (Some m) p]> (store w);
  serve_remove n ns path k w p :
    store w !! (n, ns) = Some p → is_Some (annotations p !! k) →
    pointer_tokens path = Some ["metadata"; "annotations"; k] →
    ∃ w', serve _ (PodPatch n ns (JSONPatch [RemovePath path])) w = (None, w') ∧
      store w' = <[(n, ns) := set_pod_Annotations (Some (delete k (annotations p))) p]> (store w);
  serve_delete n ns w p :
    store w !! (n, ns) = Some p →
    ∃ w' p', serve _ (PodDelete n ns) w = (None, w') ∧ deleted_to p p' ∧
      store w' = partial_alter (λ _, p') (n, ns) (store w);
  serve_create p w :
    pod_Name p ≠ "" → store w !! (pod_Name p, pod_Namespace p) = None →
    ∃ p' w', serve _ (PodCreate p) w = (Ok p', w') ∧ created_as p p' ∧
      store w' = <[(pod_Name p, pod_Namespace p) := p']> (store w);
  (** a list that does not come from the cache of the server *)
  serve_list ns sel fields w pods p :
    (serve _ (PodList ns sel fields false) w).1 = Ok pods → p ∈ pods →
    store w !! (pod_Name p, ns) = Some p ∧ selected sel p;
  (** such a list is complete when only labels select *)
  serve_list_all ns sel w pods n p :
    (serve _ (PodList ns (Some sel) None false) w).1 = Ok pods → ls_MatchExpressions sel = [] →
    store w !! (n, ns) = Some p → selected (Some sel) p → p ∈ pods;
  (** what the other writes leave of a pod *)
  serve_patch n ns b w p' :
    metadata_patch b = true → store (serve _ (PodPatch n ns b) w).2 !! (n, ns) = Some p' →
    ∃ p, store w !! (n, ns) = Some p ∧ patched_labels b (pod_Labels p) (pod_Labels p') ∧
      pod_DeletionTimestamp p' = pod_DeletionTimestamp p ∧ pod_Spec p' = pod_Spec p;
  serve_delete_none n ns w :
    store w !! (n, ns) = None → store (serve _ (PodDelete n ns) w).2 !! (n, ns) = None;
  serve_create_taken p w :
    is_Some (store w !! (pod_Name p, pod_Namespace p)) →
    store (serve _ (PodCreate p) w).2 = store w;
  serve_frame X (e : event X) w k :
    pod_written e ≠ Some k → store (serve _ e w).2 !! k = store w !! k;
  serve_mounts X (e : event X) w t : adds_mounts e = false → mounts (serve _ e w).2 t ≤ mounts w t;
  serve_umount t : umount_law serve t (λ w, mounts w t);
  serve_cleanup t w : mounts w t = 0 → (serve _ (CleanupMountPoint t false) w).1 = None
}.
Arguments serve {W _ X} e w : rename.

(** ** Reading a pod *)

Section api_facts.
Context {W : Type} {S : ApiServer W}.

(** A read leaves the pods and adds no mount. *)
Definition same_store (w w' : W) : Prop := store w' = store w ∧ ∀ t, mounts w' t ≤ mounts w t.

#[export] Instance same_store_preorder : PreOrder same_store.
Proof.
  split; [by split|]. intros w1 w2 w3 [H1 M1] [H2 M2]. split; [congruence|].
  intros t. specialize (M1 t). specialize (M2 t). lia.
Qed.

Lemma serve_same {X} (e : event X) w x w' :
  serve e w = (x, w') → writes_pods e = false → adds_mounts e = false → same_store w w'.
Proof.
  intros E H1 H2. split; [|intros t]; replace w' with (serve e w).2 by (by rewrite E).
  - apply map_eq. intros k. apply serve_frame. unfold writes_pods in H1. by destruct (pod_written e).
  - by apply serve_mounts.
Qed.

(** The pod [k] as it was, and no mount more: what a thread that does not write
    the pod does to the world. *)
Definition spared (k : string * string) (w w' : W) : Prop :=
  store w' !! k = store w !! k ∧ ∀ t, mounts w' t ≤ mounts w t.

#[export] Instance spared_preorder k : PreOrder (spared k).
Proof.
  split; [by split|]. intros w1 w2 w3 [H1 M1] [H2 M2]. split; [congruence|].
  intros t. specialize (M1 t). specialize (M2 t). lia.
Qed.

Lemma serve_spared k {X} (e : event X) w :
  pod_written e ≠ Some k → adds_mounts e = false → spared k w (serve e w).2.
Proof. intros H1 H2. split; [by apply serve_frame|]. intros t. by apply serve_mounts. Qed.

(** Two calls while others write other pods: the read of a pod, which answers
    with the stored pod or that there is none, and the unmount loop, with fuel
    for the mounts on the target. *)
Lemma rwp_get {A} n ns c (Iv : W → Prop) (k : result Pod → prog A) w Q :
  (∀ w', spared (n, ns) w w' → Iv w') →
  (∀ e w', spared (n, ns) w w' → store w !! (n, ns) = None → IsNotFound e = true →
     rwp (@serve W S) (spared (n, ns)) Iv (k (Err e)) w' Q) →
  (∀ p w', spared (n, ns) w w' → store w !! (n, ns) = Some p →
     rwp (@serve W S) (spared (n, ns)) Iv (k (Ok p)) w' Q) →
  rwp (@serve W S) (spared (n, ns)) Iv (bind (GetPod c n ns) k) w Q.
Proof.
  intros HI He Hp. apply rwp_call. intros w1 H1. split; [by apply HI|]. intros r w2 E.
  assert (spared (n, ns) w w2) as H2.
  { etrans; [exact H1|]. replace w2 with (serve (PodGet c n ns) w1).2 by (by rewrite E).
    by apply serve_spared. }
  destruct H1 as [H1 _]. destruct (store w !! (n, ns)) as [p|] eqn:Ep.
  - apply (serve_get c) in H1. rewrite E in H1. cbn in H1. subst r. by apply Hp.
  - apply (serve_get_none c) in H1 as (e & H1 & Hn). rewrite E in H1. cbn in H1. subst r. by apply He.
Qed.

Lemma rwp_umount_until_gone `{!Fuel} k (Iv : W → Prop) t w :
  mounts w t < fuel → (∀ w', spared k w w' → Iv w') →
  rwp (@serve W S) (spared k) Iv (umount_until_gone t) w
    (λ o w', o = Done None ∧ spared k w w' ∧ mounts w' t = 0).
Proof.
  unfold umount_until_gone. generalize fuel. intros n. revert w.
  induction n as [|n IH]; intros w Hn HI; [lia|]. cbn [loop]. apply rwp_bind; [apply _|].
  apply rwp_call. intros w1 H1. split; [by apply HI|]. intros x w2 E.
  assert (spared k w w2) as H2.
  { etrans; [exact H1|]. replace w2 with (serve (Exec Background "umount" ["-l"; t]) w1).2
      by (by rewrite E). by apply serve_spared. }
  assert (∀ w', spared k w2 w' → Iv w') as HI2 by (intros; apply HI; by etrans).
  destruct H1 as [_ H1]. specialize (H1 t). destruct (mounts w1 t) as [|j] eqn:Hw.
  - destruct (umount_none _ _ _ (serve_umount t) w1 Background Hw) as (out & e & w3 & E' & Hc & Ho).
    rewrite E in E'. injection E' as -> ->. cbn [fst snd]. rewrite Ho. intros w' H'.
    split; [by apply HI2|]. intros w4 H4. split; [apply HI2; by etrans|]. split; [done|].
    split; [by do 2 (etrans; [|eassumption])|]. destruct H' as [_ H'], H4 as [_ H4].
    specialize (H' t). specialize (H4 t). lia.
  - destruct (umount_some _ _ _ (serve_umount t) w1 j Background Hw) as (out & w3 & E' & Hc).
    rewrite E in E'. injection E' as -> ->. cbn [fst snd]. intros w' H'. split; [by apply HI2|].
    eapply rwp_mono; [|apply IH; [|intros; apply HI2; by etrans]].
    + intros o w4 (-> & H4 & H0). split_and!; [done| |done]. by do 2 (etrans; [|eassumption]).
    + destruct H' as [_ H']. specialize (H' t). lia.
Qed.
End api_facts.

(** ** A server in memory *)

Record memory := MkMemory { mem_pods : pod_store; mem_mounts : gmap string nat }.

Definition mem_patch (b : patch) (p : Pod) : option Pod :=
  match b with
  | JSONPatch [ReplaceMap "/metadata/annotations" m] =>
      if decide (annotations p = ∅) then None else Some (set_pod_Annotations (Some m) p)
  | JSONPatch [RemovePath path] =>
      match pointer_tokens path with
      | Some ["metadata"; "annotations"; k] =>
          if decide (annotations p !! k = None) then None
          else Some (set_pod_Annotations (Some (delete k (annotations p))) p)
      | _ => None
      end
  | JSONPatch [ReplaceList "/metadata/finalizers" l] => Some (set_pod_Finalizers l p)
  | MergeAnnotations m => Some (set_pod_Annotations (Some (m ∪ annotations p)) p)
  | MergeLabels m => Some (set_pod_Labels (m ∪ pod_Labels p) p)
  | _ => None
  end.

Definition mem_deleted (p : Pod) : option Pod :=
  if decide (pod_Finalizers p = []) then None
  else Some (set_pod_DeletionTimestamp (Some (default 0%Z (pod_DeletionTimestamp p))) p).

Definition mem_umount (c : ctx) (t : string) (w : memory) : (string * option error) * memory :=
  match default 0 (mem_mounts w !! t) with
  | O => (("umount: " +:+ t +:+ ": not mounted", Some (ErrNew "exit status 32")), w)
  | S n => (("", None), MkMemory (mem_pods w) (<[t := n]> (mem_mounts w)))
  end.

(** The pods that are stored under their own name; a deleted pod is there as long
    as it has finalizers. *)
Definition mem_present (p : Pod) : Prop := pod_DeletionTimestamp p = None ∨ pod_Finalizers p ≠ [].
#[local] Instance mem_present_dec p : Decision (mem_present p).
Proof. apply _. Defined.
Definition mem_store (w : memory) : pod_store :=
  filter (λ kp, (pod_Name kp.2, pod_Namespace kp.2) = kp.1 ∧ mem_present kp.2) (mem_pods w).

Definition mem_selects (ns : string) (sel : option LabelSelector) (fields : option smap)
    (p : Pod) : bool :=
  bool_decide (pod_Namespace p = ns) &&
  match sel with Some s => bool_decide (ls_MatchLabels s ⊆ pod_Labels p) | None => true end &&
  match fields ≫= (.!! "spec.nodeName") with
  | Some n => bool_decide (spec_NodeName (pod_Spec p) = n)
  | None => true
  end.

(** What is not about pods and mounts gets
    the default answer. *)
Definition mem_serve : handler memory := λ X e w,
  match e in event X return X * memory with
  | PodGet c n ns =>
      (match mem_store w !! (n, ns) with Some p => Ok p | None => absent end, w)
  | PodList ns sel fields cached =>
      (Ok (filter (λ p, mem_selects ns sel fields p = true) (snd <$> map_to_list (mem_store w))), w)
  | PodCreate p =>
      match mem_store w !! (pod_Name p, pod_Namespace p) with
      | Some _ => (Err (ErrApi AlreadyExists "already exists"), w)
      | None =>
          let p := set_pod_DeletionTimestamp None p in
          (Ok p, MkMemory (<[(pod_Name p, pod_Namespace p) := p]> (mem_pods w)) (mem_mounts w))
      end
  | PodPatch n ns b =>
      match mem_store w !! (n, ns) ≫= mem_patch b with
      | Some p => (None, MkMemory (<[(n, ns) := p]> (mem_pods w)) (mem_mounts w))
      | None => (Some (ErrApi Invalid "patch"), w)
      end
  | PodDelete n ns =>
      match mem_store w !! (n, ns) with
      | Some p => (None, MkMemory (partial_alter (λ _, mem_deleted p) (n, ns) (mem_pods w))
                           (mem_mounts w))
      | None => (Some (ErrApi NotFound "not found"), w)
      end
  | Exec c cmd [a; t] =>
      if decide (cmd = "umount" ∧ a = "-l") then mem_umount c t w
      else (quiet (Exec c cmd [a; t]), w)
  | e => (quiet e, w)
  end.

Lemma mem_umount_law t : umount_law mem_serve t (λ w, default 0 (mem_mounts w !! t)).
Proof.
  split.
  - intros w n c Hw. cbn. unfold mem_umount. rewrite Hw. eexists _, _. split; [done|].
    cbn. by rewrite lookup_insert_eq.
  - intros w c Hw. cbn. unfold mem_umount. rewrite Hw. eexists _, _, _. split_and!; [done..|].
    unfold not_mounted_output. rewrite !orb_true_iff. left. left. apply Contains_true.
    exists ("umount: " +:+ t +:+ ": "), "". cbn. by rewrite !append_assoc.
Qed.

Lemma mem_store_Some w n ns p :
  mem_store w !! (n, ns) = Some p ↔
  (mem_pods w !! (n, ns) = Some p ∧ mem_present p) ∧ pod_Name p = n ∧ pod_Namespace p = ns.
Proof. unfold mem_store. rewrite map_lookup_filter_Some. naive_solver. Qed.

Lemma mem_store_insert w n ns p m :
  pod_Name p = n → pod_Namespace p = ns → mem_present p →
  mem_store (MkMemory (<[(n, ns) := p]> (mem_pods w)) m) = <[(n, ns) := p]> (mem_store w).
Proof. intros <- <- ?. unfold mem_store. cbn [mem_pods]. by rewrite map_filter_insert_True. Qed.

Lemma mem_store_delete w k m :
  mem_store (MkMemory (delete k (mem_pods w)) m) = delete k (mem_store w).
Proof. unfold mem_store. cbn [mem_pods]. by rewrite map_filter_delete. Qed.

Lemma mem_store_ne w k k' p m :
  k' ≠ k → mem_store (MkMemory (partial_alter p k' (mem_pods w)) m) !! k = mem_store w !! k.
Proof.
  intros Hk. unfold mem_store. cbn [mem_pods]. apply option_eq. intros q.
  rewrite !map_lookup_filter_Some. by rewrite lookup_partial_alter_ne.
Qed.

Lemma mem_frame X (e : event X) w k :
  pod_written e ≠ Some k → mem_store (mem_serve X e w).2 !! k = mem_store w !! k.
Proof.
  destruct e; try done; intros Hk; cbn [mem_serve]; cbn in Hk.
  - case_match; [done|]. cbn [snd]. apply mem_store_ne. intros <-. by apply Hk.
  - case_match; [|done]. cbn [snd]. apply mem_store_ne. congruence.
  - case_match; [|done]. cbn [snd]. apply mem_store_ne. congruence.
  - repeat case_match; try done. unfold mem_umount. by case_match.
Qed.

Lemma mem_umount_le c s w t :
  default 0 (mem_mounts (mem_umount c s w).2 !! t) ≤ default 0 (mem_mounts w !! t).
Proof.
  unfold mem_umount. destruct (default 0 (mem_mounts w !! s)) as [|n] eqn:E; [done|]. cbn [snd].
  cbn [mem_mounts]. destruct (decide (s = t)) as [->|?]; [|by rewrite lookup_insert_ne].
  rewrite lookup_insert_eq, E. cbn. lia.
Qed.

Lemma mem_mounts_le X (e : event X) w t :
  adds_mounts e = false →
  default 0 (mem_mounts (mem_serve X e w).2 !! t) ≤ default 0 (mem_mounts w !! t).
Proof.
  destruct e; try done; intros _; cbn; repeat case_match; try done. apply mem_umount_le.
Qed.

Lemma mem_patch_kept b p p' :
  metadata_patch b = true → mem_patch b p = Some p' →
  patched_labels b (pod_Labels p) (pod_Labels p') ∧ pod_Name p' = pod_Name p ∧
  pod_Namespace p' = pod_Namespace p ∧ pod_DeletionTimestamp p' = pod_DeletionTimestamp p ∧
  pod_Spec p' = pod_Spec p.
Proof.
  intros _ H. unfold mem_patch in H. unfold patched_labels.
  repeat (case_match; simplify_eq/=); eauto 10.
Qed.

Lemma mem_serve_patch n ns b w p' :
  metadata_patch b = true → mem_store (mem_serve _ (PodPatch n ns b) w).2 !! (n, ns) = Some p' →
  ∃ p, mem_store w !! (n, ns) = Some p ∧ patched_labels b (pod_Labels p) (pod_Labels p') ∧
    pod_DeletionTimestamp p' = pod_DeletionTimestamp p ∧ pod_Spec p' = pod_Spec p.
Proof.
  intros Hb. cbn [mem_serve]. destruct (mem_store w !! (n, ns)) as [p|] eqn:Hp; cbn [mbind option_bind].
  - destruct (mem_patch b p) as [q|] eqn:Eq; cbn [snd]; [|rewrite Hp; intros [= <-]; exists p; by repeat split; [left|..]].
    destruct (mem_patch_kept b p q Hb Eq) as (Hl & Hn & Hns & Hd & Hs).
    intros Hp'. exists p. apply mem_store_Some in Hp' as ([Hp' _] & _). cbn [mem_pods] in Hp'.
    rewrite lookup_insert_eq in Hp'. by injection Hp' as <-.
  - cbn [snd]. by rewrite Hp.
Qed.

#[export] Instance memory_server : ApiServer memory.
Proof.
  refine {| serve := mem_serve; store := mem_store;
            mounts w t := default 0 (mem_mounts w !! t) |}.
  - intros n ns w p. by intros [_ Hp]%mem_store_Some.
  - intros c n ns w p Hp. cbn [mem_serve]. by rewrite Hp.
  - intros c n ns w Hp. cbn [mem_serve]. rewrite Hp. by eexists.
  - intros n ns m w p Hp Ha. cbn [mem_serve]. rewrite Hp. cbn [mbind option_bind mem_patch].
    rewrite decide_False by done. eexists. split; [done|].
    apply mem_store_Some in Hp as ([_ ?] & ? & ?). by apply mem_store_insert.
  - intros n ns path k w p Hp [v Hv] Ht. cbn [mem_serve]. rewrite Hp. cbn [mbind option_bind mem_patch].
    rewrite Ht, decide_False by congruence. eexists. split; [done|].
    apply mem_store_Some in Hp as ([_ ?] & ? & ?). by apply mem_store_insert.
  - intros n ns w p Hp. cbn [mem_serve]. rewrite Hp. eexists _, (mem_deleted p). split; [done|].
    apply mem_store_Some in Hp as (_ & ? & ?). unfold deleted_to, mem_deleted. case_decide.
    + split; [done|]. apply mem_store_delete.
    + split; [|by apply mem_store_insert; [| |right]]. eexists. split; [done|]. by intros t' ->.
  - intros p w _ Hp. cbn [mem_serve]. rewrite Hp. eexists _, _. split; [done|]. split; [done|].
    by apply mem_store_insert; [| |left].
  - intros ns sel fields w pods p. cbn [mem_serve fst]. intros [= <-] [Hs Hp]%list_elem_of_filter.
    apply list_elem_of_fmap in Hp as ([[n ns'] q] & -> & Hq%elem_of_map_to_list). cbn [snd] in *.
    pose proof Hq as (_ & Hn & Hns)%mem_store_Some.
    unfold mem_selects in Hs. rewrite !andb_true_iff in Hs. destruct Hs as [[Hs1 Hs2] _].
    apply bool_decide_eq_true in Hs1. subst. split; [done|].
    intros s ->. by apply bool_decide_eq_true in Hs2.
  - intros ns sel w pods n p. cbn [mem_serve fst]. intros [= <-] _ Hp Hs.
    pose proof Hp as (_ & _ & Hns)%mem_store_Some. apply list_elem_of_filter. split.
    + unfold mem_selects. cbn. rewrite !bool_decide_eq_true_2; [done| |done]. by apply Hs.
    + apply list_elem_of_fmap. exists ((n, ns), p). split; [done|]. by apply elem_of_map_to_list.
  - apply mem_serve_patch.
  - intros n ns w Hp. cbn [mem_serve]. by rewrite Hp.
  - intros p w [q Hq]. cbn [mem_serve]. by rewrite Hq.
  - apply mem_frame.
  - apply mem_mounts_le.
  - apply mem_umount_law.
  - done.
Defined.
