(* ===== verification/PodMount.v ===== *)
(** * PodMount: mounting and unmounting volumes through mount pods

    [src/pkg/builder/mount.go].  A mount pod serves many targets; each target
    is recorded in an annotation of the pod under its reference key
    ([AddRefOfMount], [UmountTarget]), and the pod is deleted when no such
    annotation is left ([DUmount], [JUmount]). *)

From S2P Require Import Prelude GoStrings GoHash GoTime GoNum Objects Effects Config Demo Setting.
From S2P Require Import Util K8sClient Resource Builder ApiServer.

(** [GetRef]: the number of targets a pod records. *)
Definition GetRef (pod : Pod) : nat := size (GetAllRefKeys pod).

Section mount.
Context `{!Globals, !Ext, !Fuel}.

(** ** References *)

(** One attempt of [AddRefOfMount]. *)
Definition add_ref (c : ctx) (target podName : string) : prog (option error) :=
  let key := GetReferenceKey target in
  pod <-! GetPod c podName Namespace ;;
  if decide (pod_DeletionTimestamp pod ≠ None) then
    Ret (Some (ErrNew ("addRefOfMount: Mount pod [" +:+ podName +:+ "] has been deleted")))
  else if decide (is_Some (annotations pod !! key)) then Ret None
  else ReplacePodAnnotation pod
         (delete config.DeleteDelayAtKey (<[key := target]> (annotations pod))).

(** [AddRefOfMount]. *)
Definition AddRefOfMount (c : ctx) (target podName : string) : prog (option error) :=
  RetryOnConflict (add_ref c target podName).

(** One attempt of [UmountTarget]'s removal of the reference: [pod] is the pod
    read before, the annotations are read again. *)
Definition del_ref (c : ctx) (target : string) (pod : Pod) : prog (option error) :=
  let key := GetReferenceKey target in
  po <-! GetPod c (pod_Name pod) (pod_Namespace pod) ;;
  if decide (annotations po !! key = None) then Ret None
  else DelPodAnnotation pod [key].

(** [UmountTarget]. *)
Definition UmountTarget (c : ctx) (target podName : string) : prog (option error) :=
  check umount_until_gone target ;;
  check call (CleanupMountPoint target false) ;;
  if decide (podName = "") then Ret None
  else
    pod <- GetPod c podName Namespace ;;
    match pod with
    | Err e => if IsNotFound e then Ret None else Ret (Some e)
    | Ok pod => RetryOnConflict (del_ref c target pod)
    end.

(** [GetMountRef]. *)
Definition GetMountRef (c : ctx) (podName : string) : prog (result nat) :=
  pod <- GetPod c podName Namespace ;;
  match pod with
  | Err e => if IsNotFound e then Ret (Ok 0) else Ret (Err e)
  | Ok pod => Ret (Ok (GetRef pod))
  end.

(** One attempt of [DUmount]. *)
Definition dumount (c : ctx) (podName : string) : prog (option error) :=
  po <- GetPod c podName Namespace ;;
  match po with
  | Err e => if IsNotFound e then Ret None else Ret (Some e)
  | Ok po =>
      if decide (GetRef po ≠ 0) then Ret None
      else
        shouldDelay <-! ShouldDelay po ;;
        if shouldDelay : bool then Ret None
        else
          check DeletePod (Some po) ;;
          DeleteSecret (pod_Name po +:+ "-secret") (pod_Namespace po) ;;;
          serviceUniqueId <- last_n 6 podName ;;
          DeleteService (service_name NodeName serviceUniqueId) (pod_Namespace po) ;;;
          Ret None
  end.

(** [DUmount]. *)
Definition DUmount (c : ctx) (podName : string) : prog (option error) :=
  RetryOnConflict (dumount c podName).

(** One attempt of [JUmount], which leaves the service alone. *)
Definition jumount (c : ctx) (podName : string) : prog (option error) :=
  po <- GetPod c podName Namespace ;;
  match po with
  | Err e => if IsNotFound e then Ret None else Ret (Some e)
  | Ok po =>
      if decide (GetRef po ≠ 0) then Ret None
      else
        shouldDelay <-! ShouldDelay po ;;
        if shouldDelay : bool then Ret None
        else
          check DeletePod (Some po) ;;
          DeleteSecret (pod_Name po +:+ "-secret") (pod_Namespace po) ;;;
          Ret None
  end.
Definition JUmount (c : ctx) (podName : string) : prog (option error) :=
  RetryOnConflict (jumount c podName).

(** The end of [DfsUnmount] of the driver, once the mount pod of a target is
    found: the target is unmounted, and the pod too when it was the last. *)
Definition release_target (c : ctx) (target podName : string) : prog (option error) :=
  check UmountTarget c target podName ;;
  if decide (podName = "") then Ret None
  else
    refs <-! GetMountRef c podName ;;
    if decide (refs = 0) then DUmount c podName else Ret None.

(** ** Creating the mount pod *)

(** The directory of the mount point, in [createPodOrAddRef]. *)
Definition prepare_dir (mountPath : string) : prog (option error) :=
  r <- call (PathExists mountPath) ;;
  if r.1 : bool then Ret None
  else
    st <- call (Stat mountPath) ;;
    u <- match st with
         | Err e =>
             if Contains (error_text e) "transport endpoint is not connected"
             then umount_until_gone mountPath else Ret None
         | Ok _ => Ret None
         end ;;
    match u with
    | Some e => Ret (Some e)
    | None => call (MkdirAll mountPath 511)
    end.

(** The node of a new mount pod: a selector instead of a node name when the
    node can be selected, with the scheduling of the application pod. *)
Definition place_pod (c : ctx) (appinfo : option AppInfo) (newPod : Pod) : prog Pod :=
  let node := spec_NodeName (pod_Spec newPod) in
  let nodeSelector : smap := {[ hostname_label := node ]} in
  nodes <- ListNode (Some (MkLabelSelector nodeSelector [])) ;;
  match nodes with
  | Ok [n] =>
      if decide (node_Name n = node) then
        let newPod := upd_spec (λ s, set_spec_NodeSelector nodeSelector
                                       (set_spec_NodeName "" s)) newPod in
        match appinfo with
        | Some app =>
            if decide (app_Name app = "") then Ret newPod
            else
              appPod <- GetPod c (app_Name app) (app_Namespace app) ;;
              match appPod with
              | Err _ => Ret newPod
              | Ok appPod =>
                  let sp := pod_Spec appPod in
                  Ret (upd_spec (λ s, set_spec_Tolerations (spec_Tolerations sp)
                         (set_spec_SchedulerName (spec_SchedulerName sp)
                         (set_spec_Affinity (spec_Affinity sp) s))) newPod)
              end
        | None => Ret newPod
        end
      else Ret newPod
  | _ => Ret newPod
  end.

(** The branch of [createPodOrAddRef] that creates the pod. *)
Definition create_mount_pod (c : ctx) (podName : string) (appinfo : option AppInfo)
    (secret : Secret) (s : DfsSetting) : prog (DfsSetting * option error) :=
  let key := GetReferenceKey (s_TargetPath s) in
  r <- NewMountPod s podName ;;
  let '(s, r) := r in
  match r with
  | Err e => Ret (s, Some e)
  | Ok newPod =>
      let newPod := set_pod_Annotations
                      (Some (<[key := s_TargetPath s]> (annotations newPod))) newPod in
      uid <- last_n 6 podName ;;
      let newPod := set_pod_Labels
                      (<[config.PodUniqueIdLabelKey := uid]>
                        (<[config.PodHashLabelKey := s_HashVal s]> (pod_Labels newPod))) newPod in
      newPod <- place_pod c appinfo newPod ;;
      e <- CreateOrUpdateSecret secret ;;
      match e with
      | Some e => Ret (s, Some e)
      | None => r <- CreatePod (Some newPod) ;; Ret (s, result_err r)
      end
  end.

(** [createPodOrAddRef]. *)
Definition createPodOrAddRef (c : ctx) (podName : string) (s : DfsSetting)
    (appinfo : option AppInfo) : prog (DfsSetting * option error) :=
  suffix <- last_n 7 podName ;;
  let s := set_s_MountPath (s_MountPath s +:+ suffix) s in
  let s := set_s_SecretName ("dingofs-" +:+ s_UniqueId s +:+ "-secret") s in
  e <- DoWithTimeout_err c (3 * Second) (prepare_dir (s_MountPath s)) ;;
  match e with
  | Some e => Ret (s, Some e)
  | None =>
      let secret := SetPVAsOwner (NewSecret s) (s_PV s) in
      let waitCtx := WithTimeout c (60 * Second) in
      loop fuel (λ _ : unit,
        oldPod <- GetPod waitCtx podName Namespace ;;
        match oldPod with
        | Ok oldPod =>
            if decide (pod_DeletionTimestamp oldPod ≠ None) then
              call (Sleep (500 * Millisecond)) ;;; Ret (inl tt)
            else
              e <- CreateOrUpdateSecret secret ;;
              match e with
              | Some e => Ret (inr (s, Some e))
              | None => e <- AddRefOfMount c (s_TargetPath s) podName ;; Ret (inr (s, e))
              end
        | Err e =>
            if IsNotFound e then
              r <- create_mount_pod c podName appinfo secret s ;; Ret (inr r)
            else if IsTimeout e then
              Ret (inr (s, Some (ErrNew ("mount " +:+ s_VolumeId s +:+ " failed: mount pod "
                                         +:+ podName +:+ " deleting timeout"))))
            else Ret (inr (s, Some e))
        end) tt
  end.

(** [waitUtilMountReady]. *)
Definition waitUtilMountReady (c : ctx) (s : DfsSetting) (podName : string)
    : prog (option error) :=
  e <- WaitUtilMountReady c podName (s_MountPath s) config.DefaultCheckTimeout ;;
  match e with
  | None => Ret None
  | Some _ =>
      log <- GetErrContainerLog podName ;;
      src <- StripPasswd (s_Source s) ;;
      Ret (Some (ErrNew
        match log with
        | Err _ => "mount " +:+ src +:+ " at " +:+ s_MountPath s
                   +:+ " failed: mount isn't ready in 30 seconds"
        | Ok log => "mount " +:+ src +:+ " at " +:+ s_MountPath s +:+ " failed, mountpod: "
                    +:+ podName +:+ ", failed log: " +:+ log
        end))
  end.

(** The part of [DMount] under the lock of the setting's hash. *)
Definition mount_locked (c : ctx) (appInfo : option AppInfo) (s : DfsSetting)
    : prog (DfsSetting * result string) :=
  name <- GenMountPodName s ;;
  match name with
  | Err e => Ret (s, Err e)
  | Ok mountPodName =>
      e <- match appInfo with
           | Some app =>
               if bool_decide (app_Name app ≠ "") && bool_decide (app_Namespace app ≠ "")
               then SetMountLabel (app_Name app) (app_Namespace app) else Ret None
           | None => Ret None
           end ;;
      match e with
      | Some e => Ret (s, Err e)
      | None =>
          r <- createPodOrAddRef c mountPodName s appInfo ;;
          Ret (r.1, match r.2 with Some e => Err e | None => Ok mountPodName end)
      end
  end.

(** [DMount]. *)
Definition DMount (c : ctx) (appInfo : option AppInfo) (s : DfsSetting)
    : prog (DfsSetting * option error) :=
  let hashVal := GenHashOfSetting s in
  let s := set_s_HashVal hashVal s in
  r <- with_mutex (GetPodLock hashVal) (mount_locked c appInfo s) ;;
  match r with
  | (s, Err e) => Ret (s, Some e)
  | (s, Ok mountPodName) => e <- waitUtilMountReady c s mountPodName ;; Ret (s, e)
  end.

(** ** Jobs *)

(** [getNotCompleteCnLog]. *)
Definition getNotCompleteCnLog (c : ctx) (podName : string) : prog (result string) :=
  pod <-? GetPod c podName Namespace ;;
  let st := pod_Status pod in
  match list_find (λ cn, snd <$> cs_Terminated cn ≠ Some "Completed")
          (ps_InitContainerStatuses st ++ ps_ContainerStatuses st) with
  | Some (_, cn) => GetPodLog (pod_Name pod) (pod_Namespace pod) (cs_Name cn)
  | None => Ret (Ok "")
  end.

(** [waitUtilJobCompleted]: the loop leaves with [Some] result, or with [None]
    when the time is up. *)
Definition job_round (waitCtx : ctx) (jobName : string)
    : prog (unit + option (option error)) :=
  job <- GetJob waitCtx jobName Namespace ;;
  match job with
  | Err e =>
      if IsNotFound e then Ret (inr (Some None))
      else
        w <- call (CtxErr waitCtx) ;;
        match w with
        | Some _ => Ret (inr None)
        | None => Ret (inr (Some (Some (ErrNew ("waitUtilJobCompleted: Get job " +:+ jobName
                                                +:+ " failed: " +:+ error_text e)))))
        end
  | Ok job =>
      if IsJobCompleted job then
        rc <- IsJobShouldBeRecycled job ;;
        (if rc : bool then DeleteJob jobName Namespace ;;; Ret tt else Ret tt) ;;;
        Ret (inr (Some None))
      else call (Sleep (500 * Millisecond)) ;;; Ret (inl tt)
  end.

Definition waitUtilJobCompleted (c : ctx) (jobName : string) : prog (option error) :=
  r <- loop fuel (λ _, job_round (WithTimeout c (40 * Second)) jobName) tt ;;
  match r with
  | Some e => Ret e
  | None =>
      pods <- ListPod Namespace
                (Some (MkLabelSelector {[ "job-name" := jobName ]} [])) None ;;
      match pods with
      | Ok (pod :: _) =>
          cnlog <- getNotCompleteCnLog c (pod_Name pod) ;;
          Ret (Some (ErrNew
            match cnlog with
            | Err e => "waitUtilJobCompleted: get pod " +:+ pod_Name pod +:+ " log error "
                       +:+ error_text e
            | Ok cnlog => "waitUtilJobCompleted: job " +:+ jobName +:+ " isn't completed: "
                          +:+ cnlog
            end))
      | Ok [] | Err _ =>
          Ret (Some (ErrNew ("waitUtilJobCompleted: get pod from job " +:+ jobName +:+ " error "
                 +:+ nil_text (result_err pods))))
      end
  end.

(** The job of [DeleteVolume] and [CleanCache], taken as it is or created. *)
Definition get_or_create_job (c : ctx) (job : Job) : prog (result Job) :=
  old <- GetJob c (job_Name job) (job_Namespace job) ;;
  match old with
  | Err e =>
      if IsNotFound e then
        r <-? CreateJob (Some job) ;; Ret (Ok (default job r))
      else Ret (Err e)
  | Ok old => Ret (Ok old)
  end.

(** The wait with its fallback: the job is deleted when it did not complete. *)
Definition await_job (c : ctx) (job : Job) : prog (option error) :=
  e <- waitUtilJobCompleted c (job_Name job) ;;
  match e with
  | Some e => DeleteJob (job_Name job) (job_Namespace job) ;;; Ret (Some e)
  | None => Ret None
  end.

(** [createOrUpdateSecret], the same as the one of the resource package. *)
Definition createOrUpdateSecret (secret : Secret) : prog (option error) :=
  RetryOnConflict (create_or_update_secret secret).

(** [DeleteVolume]. *)
Definition DeleteVolume (c : ctx) (s : DfsSetting) : prog (option error) :=
  r <- NewJobForDeleteVolume s ;;
  let '(s, job) := r in
  owner <-! get_or_create_job c job ;;
  check createOrUpdateSecret (SetJobAsOwner (NewSecret s) owner) ;;
  await_job c job.

(** [CleanCache]: only a failure to set the job up is returned. *)
Definition CleanCache (c : ctx) (image id volumeId : string) (cacheDirs : list string)
    : prog (option error) :=
  match ParseSetting (Some {[ "name" := id ]}) None (Some []) None None with
  | Err e => Ret (Some e)
  | Ok s =>
      let s := set_s_Attr (set_a_Image image <$> s_Attr s) s in
      let s := set_s_FSID id (set_s_CacheDirs cacheDirs (set_s_VolumeId volumeId s)) in
      job <- NewJobForCleanCache s ;;
      _ <-! get_or_create_job c job ;;
      await_job c job ;;;
      Ret None
  end.
End mount.

(** * Properties *)

(** ** Deletion only without references *)

(** The answer of the latest read of a pod, and the latest clock reading. *)
Fixpoint last_get (tr : trace) : option Pod :=
  match tr with
  | Call (PodGet _ _ _) (Ok p) :: _ => Some p
  | Call (PodGet _ _ _) (Err _) :: _ => None
  | _ :: tr => last_get tr
  | [] => None
  end.
Fixpoint last_now (tr : trace) : option Z :=
  match tr with
  | Call Now t :: _ => Some t
  | _ :: tr => last_now tr
  | [] => None
  end.

(** No delay was asked for, or it is unreadable, or it is over. *)
Definition delay_over (p : Pod) (tr : trace) : Prop :=
  match annotations p !! config.DeleteDelayTimeKey, annotations p !! config.DeleteDelayAtKey with
  | None, _ => True
  | Some d, None => is_ok (ParseDuration d) = false
  | Some _, Some at' =>
      match GetTime at' with
      | Err _ => True
      | Ok t => ∃ now, last_now tr = Some now ∧ (t ≤ now)%Z
      end
  end.

(** A pod may be deleted when it is the pod read last, which had no reference
    and whose delay was over. *)
Definition delete_guard : guard := λ Y e _ tr,
  match e with
  | PodDelete n ns =>
      ∃ p, last_get tr = Some p ∧ pod_Name p = n ∧ pod_Namespace p = ns ∧ GetRef p = 0 ∧
           delay_over p tr
  | _ => True
  end.
Abbreviation safe_deletes := (guarded delete_guard).

Section mount_facts.
Context {G : Globals} {X : Ext} {F : Fuel}.

(** [ShouldDelay] reads no pod and deletes none; when it answers "no" the delay
    is over. *)
Lemma ShouldDelay_over pod tr (Q : outcome (result bool) → trace → Prop) :
  (∀ e tr', last_get tr' = last_get tr → (safe_deletes tr → safe_deletes tr') →
     Q (Done (Err e)) tr') →
  (∀ tr', last_get tr' = last_get tr → (safe_deletes tr → safe_deletes tr') →
     Q (Done (Ok true)) tr') →
  (∀ tr', last_get tr' = last_get tr → (safe_deletes tr → safe_deletes tr') →
     delay_over pod tr' → Q (Done (Ok false)) tr') →
  wp any_env (ShouldDelay pod) tr Q.
Proof.
  intros He Ht Hf. unfold ShouldDelay.
  destruct (annotations pod !! config.DeleteDelayTimeKey) as [d|] eqn:E1; [|].
  2: { cbn [wp]. apply Hf; [done..|]. unfold delay_over. by rewrite E1. }
  destruct (annotations pod !! config.DeleteDelayAtKey) as [at'|] eqn:E2.
  - destruct (GetTime at') as [t|] eqn:Et; cbn [call bind wp].
    + intros now _. destruct (Z.ltb_spec now t); [by apply Ht|]. apply Hf; [done..|].
      unfold delay_over. rewrite E1, E2, Et. exists now. split; [done|lia].
    + apply Hf; [done..|]. unfold delay_over. by rewrite E1, E2, Et.
  - unfold GetTimeAfterDelay. destruct (ParseDuration d) as [n|] eqn:Ed; cbn [call bind wp].
    + intros now _ off _. unfold AddPodAnnotation, PatchPod. cbn [call bind wp].
      intros [e|] _; [by apply He|by apply Ht].
    + apply Hf; [done..|]. unfold delay_over. by rewrite E1, E2, Ed.
Qed.

(** Calls that neither read nor delete a pod. *)
Lemma dumount_safe c podName tr :
  safe_deletes tr → wp any_env (dumount c podName) tr (λ _ tr', safe_deletes tr').
Proof.
  intros Hs. unfold dumount, GetPod. cbn [call bind wp].
  intros [po|e] _; [|by destruct (IsNotFound e)]. case_decide as Href; [done|]. apply wp_bind.
  apply ShouldDelay_over; [intros e tr' _ Ht; by apply Ht|intros tr' _ Ht; by apply Ht|].
  intros tr' Hlast Ht Hover. unfold DeletePod. cbn [call bind wp]. intros r _.
  assert (safe_deletes (Call (PodDelete (pod_Name po) (pod_Namespace po)) r :: tr')) as Hd.
  { split; [|by apply Ht]. exists po. split_and!; try done; lia. }
  destruct r as [e|]; [done|]. unfold DeleteSecret. cbn [call bind wp]. intros r _.
  apply wp_bind. unfold last_n. case_match; [|done]. cbn [call bind wp DeleteService].
  intros r' _. done.
Qed.

(** C6: Unmounting never deletes a mount pod that is in use: in every run of
    [DUmount], retries included, each deletion is of the pod just read, which
    had no reference left and no pending delay. *)
Theorem DUmount_safe c podName :
  wp any_env (DUmount c podName) [] (λ _ tr, safe_deletes tr).
Proof.
  apply (wp_RetryOnConflict _ safe_deletes); [done|done|].
  intros tr Hs. eapply wp_mono; [|by apply dumount_safe]. auto.
Qed.

(** ** The order of unmounting *)

Definition cleaned_up (target : string) : call_pred := λ Y e,
  match e in event Y return Y → Prop with
  | CleanupMountPoint t false => λ r, t = target ∧ r = None
  | _ => λ _, False
  end.
Definition found_unmounted (target : string) : call_pred := λ Y e,
  match e in event Y return Y → Prop with
  | Exec _ cmd args => λ r, cmd = "umount" ∧ args = ["-l"; target] ∧
                            not_mounted_output r.1 = true ∧ r.2 ≠ None
  | _ => λ _, False
  end.

Definition unref_guard (target : string) : guard := λ Y e _ tr,
  match e with
  | PodPatch _ _ b =>
      b = JSONPatch [RemovePath (annotation_path (GetReferenceKey target))] ∧
      happened (cleaned_up target) tr ∧ happened (found_unmounted target) tr
  | _ => True
  end.

(** C14: The reference of a target is dropped only after the target is unmounted
    and its mount point is cleaned up, and nothing but that reference is
    touched: every patch in a run of [UmountTarget] removes the annotation of
    this target, and comes after a successful cleanup and an unmount that found
    nothing mounted. *)
Theorem UmountTarget_order c target podName :
  wp any_env (UmountTarget c target podName) [] (λ _ tr, guarded (unref_guard target) tr).
Proof.
  unfold UmountTarget. apply wp_bind. unfold umount_until_gone.
  apply (wp_loop _ (λ _, guarded (unref_guard target))); [done|done|].
  intros _ tr Htr. cbn [call bind wp]. intros [out [e|]] _; cbn [wp fst snd]; [|done].
  destruct (not_mounted_output out) eqn:Ho; cbn [wp]; [|done].
  intros [e'|] _; cbn [wp]; [done|]. case_decide; [done|].
  unfold GetPod. cbn [call bind wp]. intros [pod|e'] _; [|by destruct (IsNotFound e')].
  set (ready tr := guarded (unref_guard target) tr ∧
    happened (cleaned_up target) tr ∧ happened (found_unmounted target) tr).
  apply (wp_RetryOnConflict _ ready).
  - split_and!; [done|right; by left|]. right. right. left. simpl. naive_solver.
  - intros tr' d (H1 & H2 & H3). split_and!; [done|by right|by right].
  - intros tr' (H1 & H2 & H3). unfold del_ref, GetPod. cbn [call bind wp].
    intros [po|e'] _; [|by split; [|intros _; split_and!; [done|right..]]].
    case_decide; cbn [wp]; [by split; [|intros _; split_and!; [done|right..]]|].
    unfold DelPodAnnotation, PatchPod. cbn [call wp]. intros r _.
    assert (guarded (unref_guard target) (Call (PodPatch (pod_Name pod) (pod_Namespace pod)
      (JSONPatch ((λ k, RemovePath (annotation_path k)) <$> [GetReferenceKey target]))) r
      :: Call (PodGet c (pod_Name pod) (pod_Namespace pod)) (Ok po) :: tr')) as Hg.
    { split; [|done]. split_and!; [done|by right|by right]. }
    split; [done|]. intros _. split_and!; [done|by do 2 right|by do 2 right].
Qed.

(** ** Creating the mount pod *)

Definition no_create : event_pred := λ X e, match e with PodCreate _ => false | _ => true end.

(** The API server said that the pod does not exist. *)
Definition read_absent (podName : string) : call_pred := λ X e,
  match e in event X return X → Prop with
  | PodGet _ n ns => λ r, n = podName ∧ ns = Namespace ∧
      match r with Ok _ => False | Err e => IsNotFound e = true end
  | _ => λ _, False
  end.
(** The secret of the given name was created, or the one read was updated. *)
Definition secret_written (name : string) : call_pred := λ X e,
  match e in event X return X → Prop with
  | SecretCreate s => λ r, sec_Name s = name ∧ is_ok r = true
  | SecretUpdate s => λ r, r = None
  | _ => λ _, False
  end.

(** What a new mount pod for [target] and the setting of hash [hash] must be. *)
Record new_mount_pod (target hash podName : string) (p : Pod) : Prop := {
  nmp_name : pod_Name p = podName;
  nmp_target : annotations p !! GetReferenceKey target = Some target;
  nmp_hash : m_get (pod_Labels p) config.PodHashLabelKey = hash;
  nmp_unique : last_n 6 podName = Ret (m_get (pod_Labels p) config.PodUniqueIdLabelKey);
  nmp_finalizer : config.Finalizer ∈ pod_Finalizers p;
  nmp_reusable : reusable p = true
}.

Definition create_guard (s : DfsSetting) (podName : string) : guard := λ Y e _ tr,
  match e with
  | PodCreate p => new_mount_pod (s_TargetPath s) (s_HashVal s) podName p ∧
      happened (read_absent podName) tr ∧
      happened (secret_written ("dingofs-" +:+ s_UniqueId s +:+ "-secret")) tr
  | _ => True
  end.

Lemma no_create_guard s podName Y (e : event Y) x tr :
  no_create Y e = true → create_guard s podName Y e x tr.
Proof. by destruct e. Qed.

Lemma within_DoWithTimeout_err (P : event_pred) c d f :
  P _ (Race c d) = true → within P f → within P (DoWithTimeout_err c d f).
Proof.
  intros HR Hf. unfold DoWithTimeout_err, DoWithTimeout. apply within_bind; [|done].
  apply within_bind; [by split|]. intros []; [|done..]. by apply within_bind.
Qed.

Lemma umount_until_gone_no_create t : within no_create (umount_until_gone t).
Proof. unfold umount_until_gone. within_run. Qed.
#[local] Hint Resolve umount_until_gone_no_create : go.

Lemma prepare_dir_no_create path : within no_create (prepare_dir path).
Proof. unfold prepare_dir. within_run. Qed.

(** The placement keeps the metadata, and the pod on this node. *)
Lemma place_pod_ok c appinfo p tr :
  spec_NodeName (pod_Spec p) = NodeName →
  wp any_env (place_pod c appinfo p) tr (λ o tr',
    extends no_create tr tr' ∧
    ∃ p', o = Done p' ∧ on_this_node p' = true ∧ pod_Name p' = pod_Name p ∧
      pod_Annotations p' = pod_Annotations p ∧ pod_Labels p' = pod_Labels p ∧
      pod_Finalizers p' = pod_Finalizers p ∧ pod_DeletionTimestamp p' = pod_DeletionTimestamp p ∧
      pod_Namespace p' = pod_Namespace p).
Proof.
  intros Hn. eapply wp_mono; [intros o tr' H; exact H|]. apply wp_and.
  { apply wp_within. unfold place_pod, ListNode, GetPod. within_run. }
  assert (on_this_node p = true) as Hon.
  { unfold on_this_node. by rewrite bool_decide_eq_true_2. }
  unfold place_pod, ListNode, GetPod. cbn [call bind wp]. intros [nodes|e] _; [|by eexists].
  destruct nodes as [|n [|? ?]]; [by eexists| |by eexists]. case_decide; [|by eexists].
  destruct appinfo as [app|]; [case_decide|]; cbn [call bind wp];
    [|intros [appPod|e] _|]; (eexists; split; [done|split; [|done]]);
    unfold on_this_node; apply orb_true_iff; right; apply bool_decide_eq_true_2;
    change (m_get {[hostname_label := spec_NodeName (pod_Spec p)]} hostname_label = NodeName);
    unfold m_get; by rewrite lookup_singleton_eq.
Qed.

Lemma CreateOrUpdateSecret_written secret tr :
  wp any_env (CreateOrUpdateSecret secret) tr (λ o tr',
    extends no_create tr tr' ∧ (o = Done None → happened (secret_written (sec_Name secret)) tr')).
Proof.
  apply wp_and.
  { apply wp_within, within_RetryOnConflict; [done|]. unfold create_or_update_secret. within_run. }
  apply (wp_RetryOnConflict _ (λ _, True)); [done..|]. intros tr' _.
  unfold create_or_update_secret, GetSecret, CreateSecret, UpdateSecret. cbn [call bind wp].
  intros [old|e] _; cbn [call wp].
  - intros r _. split; [|done]. intros [= ->]. by apply happened_here.
  - destruct (IsNotFound e); cbn [call bind wp]; [|done].
    intros [s'|e'] _; cbn [wp result_err bind]; split; try done. intros _. by apply happened_here.
Qed.

Lemma CreatePod_guarded s podName p tr :
  guarded (create_guard s podName) tr → create_guard s podName _ (PodCreate p) (Ok p) tr →
  wp any_env (CreatePod (Some p)) tr (λ _ tr', guarded (create_guard s podName) tr').
Proof.
  intros Hg Hp. cbn [CreatePod call bind wp]. intros r _.
  assert (guarded (create_guard s podName) (Call (PodCreate p) r :: tr)) as Hg' by done.
  destruct r as [p'|e]; [|done].
  eapply wp_mono; [|apply (wp_within _ no_create)].
  - intros o tr' H. by eapply extends_guarded; [apply no_create_guard|exact H|].
  - unfold findAvailableNodePort, createSerivce, last_n. within_run.
    generalize 100. intros k. induction k; cbn [random_ports]; within_run.
Qed.

Lemma create_mount_pod_guarded c podName appinfo secret s tr :
  sec_Name secret = "dingofs-" +:+ s_UniqueId s +:+ "-secret" →
  guarded (create_guard s podName) tr → happened (read_absent podName) tr →
  wp any_env (create_mount_pod c podName appinfo secret s) tr
    (λ _ tr', guarded (create_guard s podName) tr').
Proof.
  intros Hsec Hg Hr. unfold create_mount_pod. apply wp_bind.
  eapply wp_mono; [|apply NewMountPod_meta]. intros o tr1 [He1 Ho].
  assert (extends no_create tr tr1) as He.
  { eapply extends_mono; [|exact He1]. by intros Y []. }
  assert (guarded (create_guard s podName) tr1) as Hg1
    by (by eapply extends_guarded; [apply no_create_guard|exact He|]).
  destruct o as [[s' [p|e]]|m|]; [|done..]. destruct Ho as (a & -> & Hname & Hf & Hd & Hn & _).
  apply wp_bind. destruct (last_n 6 podName) as [uid| | |] eqn:Euid;
    [|unfold last_n in Euid; by case_decide..|done|done]. cbn [wp]. cbv beta iota zeta.
  set (p1 := set_pod_Labels _ _). apply wp_bind.
  eapply wp_mono; [|apply (place_pod_ok c appinfo p1); exact Hn].
  intros o tr2 (He2 & p2 & -> & Hon & Hn2 & Ha2 & Hl2 & Hf2 & Hd2 & _). apply wp_bind.
  eapply wp_mono; [|apply CreateOrUpdateSecret_written]. intros o tr3 (He3 & Hw).
  assert (extends no_create tr tr3) as He' by (etrans; [exact He|by etrans; [exact He2|]]).
  assert (guarded (create_guard s podName) tr3) as Hg3
    by (by eapply extends_guarded; [apply no_create_guard|exact He'|]).
  destruct o as [[e|]|m|]; [done| |done..]. apply wp_bind.
  eapply wp_mono; [|apply (CreatePod_guarded s podName p2 tr3); [done|]].
  - intros [r|m|] tr4 Hg4; cbn [wp]; [done|done|done].
  - split; [|split; [by eapply extends_happened|rewrite <-Hsec; by apply Hw]].
    split; unfold annotations, m_get; rewrite ?Ha2, ?Hl2, ?Hf2, ?Hn2.
    + exact Hname.
    + apply lookup_insert_eq.
    + cbn [p1 pod_Labels set_pod_Labels]. rewrite lookup_insert_ne by done.
      by rewrite lookup_insert_eq.
    + cbn [p1 pod_Labels set_pod_Labels]. by rewrite lookup_insert_eq.
    + exact Hf.
    + unfold reusable. rewrite Hd2, Hon. cbn. by rewrite Hd.
Qed.

(** C9: A mount pod is created only when the API server has just said that it
    does not exist and the secret of the volume is written; the pod created has
    the requested name, records the target that asked for it, carries the hash
    of the setting under which it is found again, the unique id its metrics
    service selects, the finalizer, and is bound to this node. *)
Theorem createPodOrAddRef_creates c podName s appinfo :
  wp any_env (createPodOrAddRef c podName s appinfo) [] (λ _ tr,
    guarded (create_guard s podName) tr).
Proof.
  unfold createPodOrAddRef. apply wp_bind. unfold last_n at 1. case_decide; [|done]. cbn [wp].
  set (s1 := set_s_SecretName _ _). apply wp_bind.
  eapply wp_mono; [|apply (wp_within _ no_create), within_DoWithTimeout_err;
                    [done|apply prepare_dir_no_create]].
  intros o tr0 He0. assert (guarded (create_guard s podName) tr0) as Hg0
    by (by eapply extends_guarded; [apply no_create_guard|exact He0|]).
  destruct o as [[e|]|m|]; [done| |done..].
  apply (wp_loop _ (λ _, guarded (create_guard s podName))); [done|done|].
  intros _ tr Hg. unfold GetPod. cbn [call bind wp]. intros [old|e] _.
  - case_decide; cbn [call bind wp]; [done|].
    eapply wp_mono; [|apply (wp_within _ no_create)].
    + intros o tr' He. assert (guarded (create_guard s podName) tr') as Hg'.
      { by eapply extends_guarded; [apply no_create_guard|exact He|]. }
      by destruct o as [[]| |].
    + apply within_bind; [apply within_RetryOnConflict; [done|]; unfold create_or_update_secret;
        within_run|]. intros [e|]; within_run.
      apply within_RetryOnConflict; [done|]. unfold add_ref, ReplacePodAnnotation. within_run.
  - destruct (IsNotFound e) eqn:En; [|destruct (IsTimeout e); done]. apply wp_bind.
    eapply wp_mono; [|apply (create_mount_pod_guarded c podName appinfo _ s1)].
    + intros [r|m|] tr' Hg'; done.
    + unfold SetPVAsOwner. by destruct (s_PV s1).
    + split; [exact I|exact Hg].
    + apply happened_here. by split_and!.
Qed.

(** ** Locking *)

(** The calls that need the lock of a mount pod: those that write pods. *)
Definition no_pod_writes : event_pred := λ X e, negb (writes_pods e).
(** The calls that neither write pods nor touch locks. *)
Definition passive : event_pred := λ X e, no_pod_writes X e && lock_free X e.

Lemma passive_under_lock i Y (e : event Y) x tr :
  passive Y e = true → under_lock i no_pod_writes Y e x tr.
Proof. intros [H _]%andb_true_iff. by left. Qed.

Lemma passive_lock_free Y (e : event Y) : passive Y e = true → lock_free Y e = true.
Proof. by intros [_ H]%andb_true_iff. Qed.

(** After the lock is released, passive calls change nothing of it. *)
Lemma passive_after i tr tr' :
  extends passive tr tr' → guarded (under_lock i no_pod_writes) tr → locked i tr = false →
  guarded (under_lock i no_pod_writes) tr' ∧ locked i tr' = false.
Proof.
  intros He Hg Hl. split.
  - by eapply extends_guarded; [apply passive_under_lock|exact He|].
  - rewrite <-Hl. eapply locked_extends, extends_mono; [apply passive_lock_free|exact He].
Qed.

Lemma umount_until_gone_passive t : within passive (umount_until_gone t).
Proof. unfold umount_until_gone. within_run. Qed.
#[local] Hint Resolve umount_until_gone_passive : go.

Lemma waitUtilMountReady_passive c s podName : within passive (waitUtilMountReady c s podName).
Proof.
  unfold waitUtilMountReady, WaitUtilMountReady, mount_ready_round, DoWithTimeout,
    DevMinorTableStore, GetErrContainerLog, StripPasswd. within_run.
Qed.

Lemma NewMountPod_lock_free s podName : within lock_free (NewMountPod s podName).
Proof.
  unfold NewMountPod, genCommonPod, genDfsVolumes, initFuseConfig. within_run.
Qed.

#[local] Hint Resolve NewMountPod_lock_free : go.

Lemma CreateOrUpdateSecret_lock_free secret : within lock_free (CreateOrUpdateSecret secret).
Proof. apply within_RetryOnConflict; [done|]. unfold create_or_update_secret. within_run. Qed.
Lemma AddRefOfMount_lock_free c t n : within lock_free (AddRefOfMount c t n).
Proof.
  apply within_RetryOnConflict; [done|]. unfold add_ref, ReplacePodAnnotation. within_run.
Qed.
Lemma CreatePod_lock_free p : within lock_free (CreatePod p).
Proof.
  unfold CreatePod, findAvailableNodePort, createSerivce, last_n. within_run.
  generalize 100. intros k. induction k; cbn [random_ports]; within_run.
Qed.
#[local] Hint Resolve CreateOrUpdateSecret_lock_free AddRefOfMount_lock_free
  CreatePod_lock_free : go.

Lemma prepare_dir_lock_free path : within lock_free (prepare_dir path).
Proof.
  unfold prepare_dir. within_run.
  eapply within_mono; [apply passive_lock_free|apply umount_until_gone_passive].
Qed.

Lemma createPodOrAddRef_lock_free c podName s appinfo :
  within lock_free (createPodOrAddRef c podName s appinfo).
Proof.
  unfold createPodOrAddRef, create_mount_pod, place_pod, last_n. within_run.
  apply within_DoWithTimeout_err; [done|]. apply prepare_dir_lock_free.
Qed.
#[local] Hint Resolve createPodOrAddRef_lock_free : go.

Lemma mount_locked_lock_free c appInfo s : within lock_free (mount_locked c appInfo s).
Proof.
  unfold mount_locked, GenMountPodName, GenPodNameByUniqueId, SetMountLabel, AddPodLabel.
  within_run.
  generalize 6. intros k. induction k; cbn [RandStringRunes]; within_run.
Qed.

(** C13: Mounting holds the lock of the volume's setting around every write of a
    pod, from the choice of the mount pod's name to its creation or the
    recording of the target, and has released it when it returns or panics; the
    wait for the mount is outside. *)
Theorem DMount_locked c appInfo s :
  let i := GetPodLock (GenHashOfSetting s) in
  wp any_env (DMount c appInfo s) [] (λ o tr,
    guarded (under_lock i no_pod_writes) tr ∧ (o ≠ Diverged → locked i tr = false)).
Proof.
  intros i. unfold DMount. apply wp_bind.
  eapply wp_mono; [|apply (wp_with_mutex _ i no_pod_writes); [done|done| |done]].
  - intros [[s' r]|m|] tr [Hg Hl];
      [|by split; [|intros _; apply Hl]|done]. specialize (Hl ltac:(done)).
    destruct r as [name|e]; [|done]. apply wp_bind.
    eapply wp_mono; [|apply (wp_within _ passive), waitUtilMountReady_passive].
    intros o tr' He. destruct (passive_after i tr tr' He Hg Hl) as [Hg' Hl'].
    by destruct o.
  - apply mount_locked_lock_free.
Qed.

(** ** Jobs *)

(** A read of the job showed it complete, or gone. *)
Definition job_finished (jobName : string) : call_pred := λ X e,
  match e in event X return X → Prop with
  | JobGet _ n ns => λ r, n = jobName ∧ ns = Namespace ∧
      match r with Ok j => IsJobCompleted j = true | Err e => IsNotFound e = true end
  | _ => λ _, False
  end.
(** A read of the job by the wait of 40 seconds. *)
Definition job_awaited (c : ctx) (jobName : string) : call_pred := λ X e _,
  match e with
  | JobGet c' n ns => c' = WithTimeout c (40 * Second) ∧ n = jobName ∧ ns = Namespace
  | _ => False
  end.

Lemma waitUtilJobCompleted_ok c jobName tr :
  wp any_env (waitUtilJobCompleted c jobName) tr (λ o tr',
    match o with
    | Done None => happened (job_finished jobName) tr'
    | Panicked _ => False
    | _ => True
    end).
Proof.
  unfold waitUtilJobCompleted. apply wp_bind. apply (wp_loop _ (λ _ _, True)); [done|done|].
  intros _ tr' _. unfold job_round, GetJob. cbn [call bind wp]. intros [job|e] _.
  - destruct (IsJobCompleted job) eqn:Ej; [|done]. apply wp_bind.
    assert (happened (job_finished jobName) (Call (JobGet (WithTimeout c (40 * Second)) jobName
      Namespace) (Ok job) :: tr')) as Hf by (by apply happened_here).
    unfold IsJobShouldBeRecycled. rewrite Ej. cbn [negb andb].
    destruct (job_TTLSecondsAfterFinished job); [destruct (job_CompletionTime job)|];
      cbn [call bind wp]; [intros now _; destruct (job_recyclable now job)| |];
      unfold DeleteJob; cbn [call bind wp]; try intros r _; auto with go.
  - destruct (IsNotFound e) eqn:En; cbn [call bind wp].
    + by apply happened_here.
    + intros [w|] _; cbn [wp]; [|done]. intros pods _.
      destruct pods as [[|pod pods]|e']; cbn [wp]; try done. apply wp_bind.
      unfold getNotCompleteCnLog, GetPod. cbn [call bind wp].
      intros [po|e'] _; cbn [wp]; [|done]. case_match; cbn [wp GetPodLog call]; [|done].
      destruct p. cbn [wp GetPodLog call]. by intros [log|e'] _.
Qed.

Lemma await_job_ok c job tr :
  wp any_env (await_job c job) tr (λ o tr',
    match o with
    | Done None => happened (job_finished (job_Name job)) tr'
    | Done (Some _) =>
        ∃ r tr0, tr' = Call (JobDelete (job_Name job) (job_Namespace job)) r :: tr0
    | Panicked _ => False
    | Diverged => True
    end).
Proof.
  unfold await_job. apply wp_bind. eapply wp_mono; [|apply waitUtilJobCompleted_ok].
  intros [[e|]|m|] tr' H; cbn [wp call bind DeleteJob]; try done. intros r _. by eexists _, _.
Qed.

Lemma NewJobForDeleteVolume_name s tr :
  wp any_env (NewJobForDeleteVolume s) tr (λ o tr', tr' = tr ∧
    match o with
    | Done (_, job) => job_Name job = GenJobNameByVolumeId (s_VolumeId s) +:+ "-delvol"
    | _ => True
    end).
Proof.
  unfold NewJobForDeleteVolume, newJob. apply wp_bind. apply wp_bind.
  eapply wp_mono; [|apply genCommonPod_meta]. by intros [[s' p]|m|] tr' [-> H].
Qed.

(** The calls that are not reads of the wait. *)
Definition not_awaiting (c : ctx) : event_pred := λ X e,
  match e with JobGet c' _ _ => bool_decide (c' ≠ WithTimeout c (40 * Second)) | _ => true end.

Lemma ctx_not_derived c d : c ≠ WithTimeout c d.
Proof. induction c as [| |c IH d'|c IH]; congruence. Qed.

Lemma not_awaited c jobName tr :
  extends (not_awaiting c) [] tr → ¬ happened (job_awaited c jobName) tr.
Proof.
  intros (new & -> & Hn) Hh. rewrite app_nil_r in Hh.
  induction Hn as [|[Y e x] new Hc _ IH]; [by inversion Hh|].
  inversion Hh as [? ? H|]; [|auto]. destruct e; try done. destruct H as [-> _]. cbn in Hc.
  by rewrite bool_decide_eq_false_2 in Hc by auto.
Qed.

Lemma get_or_create_job_quiet c job : within (not_awaiting c) (get_or_create_job c job).
Proof.
  unfold get_or_create_job, GetJob. split.
  - apply bool_decide_eq_true_2, ctx_not_derived.
  - intros r. cbn [bind]. within_run.
Qed.

(** Deleting the data of a volume reports success only when the deletion
    job was seen complete or gone; when the wait for it fails, the job is
    deleted before the error is returned, so that a retry starts a new one. *)
Theorem DeleteVolume_outcome c s :
  let jobName := GenJobNameByVolumeId (s_VolumeId s) +:+ "-delvol" in
  wp any_env (DeleteVolume c s) [] (λ o tr,
    match o with
    | Done None => happened (job_finished jobName) tr
    | Done (Some _) => happened (job_awaited c jobName) tr →
        ∃ ns r tr', tr = Call (JobDelete jobName ns) r :: tr'
    | _ => True
    end).
Proof.
  intros jobName. unfold DeleteVolume. apply wp_bind.
  eapply wp_mono; [|apply NewJobForDeleteVolume_name].
  intros [[s' job]|m|] tr [-> Hj]; [|done..]. fold jobName in Hj. cbv beta iota.
  apply wp_bind. eapply wp_mono; [|apply (wp_within _ (not_awaiting c)), get_or_create_job_quiet].
  intros o tr1 He1. destruct o as [[owner|e]|m|]; [|intros H; by apply not_awaited in H|done|done].
  apply wp_bind. eapply wp_mono; [|apply (wp_within _ (not_awaiting c))]; last first.
  { apply within_RetryOnConflict; [done|]. unfold create_or_update_secret. within_run. }
  intros o tr2 He2. assert (extends (not_awaiting c) [] tr2) as He by (by etrans).
  destruct o as [[e|]|m|]; [intros H; by apply not_awaited in H| |done..].
  eapply wp_mono; [|apply await_job_ok]. rewrite Hj. intros [[e|]|m|] tr3 H; try done.
  intros _. destruct H as (r & tr0 & ->). by eexists _, _, _.
Qed.

(** ** The mount path *)

(** The path of a mount: that of the setting with the last seven letters of the
    name of the pod. *)
Definition path_of (s : DfsSetting) (name path : string) : Prop :=
  ∃ suffix, len suffix = 7 ∧ (∃ front, name = front +:+ suffix) ∧ path = s_MountPath s +:+ suffix.

Lemma path_of_last s name :
  7 ≤ len name → path_of s name (s_MountPath s +:+ drop_s (len name - 7) name).
Proof.
  intros Hn. exists (drop_s (len name - 7) name). split; [rewrite len_drop_s; lia|].
  split; [|done]. exists (take_s (len name - 7) name). by rewrite take_drop_s.
Qed.

(** The path that the setting is given, whatever the answers. *)
Definition path_given (s : DfsSetting) (r : DfsSetting * result string) : Prop :=
  ∀ name, r.2 = Ok name → path_of s name (s_MountPath r.1).

Lemma createPodOrAddRef_path c name s app :
  yields (λ r, path_of s name (s_MountPath r.1)) (createPodOrAddRef c name s app).
Proof.
  unfold createPodOrAddRef, last_n. case_decide as Hn; [|done]. cbn [bind]. cbv zeta.
  set (s1 := set_s_SecretName _ _).
  assert (path_of s name (s_MountPath s1)) as Hs by by apply path_of_last.
  apply yields_bind. intros [e|]; [done|]. apply yields_loop. intros _. apply yields_bind.
  intros [p|e].
  - case_decide; [by apply yields_bind|]. apply yields_bind. intros [e|]; [done|]. by apply yields_bind.
  - destruct (IsNotFound e); [|by destruct (IsTimeout e)]. unfold create_mount_pod.
    eapply (yields_seq (λ r, path_of s name (s_MountPath r.1))); [|done].
    eapply (yields_seq (λ r, ∃ a, r.1 = set_s_Attr a s1)).
    + apply (yields_wp _ _ []). eapply wp_mono; [|apply NewMountPod_meta]. intros o tr [_ H] r ->.
      destruct r as [s' [p|e']]; [destruct H as (a & -> & _)|destruct H as (a & ->)]; by exists (Some a).
    + intros [s' [p|e']] [a Ea]; cbn [fst] in Ea; subst s'; [|done].
      apply yields_bind. intros uid. apply yields_bind. intros p'. apply yields_bind. intros [e1|]; [done|].
      by apply yields_bind.
Qed.

Lemma mount_locked_path c app s : yields (path_given s) (mount_locked c app s).
Proof.
  unfold mount_locked. apply yields_bind. intros [name|e]; [|done]. apply yields_bind.
  intros [e|]; [done|]. eapply yields_seq; [apply createPodOrAddRef_path|].
  intros [s' [e|]] Hp; [done|]. by intros name' [= <-].
Qed.

(** The same for a mount that succeeds. *)
Lemma DMount_path c app s :
  yields (λ r, r.2 = None → ∃ name, path_of s name (s_MountPath r.1)) (DMount c app s).
Proof.
  unfold DMount. cbv zeta. eapply yields_seq; [apply yields_with_mutex, mount_locked_path|].
  intros [s' [name|e]] Hp; [|done]. apply yields_bind. intros e _. exists name.
  exact (Hp name eq_refl).
Qed.

(** The directory a volume is mounted on: below the mount base, the id of the
    volume and seven letters. *)
Definition mount_dir (volumeId path : string) : bool :=
  let base := path_Join [config.PodMountBase; volumeId] in
  HasPrefix path base && (len path =? len base + 7)%nat.

Lemma mount_dir_of v s name path :
  s_MountPath s = path_Join [config.PodMountBase; v] → path_of s name path → mount_dir v path = true.
Proof.
  intros Hs (suffix & Hl & _ & ->). unfold mount_dir. rewrite Hs, HasPrefix_app. cbn [andb].
  apply Nat.eqb_eq. rewrite len_append. lia.
Qed.
End mount_facts.
