(* ===== verification/RefCount.v ===== *)
(** * RefCount: the reference count of a mount pod, as a set of targets

    The abstract contract of [src/pkg/builder/mount.go]: a mount pod is absent,
    live or being deleted, and holds a set of reference keys.  Recording and
    releasing a target are operations on that set, and releasing the last one
    starts the deletion.  The theorems say that [AddRefOfMount] and
    [release_target] implement the contract on any healthy API server, also
    while other threads write other pods between their calls ([op_ok]). *)

From S2P Require Import Prelude GoStrings Objects Effects Config Rely Demo Setting Util K8sClient.
From S2P Require Import Resource Builder ApiServer PodMount.

(** ** The contract *)

Inductive life :=
  | Gone
  | Live (keys : gset string)
  | Dying (keys : gset string).

Inductive ref_op := AddTarget (target : string) | ReleaseTarget (target : string).

(** The state after an operation, and whether it succeeds. *)
Definition ref_step (o : ref_op) (l : life) : life * bool :=
  match o, l with
  | AddTarget t, Live K => (Live ({[ GetReferenceKey t ]} ∪ K), true)
  | AddTarget _, _ => (l, false)
  | ReleaseTarget t, Gone => (Gone, true)
  | ReleaseTarget t, Live K =>
      let K := K ∖ {[ GetReferenceKey t ]} in
      (if decide (K = ∅) then Dying ∅ else Live K, true)
  | ReleaseTarget t, Dying K => (Dying (K ∖ {[ GetReferenceKey t ]}), true)
  end.

Fixpoint ref_steps (ops : list ref_op) (l : life) : life * list bool :=
  match ops with
  | [] => (l, [])
  | o :: ops =>
      let '(l, ok) := ref_step o l in
      let '(l, oks) := ref_steps ops l in (l, ok :: oks)
  end.

(** ** The implementation *)

Section refinement.
Context {G : Globals} {X : Ext} {F : Fuel} {W : Type} {S : ApiServer W}.
(** the mutex of the pod's hash, in [PodLocks] *)
Context (i : Z).

Definition run_op (c : ctx) (podName : string) (o : ref_op) : prog (option error) :=
  match o with
  | AddTarget t => AddRefOfMount c t podName
  | ReleaseTarget t => release_target c t podName
  end.

Fixpoint run_ops (c : ctx) (podName : string) (ops : list ref_op) : prog (list bool) :=
  match ops with
  | [] => Ret []
  | o :: ops =>
      r <- run_op c podName o ;;
      rs <- run_ops c podName ops ;;
      Ret (bool_decide (r = None) :: rs)
  end.

(** ** The relation between a pod and its contract *)

(** The mount pod of name [n]: only targets are recorded under reference keys,
    it has the annotation of its volume, no deletion delay, a finalizer, and the
    hash whose mutex is [i]. *)
Record mount_pod (n : string) (p : Pod) : Prop := {
  mp_name : pod_Name p = n;
  mp_namespace : pod_Namespace p = Namespace;
  mp_keys t v : annotations p !! GetReferenceKey t = Some v → GetReferenceKey v = GetReferenceKey t;
  mp_unique : is_Some (annotations p !! config.UniqueId);
  mp_delay : annotations p !! config.DeleteDelayTimeKey = None;
  mp_finalizers : pod_Finalizers p ≠ [];
  mp_hash : m_get (pod_Labels p) config.PodHashLabelKey ≠ "" ∧
    GetPodLock (m_get (pod_Labels p) config.PodHashLabelKey) = i
}.

Definition ref_keys (p : Pod) : gset string := dom (GetAllRefKeys p).

Definition life_of (p : Pod) : life :=
  match pod_DeletionTimestamp p with None => Live (ref_keys p) | Some _ => Dying (ref_keys p) end.

(** The state of the server implements the contract's state. *)
Definition implements (n : string) (w : W) (l : life) : Prop :=
  (∀ t, mounts w t < fuel) ∧
  match store w !! (n, Namespace) with
  | None => l = Gone
  | Some p => mount_pod n p ∧ l = life_of p
  end.

(** ** Reference keys *)

#[local] Opaque GetReferenceKey.

Lemma refkey_ne_config t k :
  k ∈ [config.DeleteDelayTimeKey; config.DeleteDelayAtKey; config.UniqueId; config.DingoFSID;
       config.CleanCache] → GetReferenceKey t ≠ k.
Proof.
  destruct (GetReferenceKey_shape t) as (h & -> & Hl & _). intros Hin <-.
  repeat (apply elem_of_cons in Hin as [E|Hin];
    [apply (f_equal len) in E; rewrite len_append, Hl in E; vm_compute in E; lia|]). inversion Hin.
Qed.

Lemma refkey_ne_unique t : GetReferenceKey t ≠ config.UniqueId.
Proof. apply refkey_ne_config. set_solver. Qed.

Lemma elem_of_ref_keys k p :
  k ∈ ref_keys p ↔ ∃ v, annotations p !! k = Some v ∧ k = GetReferenceKey v.
Proof.
  unfold ref_keys, GetAllRefKeys. rewrite elem_of_dom. split.
  - intros [v [Hv Hk]%map_lookup_filter_Some]. eauto.
  - intros (v & Hv & Hk). exists v. by apply map_lookup_filter_Some.
Qed.

Lemma ref_keys_lookup t n p :
  mount_pod n p → GetReferenceKey t ∈ ref_keys p ↔ is_Some (annotations p !! GetReferenceKey t).
Proof.
  intros Hp. rewrite elem_of_ref_keys. split; [by intros (v & -> & _)|].
  intros [v Hv]. exists v.
  split; [done|]. symmetry. by eapply mp_keys.
Qed.

Lemma GetRef_ref_keys p : GetRef p = 0 ↔ ref_keys p = ∅.
Proof.
  unfold GetRef, ref_keys. rewrite map_size_empty_iff. split; [intros ->; apply dom_empty_L|].
  apply dom_empty_inv_L.
Qed.

(** ** The annotations the operations write *)

Definition added (t : string) (p : Pod) : Pod :=
  set_pod_Annotations (Some (delete config.DeleteDelayAtKey
    (<[GetReferenceKey t := t]> (annotations p)))) p.
Definition dropped (t : string) (p : Pod) : Pod :=
  set_pod_Annotations (Some (delete (GetReferenceKey t) (annotations p))) p.

Lemma added_lookup t p k :
  annotations (added t p) !! k =
    if decide (k = config.DeleteDelayAtKey) then None
    else if decide (k = GetReferenceKey t) then Some t else annotations p !! k.
Proof.
  change (annotations (added t p)) with
    (delete config.DeleteDelayAtKey (<[GetReferenceKey t := t]> (annotations p))).
  destruct (decide (k = config.DeleteDelayAtKey)) as [->|H1]; [by rewrite lookup_delete_eq|].
  rewrite lookup_delete_ne by done.
  destruct (decide (k = GetReferenceKey t)) as [->|H2]; [by rewrite lookup_insert_eq|].
  by rewrite lookup_insert_ne.
Qed.

Lemma added_lookup_key t p v :
  annotations (added t p) !! GetReferenceKey v =
    if decide (GetReferenceKey v = GetReferenceKey t) then Some t
    else annotations p !! GetReferenceKey v.
Proof. rewrite added_lookup, decide_False; [done|]. apply refkey_ne_config. set_solver. Qed.

Lemma dropped_lookup t p k :
  annotations (dropped t p) !! k =
    if decide (k = GetReferenceKey t) then None else annotations p !! k.
Proof.
  change (annotations (dropped t p)) with (delete (GetReferenceKey t) (annotations p)).
  destruct (decide (k = GetReferenceKey t)) as [->|H]; [by rewrite lookup_delete_eq|].
  by rewrite lookup_delete_ne.
Qed.

Ltac config_key := apply refkey_ne_config; set_solver.

Lemma mount_pod_added n t p : mount_pod n p → mount_pod n (added t p).
Proof.
  intros [H1 H2 H3 H4 H5 H6 H7]. split; try done; try intros t'; rewrite added_lookup.
  - intros v. rewrite decide_False by config_key. case_decide as E; [|by apply H3].
    by intros [= <-].
  - rewrite decide_False by done. rewrite decide_False by (symmetry; config_key). done.
  - rewrite decide_False by done. rewrite decide_False by (symmetry; config_key). done.
Qed.

Lemma mount_pod_dropped n t p : mount_pod n p → mount_pod n (dropped t p).
Proof.
  intros [H1 H2 H3 H4 H5 H6 H7]. split; try done; try intros t'; rewrite dropped_lookup.
  - intros v. case_decide; [done|]. apply H3.
  - rewrite decide_False by (symmetry; config_key). done.
  - rewrite decide_False by (symmetry; config_key). done.
Qed.

Lemma ref_keys_added t p : ref_keys (added t p) = {[ GetReferenceKey t ]} ∪ ref_keys p.
Proof.
  apply set_eq. intros k. rewrite elem_of_union, elem_of_singleton, !elem_of_ref_keys. split.
  - intros (v & Hv & ->). rewrite added_lookup_key in Hv. case_decide as E; [by left|].
    right. eauto.
  - intros [->|(v & Hv & ->)].
    + exists t. rewrite added_lookup_key. by rewrite decide_True.
    + destruct (decide (GetReferenceKey v = GetReferenceKey t)) as [E|E].
      * exists t. rewrite added_lookup_key. by rewrite decide_True.
      * exists v. rewrite added_lookup_key. by rewrite decide_False.
Qed.

Lemma ref_keys_dropped t p : ref_keys (dropped t p) = ref_keys p ∖ {[ GetReferenceKey t ]}.
Proof.
  apply set_eq. intros k. rewrite elem_of_difference, elem_of_singleton, !elem_of_ref_keys.
  setoid_rewrite dropped_lookup. split.
  - intros (v & Hv & ->). case_decide; [done|]. eauto.
  - intros ((v & Hv & ->) & Hne). exists v. by rewrite decide_False.
Qed.

Lemma mount_pod_annotated n p : mount_pod n p → annotations p ≠ ∅.
Proof. intros [_ _ _ [v Hv] _ _ _] E. rewrite E in Hv. by rewrite lookup_empty in Hv. Qed.

(** ** Each operation implements its contract *)

(** A pod is in one state of the contract. *)
Lemma implements_spared n w w' l :
  spared (n, Namespace) w w' → implements n w l → implements n w' l.
Proof.
  intros [Hs Hm] [Hb Hi]. split; [|by rewrite Hs]. intros t. specialize (Hm t). specialize (Hb t). lia.
Qed.

(** A write of the mount pod, by an event that adds no mount. *)
Lemma implements_write {Y} (e : event Y) n w x w' p l :
  implements n w l → serve e w = (x, w') → adds_mounts e = false →
  store w' = <[(n, Namespace) := p]> (store w) → mount_pod n p → implements n w' (life_of p).
Proof.
  intros [Hb _] E He Hs Hp. split; [|by rewrite Hs, lookup_insert_eq].
  intros t. replace w' with (serve e w).2 by (by rewrite E).
  eapply Nat.le_lt_trans; [by apply serve_mounts|apply Hb].
Qed.

(** At every instant the pod is in a state of the contract that [V] allows. *)
Definition seen (n : string) (V : life → Prop) (w : W) : Prop := ∃ l, V l ∧ implements n w l.

(** [p] ends without a conflict in the state [l'] of the contract, through states
    that [V] allows, while others write other pods. *)
Definition op_ok (n : string) (V : life → Prop) (p : prog (option error)) (w : W) (l' : life)
    (ok : bool) : Prop :=
  rwp (@serve W S) (spared (n, Namespace)) (seen n V) p w (λ o w',
    ∃ r, o = Done r ∧ implements n w' l' ∧ on_err IsConflict r = false ∧
      bool_decide (r = None) = ok).

Section ops.
Context (n : string) (V : life → Prop).

Lemma seen_spared l w w' : V l → implements n w l → spared (n, Namespace) w w' → seen n V w'.
Proof. intros HV Hi Hs. exists l. split; [done|]. by eapply implements_spared. Qed.

Lemma op_ok_retry p w l ok : V l → op_ok n V p w l ok → op_ok n V (RetryOnConflict p) w l ok.
Proof.
  intros HV Hp. unfold op_ok in *. apply rwp_retry; [apply _|]. eapply rwp_mono; [|exact Hp].
  intros o w' (r & -> & Hi & Hc & Hr). split; [by exists r|]. intros r' [= <-]. split; [done|].
  intros w2 H2. split; [by eapply seen_spared|]. exists r. split_and!; try done.
  by eapply implements_spared.
Qed.

Lemma op_ok_ret w w' l r :
  V l → spared (n, Namespace) w w' → implements n w l → on_err IsConflict r = false →
  op_ok n V (Ret r) w' l (bool_decide (r = None)).
Proof.
  intros HV Hs Hi Hc w2 H2. assert (implements n w2 l) by (by do 2 (eapply implements_spared; [done|])).
  split; [by exists l|]. by exists r.
Qed.

Lemma op_ok_rely p w w' l ok : spared (n, Namespace) w w' → op_ok n V p w l ok → op_ok n V p w' l ok.
Proof. intros. by eapply rwp_rely; [apply _| |]. Qed.

(** A program that leaves the state alone, or reaches it, goes first. *)
Lemma op_ok_seq {Y} (p : prog Y) k w l (Q : Y → Prop) l' ok :
  rwp (@serve W S) (spared (n, Namespace)) (seen n V) p w (λ o w',
    ∃ y, o = Done y ∧ Q y ∧ implements n w' l) →
  (∀ y w', Q y → implements n w' l → op_ok n V (k y) w' l' ok) → op_ok n V (bind p k) w l' ok.
Proof.
  intros Hp Hk. unfold op_ok in *. apply rwp_bind; [apply _|]. eapply rwp_mono; [|exact Hp].
  intros o w' (y & -> & HQ & Hi). by apply Hk.
Qed.

Lemma op_ok_bind (p : prog (option error)) k w l l' ok :
  op_ok n V p w l true → (∀ w', implements n w' l → op_ok n V (k None) w' l' ok) →
  op_ok n V (bind p k) w l' ok.
Proof.
  intros Hp Hk. apply (op_ok_seq _ _ _ l (λ r, r = None)).
  - unfold op_ok in Hp. eapply rwp_mono; [|exact Hp]. intros o w' (r & -> & Hi & _ & Hr).
    apply bool_decide_eq_true in Hr. by exists r.
  - intros r w' -> Hi. by apply Hk.
Qed.

(** After a read of the mount pod. *)
Lemma op_ok_get c w l k l' ok :
  V l → implements n w l →
  (∀ e w1, spared (n, Namespace) w w1 → l = Gone → IsNotFound e = true →
     op_ok n V (k (Err e)) w1 l' ok) →
  (∀ p w1, spared (n, Namespace) w w1 → store w1 !! (n, Namespace) = Some p → mount_pod n p →
     l = life_of p → op_ok n V (k (Ok p)) w1 l' ok) →
  op_ok n V (bind (GetPod c n Namespace) k) w l' ok.
Proof.
  intros HV Hi Hg Hp. unfold op_ok in *. apply rwp_get.
  - intros w1 H1. by eapply seen_spared.
  - intros e w1 H1 E He. destruct Hi as [_ Hi]. rewrite E in Hi. by apply Hg.
  - intros p w1 H1 E. destruct Hi as [_ Hi]. rewrite E in Hi. destruct Hi as [Hm Hl].
    apply Hp; try done. by rewrite (proj1 H1).
Qed.

(** Calls that leave the pod alone. *)
Lemma op_ok_call {Y} (e : event Y) (k : Y → prog (option error)) w l l' ok :
  V l → pod_written e ≠ Some (n, Namespace) → adds_mounts e = false → implements n w l →
  (∀ x w', implements n w' l → op_ok n V (k x) w' l' ok) → op_ok n V (bind (call e) k) w l' ok.
Proof.
  intros HV H1 H2 Hi Hk. unfold op_ok in *. apply rwp_call. intros w1 Hw1. split; [by eapply seen_spared|].
  intros x w2 E. apply Hk. eapply implements_spared; [|exact Hi].
  replace w2 with (serve e w1).2 by (by rewrite E). etrans; [done|]. by apply serve_spared.
Qed.

(** A write of the mount pod. *)
Lemma op_ok_write (e : event (option error)) p w p' l :
  V (life_of p) → V l → l = life_of p' → adds_mounts e = false → mount_pod n p' →
  implements n w (life_of p) →
  (∀ w1, implements n w1 (life_of p) → store w1 !! (n, Namespace) = store w !! (n, Namespace) →
     ∃ w2, serve e w1 = (None, w2) ∧ store w2 = <[(n, Namespace) := p']> (store w1)) →
  op_ok n V (call e) w l true.
Proof.
  intros HV HV' -> He Hp Hi Hw w1 H1. assert (implements n w1 (life_of p)) as Hi1 by (by eapply implements_spared).
  split; [by exists (life_of p)|]. destruct (Hw w1 Hi1 (proj1 H1)) as (w2 & E & Hst). rewrite E. cbn [fst snd].
  assert (implements n w2 (life_of p')) as Hi2 by (by eapply (implements_write e)).
  by apply (op_ok_ret w2 w2 _ None).
Qed.
End ops.

Lemma notfound_noconflict e : IsNotFound e = true → IsConflict e = false.
Proof. by destruct e as [|[]| | |]. Qed.

Lemma AddRefOfMount_implements n V c t w l :
  V l → V (ref_step (AddTarget t) l).1 → implements n w l →
  op_ok n V (AddRefOfMount c t n) w (ref_step (AddTarget t) l).1 (ref_step (AddTarget t) l).2.
Proof.
  intros HV HV' Hi. apply op_ok_retry; [done|]. unfold add_ref. apply (op_ok_get _ _ _ _ l); [done..| |].
  { intros e w1 Hs -> He. apply (op_ok_ret n V w w1 Gone (Some e)); [done..|].
    by apply notfound_noconflict. }
  intros p w1 Hs Hp Hmp ->. assert (implements n w1 (life_of p)) as Hi1 by (by eapply implements_spared).
  unfold life_of in HV, HV', Hi, Hi1 |- *. destruct (pod_DeletionTimestamp p) as [ts|] eqn:Ets.
  { rewrite decide_True by done. by apply (op_ok_ret n V w1 w1 _ (Some _)). }
  rewrite decide_False by (by intros []). case_decide as Hk; cbn [ref_step fst snd] in *.
  - assert ({[GetReferenceKey t]} ∪ ref_keys p = ref_keys p) as E.
    { apply (ref_keys_lookup t n p) in Hk; [set_solver|done]. }
    rewrite E in *. by apply (op_ok_ret n V w1 w1 _ None).
  - unfold ReplacePodAnnotation, PatchPod. rewrite (mp_name n), (mp_namespace n) by done.
    change (delete config.DeleteDelayAtKey (<[GetReferenceKey t:=t]> (annotations p)))
      with (annotations (added t p)).
    assert (life_of p = Live (ref_keys p)) as El by (unfold life_of; by rewrite Ets).
    apply (op_ok_write n V _ p w1 (added t p)); rewrite ?El; try done.
    + unfold life_of. change (pod_DeletionTimestamp (added t p)) with (pod_DeletionTimestamp p).
      by rewrite Ets, ref_keys_added.
    + by apply mount_pod_added.
    + intros w2 _ E2. apply (serve_replace n Namespace (annotations (added t p))); [by rewrite E2|].
      by eapply mount_pod_annotated.
Qed.

(** The keys of a state, without one of them. *)
Definition drop_key (t : string) (l : life) : life :=
  match l with
  | Gone => Gone
  | Live K => Live (K ∖ {[ GetReferenceKey t ]})
  | Dying K => Dying (K ∖ {[ GetReferenceKey t ]})
  end.

Lemma life_of_dropped t p : life_of (dropped t p) = drop_key t (life_of p).
Proof.
  unfold life_of, drop_key. rewrite ref_keys_dropped.
  change (pod_DeletionTimestamp (dropped t p)) with (pod_DeletionTimestamp p).
  by destruct (pod_DeletionTimestamp p).
Qed.

Lemma drop_key_absent n t p :
  mount_pod n p → annotations p !! GetReferenceKey t = None →
  drop_key t (life_of p) = life_of p.
Proof.
  intros Hp Hk. assert (ref_keys p ∖ {[ GetReferenceKey t ]} = ref_keys p) as E.
  { apply difference_disjoint_L, disjoint_singleton_r. rewrite (ref_keys_lookup t n p) by done.
    rewrite Hk. by intros []. }
  unfold drop_key, life_of. destruct (pod_DeletionTimestamp p); by rewrite E.
Qed.

Lemma del_ref_implements n V c t w l pod :
  V l → V (drop_key t l) →
  implements n w l → l ≠ Gone → pod_Name pod = n → pod_Namespace pod = Namespace →
  op_ok n V (del_ref c t pod) w (drop_key t l) true.
Proof.
  intros HV HV' Hi Hl Hn Hns. unfold del_ref. rewrite Hn, Hns. apply (op_ok_get _ _ _ _ l); [done..|].
  intros p w1 Hs Hp Hmp ->. assert (implements n w1 (life_of p)) as Hi1 by (by eapply implements_spared).
  case_decide as Hk.
  - rewrite (drop_key_absent n) by done. by apply (op_ok_ret n V w1 w1 _ None).
  - unfold DelPodAnnotation, PatchPod. rewrite Hn, Hns. cbn [fmap list_fmap].
    apply (op_ok_write n V _ p w1 (dropped t p)); try done.
    + by rewrite life_of_dropped.
    + by apply mount_pod_dropped.
    + intros w2 _ E2. apply serve_remove; [by rewrite E2|by apply not_eq_None_Some|].
      apply pointer_tokens_annotation; apply GetReferenceKey_no_special; set_solver.
Qed.

Lemma UmountTarget_implements n V c t w l :
  V l → V (drop_key t l) →
  n ≠ "" → implements n w l → op_ok n V (UmountTarget c t n) w (drop_key t l) true.
Proof.
  intros HV HV' Hn Hi. unfold op_ok, UmountTarget.
  assert (∀ w', spared (n, Namespace) w w' → seen n V w') as HI by (intros; by eapply (seen_spared n V l w)).
  apply rwp_bind; [apply _|].
  eapply rwp_mono; [|eapply rwp_umount_until_gone; [apply Hi|exact HI]].
  intros o w1 (-> & Hs1 & Hm1). apply rwp_call. intros w2 Hs2. split; [apply HI; by etrans|].
  intros r w3 E. assert (mounts w2 t = 0) as Hm2 by (destruct Hs2 as [_ Hs2]; specialize (Hs2 t); lia).
  assert (r = None) as -> by (apply serve_cleanup in Hm2; by rewrite E in Hm2).
  rewrite decide_False by done. assert (implements n w3 l) as Hi3.
  { eapply implements_spared; [|exact Hi]. etrans; [exact Hs1|]. etrans; [exact Hs2|].
    replace w3 with (serve (CleanupMountPoint t false) w2).2 by (by rewrite E). by apply serve_spared. }
  apply (op_ok_get n V c w3 l); [done..| |].
  - intros e w4 Hs -> He. rewrite He. by apply (op_ok_ret n V w3 w4 _ None).
  - intros p w4 Hs Hp Hmp ->. apply op_ok_retry; [done|]. apply del_ref_implements; [done..| | | |].
    + by eapply implements_spared.
    + unfold life_of. by destruct (pod_DeletionTimestamp p).
    + by apply mp_name.
    + by eapply mp_namespace.
Qed.

(** The deletion of a pod without references. *)
Definition close (l : life) : life :=
  match l with Live K => if decide (K = ∅) then Dying ∅ else l | _ => l end.

Lemma delete_implements n V w p :
  V (life_of p) → V (Dying ∅) →
  implements n w (life_of p) → store w !! (n, Namespace) = Some p → mount_pod n p → ref_keys p = ∅ →
  op_ok n V (DeletePod (Some p)) w (Dying ∅) true.
Proof.
  intros HV HV' Hi Hp Hmp Hk w1 H1. unfold DeletePod. rewrite (mp_name n), (mp_namespace n) by done.
  assert (implements n w1 (life_of p)) as Hi1 by (by eapply implements_spared). split; [by exists (life_of p)|].
  destruct (serve_delete n Namespace w1 p) as (w2 & p' & E & Hd & Hst); [by rewrite (proj1 H1)|].
  unfold deleted_to in Hd. rewrite decide_False in Hd by (by eapply mp_finalizers).
  destruct Hd as (ts & -> & _). rewrite E. cbn [fst snd]. apply (op_ok_ret n V w2 w2 _ None); try done.
  rewrite <-Hk. change (Dying (ref_keys p)) with (life_of (set_pod_DeletionTimestamp (Some ts) p)).
  eapply implements_write; [exact Hi1|exact E|done|exact Hst|]. by destruct Hmp.
Qed.

Lemma dumount_implements n V c w l :
  V l → V (close l) →
  6 ≤ len n → implements n w l → op_ok n V (dumount c n) w (close l) true.
Proof.
  intros HV HV' Hlen Hi. unfold dumount. apply (op_ok_get n V c w l); [done..| |].
  { intros e w1 Hs -> He. rewrite He. by apply (op_ok_ret n V w w1 Gone None). }
  intros p w1 Hs Hp Hmp ->. assert (implements n w1 (life_of p)) as Hi1 by (by eapply implements_spared).
  case_decide as Href.
  - assert (ref_keys p ≠ ∅) as Hne by (by rewrite <-GetRef_ref_keys).
    replace (close (life_of p)) with (life_of p); [by apply (op_ok_ret n V w1 w1 _ None)|].
    unfold life_of, close. destruct (pod_DeletionTimestamp p); [done|]. by rewrite decide_False.
  - assert (ref_keys p = ∅) as He by (apply GetRef_ref_keys; lia).
    assert (close (life_of p) = Dying ∅) as Ec.
    { unfold life_of, close. rewrite He. destruct (pod_DeletionTimestamp p); [done|].
      by rewrite decide_True. }
    rewrite Ec in *. unfold ShouldDelay. rewrite (mp_delay n) by done. cbn [bind].
    apply (op_ok_bind _ _ _ _ _ (Dying ∅)); [by apply delete_implements|].
    intros w2 Hi2. apply (op_ok_call _ _ _ _ _ (Dying ∅)); [done..|]. intros _ w3 Hi3.
    destruct (last_n_ok 6 n Hlen) as (uid & -> & _). cbn [bind].
    apply (op_ok_call _ _ _ _ _ (Dying ∅)); [done..|]. intros _ w4 Hi4.
    by apply (op_ok_ret n V w4 w4 _ None).
Qed.

Lemma GetMountRef_zero n V c w l :
  V l → implements n w l →
  rwp (@serve W S) (spared (n, Namespace)) (seen n V) (GetMountRef c n) w (λ o w',
    ∃ r, o = Done r ∧ (∃ k, r = Ok k ∧ (k = 0 ↔ ∀ K, l = Live K ∨ l = Dying K → K = ∅)) ∧
      implements n w' l).
Proof.
  intros HV Hi. unfold GetMountRef.
  assert (∀ w1 w2, spared (n, Namespace) w w1 → spared (n, Namespace) w1 w2 →
    seen n V w2 ∧ implements n w2 l) as Hst.
  { intros w1 w2 H1 H2. assert (implements n w2 l) by (by do 2 (eapply implements_spared; [done|])).
    split; [by exists l|done]. }
  apply rwp_get.
  - intros w1 H1. by eapply Hst.
  - intros e w1 H1 E He. rewrite He. intros w2 H2. destruct (Hst w1 w2 H1 H2) as [? ?]. split; [done|].
    destruct Hi as [_ Hi]. rewrite E in Hi. subst l. eexists. split_and!; [done| |done]. naive_solver.
  - intros p w1 H1 E w2 H2. destruct (Hst w1 w2 H1 H2) as [? ?]. split; [done|].
    destruct Hi as [_ Hi]. rewrite E in Hi. destruct Hi as [_ ->]. eexists. split_and!; [done| |done].
    eexists. split; [done|]. rewrite GetRef_ref_keys. unfold life_of.
    destruct (pod_DeletionTimestamp p); naive_solver.
Qed.

Lemma release_target_implements n V c t w l :
  V l → V (drop_key t l) → V (close (drop_key t l)) →
  6 ≤ len n → implements n w l →
  op_ok n V (release_target c t n) w (ref_step (ReleaseTarget t) l).1
    (ref_step (ReleaseTarget t) l).2.
Proof.
  intros HV HV1 HV2 Hlen Hi. assert (n ≠ "") as Hn by (by intros ->; cbn in Hlen; lia).
  unfold release_target.
  replace (ref_step (ReleaseTarget t) l).2 with true by (by destruct l).
  replace (ref_step (ReleaseTarget t) l).1 with (close (drop_key t l))
    by (destruct l; cbn; [done|by case_decide|done]).
  apply (op_ok_bind _ _ _ _ _ (drop_key t l)); [by apply UmountTarget_implements|].
  intros w1 Hi1. rewrite decide_False by done.
  eapply op_ok_seq; [by apply (GetMountRef_zero n V c w1 (drop_key t l))|].
  intros r w2 (k & -> & Hk) Hi2. case_decide as Hz.
  - by apply op_ok_retry, dumount_implements.
  - replace (close (drop_key t l)) with (drop_key t l);
      [by apply (op_ok_ret n V w2 w2 _ None)|].
    destruct l as [|K|K]; [done| |done]. cbn in *. rewrite decide_False; [done|].
    intros E0. apply Hz, Hk. by intros K' [[= <-]|[=]].
Qed.

(** * Properties *)

(** What an operation shows of the pod while it runs: the state it began in, the
    one it ends in, and for a release the one without the target. *)
Definition during (o : ref_op) (l l' : life) : Prop :=
  l' = l ∨ l' = (ref_step o l).1 ∨ ∃ t, o = ReleaseTarget t ∧ l' = drop_key t l.

Lemma run_op_implements n c o w l :
  6 ≤ len n → implements n w l →
  op_ok n (during o l) (run_op c n o) w (ref_step o l).1 (ref_step o l).2.
Proof.
  intros. destruct o as [t|t]; [apply AddRefOfMount_implements|apply release_target_implements];
    try done; unfold during; auto.
  - right. right. eauto.
  - right. left. destruct l; [done| |done]. cbn. by case_decide.
Qed.

Lemma run_ops_implements c n ops w l :
  6 ≤ len n → implements n w l →
  ∃ w', interp (@serve W S) (run_ops c n ops) w = (Done (ref_steps ops l).2, w') ∧
        implements n w' (ref_steps ops l).1.
Proof.
  intros Hn. revert w l. induction ops as [|o ops IH]; intros w l Hi; cbn [run_ops ref_steps].
  - by exists w.
  - destruct (interp (@serve W S) (run_op c n o) w) as [out w1] eqn:E.
    destruct (rwp_interp _ _ _ _ _ _ _ _ (run_op_implements n c o w l Hn Hi) E)
      as [_ (r & -> & Hi1 & _ & Hok)].
    rewrite interp_bind, E. destruct (ref_step o l) as [l1 ok]. cbn [fst snd] in *.
    destruct (IH w1 l1 Hi1) as (w' & E' & Hi'). rewrite interp_bind, E'.
    destruct (ref_steps ops l1) as [l2 oks]. exists w'. cbn [interp fst snd] in *.
    by rewrite Hok.
Qed.

(** C4: The reference count of a mount pod without deletion delay refines its
    contract.  The conditions ([implements]): the API server is healthy, the pod is
    missing or a mount pod that has a finalizer and the annotation of its volume
    and has no deletion-delay annotation (with one, releasing the last target
    stamps the pod instead of deleting it; [ShouldDelay_two_phase] and
    [DUmount_safe] are about that case), and no target has more mounts than the
    fuel of the unmount loop.  Then recording and releasing targets in any order
    takes the pod through the states of the contract, and each operation succeeds
    exactly when the contract says so: a target is recorded on a live pod only, and
    releasing the last one starts the deletion of the pod.  Retries, the two reads
    of a release and the removal of secret and service are part of the
    operations. *)
Theorem ref_count_refines c n ops w l :
  6 ≤ len n → implements n w l →
  ∃ w', interp (@serve W S) (run_ops c n ops) w = (Done (ref_steps ops l).2, w') ∧
        implements n w' (ref_steps ops l).1.
Proof. apply run_ops_implements. Qed.

End refinement.

(** ** Examples *)

Section refcount_examples.
#[local] Existing Instances demo_globals demo_ext.
#[local] Instance demo_fuel : Fuel := 5.

(** A setting of the volume [pvc-1] for a target, the hash of such settings, and
    the mount pod of the volume with the target [/t1]. *)
Definition demo_shared (t : string) : DfsSetting :=
  set_s_UniqueId "pvc-1" (set_s_TargetPath t demo_setting).
Definition demo_hash : string := Eval vm_compute in GenHashOfSetting (demo_shared "/t1").
Definition demo_labels : smap :=
  {[ config.PodTypeKey := config.PodTypeValue; config.PodVolumeIdLabelKey := "pvc-1";
     config.PodHashLabelKey := demo_hash ]}.
Definition demo_mount_pod : Pod :=
  set_pod_Labels demo_labels (set_pod_Annotations (Some {[ config.UniqueId := "pvc-1"; GetReferenceKey "/t1" := "/t1" ]})
    (set_pod_Finalizers [config.Finalizer]
      (set_pod_Name "dingofs-node1-pvc-1-abcdef" (set_pod_Namespace "dingofs"
        (upd_spec (set_spec_NodeName "node1") empty_pod))))).

Definition demo_memory : memory :=
  MkMemory {[ ("dingofs-node1-pvc-1-abcdef", "dingofs") := demo_mount_pod ]} {[ "/t1" := 2 ]}.

Lemma two_annotations k1 k v :
  (<[config.UniqueId := "pvc-1"]> ({[k1 := "/t1"]} : smap)) !! k = Some v →
  k ≠ config.UniqueId → k = k1 ∧ v = "/t1".
Proof.
  intros H Hk. rewrite lookup_insert_ne in H by done. by apply lookup_singleton_Some in H as [-> ->].
Qed.

Lemma demo_implements :
  implements (GetPodLock demo_hash) "dingofs-node1-pvc-1-abcdef" demo_memory (Live {[ GetReferenceKey "/t1" ]}).
Proof.
  split.
  - intros t. change (mounts demo_memory t) with (default 0 (({["/t1" := 2]} : gmap _ _) !! t)).
    unfold fuel, demo_fuel. destruct (decide ("/t1" = t)) as [<-|H].
    + rewrite lookup_singleton_eq. cbn. lia.
    + rewrite lookup_singleton_ne by done. cbn. lia.
  - replace (store demo_memory !! ("dingofs-node1-pvc-1-abcdef", Namespace)) with (Some demo_mount_pod)
      by (vm_compute; reflexivity).
    split; [split; [done|done| | | |done|]|].
    + intros t v H. apply (two_annotations (GetReferenceKey "/t1")) in H as [Hk ->];
        [by rewrite Hk|apply refkey_ne_unique].
    + exists "pvc-1". vm_compute. reflexivity.
    + vm_compute. reflexivity.
    + change (m_get demo_labels config.PodHashLabelKey ≠ "" ∧
              GetPodLock (m_get demo_labels config.PodHashLabelKey) = GetPodLock demo_hash).
      replace (m_get demo_labels config.PodHashLabelKey) with demo_hash by (vm_compute; reflexivity).
      split; [discriminate|reflexivity].
    + change (Live {[GetReferenceKey "/t1"]} = Live (ref_keys demo_mount_pod)). apply (f_equal Live).
      vm_compute. reflexivity.
Qed.

Lemma ref_count_refines_witness :
  ∃ w', interp (@serve memory memory_server)
          (run_ops Background "dingofs-node1-pvc-1-abcdef"
            [AddTarget "/t2"; ReleaseTarget "/t1"; ReleaseTarget "/t2"; AddTarget "/t3"])
          demo_memory = (Done [true; true; true; false], w') ∧
        implements (GetPodLock demo_hash) "dingofs-node1-pvc-1-abcdef" w' (Dying ∅).
Proof.
  assert (ref_steps [AddTarget "/t2"; ReleaseTarget "/t1"; ReleaseTarget "/t2"; AddTarget "/t3"]
            (Live {[ GetReferenceKey "/t1" ]}) = (Dying ∅, [true; true; true; false])) as E.
  { vm_compute. reflexivity. }
  destruct (ref_count_refines (GetPodLock demo_hash) Background "dingofs-node1-pvc-1-abcdef"
    [AddTarget "/t2"; ReleaseTarget "/t1"; ReleaseTarget "/t2"; AddTarget "/t3"]
    demo_memory _ ltac:(cbn; lia) demo_implements) as (w' & H1 & H2).
  rewrite E in H1, H2. exact (ex_intro _ w' (conj H1 H2)).
Defined.

End refcount_examples.
