(* ===== verification/MountInfo.v ===== *)
(** * MountInfo: the mount table and the targets of application pods

    [src/pkg/controller/mountinfo.go]. *)

From S2P Require Import Prelude GoStrings GoHash GoTime GoNum Objects Effects Config Util.
From Stdlib Require Import Ascii.

(** [mountInfoTable]: the parsed mount table, and for each known pod whether it
    is being deleted. *)
Record mountInfoTable := MkMountInfoTable {
  mis : list MountInfo;
  deletedPods : gmap string bool
}.
Definition newMountInfoTable : mountInfoTable := MkMountInfoTable [] ∅.

(** [setPodStatus] and [setPodsStatus]. *)
Definition is_deleted (pod : Pod) : bool := bool_decide (pod_DeletionTimestamp pod ≠ None).
Definition setPodStatus (mit : mountInfoTable) (pod : Pod) : mountInfoTable :=
  MkMountInfoTable (mis mit) (<[pod_UID pod := is_deleted pod]> (deletedPods mit)).
Definition setPodsStatus (mit : mountInfoTable) (pods : option (list Pod)) : mountInfoTable :=
  MkMountInfoTable (mis mit)
    (foldl (λ m p, <[pod_UID p := is_deleted p]> m) ∅ (default [] pods)).

(** [parse]. *)
Definition parse (mit : mountInfoTable) : prog (result mountInfoTable) :=
  r <-? call ParseMountInfo ;; Ret (Ok (MkMountInfoTable r (deletedPods mit))).

Definition containerSubPathDirectory : string := "volume-subpaths".
Definition containerCsiDirectory : string := "volumes/kubernetes.io~csi".

Inductive targetStatus :=
  | targetStatusNotExist | targetStatusMounted | targetStatusNotMount
  | targetStatusCorrupt | targetStatusUnexpect.
#[export] Instance targetStatus_eq_dec : EqDecision targetStatus.
Proof. solve_decision. Defined.

(** [targetItem]; a new item has the zero status, [targetStatusNotExist]. *)
Record targetItem := MkTargetItem {
  ti_target : string;
  ti_subpath : string;
  ti_count : Z;
  ti_inconsistent : bool;
  ti_status : targetStatus;
  ti_err : option error
}.

Definition set_status (st : targetStatus) (err : option error) (ti : targetItem) : targetItem :=
  MkTargetItem (ti_target ti) (ti_subpath ti) (ti_count ti) (ti_inconsistent ti) st err.

(** [mountItem]. *)
Record mountItem := MkMountItem {
  item_podExist : bool;
  item_podDeleted : bool;
  item_baseTarget : targetItem;
  item_subPathTarget : list targetItem
}.

(** [getPodUid]: the directory above the CSI directory names the pod. *)
Definition getPodUid (target : string) : string :=
  match Split target containerCsiDirectory with
  | [a; _] =>
      match CutLast (TrimSuffix a "/") "/" with
      | Some (pre, uid) => if decide (pre = "") then "" else uid
      | None => ""
      end
  | _ => ""
  end.

(** [getPVName]: the directory below the CSI directory names the volume. *)
Definition getPVName (target : string) : string :=
  match Split target containerCsiDirectory with
  | [_; b] =>
      match Cut (TrimPrefix b "/") "/" with
      | Some (pv, _) => pv
      | None => ""
      end
  | _ => ""
  end.

(** One line of the table in [resolveTargetItem]. *)
Definition subpath_of (root : string) : string := Trim (TrimSuffix root "//deleted") "/".

Definition matches (path : string) (isPrefix : bool) (mi : MountInfo) : bool :=
  if isPrefix then HasPrefix (mi_MountPoint mi) path else bool_decide (path = mi_MountPoint mi).

Definition add_record (records : gmap string targetItem) (mi : MountInfo)
    : gmap string targetItem :=
  let subpath := subpath_of (mi_Root mi) in
  match records !! mi_MountPoint mi with
  | None =>
      <[mi_MountPoint mi := MkTargetItem (mi_MountPoint mi) subpath 1 false
                              targetStatusNotExist None]> records
  | Some r =>
      <[mi_MountPoint mi := MkTargetItem (ti_target r) (ti_subpath r) (ti_count r + 1)
                              (ti_inconsistent r || bool_decide (ti_subpath r ≠ subpath))
                              (ti_status r) (ti_err r)]> records
  end.

(** The records of the lines that match. *)
Definition records_of (l : list MountInfo) (path : string) (isPrefix : bool)
    : gmap string targetItem :=
  foldl add_record ∅ (filter (λ mi, matches path isPrefix mi = true) l).

Section mountinfo.
Context `{!Ext}.

Definition defaultCheckoutTimeout : Z := 1 * Second.

(** The status a [stat] result gives ([check]). *)
Definition status_of (mounted : bool) (r : result FileInfo) : targetStatus * option error :=
  match r with
  | Ok _ => (if mounted then targetStatusMounted else targetStatusNotMount, None)
  | Err e =>
      if os_IsNotExist e then (targetStatusNotExist, None)
      else if IsCorruptedMnt e then
        (targetStatusCorrupt, if mounted then None else Some e)
      else (targetStatusUnexpect, Some e)
  end.

(** [check]. *)
Definition ti_check (c : ctx) (mounted : bool) (ti : targetItem) : prog targetItem :=
  r <- DoWithTimeout c defaultCheckoutTimeout (call (Stat (ti_target ti))) ;;
  let '(st, err) := status_of mounted r in Ret (set_status st err ti).

Fixpoint check_all (c : ctx) (l : list targetItem) : prog (list targetItem) :=
  match l with
  | [] => Ret []
  | ti :: l => ti <- ti_check c true ti ;; l <- check_all c l ;; Ret (ti :: l)
  end.

(** [resolveTargetItem]. *)
Definition resolveTargetItem (c : ctx) (mit : mountInfoTable) (path : string) (isPrefix : bool)
    : prog (list targetItem) :=
  check_all c ((map_range (records_of (mis mit) path isPrefix)).*2).

(** [resolveTarget]. *)
Definition resolveTarget (c : ctx) (mit : mountInfoTable) (target : string)
    : prog (option mountItem) :=
  match Split target containerCsiDirectory with
  | [a; _] =>
      let podDir := TrimSuffix a "/" in
      let podUID := getPodUid target in
      let pvName := getPVName target in
      if decide (podUID = "") then Ret None
      else if decide (pvName = "") then Ret None
      else
        items <- resolveTargetItem c mit target false ;;
        base <- match items with
                | [ti] => Ret ti
                | _ => ti_check c false (MkTargetItem target "" 0 false targetStatusNotExist None)
                end ;;
        subs <- resolveTargetItem c mit
                  (Join [podDir; containerSubPathDirectory; pvName] "/") true ;;
        let st := deletedPods mit !! podUID in
        Ret (Some (MkMountItem (bool_decide (is_Some st)) (default false st) base subs))
  | _ => Ret None
  end.
End mountinfo.

(** * Properties *)

(** ** The targets of the kubelet *)

(** The pod and the volume of a target are read off its path: for every
    target in the layout of the kubelet, whatever the root directory and the
    rest of the path, the driver finds the pod's UID and the volume's name. *)
Theorem target_names d uid pv rest :
  d ≠ "" → "/"%char ∉ chars uid → "/"%char ∉ chars pv →
  "~"%char ∉ chars (d +:+ uid +:+ pv +:+ rest) →
  let t := d +:+ "/" +:+ uid +:+ "/" +:+ containerCsiDirectory +:+ "/" +:+ pv +:+ "/" +:+ rest in
  getPodUid t = uid ∧ getPVName t = pv.
Proof.
  intros Hd Hu Hp Ht t.
  assert (t = (d +:+ "/" +:+ uid +:+ "/") +:+ ("volumes/kubernetes.io" +:+ "~csi")
                +:+ ("/" +:+ pv +:+ "/" +:+ rest)) as Et.
  { unfold t, containerCsiDirectory. by rewrite !append_assoc. }
  assert (Split t containerCsiDirectory
          = [d +:+ "/" +:+ uid +:+ "/"; "/" +:+ pv +:+ "/" +:+ rest]) as Es.
  { rewrite Et. apply (Split_marked _ "volumes/kubernetes.io" "~" "csi").
    - rewrite !chars_append in *. cbn [chars]. set_solver.
    - apply (bool_decide_unpack _). done.
    - rewrite !chars_append in *. cbn [chars]. set_solver. }
  unfold getPodUid, getPVName. rewrite Es. split.
  - replace (d +:+ "/" +:+ uid +:+ "/") with ((d +:+ "/" +:+ uid) +:+ "/")
      by (by rewrite !append_assoc).
    rewrite TrimSuffix_app. change (d +:+ "/" +:+ uid) with (d +:+ String "/" uid).
    rewrite CutLast_app by done. by rewrite decide_False.
  - rewrite TrimPrefix_app. change (pv +:+ "/" +:+ rest) with (pv +:+ String "/" rest).
    by rewrite Cut_char_app.
Qed.

Lemma target_names_witness :
  getPodUid "/var/lib/kubelet/pods/8f4e/volumes/kubernetes.io~csi/pvc-1/mount" = "8f4e" ∧
  getPVName "/var/lib/kubelet/pods/8f4e/volumes/kubernetes.io~csi/pvc-1/mount" = "pvc-1".
Proof.
  apply (target_names "/var/lib/kubelet/pods" "8f4e" "pvc-1" "mount"); [done|..];
    apply (bool_decide_unpack _); vm_compute; exact I.
Defined.

(** ** The records of the mount table *)

(** The lines of a mount point, in the order of the table. *)
Definition lines_of (l : list MountInfo) (path : string) (isPrefix : bool) (t : string)
    : list MountInfo :=
  filter (λ mi, mi_MountPoint mi = t) (filter (λ mi, matches path isPrefix mi = true) l).

(** The record of these lines: how many there are, the sub path of the first,
    and whether the others agree with it. *)
Definition record_of (t : string) (lines : list MountInfo) : option targetItem :=
  match lines with
  | [] => None
  | mi :: rest =>
      let sub := subpath_of (mi_Root mi) in
      Some (MkTargetItem t sub (Z.of_nat (length lines))
              (existsb (λ mi, bool_decide (sub ≠ subpath_of (mi_Root mi))) rest)
              targetStatusNotExist None)
  end.

Lemma record_of_snoc t lines mi :
  mi_MountPoint mi = t →
  record_of t (lines ++ [mi]) =
    match record_of t lines with
    | None => Some (MkTargetItem t (subpath_of (mi_Root mi)) 1 false targetStatusNotExist None)
    | Some r => Some (MkTargetItem (ti_target r) (ti_subpath r) (ti_count r + 1)
                  (ti_inconsistent r || bool_decide (ti_subpath r ≠ subpath_of (mi_Root mi)))
                  (ti_status r) (ti_err r))
    end.
Proof.
  intros Ht. destruct lines as [|m0 lines]; [done|].
  cbn [record_of app ti_target ti_subpath ti_count ti_inconsistent ti_status ti_err].
  do 2 f_equal; [rewrite !length_cons, length_app; cbn; lia|].
  induction lines as [|m1 lines IH]; cbn; [by rewrite orb_false_r|]. by rewrite IH, orb_assoc.
Qed.

Lemma records_fold l t :
  foldl add_record ∅ l !! t = record_of t (filter (λ mi, mi_MountPoint mi = t) l).
Proof.
  induction l as [|mi l IH] using rev_ind; [apply lookup_empty|].
  rewrite foldl_app. cbn [foldl]. rewrite filter_app, filter_cons, filter_nil.
  revert IH. generalize (foldl add_record ∅ l). intros m IH. unfold add_record.
  case_decide as Ht; [|rewrite app_nil_r].
  - rewrite record_of_snoc, <-IH, Ht by done. by destruct (m !! t); rewrite lookup_insert_eq.
  - rewrite <-IH. by destruct (m !! mi_MountPoint mi); rewrite lookup_insert_ne.
Qed.

(** C32: The one pass over the mount table computes, for every mount point that
    matches, the number of mounts stacked on it, the sub path of the first, and
    whether they disagree.  The sub path is the root of the mount without the
    slashes around it, so that of a mount of the whole file system is empty. *)
Theorem records_of_spec l path isPrefix t :
  records_of l path isPrefix !! t = record_of t (lines_of l path isPrefix t).
Proof. apply records_fold. Qed.

(** The record of a target that is not a sub path has the empty sub path, where
    the comment above [targetItem] has a slash. *)
Theorem root_record_empty t minor :
  ti_subpath <$> record_of t [MkMountInfo "/" t minor] = Some "".
Proof. reflexivity. Qed.
