(* ===== verification/PodDriver.v ===== *)
(** * PodDriver: the state machine of mount pods

    [src/pkg/controller/pod_driver.go].  [Run] classifies a mount pod, removes
    the references of application pods that are gone, and hands the pod to the
    handler of its state.  The mount table of the driver is a parameter. *)

From S2P Require Import Prelude GoStrings GoHash GoTime GoNum Objects Effects Config Demo Setting.
From S2P Require Import Util K8sClient Resource Builder ApiServer PodMount MountInfo.

(** [Result]. *)
Record Result := MkResult { RequeueImmediately : bool; RequeueAfter : Z }.
Definition noRequeue : Result := MkResult false 0.
Definition requeueNow : Result := MkResult true 0.

(** [getPodStatus]; the pod may be nil. *)
Definition getPodStatus (pod : option Pod) : podStatus :=
  match pod with
  | None => podError
  | Some pod =>
      if is_deleted pod then podDeleted
      else if IsPodError pod then podError
      else if IsPodReady pod then podReady
      else podPending
  end.

Section driver.
Context `{!Globals, !Ext, !Fuel}.

Definition defaultTargetMountCounts : Z := 5.

Definition no_hash_label (pod : Pod) : error :=
  ErrNew ("pod " +:+ pod_Namespace pod +:+ "/" +:+ pod_Name pod +:+ " has no hash label").
Definition hash_label (pod : Pod) : string := m_get (pod_Labels pod) config.PodHashLabelKey.

(** A Go function that returns an [error] only, used where a [Result] is due. *)
Definition as_result {A} (a : A) (p : prog (option error)) : prog (result A) :=
  e <- p ;; Ret match e with Some e => Err e | None => Ok a end.

(** ** [checkAnnotations] *)

(** The reference annotations of a pod, in the order of the range. *)
Definition ref_entries (pod : Pod) : list (string * string) :=
  filter (λ kv, kv.1 = GetReferenceKey kv.2) (map_range (annotations pod)).

(** A reference whose application pod is in the list of pods. *)
Definition target_alive (mit : mountInfoTable) (kv : string * string) : bool :=
  bool_decide (is_Some (deletedPods mit !! getPodUid kv.2)).

Definition stale_keys (mit : mountInfoTable) (pod : Pod) : list string :=
  (filter (λ kv, target_alive mit kv = false) (ref_entries pod)).*1.
Definition existTargets (mit : mountInfoTable) (pod : Pod) : nat :=
  length (filter (λ kv, target_alive mit kv = true) (ref_entries pod)).

Definition delAnnotations (mit : mountInfoTable) (pod : Pod) : list string :=
  stale_keys mit pod
  ++ (if bool_decide (existTargets mit pod ≠ 0)
         && bool_decide (m_get (annotations pod) config.DeleteDelayAtKey ≠ "")
      then [config.DeleteDelayAtKey] else []).

Definition conflict (what : string) : error := ErrApi Conflict what.

(** The removal of the stale references: a read of the pod must show as many
    references as the pod at hand. *)
Definition drop_stale (c : ctx) (mit : mountInfoTable) (pod : Pod) : prog (option error) :=
  if decide (delAnnotations mit pod = []) then Ret None
  else
    newPod <-! GetPod c (pod_Name pod) (pod_Namespace pod) ;;
    if decide (size (GetAllRefKeys newPod) ≠ size (GetAllRefKeys pod))
    then Ret (Some (conflict "can not patch pod"))
    else DelPodAnnotation pod (delAnnotations mit pod).

(** The deletion of a pod without references: a read of the pod must show none. *)
Definition delete_unreferenced (c : ctx) (mit : mountInfoTable) (pod : Pod)
    : prog (option error) :=
  if bool_decide (existTargets mit pod = 0) && negb (is_deleted pod) then
    shouldDelay <-! ShouldDelay pod ;;
    if shouldDelay : bool then Ret None
    else
      newPod <-! GetPod c (pod_Name pod) (pod_Namespace pod) ;;
      if decide (size (GetAllRefKeys newPod) ≠ 0)
      then Ret (Some (conflict "can not delete pod"))
      else
        check DeletePod (Some pod) ;;
        DeleteSecret (pod_Name pod +:+ "-secret") (pod_Namespace pod) ;;;
        Ret None
  else Ret None.

Definition checkAnnotations (c : ctx) (mit : mountInfoTable) (pod : Pod) : prog (option error) :=
  if decide (hash_label pod = "") then Ret (Some (no_hash_label pod))
  else with_mutex (GetPodLock (hash_label pod))
         (check drop_stale c mit pod ;; delete_unreferenced c mit pod).

(** ** Helpers of the handlers *)

(** [mkrMp]. *)
Definition mkrMp (c : ctx) (pod : Pod) : prog (option error) :=
  r <-! GetMountPathOfPod pod ;;
  DoWithTimeout_err c (3 * Second)
    (x <- call (PathExists r.1) ;;
     if x.1 : bool then Ret None else call (MkdirAll r.1 511)).

(** [applyConfigPatch]: on an error the pod stays as it is. *)
Definition with_attr (a : PodAttr) (pod : Pod) : Pod :=
  let pod := set_pod_Annotations (Some (a_Annotations a)) (set_pod_Labels (a_Labels a) pod) in
  let pod := upd_spec (λ s,
    set_spec_TerminationGracePeriodSeconds (a_TerminationGracePeriodSeconds a)
    (set_spec_HostIPC (a_HostIPC a) (set_spec_HostPID (a_HostPID a)
    (set_spec_HostNetwork (a_HostNetwork a) (set_spec_HostAliases (a_HostAliases a) s))))) pod in
  upd_container0 (λ cn,
    set_cn_Resources (a_Resources a) (set_cn_Lifecycle (a_Lifecycle a)
    (set_cn_StartupProbe (a_StartupProbe a) (set_cn_ReadinessProbe (a_ReadinessProbe a)
    (set_cn_LivenessProbe (a_LivenessProbe a) (set_cn_Image (a_Image a) cn)))))) pod.

Definition applyConfigPatch (pod : Pod) : prog (result Pod) :=
  attr <-? GenPodAttrWithMountPod pod ;;
  match spec_Containers (pod_Spec pod) with
  | [] => Panic "index out of range"
  | _ => Ret (Ok (with_attr attr pod))
  end.

(** The pod that replaces [pod]: same name, labels, annotations and spec. *)
Definition successor (pod : Pod) : Pod :=
  let p := {| pod_Name := pod_Name pod; pod_Namespace := pod_Namespace pod; pod_UID := "";
              pod_Labels := pod_Labels pod; pod_Annotations := pod_Annotations pod;
              pod_DeletionTimestamp := None; pod_Finalizers := []; pod_OwnerReferences := [];
              pod_Spec := pod_Spec pod; pod_Status := empty_status |} in
  set_pod_Finalizers (AddFinalizer (pod_Finalizers p) config.Finalizer) p.

(** The loop of the error and pending handlers that waits for the deletion. *)
Definition wait_pod_gone (c : ctx) (pod : Pod) : prog bool :=
  loop fuel (λ _ : unit,
    r <- GetPod c (pod_Name pod) (pod_Namespace pod) ;;
    match r with
    | Ok _ => call (Sleep (500 * Microsecond)) ;;; Ret (inl tt)
    | Err e =>
        if IsNotFound e then Ret (inr true)
        else if IsTimeout e then Ret (inr false)
        else
          w <- call (CtxErr c) ;;
          match w with Some _ => Ret (inr false) | None => Ret (inl tt) end
    end) tt.

(** The replacement of a pod that failed for lack of resources; [timedOut] is
    what the handler returns when the old pod stays. *)
Definition redeploy (c : ctx) (pod : Pod) (timedOut : Result) : prog (result Result) :=
  if IsPodResourceError pod && IsPodHasResource pod then
    RemoveFinalizer pod config.Finalizer ;;;
    e <- DeletePod (Some pod) ;;
    match e with
    | Some _ => Ret (Ok noRequeue)
    | None =>
        isDeleted <- wait_pod_gone c pod ;;
        if isDeleted : bool then
          let newPod := DeleteResourceOfPod (successor pod) in
          mkrMp c newPod ;;;
          CreatePod (Some newPod) ;;;
          Ret (Ok noRequeue)
        else Ret (Ok timedOut)
    end
  else Ret (Ok noRequeue).

(** [podErrorHandler] and [podPendingHandler]. *)
Definition podErrorHandler (c : ctx) (pod : Pod) : prog (result Result) :=
  if decide (hash_label pod = "") then Ret (Err (no_hash_label pod))
  else with_mutex (GetPodLock (hash_label pod)) (redeploy c pod requeueNow).
Definition podPendingHandler (c : ctx) (pod : Pod) : prog (result Result) :=
  if decide (hash_label pod = "") then Ret (Err (no_hash_label pod))
  else with_mutex (GetPodLock (hash_label pod)) (redeploy c pod noRequeue).

(** ** [podDeletedHandler] *)

(** The pod that takes over the targets of a deleted one. *)
Definition recreate_pod (c : ctx) (pod : Pod) : prog (result Result) :=
  let newPod := successor pod in
  r <- applyConfigPatch newPod ;;
  let newPod := match r with Ok p => p | Err _ => newPod end in
  mkrMp c newPod ;;;
  r <- CreatePod (Some newPod) ;;
  match r with
  | Err e => Ret (Err e)
  | Ok _ => Ret (Ok requeueNow)
  end.

Definition takeover (c : ctx) (pod : Pod) : prog (result Result) :=
  loop fuel (λ _ : unit,
    r <- GetPod c (pod_Name pod) (pod_Namespace pod) ;;
    match r with
    | Ok po =>
        if is_deleted po then call (Sleep (500 * Millisecond)) ;;; Ret (inl tt)
        else
          ReplacePodAnnotation pod (merge_into (annotations po) (GetAllRefKeys pod)) ;;;
          Ret (inr (Ok noRequeue))
    | Err e =>
        if IsTimeout e then
          Ret (inr (Err (ErrNew ("old pod " +:+ pod_Name pod +:+ " " +:+ Namespace
                                 +:+ " deleting timeout"))))
        else if IsNotFound e then r <- recreate_pod c pod ;; Ret (inr r)
        else Ret (inr (Ok noRequeue))
    end) tt.

(** The end of a mount: unmount, clean the directory, and the background work. *)
Definition finish_mount (c : ctx) (pod : Pod) (sourcePath : string) : prog (result Result) :=
  UmountPath c sourcePath ;;;
  DoWithTimeout_err c defaultCheckoutTimeout (call (CleanupMountPoint sourcePath false)) ;;;
  call (Spawn (TaskCleanUpCache pod)) ;;;
  call (Spawn (TaskStopFd (hash_label pod))) ;;;
  Ret (Ok noRequeue).

Definition podDeletedHandler (c : ctx) (pod : Pod) : prog (result Result) :=
  if negb (ContainsString (pod_Finalizers pod) config.Finalizer) then Ret (Ok noRequeue)
  else
    check? RemoveFinalizer pod config.Finalizer ;;
    call (Spawn (TaskCheckMountPodStuck pod)) ;;;
    if IsPodResourceError pod then Ret (Ok noRequeue)
    else
      mp <-? GetMountPathOfPod pod ;;
      match pod_Annotations pod with
      | None => Ret (Ok noRequeue)
      | Some _ =>
          if decide (hash_label pod = "") then Ret (Err (no_hash_label pod))
          else if decide (GetAllRefKeys pod = ∅) then finish_mount c pod mp.1
          else with_mutex (GetPodLock (hash_label pod)) (takeover c pod)
      end.

(** ** [podReadyHandler] and recovery *)

(** [umountTarget]. *)
Fixpoint umount_times (n : nat) (target : string) : prog unit :=
  match n with
  | O => Ret tt
  | S n => call (Unmount target) ;;; umount_times n target
  end.
Definition umountTarget (target : string) (count : Z) : prog unit :=
  umount_times (Z.to_nat count) target.

(** The number of mounts of [target] that [umountTargetUntilRemain] sees. *)
Definition mount_count (mi : mountItem) (target : string) : Z :=
  if decide (ti_target (item_baseTarget mi) = target) then ti_count (item_baseTarget mi)
  else foldl (λ n t, if decide (ti_target t = target) then ti_count t else n)
         (ti_count (item_baseTarget mi)) (item_subPathTarget mi).

(** [umountTargetUntilRemain]. *)
Definition umountTargetUntilRemain (c : ctx) (base target : string) (remainCount : Z)
    : prog (option error) :=
  loop fuel (λ _ : unit,
    mit <- parse newMountInfoTable ;;
    match mit with
    | Err e => Ret (inr (Some (ErrNew ("umountTargetWithRemain ParseMountInfo: "
                                       +:+ error_text e))))
    | Ok mit =>
        mi <- resolveTarget c mit base ;;
        match mi with
        | None => Ret (inr (Some (ErrNew ("pod target " +:+ target +:+ " resolve fail"))))
        | Some mi =>
            if decide (mount_count mi target < remainCount)%Z then Ret (inr None)
            else UmountPath (WithTimeout c (2 * Minute)) target ;;; Ret (inl tt)
        end
    end) tt.

(** The bind mount that restores a corrupt target. *)
Definition rebind (c : ctx) (sourcePath : string) (ti : targetItem) : prog (option error) :=
  let src := if decide (ti_subpath ti = "") then sourcePath
             else sourcePath +:+ "/" +:+ ti_subpath ti in
  ok <- (if decide (ti_subpath ti = "") then Ret true
         else r <- DoWithTimeout c defaultCheckoutTimeout (call (Stat src)) ;; Ret (is_ok r)) ;;
  if ok : bool then
    e <- call (Mount src (ti_target ti) "none" ["bind"]) ;;
    match e with
    | Some e => Ret (Some (ErrNew ("exec cmd: mount -o bind " +:+ src +:+ " " +:+ ti_target ti
                                   +:+ " err:" +:+ error_text e)))
    | None => Ret None
    end
  else Ret None.

(** [recoverTarget]. *)
Definition recoverTarget (c : ctx) (podName sourcePath : string) (ti : targetItem)
    (mi : mountItem) : prog (option error) :=
  match ti_status ti with
  | targetStatusNotExist =>
      if bool_decide (0 < ti_count ti)%Z && item_podDeleted mi
      then umountTarget (ti_target ti) (ti_count ti) ;;; Ret None
      else Ret None
  | targetStatusMounted | targetStatusNotMount => Ret None
  | targetStatusCorrupt =>
      if ti_inconsistent ti then Ret None
      else if item_podDeleted mi then Ret None
      else
        check umountTargetUntilRemain c (ti_target (item_baseTarget mi)) (ti_target ti)
                defaultTargetMountCounts ;;
        rebind c sourcePath ti
  | targetStatusUnexpect =>
      Ret (Some (ErrNew ("pod " +:+ podName +:+ " target " +:+ ti_target ti +:+ " reslove err: "
                 +:+ nil_text (ti_err ti))))
  end.

Definition option_error (e : option error) : option (option error) :=
  match e with Some e => Some (Some e) | None => None end.

(** [recover]. *)
Definition recover (c : ctx) (mit : mountInfoTable) (pod : Pod) (mntPath : string)
    : prog (option error) :=
  for_each (ref_entries pod) (λ kv,
    mi <- resolveTarget c mit kv.2 ;;
    match mi with
    | None => Ret None
    | Some mi =>
        e <- for_each (item_baseTarget mi :: item_subPathTarget mi) (λ ti,
               e <- recoverTarget c (pod_Name pod) mntPath ti mi ;; Ret (option_error e))
               (Ret None) ;;
        Ret (option_error e)
    end) (Ret None).

(** [podReadyHandler]; unlike the other handlers it locks by the pod's name. *)
Definition podReadyHandler (c : ctx) (mit : mountInfoTable) (pod : Pod) : prog (result Result) :=
  match pod_Annotations pod with
  | None => Ret (Ok noRequeue)
  | Some _ =>
      mp <-? GetMountPathOfPod pod ;;
      let mntPath := mp.1 in
      with_mutex (GetPodLock (pod_Name pod))
        (e <- WaitUtilMountReady c (pod_Name pod) mntPath defaultCheckoutTimeout ;;
         match e with
         | Some _ =>
             call (CloseFd (hash_label pod)) ;;;
             DoWithTimeout_err c defaultCheckoutTimeout (UmountPath c mntPath ;;; Ret None) ;;;
             as_result requeueNow (DeletePod (Some pod))
         | None => as_result noRequeue (recover c mit pod mntPath)
         end)
  end.

(** ** [Run] *)

Definition handle (c : ctx) (mit : mountInfoTable) (ps : podStatus) (pod : Pod)
    : prog (result Result) :=
  match ps with
  | podReady => podReadyHandler c mit pod
  | podError => podErrorHandler c pod
  | podPending => podPendingHandler c pod
  | podDeleted => podDeletedHandler c pod
  end.

Definition Run (c : ctx) (mit : mountInfoTable) (current : option Pod) : prog (result Result) :=
  match current with
  | None => Ret (Ok noRequeue)
  | Some current =>
      let ps := getPodStatus (Some current) in
      check? checkAnnotations c mit current ;;
      match ps with
      | podReady | podPending => handle c mit ps current
      | podError | podDeleted =>
          pod <-? GetPod c (pod_Name current) (pod_Namespace current) ;;
          handle c (setPodStatus mit pod) (getPodStatus (Some pod)) pod
      end
  end.

(** ** Background tasks *)

(** [CleanUpCache]. *)
Definition wait_cache_pod (c : ctx) (pod : Pod) : prog (option bool) :=
  loop fuel (λ _ : unit,
    r <- GetPod (WithTimeout c (3 * Minute)) (pod_Name pod) (pod_Namespace pod) ;;
    match r with
    | Err e =>
        if IsNotFound e then Ret (inr (Some true))
        else if IsTimeout e then Ret (inr (Some false))
        else Ret (inr None)
    | Ok _ => call (Sleep (500 * Microsecond)) ;;; Ret (inl tt)
    end) tt.

Definition cache_dirs (pod : Pod) : list string :=
  omap (λ v, match vol_Source v with
             | HostPath p _ => if HasPrefix (vol_Name v) "cachedir-" then Some p else None
             | _ => None
             end) (spec_Volumes (pod_Spec pod)).

Definition CleanUpCache (c : ctx) (pod : Pod) : prog unit :=
  let get := m_get (annotations pod) in
  if decide (get config.CleanCache ≠ "true") then Ret tt
  else if decide (get config.DingoFSID = "" ∧ get config.UniqueId = "") then Ret tt
  else
    r <- wait_cache_pod c pod ;;
    match r with
    | Some true =>
        match spec_Containers (pod_Spec pod) with
        | [] => Panic "index out of range"
        | c0 :: _ =>
            CleanCache c (cn_Image c0) (get config.DingoFSID) (get config.UniqueId)
              (cache_dirs pod) ;;; Ret tt
        end
    | _ => Ret tt
    end.

(** [doAbortFuse]; the job read back is nil when the read fails, and the log
    line of that branch dereferences it. *)
Definition doAbortFuse (mountpod : Pod) (devMinor : Z) : prog (option error) :=
  job <- NewFuseAbortJob mountpod devMinor ;;
  r <- CreateJob (Some job) ;;
  match r with
  | Err e => Ret (Some e)
  | Ok _ =>
      let waitCtx := WithTimeout Background (1 * Minute) in
      loop fuel (λ _ : unit,
        w <- call (CtxErr waitCtx) ;;
        match w with
        | Some _ => Ret (inr None)
        | None =>
            j <- GetJob waitCtx (job_Name job) (job_Namespace job) ;;
            match j with
            | Err e =>
                if IsNotFound e then Ret (inr None)
                else Panic "invalid memory address or nil pointer dereference"
            | Ok j =>
                if IsJobCompleted j then Ret (inr None)
                else call (Sleep (10 * Second)) ;;; Ret (inl tt)
            end
        end) tt
  end.

(** The time [checkMountPodStuck] waits: a grace period of [n] seconds is taken
    as [n] nanoseconds. *)
Definition stuck_timeout (pod : Pod) : Z :=
  match spec_TerminationGracePeriodSeconds (pod_Spec pod) with
  | None => Minute
  | Some n => Z.max Minute (i64 (n * 2))
  end.

(** [checkMountPodStuck]. *)
Definition checkMountPodStuck (pod : Pod) : prog unit :=
  if decide (getPodStatus (Some pod) ≠ podDeleted) then Ret tt
  else
    mp <- GetMountPathOfPod pod ;;
    let mountPoint := match mp with Ok r => r.1 | Err _ => "" end in
    let c := WithTimeout Background (stuck_timeout pod) in
    defer (DevMinorDelete mountPoint)
      (loop fuel (λ _ : unit,
        w <- call (CtxErr c) ;;
        match w with
        | Some _ =>
            m <- DevMinorTableLoad mountPoint ;;
            match m with
            | Some devMinor => doAbortFuse pod devMinor ;;; Ret (inr tt)
            | None => Ret (inr tt)
            end
        | None =>
            r <- GetPod c (pod_Name pod) (pod_Namespace pod) ;;
            match r with
            | Err _ => Ret (inr tt)
            | Ok newPod =>
                if decide (getPodStatus (Some newPod) ≠ podDeleted) then Ret (inr tt)
                else call (Sleep (10 * Second)) ;;; Ret (inl tt)
            end
        end) tt).
End driver.

(** * Properties *)

Section driver_facts.
Context {G : Globals} {X : Ext} {F : Fuel}.

(** ** The cleanup of references *)

(** [k] is the key of a reference of [pod] whose application pod is unknown. *)
Definition stale_ref (mit : mountInfoTable) (pod : Pod) (k : string) : Prop :=
  ∃ t, annotations pod !! k = Some t ∧ k = GetReferenceKey t ∧
       deletedPods mit !! getPodUid t = None.

Lemma elem_of_ref_entries pod k t :
  (k, t) ∈ ref_entries pod ↔ annotations pod !! k = Some t ∧ k = GetReferenceKey t.
Proof.
  unfold ref_entries. rewrite list_elem_of_filter. simpl.
  rewrite map_range_spec, elem_of_map_to_list. naive_solver.
Qed.

Lemma elem_of_stale_keys mit pod k : k ∈ stale_keys mit pod ↔ stale_ref mit pod k.
Proof.
  unfold stale_keys, stale_ref, target_alive. rewrite list_elem_of_fmap. split.
  - intros ([k' t] & -> & [Ha [Hk He]%elem_of_ref_entries]%list_elem_of_filter).
    exists t. split_and!; try done. apply bool_decide_eq_false in Ha. by apply eq_None_not_Some.
  - intros (t & Hk & He & Hd). exists (k, t). split; [done|]. apply list_elem_of_filter.
    split; [|by apply elem_of_ref_entries]. apply bool_decide_eq_false. simpl. rewrite Hd.
    by intros [].
Qed.

Lemma existTargets_zero mit pod :
  existTargets mit pod = 0 ↔
  ∀ k t, annotations pod !! k = Some t → k = GetReferenceKey t →
         deletedPods mit !! getPodUid t = None.
Proof.
  unfold existTargets. rewrite length_zero_iff_nil. split.
  - intros H k t Hk He. destruct (deletedPods mit !! getPodUid t) eqn:Ed; [|done].
    assert ((k, t) ∈ ([] : list (string * string))) as Hin; [|by inversion Hin].
    rewrite <-H. apply list_elem_of_filter. split; [|by apply elem_of_ref_entries].
    apply bool_decide_eq_true. simpl. by rewrite Ed.
  - intros H. apply filter_none, Forall_forall. intros [k t] [Hk He]%elem_of_ref_entries.
    unfold target_alive. rewrite bool_decide_eq_true. simpl. rewrite (H k t) by done.
    by intros [].
Qed.

(** What [checkAnnotations] may do to the API server. *)
Definition check_guard (mit : mountInfoTable) (pod : Pod) : guard := λ Y e _ tr,
  match e with
  | PodDelete n ns =>
      n = pod_Name pod ∧ ns = pod_Namespace pod ∧ existTargets mit pod = 0 ∧
      pod_DeletionTimestamp pod = None ∧ ∃ p, last_get tr = Some p ∧ GetRef p = 0
  | PodPatch n ns (JSONPatch ops) =>
      n = pod_Name pod ∧ ns = pod_Namespace pod ∧
      (∃ p, last_get tr = Some p ∧ GetRef p = GetRef pod) ∧
      Forall (λ op, ∃ k, op = RemovePath (annotation_path k) ∧
        (stale_ref mit pod k ∨ k = config.DeleteDelayAtKey ∧ existTargets mit pod ≠ 0)) ops
  | PodPatch n ns (MergeAnnotations m) =>
      existTargets mit pod = 0 ∧ ∃ at', m = {[ config.DeleteDelayAtKey := at' ]}
  | PodPatch _ _ (MergeLabels _) | PodCreate _ | PodUpdate _ => False
  | _ => True
  end.

Lemma delAnnotations_ok mit pod k :
  k ∈ delAnnotations mit pod →
  stale_ref mit pod k ∨ k = config.DeleteDelayAtKey ∧ existTargets mit pod ≠ 0.
Proof.
  unfold delAnnotations. rewrite elem_of_app, elem_of_stale_keys. intros [?|Hk]; [by left|].
  right. case_bool_decide; simpl in Hk; [|by inversion Hk].
  case_bool_decide; [|by inversion Hk]. by apply list_elem_of_singleton in Hk.
Qed.

Lemma drop_stale_guarded c mit pod tr :
  guarded (check_guard mit pod) tr →
  wp any_env (drop_stale c mit pod) tr (λ _ tr', guarded (check_guard mit pod) tr').
Proof.
  intros Hg. unfold drop_stale, GetPod. case_decide; [done|]. cbn [call bind wp].
  intros [p|e] _; [|done]. case_decide as Hs; [done|].
  unfold DelPodAnnotation, PatchPod. cbn [call wp]. intros r _. split; [|done].
  split_and!; [done|done| |].
  - exists p. split; [done|]. unfold GetRef. lia.
  - apply Forall_forall. intros op (k & -> & Hk)%list_elem_of_fmap. exists k.
    split; [done|]. by apply delAnnotations_ok.
Qed.

Lemma delete_unreferenced_guarded c mit pod tr :
  guarded (check_guard mit pod) tr →
  wp any_env (delete_unreferenced c mit pod) tr (λ _ tr', guarded (check_guard mit pod) tr').
Proof.
  intros Hg. unfold delete_unreferenced. case_bool_decide as Hz; simpl; [|done].
  destruct (is_deleted pod) eqn:Hd; simpl; [done|].
  assert (pod_DeletionTimestamp pod = None) as Hnd.
  { unfold is_deleted in Hd. case_bool_decide as H; [done|].
    by destruct (pod_DeletionTimestamp pod); [destruct H|]. }
  apply wp_bind.
  assert (∀ tr, guarded (check_guard mit pod) tr →
    wp any_env (newPod <-! GetPod c (pod_Name pod) (pod_Namespace pod) ;;
      if decide (size (GetAllRefKeys newPod) ≠ 0)
      then Ret (Some (conflict "can not delete pod"))
      else check DeletePod (Some pod) ;;
        DeleteSecret (pod_Name pod +:+ "-secret") (pod_Namespace pod) ;;; Ret None) tr
      (λ _ tr', guarded (check_guard mit pod) tr')) as Hdel.
  { intros tr0 H0. unfold GetPod, DeletePod, DeleteSecret. cbn [call bind wp].
    intros [p|e] _; [|done]. case_decide as Hs; [done|]. cbn [call bind wp]. intros r _.
    assert (guarded (check_guard mit pod) (Call (PodDelete (pod_Name pod) (pod_Namespace pod)) r
      :: Call (PodGet c (pod_Name pod) (pod_Namespace pod)) (Ok p) :: tr0)) as Hg0.
    { split; [|done]. split_and!; try done. exists p. split; [done|]. unfold GetRef. lia. }
    destruct r; cbn [call bind wp]; [done|]. by intros r _. }
  unfold ShouldDelay, GetTimeAfterDelay.
  destruct (annotations pod !! config.DeleteDelayTimeKey) as [d|]; [|by apply Hdel].
  destruct (annotations pod !! config.DeleteDelayAtKey) as [at'|].
  - destruct (GetTime at'); cbn [call bind wp]; [|by apply Hdel]. intros now _.
    destruct (now <? a)%Z; [done|]. by apply Hdel.
  - destruct (ParseDuration d); cbn [call bind wp]; [|by apply Hdel]. intros now _ off _.
    unfold AddPodAnnotation, PatchPod. cbn [call bind wp]. intros r _.
    assert (guarded (check_guard mit pod) (Call (PodPatch (pod_Name pod) (pod_Namespace pod)
      (MergeAnnotations {[config.DeleteDelayAtKey := time_Format off (now + a)]})) r
      :: Call ZoneOffset off :: Call Now now :: tr)) as Hg0.
    { split; [|done]. split; [done|]. by eexists. }
    by destruct r.
Qed.

Lemma ShouldDelay_lock_free pod : within lock_free (ShouldDelay pod).
Proof. unfold ShouldDelay, GetTimeAfterDelay, AddPodAnnotation. within_run. Qed.
#[local] Hint Resolve ShouldDelay_lock_free CreatePod_lock_free : go.

(** C7: The cleanup of a mount pod's references is safe, whatever the API server
    answers.  It drops only references whose application pod is not in the list
    of pods, and only after a read that showed as many references as the pod at
    hand has; it restarts a delayed deletion's clock only when targets are left;
    it deletes the pod only when none of its references is alive and a read just
    showed no reference at all; and it writes only under the pod's lock, which
    is released at the end. *)
Theorem checkAnnotations_safe c mit pod :
  let i := GetPodLock (hash_label pod) in
  wp any_env (checkAnnotations c mit pod) [] (λ o tr,
    guarded (check_guard mit pod) tr ∧ guarded (under_lock i no_pod_writes) tr ∧
    (o ≠ Diverged → locked i tr = false)).
Proof.
  intros i. unfold checkAnnotations. case_decide; [done|]. apply wp_and.
  - apply guarded_with_mutex; [done..|]. intros tr Hg. apply wp_bind.
    eapply wp_mono; [|by apply drop_stale_guarded]. intros [[e|]|m|] tr' Hg'; try done.
    by apply delete_unreferenced_guarded.
  - apply wp_with_mutex; [done|done| |done].
    unfold drop_stale, delete_unreferenced, DelPodAnnotation. within_run.
Qed.

(** ** The handlers that replace a pod *)

Lemma mkrMp_lock_free c pod : within lock_free (mkrMp c pod).
Proof.
  unfold mkrMp, GetMountPathOfPod, parseMntPath, DoWithTimeout_err, DoWithTimeout. within_run.
Qed.
#[local] Hint Resolve mkrMp_lock_free : go.

Lemma redeploy_lock_free c pod r : within lock_free (redeploy c pod r).
Proof. unfold redeploy, RemoveFinalizer, wait_pod_gone. within_run. Qed.

(** The handlers of failed and pending mount pods write pods only under the
    lock of the pod's setting, and release it however they end. *)
Theorem redeploy_locked c pod :
  let i := GetPodLock (hash_label pod) in
  Forall (λ h : ctx → Pod → prog (result Result),
    wp any_env (h c pod) [] (λ o tr,
      guarded (under_lock i no_pod_writes) tr ∧ (o ≠ Diverged → locked i tr = false)))
    [podErrorHandler; podPendingHandler].
Proof.
  intros i. repeat constructor; unfold podErrorHandler, podPendingHandler; (case_decide; [done|]);
    (apply wp_with_mutex; [done|done|apply redeploy_lock_free|done]).
Qed.

(** The API server said that [pod] is gone. *)
Definition found_gone (pod : Pod) : call_pred := λ Y e,
  match e in event Y return Y → Prop with
  | PodGet _ n ns => λ r, n = pod_Name pod ∧ ns = pod_Namespace pod ∧
      match r with Ok _ => False | Err e => IsNotFound e = true end
  | _ => λ _, False
  end.

(** A pod that can take the place of [pod]. *)
Record replaces (pod p : Pod) : Prop := {
  rep_name : pod_Name p = pod_Name pod;
  rep_namespace : pod_Namespace p = pod_Namespace pod;
  rep_labels : pod_Labels p = pod_Labels pod;
  rep_annotations : annotations p = annotations pod;
  rep_finalizer : config.Finalizer ∈ pod_Finalizers p;
  rep_live : pod_DeletionTimestamp p = None
}.

Lemma successor_replaces pod : replaces pod (successor pod).
Proof.
  split; try done. change (config.Finalizer ∈ AddFinalizer [] config.Finalizer).
  rewrite AddFinalizer_spec. case_decide; set_solver.
Qed.

Lemma DeleteResourceOfPod_replaces pod p : replaces pod p → replaces pod (DeleteResourceOfPod p).
Proof. by intros []. Qed.

Lemma DeleteResourceOfPod_none pod : IsPodHasResource (DeleteResourceOfPod pod) = false.
Proof.
  unfold IsPodHasResource, DeleteResourceOfPod. cbn.
  induction (spec_Containers (pod_Spec pod)) as [|cn l IH]; [done|]. cbn. by rewrite IH.
Qed.

(** Replacing a pod that failed for lack of resources. *)
Definition redeploy_guard (pod : Pod) : guard := λ Y e _ tr,
  match e with
  | PodCreate p => replaces pod p ∧ IsPodHasResource p = false ∧ happened (found_gone pod) tr
  | PodDelete n ns => n = pod_Name pod ∧ ns = pod_Namespace pod ∧ IsPodResourceError pod = true ∧
      IsPodHasResource pod = true
  | PodPatch n ns b => b = JSONPatch [ReplaceList "/metadata/finalizers"
                             (filter (λ f, f ≠ config.Finalizer) (pod_Finalizers pod))]
  | _ => True
  end.

(** Calls these guards say nothing about. *)
Lemma passive_redeploy pod Y (e : event Y) x tr :
  no_pod_writes Y e = true → redeploy_guard pod Y e x tr.
Proof. by destruct e. Qed.

Lemma mkrMp_no_writes c pod : within no_pod_writes (mkrMp c pod).
Proof.
  unfold mkrMp, GetMountPathOfPod, parseMntPath, DoWithTimeout_err, DoWithTimeout. within_run.
Qed.

(** [CreatePod]: the creation, and then no other write of a pod. *)
Lemma CreatePod_once p tr (R : guard) :
  (∀ Y (e : event Y) x tr, no_pod_writes Y e = true → R Y e x tr) →
  (∀ r, R _ (PodCreate p) r tr) → guarded R tr →
  wp any_env (CreatePod (Some p)) tr (λ _ tr', guarded R tr').
Proof.
  intros HR Hp Hg. cbn [CreatePod call bind wp]. intros r _. destruct r as [p'|e]; [|by split].
  eapply wp_mono; [|apply (wp_within _ no_pod_writes)].
  - intros o tr' He. eapply extends_guarded; [exact HR|exact He|]. by split.
  - unfold findAvailableNodePort, createSerivce, last_n. within_run.
    generalize 100. intros k. induction k; cbn [random_ports]; within_run.
Qed.

Lemma wait_pod_gone_ok c pod tr :
  wp any_env (wait_pod_gone c pod) tr (λ o tr', extends no_pod_writes tr tr' ∧
    (o = Done true → happened (found_gone pod) tr')).
Proof.
  apply wp_and; [apply wp_within; unfold wait_pod_gone; within_run|].
  apply (wp_loop _ (λ _ _, True)); [done|done|]. intros _ tr' _. unfold GetPod. cbn [call bind wp].
  intros [p|e] _; cbn [call bind wp]; [done|].
  destruct (IsNotFound e) eqn:En; cbn [wp]; [intros _; by apply happened_here|].
  destruct (IsTimeout e); cbn [call bind wp]; [done|]. by intros [w|] _; cbn [wp].
Qed.

Lemma redeploy_guarded c pod timedOut tr :
  guarded (redeploy_guard pod) tr →
  wp any_env (redeploy c pod timedOut) tr (λ _ tr', guarded (redeploy_guard pod) tr').
Proof.
  intros Hg. unfold redeploy. destruct (IsPodResourceError pod) eqn:E1; [|done].
  destruct (IsPodHasResource pod) eqn:E2; [|done].
  unfold RemoveFinalizer, PatchPod, DeletePod. cbn [andb call bind wp]. intros r1 _ r2 _.
  match goal with |- wp _ _ ?tr _ => assert (guarded (redeploy_guard pod) tr) as Hg1 by done end.
  destruct r2 as [e|]; [done|]. apply wp_bind. eapply wp_mono; [|apply wait_pod_gone_ok].
  intros o tr2 [He Hgone].
  assert (guarded (redeploy_guard pod) tr2) as Hg2
    by (eapply extends_guarded; [apply passive_redeploy|exact He|exact Hg1]).
  destruct o as [[|]|m|]; [|done..]. apply wp_bind.
  eapply wp_mono; [|apply (wp_within _ no_pod_writes), mkrMp_no_writes]. intros o tr3 He3.
  assert (guarded (redeploy_guard pod) tr3) as Hg3
    by (eapply extends_guarded; [apply passive_redeploy|exact He3|exact Hg2]).
  destruct o as [e|m|]; [|done..]. apply wp_bind.
  eapply wp_mono; [|apply (CreatePod_once _ _ (redeploy_guard pod));
                    [apply passive_redeploy| |exact Hg3]].
  - by intros [r|m|] tr4 H4.
  - intros r. split; [apply DeleteResourceOfPod_replaces, successor_replaces|].
    split; [apply DeleteResourceOfPod_none|]. eapply extends_happened; [exact He3|]. by apply Hgone.
Qed.

(** C17: A failed or pending mount pod is replaced only when it failed for lack
    of resources and asks for some; the new pod is created only after the old
    one was seen gone, asks for none, has the same name and labels, records the
    same targets, and has the finalizer. *)
Theorem redeploy_keeps_refs c pod :
  Forall (λ h : ctx → Pod → prog (result Result),
    wp any_env (h c pod) [] (λ _ tr, guarded (redeploy_guard pod) tr))
    [podErrorHandler; podPendingHandler].
Proof.
  repeat constructor; unfold podErrorHandler, podPendingHandler; (case_decide; [done|]);
    (apply guarded_with_mutex; [done..|]); intros tr Hg; by apply redeploy_guarded.
Qed.

(** ** The handler of deleted pods *)

Definition takeover_guard (pod : Pod) : guard := λ Y e _ tr,
  match e with
  | PodCreate p => replaces pod p ∧ happened (found_gone pod) tr
  | PodPatch n ns (JSONPatch [ReplaceMap path m]) =>
      n = pod_Name pod ∧ ns = pod_Namespace pod ∧ path = "/metadata/annotations" ∧
      GetAllRefKeys pod ⊆ m ∧
      ∃ po, last_get tr = Some po ∧ pod_DeletionTimestamp po = None ∧
            dom (annotations po) ⊆ dom m
  | PodPatch n ns b => b = JSONPatch [ReplaceList "/metadata/finalizers"
                             (filter (λ f, f ≠ config.Finalizer) (pod_Finalizers pod))]
  | PodDelete _ _ | PodUpdate _ => False
  | _ => True
  end.

Lemma passive_takeover pod Y (e : event Y) x tr :
  no_pod_writes Y e = true → takeover_guard pod Y e x tr.
Proof. by destruct e. Qed.

(** The attributes read back from a pod: its labels and annotations, and no
    lifecycle hook, probe or grace period. *)
Lemma GenPodAttrWithMountPod_meta pod tr :
  wp any_env (GenPodAttrWithMountPod pod) tr (λ o tr', extends no_pod_writes tr tr' ∧
    match o with
    | Done (Ok a) => a_Labels a = pod_Labels pod ∧ a_Annotations a = annotations pod ∧
        a_Lifecycle a = None ∧ a_TerminationGracePeriodSeconds a = None
    | _ => True
    end).
Proof.
  apply wp_and; [apply wp_within; unfold GenPodAttrWithMountPod, last_n; within_run|].
  unfold GenPodAttrWithMountPod. cbn [call bind wp]. intros [pv|e] _; [|done].
  destruct (pv_ClaimRef pv) as [[claim ns]|]; [|done]. cbn [call bind wp]. intros [pvc|e] _; [|done].
  destruct (ParsePodResources _ _ _ _) as [res|e]; [|done]. apply wp_bind. unfold last_n.
  case_decide; [|done]. cbn [wp]. destruct (pv_CSI pv) as [csi|]; [|done]. cbn [wp].
  erewrite ApplyConfigPatch_total by done. cbn [default from_option id s_Attr set_s_MountOptions
    set_s_Attr]. unfold apply_patch. cbn. by rewrite !(left_id_L ∅ (∪)).
Qed.

Lemma with_attr_replaces pod p a :
  replaces pod p → a_Labels a = pod_Labels p → a_Annotations a = annotations p →
  replaces pod (with_attr a p).
Proof.
  intros [] H1 H2. split; try done.
  - change (pod_Labels (with_attr a p)) with (a_Labels a). congruence.
  - change (annotations (with_attr a p)) with (a_Annotations a). congruence.
Qed.

Lemma recreate_pod_guarded c pod tr :
  guarded (takeover_guard pod) tr → happened (found_gone pod) tr →
  wp any_env (recreate_pod c pod) tr (λ _ tr', guarded (takeover_guard pod) tr').
Proof.
  intros Hg Hgone. unfold recreate_pod, applyConfigPatch. apply wp_bind. apply wp_bind.
  eapply wp_mono; [|apply GenPodAttrWithMountPod_meta]. intros o tr1 [He1 Ha].
  assert (guarded (takeover_guard pod) tr1) as Hg1
    by (eapply extends_guarded; [apply passive_takeover|exact He1|exact Hg]).
  assert (∀ p, replaces pod p → wp any_env (mkrMp c p ;;; r <- CreatePod (Some p) ;;
    match r with Err e => Ret (Err e) | Ok _ => Ret (Ok requeueNow) end) tr1
    (λ _ tr', guarded (takeover_guard pod) tr')) as Hnext.
  { intros p Hp. apply wp_bind.
    eapply wp_mono; [|apply (wp_within _ no_pod_writes), mkrMp_no_writes]. intros o2 tr2 He2.
    assert (guarded (takeover_guard pod) tr2) as Hg2
      by (eapply extends_guarded; [apply passive_takeover|exact He2|exact Hg1]).
    destruct o2 as [e|m|]; [|done..]. apply wp_bind.
    eapply wp_mono; [|apply (CreatePod_once _ _ (takeover_guard pod));
                      [apply passive_takeover| |exact Hg2]].
    - by intros [[r|e']|m|] tr3 H3.
    - intros r. split; [done|]. eapply extends_happened; [exact He2|].
      by eapply extends_happened. }
  destruct o as [[a|e]|m|]; [|apply Hnext, successor_replaces|done..].
  destruct Ha as (H1 & H2 & _). destruct (spec_Containers (pod_Spec (successor pod))); [done|].
  cbn [wp]. apply Hnext. by apply with_attr_replaces; [apply successor_replaces|..].
Qed.

Lemma takeover_guarded c pod tr :
  guarded (takeover_guard pod) tr →
  wp any_env (takeover c pod) tr (λ _ tr', guarded (takeover_guard pod) tr').
Proof.
  intros Hg. apply (wp_loop _ (λ _, guarded (takeover_guard pod))); [done|done|].
  intros _ tr1 Hg1. unfold GetPod. cbn [call bind wp]. intros [po|e] _.
  - destruct (is_deleted po) eqn:Hd; cbn [call bind wp]; [done|].
    unfold ReplacePodAnnotation, PatchPod. cbn [call bind wp]. intros r _. split; [|done].
    split_and!; [done|done|done|apply map_union_subseteq_l|].
    exists po. split; [done|]. split.
    + unfold is_deleted in Hd. apply bool_decide_eq_false in Hd.
      by destruct (pod_DeletionTimestamp po); [destruct Hd|].
    + unfold merge_into. rewrite dom_union_L. set_solver.
  - destruct (IsTimeout e); [done|]. destruct (IsNotFound e) eqn:En; [|done]. apply wp_bind.
    eapply wp_mono; [|apply recreate_pod_guarded].
    + by intros [r|m|] tr2 H2.
    + done.
    + by apply happened_here.
Qed.

Lemma podDeletedHandler_guarded c pod :
  wp any_env (podDeletedHandler c pod) [] (λ _ tr, guarded (takeover_guard pod) tr).
Proof.
  unfold podDeletedHandler. destruct (negb _); [done|].
  unfold RemoveFinalizer, PatchPod. cbn [call bind wp]. intros r _.
  match goal with |- wp _ _ ?tr _ => assert (guarded (takeover_guard pod) tr) as Hg by done end.
  destruct r as [e|]; [done|]. cbn [call bind wp]. intros u _.
  destruct (IsPodResourceError pod); [done|]. apply wp_bind.
  eapply wp_mono; [|apply (wp_within _ no_pod_writes)]; last first.
  { unfold GetMountPathOfPod, parseMntPath. within_run. }
  intros o tr1 He. assert (guarded (takeover_guard pod) tr1) as Hg1
    by (eapply extends_guarded; [apply passive_takeover|exact He|done]).
  destruct o as [[mp|e]|m|]; [|done..]. destruct (pod_Annotations pod); [|done].
  case_decide; [done|]. case_decide.
  - eapply wp_mono; [|apply (wp_within _ no_pod_writes)].
    + intros o tr2 He2. by eapply extends_guarded; [apply passive_takeover|exact He2|].
    + unfold finish_mount, UmountPath, DoWithTimeout_err, DoWithTimeout. within_run.
  - apply guarded_with_mutex; [done|done|done|]. intros tr2 Hg2. by apply takeover_guarded.
Qed.

(** Reading the mount path makes no call. *)
Lemma GetMountPathOfPod_pure pod tr :
  wp any_env (GetMountPathOfPod pod) tr (λ o tr', tr' = tr ∧
    ∀ r, o = Done r → yields (λ r', r' = r) (GetMountPathOfPod pod)).
Proof.
  unfold GetMountPathOfPod, parseMntPath. repeat case_match; cbn; split; try done; by intros r [= ->].
Qed.

(** The calls that hand all the references over: the creation of a pod that
    replaces the old one, and the annotations of the live pod of its name. *)
Definition hands_over (pod : Pod) (ok : bool) : call_pred := λ Y e,
  match e in event Y return Y → Prop with
  | PodCreate p => λ r, is_ok r = ok ∧ replaces pod p
  | PodPatch n ns (JSONPatch [ReplaceMap path m]) => λ r,
      bool_decide (r = None) = ok ∧ n = pod_Name pod ∧ ns = pod_Namespace pod ∧
      path = "/metadata/annotations" ∧ GetAllRefKeys pod ⊆ m
  | _ => λ _, False
  end.
(** The read of the pod failed, with an error that does not say it is gone. *)
Definition read_failed (pod : Pod) : call_pred := λ Y e,
  match e in event Y return Y → Prop with
  | PodGet _ n ns => λ r, n = pod_Name pod ∧ ns = pod_Namespace pod ∧
      match r with Ok _ => False | Err e => IsNotFound e = false ∨ IsTimeout e = true end
  | _ => λ _, False
  end.
(** The patch of the finalizers failed. *)
Definition finalizer_kept (pod : Pod) : call_pred := λ Y e,
  match e in event Y return Y → Prop with
  | PodPatch n ns (JSONPatch [ReplaceList path _]) => λ r,
      r ≠ None ∧ n = pod_Name pod ∧ ns = pod_Namespace pod ∧ path = "/metadata/finalizers"
  | _ => λ _, False
  end.

(** How the handling of a deleted pod can end: the references are handed over, or
    they are not, for one of these reasons. *)
Inductive settled (pod : Pod) : result Result → trace → Prop :=
  | settled_over r tr : happened (hands_over pod true) tr → settled pod r tr
  | settled_foreign tr :
      ContainsString (pod_Finalizers pod) config.Finalizer = false → settled pod (Ok noRequeue) tr
  | settled_kept e tr : happened (finalizer_kept pod) tr → settled pod (Err e) tr
  | settled_resource tr : IsPodResourceError pod = true → settled pod (Ok noRequeue) tr
  | settled_no_path e tr : yields (λ r, r = Err e) (GetMountPathOfPod pod) → settled pod (Err e) tr
  | settled_no_hash tr : hash_label pod = "" → settled pod (Err (no_hash_label pod)) tr
  | settled_unused tr : GetAllRefKeys pod = ∅ → settled pod (Ok noRequeue) tr
  | settled_unread r tr : happened (read_failed pod) tr → settled pod r tr
  | settled_refused r tr : happened (hands_over pod false) tr → settled pod r tr.

Definition settles (pod : Pod) (o : outcome (result Result)) (tr : trace) : Prop :=
  ∀ r, o = Done r → settled pod r tr.

Lemma settled_later pod r c tr : settled pod r tr → settled pod r (c :: tr).
Proof. intros []; [constructor 1|constructor 2|constructor 3|constructor 4|constructor 5|constructor 6
  |constructor 7|constructor 8|constructor 9]; auto with go. Qed.

Lemma recreate_pod_settles c pod tr : wp any_env (recreate_pod c pod) tr (settles pod).
Proof.
  unfold recreate_pod, applyConfigPatch. apply wp_bind. apply wp_bind.
  eapply wp_mono; [|apply GenPodAttrWithMountPod_meta]. intros o tr1 [_ Ha].
  assert (∀ p, replaces pod p → wp any_env (mkrMp c p ;;; r <- CreatePod (Some p) ;;
    match r with Err e => Ret (Err e) | Ok _ => Ret (Ok requeueNow) end) tr1 (settles pod)) as Hnext.
  { intros p Hp. apply wp_skip; [done|done|]. intros _ tr2. cbn [CreatePod call bind wp].
    intros [p'|e] _; [|intros r _; apply settled_refused; by left].
    apply wp_bind. eapply wp_mono; [|apply (wp_keeps _ (hands_over pod true)); by left].
    intros [x|m|] tr3 H3; [|done..]. destruct x; intros r _; by apply settled_over. }
  destruct o as [[a|e]|m|]; [|apply Hnext, successor_replaces|done..].
  destruct Ha as (H1 & H2 & _). destruct (spec_Containers (pod_Spec (successor pod))); [done|].
  cbn [wp]. apply Hnext. by apply with_attr_replaces; [apply successor_replaces|..].
Qed.

Lemma takeover_settles c pod tr : wp any_env (takeover c pod) tr (settles pod).
Proof.
  apply (wp_loop _ (λ _ _, True)); [done|done|].
  intros _ tr1 _. unfold GetPod. cbn [call bind wp]. intros [po|e] _.
  - destruct (is_deleted po) eqn:Hd; cbn [call bind wp]; [done|].
    unfold ReplacePodAnnotation, PatchPod. cbn [call bind wp]. intros res _ r _.
    assert (hands_over pod (bool_decide (res = None)) _ (PodPatch (pod_Name pod) (pod_Namespace pod)
      (JSONPatch [ReplaceMap "/metadata/annotations" (merge_into (annotations po) (GetAllRefKeys pod))])) res)
      as H by (split_and!; [done..|apply map_union_subseteq_l]).
    destruct (bool_decide (res = None)); [apply settled_over|apply settled_refused]; by left.
  - destruct (IsTimeout e) eqn:Et; [intros r _; apply settled_unread; left; cbn; by auto|].
    destruct (IsNotFound e) eqn:En; [|intros r _; apply settled_unread; left; cbn; by auto].
    apply wp_bind. eapply wp_mono; [|apply recreate_pod_settles].
    intros [r|m|] tr2 H2; [|done..]. intros r' [= <-]. by apply H2.
Qed.

Lemma podDeletedHandler_settles c pod : wp any_env (podDeletedHandler c pod) [] (settles pod).
Proof.
  unfold podDeletedHandler. destruct (ContainsString _ _) eqn:Hf; cbn [negb];
    [|intros r [= <-]; by apply settled_foreign].
  unfold RemoveFinalizer, PatchPod. cbn [call bind wp]. intros [e|] _.
  { intros r [= <-]. apply settled_kept. by left. }
  cbn [call bind wp]. intros u _.
  destruct (IsPodResourceError pod) eqn:Hr; [intros r [= <-]; by apply settled_resource|].
  apply wp_bind. eapply wp_mono; [|apply GetMountPathOfPod_pure].
  intros [[mp|e]|m|] tr1 [_ Hp]; [| |done..]; [|intros r [= <-]; apply settled_no_path; by apply Hp].
  destruct (pod_Annotations pod) as [an|] eqn:Ha.
  2: { intros r [= <-]. apply settled_unused. unfold GetAllRefKeys, annotations. by rewrite Ha. }
  case_decide as Hh; [intros r [= <-]; by apply settled_no_hash|]. case_decide as Hk.
  - eapply wp_mono; [|apply (wp_yields _ (λ r, r = Ok noRequeue))].
    + intros [r|m|] tr2 H2 r' E; [|done..]. simplify_eq. by apply settled_unused.
    + unfold finish_mount. by do 4 (apply yields_bind; intros _).
  - cbn [with_mutex wp]. intros x _. apply wp_with_unlock. eapply wp_mono; [|apply takeover_settles].
    intros [r|m|] tr2 H2; [|done..]. intros _ r' [= <-]. by apply settled_later, H2.
Qed.

(** C8: The references of a deleted mount pod are handed over unless the handler
    says or cannot know otherwise.  Of pods it only writes the finalizers of the
    deleted one, of which it removes the driver's own; a successor with the same
    name, labels and annotations, after the old pod was seen gone; and the
    annotations of the live pod of that name, which get all the references and
    keep the keys they have.  And when it returns, one of the last two has
    succeeded, or: the pod does not have the driver's finalizer, or the finalizer
    could not be removed; it failed for lack of resources, its mount path cannot be
    read, or it has no hash label; it has no references; the read of the pod failed
    with a timeout or an error other than not-found; or the creation or the patch
    was refused. *)
Theorem podDeletedHandler_keeps_refs c pod :
  wp any_env (podDeletedHandler c pod) [] (λ o tr,
    guarded (takeover_guard pod) tr ∧ ∀ r, o = Done r → settled pod r tr).
Proof. apply wp_and; [apply podDeletedHandler_guarded|apply podDeletedHandler_settles]. Qed.

(** A mount pod that is recreated loses its lifecycle hook and its
    termination grace period: the attributes read back from the old pod carry
    neither, and are written over the copy of its spec. *)
Theorem recreated_pod_no_lifecycle pod tr :
  wp any_env (applyConfigPatch pod) tr (λ o _,
    match o with
    | Done (Ok p) => spec_TerminationGracePeriodSeconds (pod_Spec p) = None ∧
        ∃ c, container0 p = Some c ∧ cn_Lifecycle c = None
    | _ => True
    end).
Proof.
  unfold applyConfigPatch. apply wp_bind. eapply wp_mono; [|apply GenPodAttrWithMountPod_meta].
  intros [[a|e]|m|] tr1 [_ Ha]; [|done..]. destruct Ha as (_ & _ & Hl & Ht).
  destruct (spec_Containers (pod_Spec pod)) as [|c0 cs] eqn:Ec; [done|]. cbn [wp].
  split; [exact Ht|]. unfold with_attr. eexists. rewrite container0_upd, container0_upd_spec by done.
  unfold container0. cbn. rewrite Ec. cbn. by split.
Qed.

(** ** Recovery of targets *)

(** What the recovery of the target [ti] may do to the mounts of the host. *)
Definition recover_guard (sourcePath : string) (ti : targetItem) (mi : mountItem) : guard :=
  λ Y e _ tr,
  match e with
  | Mount src target fstype options =>
      target = ti_target ti ∧ fstype = "none" ∧ options = ["bind"] ∧
      src = (if decide (ti_subpath ti = "") then sourcePath
             else sourcePath +:+ "/" +:+ ti_subpath ti) ∧
      ti_status ti = targetStatusCorrupt ∧ ti_inconsistent ti = false ∧
      item_podDeleted mi = false
  | Exec _ cmd args =>
      cmd = "umount" ∧ args = ["-l"; ti_target ti] ∧ ti_status ti = targetStatusCorrupt ∧
      ti_inconsistent ti = false ∧ item_podDeleted mi = false
  | Unmount target =>
      target = ti_target ti ∧ ti_status ti = targetStatusNotExist ∧ item_podDeleted mi = true
  | CleanupMountPoint _ _ | RemoveAll _ | Remove _ => False
  | _ => True
  end.

Definition harmless : event_pred := λ Y e,
  match e with
  | Mount _ _ _ _ | Exec _ _ _ | Unmount _ | CleanupMountPoint _ _ | RemoveAll _ | Remove _ => false
  | _ => true
  end.

Lemma harmless_recover src ti mi Y (e : event Y) x tr :
  harmless Y e = true → recover_guard src ti mi Y e x tr.
Proof. by destruct e. Qed.

Lemma check_all_harmless c l : within harmless (check_all c l).
Proof.
  induction l as [|ti l IH]; cbn [check_all]; [done|].
  unfold ti_check, DoWithTimeout. within_run.
Qed.

Lemma resolveTarget_harmless c mit t : within harmless (resolveTarget c mit t).
Proof.
  unfold resolveTarget, resolveTargetItem.
  destruct (Split t containerCsiDirectory) as [|a [|b [|? ?]]]; try done.
  pose proof (check_all_harmless c) as Hc. case_decide; [done|]. case_decide; [done|].
  apply within_bind; [done|]. intros items. apply within_bind.
  - assert (within harmless (ti_check c false
      (MkTargetItem t "" 0 false targetStatusNotExist None))) as Hti.
    { unfold ti_check, DoWithTimeout. within_run. }
    by destruct items as [|ti [|? ?]].
  - intros base. by apply within_bind.
Qed.

Lemma umountUntilRemain_guarded c src ti mi base n tr :
  ti_status ti = targetStatusCorrupt → ti_inconsistent ti = false → item_podDeleted mi = false →
  guarded (recover_guard src ti mi) tr →
  wp any_env (umountTargetUntilRemain c base (ti_target ti) n) tr
    (λ _ tr', guarded (recover_guard src ti mi) tr').
Proof.
  intros H1 H2 H3 Hg.
  apply (wp_loop _ (λ _, guarded (recover_guard src ti mi))); [done|done|].
  intros _ tr1 Hg1. unfold parse. cbn [call bind wp]. intros [ls|e] _; cbn [bind wp]; [|done].
  apply wp_bind. eapply wp_mono; [|apply (wp_within _ harmless), resolveTarget_harmless].
  intros o tr2 He. assert (guarded (recover_guard src ti mi) tr2) as Hg2
    by (eapply extends_guarded; [apply harmless_recover|exact He|done]).
  destruct o as [[m|]|m|]; [|done..]. case_decide; [done|]. unfold UmountPath. cbn [call bind wp].
  intros r _. by split; [split_and!|].
Qed.

(** C18: The recovery of a target touches the mounts of the host only where it
    must: a target is unmounted down and bound again, to its own source, only
    when it is corrupt, its recorded sources agree and its pod is not being
    deleted; a target is unmounted otherwise only when its source is gone and
    its pod is being deleted; nothing is ever removed. *)
Theorem recoverTarget_safe c podName src ti mi :
  wp any_env (recoverTarget c podName src ti mi) [] (λ _ tr, guarded (recover_guard src ti mi) tr).
Proof.
  unfold recoverTarget. destruct (ti_status ti) eqn:Hst; try done.
  - case_bool_decide; cbn [andb]; [|done]. destruct (item_podDeleted mi) eqn:Hd; [|done].
    apply wp_bind. unfold umountTarget. generalize (Z.to_nat (ti_count ti)). intros n.
    assert (guarded (recover_guard src ti mi) []) as Hg by done. revert Hg.
    generalize (@nil call_rec). induction n as [|n IH]; intros tr Hg; cbn [umount_times call bind wp];
      [done|]. intros r _. apply IH. by split.
  - destruct (ti_inconsistent ti) eqn:Hi; [done|]. destruct (item_podDeleted mi) eqn:Hd; [done|].
    apply wp_bind. eapply wp_mono; [|by apply umountUntilRemain_guarded].
    intros [[e|]|m|] tr Hg; try done. unfold rebind. apply wp_bind.
    eapply wp_mono; [|apply (wp_within _ harmless)]; last first.
    { case_decide; [done|]. unfold DoWithTimeout. within_run. }
    intros o tr2 He. assert (guarded (recover_guard src ti mi) tr2) as Hg2
      by (eapply extends_guarded; [apply harmless_recover|exact He|done]).
    destruct o as [[|]|m|]; [|done..]. cbn [call bind wp]. intros r _.
    match goal with |- wp _ _ ?tr _ => assert (guarded (recover_guard src ti mi) tr) by done end.
    by destruct r.
Qed.

(** ** Unmounting down to a number of mounts *)

(** The mounts stacked on [t], in a mount table. *)
Definition mounts_on (t : string) (l : list MountInfo) : nat :=
  length (filter (λ mi, mi_MountPoint mi = t) l).

(** What the loop relies on: the mount table is the kernel's, looking at files
    does not change it, and [umount -l] takes the topmost mount off. *)
Record table_law {W} (h : handler W) (table : W → list MountInfo) : Prop := {
  mt_parse w : ∃ w', h _ ParseMountInfo w = (Ok (table w), w') ∧ table w' = table w;
  mt_stat path w : table (h _ (Stat path) w).2 = table w;
  mt_race c d w : table (h _ (Race c d) w).2 = table w
}.
Definition umounts {W} (h : handler W) (table : W → list MountInfo) : Prop :=
  ∀ c t w n, mounts_on t (table w) = S n →
    mounts_on t (table (h _ (Exec c "umount" ["-l"; t]) w).2) = n.

Section remain.
Context {W : Type} (h : handler W) (table : W → list MountInfo) (L : table_law h table).

(** [ti'] is [ti] with a status. *)
Definition same_item (ti ti' : targetItem) : Prop :=
  ti_target ti' = ti_target ti ∧ ti_count ti' = ti_count ti.

Lemma ti_check_table c b ti w :
  ∃ ti' w', interp h (ti_check c b ti) w = (Done ti', w') ∧ table w' = table w ∧ same_item ti ti'.
Proof.
  unfold ti_check, DoWithTimeout. cbn [call bind interp].
  pose proof (mt_race _ _ L c defaultCheckoutTimeout w) as Hr.
  destruct (h _ (Race c defaultCheckoutTimeout) w) as [[| |cause] w1]; cbn [call bind interp snd] in *.
  - pose proof (mt_stat _ _ L (ti_target ti) w1) as Hs.
    destruct (h _ (Stat (ti_target ti)) w1) as [r w2]; cbn [bind interp snd] in *.
    destruct (status_of b r). cbn [interp]. eexists _, _. split; [reflexivity|]. split; [congruence|by split].
  - destruct (status_of b _). cbn [interp]. eexists _, _. by split_and!; [..|split].
  - destruct (status_of b _). cbn [interp]. eexists _, _. by split_and!; [..|split].
Qed.

Lemma check_all_table c l w :
  ∃ l' w', interp h (check_all c l) w = (Done l', w') ∧ table w' = table w ∧ Forall2 same_item l l'.
Proof.
  revert w. induction l as [|ti l IH]; intros w; cbn [check_all].
  - by eexists _, _.
  - destruct (ti_check_table c true ti w) as (ti' & w1 & E1 & H1 & Hs).
    destruct (IH w1) as (l' & w2 & E2 & H2 & Hl). rewrite interp_bind, E1, interp_bind, E2.
    cbn [interp]. eexists _, _. split; [done|]. split; [congruence|by constructor].
Qed.

(** The records of one path. *)
Lemma records_exact l path :
  (map_range (records_of l path false)).*2 =
    match record_of path (filter (λ mi, mi_MountPoint mi = path) l) with
    | Some r => [r] | None => [] end.
Proof.
  set (r := record_of _ _).
  assert (records_of l path false = from_option (singletonM path) ∅ r) as E.
  { apply map_eq. intros t. unfold records_of. rewrite records_fold.
    assert (filter (λ mi, matches path false mi = true) l
            = filter (λ mi, mi_MountPoint mi = path) l) as ->.
    { apply list_filter_iff. intros mi. cbn. rewrite bool_decide_eq_true. naive_solver. }
    destruct (decide (t = path)) as [->|Ht].
    - rewrite filter_all; [|apply Forall_forall; by intros mi [? _]%list_elem_of_filter]. fold r. destruct r; cbn;
        [by rewrite lookup_singleton_eq|by rewrite lookup_empty].
    - rewrite filter_none; [|apply Forall_forall; intros mi [? _]%list_elem_of_filter; congruence].
      destruct r; cbn; [by rewrite lookup_singleton_ne|by rewrite lookup_empty]. }
  rewrite E. destruct r as [ti|]; cbn.
  - pose proof (map_range_spec ({[path := ti]} : gmap string targetItem)) as Hp.
    rewrite map_to_list_singleton in Hp. apply Permutation_singleton_r in Hp. by rewrite Hp.
  - pose proof (map_range_spec (∅ : gmap string targetItem)) as Hp.
    rewrite map_to_list_empty in Hp. apply Permutation_nil_r in Hp. by rewrite Hp.
Qed.

(** Where the sub-path targets of a target's volume are. *)
Definition sub_dir (base : string) : string :=
  match Split base containerCsiDirectory with
  | [a; _] => Join [TrimSuffix a "/"; containerSubPathDirectory; getPVName base] "/"
  | _ => ""
  end.

(** The records below a path: of every target the number of its mounts. *)
Lemma records_below l path ti :
  ti ∈ (map_range (records_of l path true)).*2 →
  ti_count ti = Z.of_nat (mounts_on (ti_target ti) l).
Proof.
  intros ([k ti'] & -> & Hin)%list_elem_of_fmap. rewrite map_range_spec, elem_of_map_to_list in Hin.
  rewrite records_of_spec in Hin. unfold record_of, lines_of in Hin.
  destruct (filter _ (filter _ l)) as [|m ms] eqn:E; [done|]. injection Hin as <-.
  change (Z.of_nat (length (m :: ms)) = Z.of_nat (mounts_on k l)). rewrite <-E. unfold mounts_on. do 2 f_equal. rewrite list_filter_filter. apply list_filter_iff.
  assert (m ∈ m :: ms) as Hm by (by left). rewrite <-E in Hm.
  apply list_elem_of_filter in Hm as [Hk [Hp _]%list_elem_of_filter]. intros mi. split; [by intros []|].
  intros Hmi. split; [done|]. unfold matches in *. by rewrite Hmi, <-Hk.
Qed.

Lemma records_there l path t :
  HasPrefix t path = true → 0 < mounts_on t l →
  ∃ ti, ti ∈ (map_range (records_of l path true)).*2 ∧ ti_target ti = t.
Proof.
  intros Hp Hn. unfold mounts_on in Hn.
  assert (lines_of l path true t = filter (λ mi, mi_MountPoint mi = t) l) as E.
  { unfold lines_of. rewrite list_filter_filter. apply list_filter_iff. intros mi. split; [by intros []|].
    intros Hmi. split; [done|]. unfold matches. by rewrite Hmi. }
  pose proof (records_of_spec l path true t) as Hr. rewrite E in Hr.
  destruct (filter _ l) as [|m ms]; [cbn in Hn; lia|]. cbn [record_of] in Hr.
  match type of Hr with _ = Some ?r => exists r; split; [|done]; apply list_elem_of_fmap; exists (t, r) end.
  split; [done|]. by rewrite map_range_spec, elem_of_map_to_list.
Qed.

(** The count of the last record of a target, when all agree. *)
Lemma last_count t n m (l : list targetItem) :
  (∀ ti, ti ∈ l → ti_target ti = t → ti_count ti = n) → (∃ ti, ti ∈ l ∧ ti_target ti = t) ∨ m = n →
  foldl (λ k ti, if decide (ti_target ti = t) then ti_count ti else k) m l = n.
Proof.
  revert m. induction l as [|ti l IH]; intros m Hall Hex; cbn [foldl].
  - destruct Hex as [(ti & Hin%elem_of_nil & _)|]; done.
  - apply IH; [intros ti' Hin; apply Hall; by right|]. case_decide as Ht.
    + right. by apply Hall; [left|].
    + destruct Hex as [(ti' & [->|Hin]%elem_of_cons & Ht')|]; [done|left; by eauto|by right].
Qed.

Lemma same_items_count t n l l' :
  Forall2 same_item l l' → (∀ ti, ti ∈ l → ti_target ti = t → ti_count ti = n) →
  (∃ ti, ti ∈ l ∧ ti_target ti = t) →
  (∀ ti, ti ∈ l' → ti_target ti = t → ti_count ti = n) ∧ ∃ ti, ti ∈ l' ∧ ti_target ti = t.
Proof.
  intros Hs Hall (ti & [k Hk]%list_elem_of_lookup & Ht). split.
  - intros ti' [j Hj]%list_elem_of_lookup Ht'. destruct (Forall2_lookup_r _ _ _ _ _ Hs Hj) as (u & Hu & E1 & E2).
    rewrite E2. apply Hall; [by eapply list_elem_of_lookup_2|congruence].
  - destruct (Forall2_lookup_l _ _ _ _ _ Hs Hk) as (u & Hu & E1 & E2).
    exists u. split; [by eapply list_elem_of_lookup_2|congruence].
Qed.

(** A target whose mounts the loop counts: the base target, or one below the
    directory of its sub paths that has mounts. *)
Definition counted (base t : string) (l : list MountInfo) : Prop :=
  t = base ∨ HasPrefix t (sub_dir base) = true ∧ 0 < mounts_on t l.

Lemma resolveTarget_count c mit base t w :
  getPodUid base ≠ "" → getPVName base ≠ "" → counted base t (mis mit) →
  ∃ mi w', interp h (resolveTarget c mit base) w = (Done (Some mi), w') ∧ table w' = table w ∧
    mount_count mi t = Z.of_nat (mounts_on t (mis mit)).
Proof.
  intros Hu Hp Hcnt. unfold resolveTarget. unfold counted, sub_dir in Hcnt.
  assert (∃ a b, Split base containerCsiDirectory = [a; b]) as (a & b & E).
  { unfold getPodUid in Hu. destruct (Split base _) as [|a [|b [|? ?]]]; [done..|by eauto|done]. }
  rewrite E in *. rewrite !decide_False by done. unfold resolveTargetItem. rewrite records_exact, interp_bind.
  destruct (check_all_table c match record_of base
      (filter (λ mi, mi_MountPoint mi = base) (mis mit)) with Some r => [r] | None => [] end w)
    as (items & w1 & E1 & H1 & Hi). rewrite E1, interp_bind.
  assert (∃ ti w2, interp h match items with
      | [ti] => Ret ti
      | _ => ti_check c false (MkTargetItem base "" 0 false targetStatusNotExist None) end w1
    = (Done ti, w2) ∧ table w2 = table w1 ∧ ti_target ti = base ∧
    ti_count ti = Z.of_nat (mounts_on base (mis mit))) as (ti & w2 & E2 & H2 & Ht & Hc).
  { unfold mounts_on. revert Hi. destruct (filter _ (mis mit)) as [|m ms]; cbn [record_of];
      intros Hi.
    - apply Forall2_nil_inv_l in Hi as ->.
      destruct (ti_check_table c false (MkTargetItem base "" 0 false targetStatusNotExist None) w1)
        as (ti & w2 & -> & H2 & Ht & Hc). by exists ti, w2.
    - apply Forall2_cons_inv_l in Hi as (ti & ? & [Ht Hc] & ->%Forall2_nil_inv_l & ->).
      by exists ti, w1. }
  rewrite E2, interp_bind. set (below := (map_range _).*2).
  destruct (check_all_table c below w2) as (subs & w3 & E3 & H3 & Hs). rewrite E3. cbn [interp].
  eexists _, _. split; [done|]. split; [congruence|]. unfold mount_count. cbn [item_baseTarget item_subPathTarget].
  rewrite Ht. case_decide as Hb; [by rewrite <-Hb|]. destruct Hcnt as [->|[Hpre Hn]]; [done|].
  destruct (same_items_count t (Z.of_nat (mounts_on t (mis mit))) below subs Hs) as [Hall Hex].
  - intros ti' Hin <-. by eapply records_below.
  - by apply records_there.
  - apply last_count; [exact Hall|by left].
Qed.

(** One round of the loop, up to the unmount. *)
Lemma remain_round c base t m k w :
  getPodUid base ≠ "" → getPVName base ≠ "" → counted base t (table w) →
  ∃ w', table w' = table w ∧
    interp h (@umountTargetUntilRemain _ (S k) c base t m) w =
    if decide (Z.of_nat (mounts_on t (table w)) < m)%Z then (Done None, w')
    else interp h (@umountTargetUntilRemain _ k c base t m)
           (h _ (Exec (WithTimeout c (2 * Minute)) "umount" ["-l"; t]) w').2.
Proof.
  intros Hu Hp Hcnt. unfold umountTargetUntilRemain at 1, fuel. cbn [loop]. unfold parse at 1.
  rewrite !interp_bind. cbn [call interp].
  destruct (mt_parse _ _ L w) as (w1 & E1 & H1). rewrite E1. cbn [interp]. rewrite interp_bind.
  destruct (resolveTarget_count c (MkMountInfoTable (table w) (deletedPods newMountInfoTable))
              base t w1 Hu Hp Hcnt) as (mi & w2 & E2 & H2 & Hc). rewrite E2. cbn [mis] in Hc.
  exists w2. split; [congruence|]. rewrite Hc. case_decide; [done|].
  unfold UmountPath. cbn [call bind interp].
  by destruct (h _ (Exec (WithTimeout c (2 * Minute)) "umount" ["-l"; t]) w2) as [r w3].
Qed.

Lemma remain_ends c base t n k w :
  umounts h table → getPodUid base ≠ "" → getPVName base ≠ "" → counted base t (table w) →
  t = base ∨ 0 < n → mounts_on t (table w) < k →
  ∃ w', interp h (@umountTargetUntilRemain _ k c base t (Z.of_nat (S n))) w = (Done None, w') ∧
    mounts_on t (table w') = mounts_on t (table w) `min` n.
Proof.
  intros HU Hu Hp Hcnt Hn. revert w Hcnt. induction k as [|k IH]; intros w Hcnt Hk; [lia|].
  destruct (remain_round c base t (Z.of_nat (S n)) k w Hu Hp Hcnt) as (w1 & H1 & ->). case_decide.
  - exists w1. split; [done|]. rewrite H1. lia.
  - set (w2 := (h _ (Exec (WithTimeout c (2 * Minute)) "umount" ["-l"; t]) w1).2).
    assert (mounts_on t (table w2) = pred (mounts_on t (table w))) as H3 by (apply HU; rewrite H1; lia).
    destruct (IH w2) as (w' & E' & H'); [|rewrite H3; lia|exists w'; split; [exact E'|lia]].
    destruct Hcnt as [->|[Hpre _]]; [by left|]. destruct Hn as [->|Hn]; [by left|].
    right. split; [done|]. rewrite H3. lia.
Qed.

Lemma remain_stuck c base m k w :
  (∀ c w, table (h _ (Exec c "umount" ["-l"; base]) w).2 = table w) →
  getPodUid base ≠ "" → getPVName base ≠ "" → (m ≤ Z.of_nat (mounts_on base (table w)))%Z →
  (interp h (@umountTargetUntilRemain _ k c base base m) w).1 = Diverged.
Proof.
  intros HU Hu Hp. revert w. induction k as [|k IH]; intros w Hm; [done|].
  destruct (remain_round c base base m k w Hu Hp) as (w1 & H1 & ->); [by left|].
  rewrite decide_False by lia. apply IH. by rewrite HU, H1.
Qed.
End remain.

(** C19: Before a target is bound again its stacked mounts are reduced, and the
    loop ends: with the bound [S n], on a host whose [umount] takes the topmost
    mount of its path off, it leaves the smaller of [n] and the number of mounts
    there were - one less than the bound; the driver's bound of 5 leaves at most
    4.  The target is the base target, or a sub-path target of its volume that has
    mounts and is to keep one; the fuel is above the number of mounts. *)
Theorem umountTargetUntilRemain_done {W} (h : handler W) table c base t n w :
  table_law h table → umounts h table → getPodUid base ≠ "" → getPVName base ≠ "" →
  counted base t (table w) → t = base ∨ 0 < n → mounts_on t (table w) < fuel →
  ∃ w', interp h (umountTargetUntilRemain c base t (Z.of_nat (S n))) w = (Done None, w') ∧
    mounts_on t (table w') = mounts_on t (table w) `min` n.
Proof. intros L. by apply remain_ends. Qed.

(** The loop has no other way out: while [umount] leaves the target's mounts
    in place it goes on for ever, although it runs under a context of two
    minutes, which nothing in it looks at. *)
Theorem umountTargetUntilRemain_stuck {W} (h : handler W) table c base m w :
  table_law h table → (∀ c w, table (h _ (Exec c "umount" ["-l"; base]) w).2 = table w) →
  getPodUid base ≠ "" → getPVName base ≠ "" → (m ≤ Z.of_nat (mounts_on base (table w)))%Z →
  ∀ k : nat, (interp h (@umountTargetUntilRemain _ k c base base m) w).1 = Diverged.
Proof. intros L HU Hu Hp Hm k. by apply (remain_stuck h table). Qed.

(** ** Background tasks *)

(** The monitor of a mount pod that does not go away waits one minute
    whatever the pod's termination grace period is: a period below 30 thousand
    million seconds never lengthens the wait. *)
Theorem stuck_timeout_minute pod n :
  spec_TerminationGracePeriodSeconds (pod_Spec pod) = Some n → (0 ≤ n ≤ 30000000000)%Z →
  stuck_timeout pod = Minute.
Proof.
  intros Hn Hr. unfold stuck_timeout. rewrite Hn, wrap_s_id by lia.
  unfold Minute, Second. lia.
Qed.

(** The abort of a stuck mount panics when the read of its job fails: after
    an error other than "not found" the job is nil, and is dereferenced. *)
Theorem doAbortFuse_panics pod devMinor cn cns e :
  spec_Containers (pod_Spec pod) = cn :: cns → IsNotFound e = false → 0 < fuel →
  ∃ tr m, runs (doAbortFuse pod devMinor) [] tr (Panicked m).
Proof.
  intros Hc He Hf. unfold doAbortFuse, NewFuseAbortJob. rewrite Hc. cbn [bind call CreateJob].
  destruct fuel as [|k] eqn:Ef; [lia|]. eexists _, _.
  eapply (runs_vis _ _ (Ok (MkJob "" "" "" ∅ None empty_spec None [] None))). cbn [bind].
  cbn [loop call bind]. eapply (runs_vis _ _ None). cbn [bind GetJob call].
  eapply (runs_vis _ _ (Err e)). rewrite He. cbn [bind]. apply runs_panic.
Qed.
End driver_facts.

(** ** Examples *)

Section driver_examples.
#[local] Existing Instances demo_globals demo_ext.
#[local] Instance demo_fuel : Fuel := 10.

(** A host whose mount table is the state: [umount -l] takes the first line of
    the target away, if [works]. *)
Fixpoint remove_line (t : string) (l : list MountInfo) : list MountInfo :=
  match l with
  | [] => []
  | mi :: l => if decide (mi_MountPoint mi = t) then l else mi :: remove_line t l
  end.

Definition table_handler (works : bool) : handler (list MountInfo) := λ Y e w,
  match e in event Y return Y * list MountInfo with
  | ParseMountInfo => (Ok w, w)
  | Exec _ _ [_; t] => (("", None), if works then remove_line t w else w)
  | e => (quiet e, w)
  end.

Lemma table_handler_law works : table_law (table_handler works) id.
Proof. split; [by intros w; exists w|done..]. Qed.

Lemma remove_line_count t l n : mounts_on t l = S n → mounts_on t (remove_line t l) = n.
Proof.
  revert n. induction l as [|mi l IH]; intros n; [done|]. cbn [remove_line].
  unfold mounts_on. rewrite filter_cons. case_decide as E; cbn [length]; [by intros [= ->]|].
  intros H. rewrite filter_cons, decide_False by done. by apply IH.
Qed.

Definition demo_target : string := "/var/lib/kubelet/pods/8f4e/volumes/kubernetes.io~csi/pvc-1/mount".
Definition demo_table : list MountInfo := replicate 7 (MkMountInfo "/sub" demo_target 7).

Definition demo_sub : string := "/var/lib/kubelet/pods/8f4e/volume-subpaths/pvc-1/app/0".

Lemma umountTargetUntilRemain_done_witness :
  ∃ w', interp (table_handler true)
          (umountTargetUntilRemain Background demo_target demo_sub 5)
          (demo_table ++ replicate 7 (MkMountInfo "/sub/a" demo_sub 7))
        = (Done None, w') ∧ mounts_on demo_sub w' = 4.
Proof.
  apply (umountTargetUntilRemain_done (table_handler true) id Background demo_target demo_sub 4
    (demo_table ++ replicate 7 (MkMountInfo "/sub/a" demo_sub 7))).
  - apply table_handler_law.
  - intros c t w n. apply remove_line_count.
  - vm_compute. intros E. discriminate E.
  - vm_compute. intros E. discriminate E.
  - right. split; vm_compute; [reflexivity|lia].
  - right. lia.
  - vm_compute. lia.
Defined.

Lemma umountTargetUntilRemain_stuck_witness :
  (interp (table_handler false)
     (@umountTargetUntilRemain _ 100 Background demo_target demo_target 5) demo_table).1 = Diverged.
Proof.
  apply (umountTargetUntilRemain_stuck (table_handler false) id).
  - apply table_handler_law.
  - done.
  - vm_compute. intros E. discriminate E.
  - vm_compute. intros E. discriminate E.
  - vm_compute. intros E. discriminate E.
Defined.

Definition graceful_pod : Pod :=
  set_pod_Spec (set_spec_TerminationGracePeriodSeconds (Some 3600%Z)
    (set_spec_Containers [empty_container] empty_spec)) empty_pod.

Lemma stuck_timeout_minute_witness : stuck_timeout graceful_pod = Minute.
Proof. apply (stuck_timeout_minute graceful_pod 3600); [reflexivity|lia]. Defined.

Lemma doAbortFuse_panics_witness :
  ∃ tr m, runs (doAbortFuse graceful_pod 42) [] tr (Panicked m).
Proof.
  apply (doAbortFuse_panics graceful_pod 42 empty_container [] (ErrApi Timeout "timeout"));
    [reflexivity|reflexivity|vm_compute; lia].
Defined.
End driver_examples.
