(* ===== verification/Provider.v ===== *)
(** * Provider: the volume provider ([src/pkg/dingofs-driver/dingofs.go] and [volume.go])

    The methods of [dingofs] behind the CSI services: settings and the file
    system behind them, mounting and unmounting through mount pods, sub
    directories, quotas, and the bind mount of a target ([dfs]).  The methods
    that write into a map of the caller return it. *)

From S2P Require Import Prelude GoStrings GoNum Objects Effects Config Demo Security Setting Util.
From S2P Require Import FsTool K8sClient Resource Builder ApiServer PodMount.
From Stdlib Require Import Ascii.

(** [errors.Wrap(err, msg)]. *)
Definition errors_Wrap (e : error) (msg : string) : error := ErrNew (msg +:+ ": " +:+ error_text e).

Definition defaultCheckTimeout : Z := 2 * Second.

Section provider.
Context `{G : !Globals} `{X : !Ext} `{F : !Fuel}.

(** ** Targets *)

(** The directory of the kubelet that the driver's own pod mounts. *)
Fixpoint kubelet_dir (vols : list Volume) : prog string :=
  match vols with
  | [] => Ret "/var/lib/kubelet"
  | v :: vols =>
      if decide (vol_Name v = "kubelet-dir") then
        match vol_Source v with
        | HostPath p _ => Ret p
        | _ => Panic "nil pointer dereference"
        end
      else kubelet_dir vols
  end.

Definition validTarget (target : string) : prog (option error) :=
  let illegal := Ret (Some (ErrNew ("Path " +:+ target +:+ " has illegal access."))) in
  if Contains target "../" || Contains target "/.." || Contains target ".." then illegal
  else if Contains target "./" || Contains target "/." then illegal
  else
    kubeletDir <- kubelet_dir (spec_Volumes (pod_Spec CSIPod)) ;;
    match Split target "/pods/" with
    | [] => Ret (Some (ErrNew ("can't parse kubelet rootdir from target " +:+ target)))
    | d :: _ =>
        if decide (kubeletDir ≠ d) then
          Ret (Some (ErrNew ("target kubelet rootdir " +:+ d
                 +:+ " is not equal csi mounted kubelet root-dir " +:+ kubeletDir)))
        else Ret None
    end.

(** ** The file system *)

Definition CreateFS (secrets : smap) : prog (option error) :=
  let fsName := m_get secrets "name" in
  match ValidateCommonParams secrets NewDingofsTool with
  | Err e => Ret (Some e)
  | Ok ct =>
      fsExisted <-! CheckFsExisted fsName (m_get (ToolParams ct) "mdsaddr") ;;
      if fsExisted : bool then Ret None
      else match ValidateCreateFsParams secrets ct with
      | Err e => Ret (Some e)
      | Ok ct =>
          let ct := set_tool "rpcretrytimes" "5" (set_tool "fsname" fsName ct) in
          let args := ["create"; "fs"] ++ flags "--" (ToolParams ct) in
          r <- call (Exec Background config.DfsCMDPath args) ;;
          match r.2 with
          | Some e =>
              Ret (Some (cmd_failed "dingo create fs failed. cmd: " config.DfsCMDPath args r.1
                           (Some e)))
          | None => config_quota config.DfsCMDPath fsName ct
          end
      end
  end.

(** [getUniqueId]. *)
Definition getUniqueId (volumeId : string) : result string := Ok volumeId.

(** [GetPVWithVolumeHandleOrAppInfo] with a client that may be nil; its error is
    only logged. *)
Definition volume_objects (client : bool) (volumeID : string) (volCtx : option smap)
    : prog (option PersistentVolume * option PersistentVolumeClaim) :=
  if client then
    r <- GetPVWithVolumeHandleOrAppInfo volumeID (nil_map volCtx) ;;
    Ret match r with Ok (pv, pvc) => (Some pv, Some pvc) | Err _ => (None, None) end
  else Ret (None, None).

(** The annotations of the claim that override the volume context. *)
Definition dingofs_annotations (pvc : PersistentVolumeClaim) : smap :=
  filter (λ kv, HasPrefix kv.1 "dingofs" = true) (pvc_Annotations pvc).

(** [InitDfs].  The first result is the caller's volume context, into which the
    annotations are written when it is not nil. *)
Definition InitDfs (client : bool) (volumeID target : string) (secrets volCtx : option smap)
    (mountOptions : option (list string)) : prog (option smap * result DfsSetting) :=
  r <- volume_objects client volumeID volCtx ;;
  let '(pv, pvc) := r in
  let own := match pvc with
             | Some pvc => Some (merge_into (nil_map volCtx) (dingofs_annotations pvc))
             | None => volCtx
             end in
  let seen := match volCtx with Some _ => own | None => None end in
  match ParseSetting secrets own mountOptions pv pvc with
  | Err e => Ret (seen, Err e)
  | Ok s =>
      let s := set_s_VolumeId volumeID s in
      e <- CreateFS (nil_map secrets) ;;
      match e with
      | Some e => Ret (seen, Err (ErrNew ("dingofs create fs error: " +:+ error_text e)))
      | None =>
          if decide (target = "") then Ret (seen, Ok s)
          else
            let s := set_s_TargetPath target s in
            match getUniqueId volumeID with
            | Err e => Ret (seen, Err e)
            | Ok uniqueId =>
                let s := set_s_UniqueId uniqueId s in
                Ret (seen, Ok (set_s_SecretName ("dingofs-" +:+ uniqueId +:+ "-secret") s))
            end
      end
  end.

(** The environment of a command: that of the process and of the setting. *)
Definition cmd_envs (envs : smap) : prog (list string) :=
  environ <- call Environ ;;
  Ret (environ ++ ((λ kv, EscapeBashStr kv.1 +:+ "=" +:+ EscapeBashStr kv.2) <$> map_range envs)).

(** The match of the regular expression for the UUID in the output, up to its next
    quote: the key, and on the same line a quote that ends the value. *)
Definition uuid_key : string :=
  String dquote "UUID" +:+ String dquote ": " +:+ String dquote "".
Fixpoint find_uuid (n : nat) (out : string) : option string :=
  match n with
  | O => None
  | S n =>
      match Cut out uuid_key with
      | None => None
      | Some (_, rest) =>
          let line := match Cut rest newline with Some (l, _) => l | None => rest end in
          match Cut line (String dquote "") with
          | Some (uuid, _) => Some uuid
          | None => find_uuid n rest
          end
      end
  end.

Definition GetDfsVolUUID (c : ctx) (s : DfsSetting) : prog (result string) :=
  let cmdCtx := WithTimeout c (8 * config.DefaultCheckTimeout) in
  envs <- cmd_envs (s_Envs s) ;;
  r <- call (ExecEnv cmdCtx config.DfsCMDPath ["status"; s_Source s] envs) ;;
  match r.2 with
  | Some e =>
      if Contains r.1 "database is not formatted" then Ret (Ok "")
      else
        ce <- call (CtxErr cmdCtx) ;;
        if decide (ce = Some DeadlineExceeded) then
          Ret (Err (ErrNew "dingofs status 16s timed out"))
        else Ret (Err (errors_Wrap e r.1))
  | None =>
      match find_uuid (S (len r.1)) r.1 with
      | Some uuid => Ret (Ok uuid)
      | None => Ret (Err (ErrNew ("get uuid of " +:+ s_Source s +:+ " error")))
      end
  end.

(** ** Mounting *)

(** [MountFs]; the setting gets its mount path and its hash.  The log line
    strips the password of the source, which can panic. *)
Definition MountFs (c : ctx) (appInfo : option AppInfo) (s : DfsSetting)
    : prog (DfsSetting * result string) :=
  let s := set_s_MountPath (path_Join [config.PodMountBase; s_UniqueId s]) s in
  r <- DMount c appInfo s ;;
  let '(s, e) := r in
  match e with
  | Some e => Ret (s, Err e)
  | None => StripPasswd (s_Source s) ;;; Ret (s, Ok (s_MountPath s))
  end.

(** [dfs]: a mounted file system. *)
Record dfs := MkDfs {
  dfs_Name : string; dfs_MountPath : string; dfs_MountOptions : option (list string);
  dfs_Setting : DfsSetting }.

Definition DfsMount (c : ctx) (volumeID target : string) (secrets volCtx : option smap)
    (mountOptions : option (list string)) : prog (option smap * result dfs) :=
  e <- validTarget target ;;
  match e with
  | Some e => Ret (volCtx, Err e)
  | None =>
      r <- InitDfs true volumeID target secrets volCtx mountOptions ;;
      let '(volCtx, r) := r in
      match r with
      | Err e => Ret (volCtx, Err e)
      | Ok s =>
          appInfo <- ParseAppInfo volCtx ;;
          match appInfo with
          | Err e => Ret (volCtx, Err e)
          | Ok appInfo =>
              r <- MountFs c appInfo s ;;
              match r with
              | (s, Err e) => Ret (volCtx, Err e)
              | (s, Ok mountPath) =>
                  Ret (volCtx, Ok (MkDfs (m_get (nil_map secrets) "name") mountPath mountOptions s))
              end
          end
      end
  end.

(** [dfs.CreateVol]. *)
Definition CreateVol (c : ctx) (fs : dfs) (subPath : string) : prog (result string) :=
  let volPath := path_Join [dfs_MountPath fs; subPath] in
  let timed {A} (f : prog (result A)) := DoWithTimeout c config.DefaultCheckTimeout f in
  let timed_err f := DoWithTimeout_err c config.DefaultCheckTimeout f in
  exists_ <- timed (r <- call (PathExists volPath) ;;
                    Ret match r with (b, None) => Ok b | (_, Some e) => Err e end) ;;
  match exists_ with
  | Err e => Ret (Err (ErrNew ("could not check volume path " +:+ quote volPath +:+ " exists: "
                               +:+ error_text e)))
  | Ok true => Ret (Ok volPath)
  | Ok false =>
      e <- timed_err (call (MkdirAll volPath 511)) ;;
      match e with
      | Some e => Ret (Err (ErrNew ("could not make directory for meta " +:+ quote volPath +:+ ": "
                                    +:+ error_text e)))
      | None =>
          fi <- timed (call (Stat volPath)) ;;
          match fi with
          | Err e => Ret (Err (ErrNew ("could not stat directory " +:+ volPath +:+ ": "
                                       +:+ quote (error_text e))))
          | Ok fi =>
              if decide (fi_Perm fi ≠ 511%Z) then
                e <- timed_err (call (Chmod volPath 511)) ;;
                match e with
                | Some e => Ret (Err (ErrNew ("could not chmod directory " +:+ volPath +:+ ": "
                                        +:+ quote (error_text e))))
                | None => Ret (Ok volPath)
                end
              else Ret (Ok volPath)
          end
      end
  end.

(** The minor device of the last mount at a path, as the loop of [BindTarget]
    finds it. *)
Definition minor_at (path : string) (l : list MountInfo) : option Z :=
  foldl (λ m mi, if decide (mi_MountPoint mi = path) then Some (mi_Minor mi) else m) None l.

(** [dfs.BindTarget]. *)
Definition BindTarget (c : ctx) (fs : dfs) (bindSource target : string) : prog (option error) :=
  mountInfos <-! call ParseMountInfo ;;
  match minor_at (dfs_MountPath fs) mountInfos with
  | None => Ret (Some (ErrNew ("BindTarget: mountPath " +:+ dfs_MountPath fs +:+ " not mounted")))
  | Some mountMinor =>
      let bind_it :=
        e <- call (Mount bindSource target "none" ["bind"]) ;;
        match e with
        | Some e => call (Remove target) ;;; Ret (Some e)
        | None => Ret None
        end in
      match minor_at target mountInfos with
      | Some targetMinor =>
          if decide (targetMinor = mountMinor) then Ret None
          else UmountPath c target ;;; bind_it
      | None => bind_it
      end
  end.

(** [CreateTarget]: a corrupted mount at the target is unmounted first. *)
Definition CreateTarget (c : ctx) (target : string) : prog (option error) :=
  loop fuel (λ _ : unit,
    e <- DoWithTimeout_err c defaultCheckTimeout (r <- call (PathExists target) ;; Ret r.2) ;;
    match e with
    | None => e <- call (MkdirAll target 493) ;; Ret (inr e)
    | Some e =>
        if IsCorruptedMnt e then UmountPath c target ;;; Ret (inl tt)
        else Ret (inr (Some e))
    end) tt.

(** ** Volumes *)

Definition DfsCreateVol (subPath : string) (secrets : smap) : prog (option error) :=
  let rootFSPath := path_Join [config.HostContainerDir +:+ config.DefaultHostDfsPath;
                               m_get secrets "name"] in
  let containerHostPath := path_Join [rootFSPath; subPath] in
  fi <- call (Stat containerHostPath) ;;
  if on_err os_IsNotExist (result_err fi) then
    e <- call (MkdirAll containerHostPath 493) ;;
    match e with
    | Some e => Ret (Some (ErrNew ("create [" +:+ containerHostPath +:+ "] failed with error ["
                                   +:+ error_text e +:+ "]")))
    | None => Ret None
    end
  else Ret None.

Definition DfsCleanupMountPoint (c : ctx) (mountPath : string) : prog (option error) :=
  DoWithTimeout_err c (2 * defaultCheckTimeout) (call (CleanupMountPoint mountPath false)).

Definition DfsDeleteVol (c : ctx) (volumeID subPath : string) (secrets : option smap)
    : prog (option error) :=
  pv <-! GetPersistentVolume volumeID ;;
  match pv_CSI pv with
  | None => Panic "nil pointer dereference"
  | Some csi =>
      r <- InitDfs true volumeID "" secrets (Some (csi_VolumeAttributes csi))
             (Some (pv_MountOptions pv)) ;;
      match r.2 with
      | Err e => Ret (Some e)
      | Ok s =>
          let s := set_s_SubPath subPath s in
          let s := set_s_MountPath (path_Join [config.TmpPodMountBase; s_VolumeId s]) s in
          check DeleteVolume c s ;;
          DfsCleanupMountPoint c (s_MountPath s)
      end
  end.

Definition GetSubPath (volumeID : string) : prog (result string) :=
  if Provisioner then
    pv <-? GetPersistentVolume volumeID ;;
    match pv_CSI pv with
    | None => Panic "nil pointer dereference"
    | Some csi => Ret (Ok (m_get (csi_VolumeAttributes csi) "subPath"))
    end
  else Ret (Ok volumeID).

(** ** Quotas *)

Definition wrapSetQuotaErr (res : string) (err : option error) : option error :=
  match err with
  | None => None
  | Some e =>
      if Contains res "invalid command: quota" || Contains res "No help topic for 'quota'"
      then None else Some (errors_Wrap e res)
  end.

(** The capacity of a quota, in GiB. *)
Definition quota_gib (capacity : Z) : Z := (capacity ÷ 1024 ÷ 1024 ÷ 1024)%Z.

(** [SetQuota].  The command runs in a goroutine: when the context ends first
    it goes on in the background, and the call succeeds. *)
Definition SetQuota (c : ctx) (secrets : smap) (s : option DfsSetting) (quotaPath : string)
    (capacity : Z) : prog (option error) :=
  let cap := quota_gib capacity in
  if decide (cap <= 0)%Z then
    Ret (Some (ErrNew ("capacity " +:+ Itoa capacity +:+ " is too small, at least 1GiB for quota")))
  else
    let args := ["fs"; "quota"; "set"; "--fsname"; m_get secrets "name"; "--path"; quotaPath;
                 "--capacity"; Itoa cap; "--mdsaddr"; m_get secrets "mdsAddr"] in
    envs <- cmd_envs (match s with Some s => s_Envs s | None => ∅ end) ;;
    r <- call (Race c (5 * defaultCheckTimeout)) ;;
    match r with
    | RaceDone =>
        r <- call (ExecEnv Background config.DfsCMDPath args envs) ;;
        Ret (wrapSetQuotaErr r.1 r.2)
    | _ => call (Spawn (TaskSetQuota args envs)) ;;; Ret None
    end.

(** ** Unmounting *)

(** The mount pods a target may be recorded in: the one with the old name, and
    those of the volume on this node. *)
Definition unmount_selector (uniqueId : string) : LabelSelector :=
  {| ls_MatchLabels := {[ config.PodTypeKey := config.PodTypeValue;
                          config.PodVolumeIdLabelKey := uniqueId ]};
     ls_MatchExpressions := [] |}.

(** The mount pod that records the target, if there is one. *)
Definition find_mount_pod (mountPath : string) (pods : list Pod) : option Pod :=
  snd <$> list_find (λ p, is_Some (annotations p !! GetReferenceKey mountPath)) pods.

Definition DfsUnmount (c : ctx) (volumeId mountPath : string) : prog (option error) :=
  match getUniqueId volumeId with
  | Err e => Ret (Some e)
  | Ok uniqueId =>
      oldPodName <- GenPodNameByUniqueId uniqueId false ;;
      pod <- GetPod c oldPodName Namespace ;;
      if match pod with Err e => negb (IsNotFound e) | Ok _ => false end
      then Ret (result_err pod)
      else
        pods <-! ListPod Namespace (Some (unmount_selector uniqueId))
                   (Some {[ "spec.nodeName" := NodeName ]}) ;;
        match find_mount_pod mountPath (match pod with Ok p => [p] | Err _ => [] end ++ pods) with
        | None => release_target c mountPath ""
        | Some mountPod =>
            let hashVal := m_get (pod_Labels mountPod) config.PodHashLabelKey in
            if decide (hashVal = "") then
              Ret (Some (ErrNew ("pod " +:+ pod_Namespace mountPod +:+ "/" +:+ pod_Name mountPod
                                 +:+ " has no hash label")))
            else with_mutex (GetPodLock hashVal) (release_target c mountPath (pod_Name mountPod))
        end
  end.

(** [UnmountAndDelete]: whether the caller should return, with which response
    and error. *)
Definition unpublish_failed (what targetPath how : string) (e : error) : error :=
  ErrStatus CodeInternal ("NodeUnpublishVolume - " +:+ what +:+ "[" +:+ targetPath +:+ "] " +:+ how
                          +:+ "failed with error [" +:+ error_text e +:+ "]").

Definition UnmountAndDelete (targetPath : string) (forceful : bool)
    : prog (bool * option unit * option error) :=
  let remove :=
    e <- call (Remove targetPath) ;;
    match e with
    | None => Ret (false, None, None)
    | Some e =>
        if os_IsNotExist e then Ret (false, None, None)
        else Ret (true, None, Some (unpublish_failed "mount point " targetPath "removal " e))
    end in
  let unmount :=
    e <- call (Unmount targetPath) ;;
    match e with
    | Some e => Ret (true, None, Some (unpublish_failed "unmount " targetPath "" e))
    | None => remove
    end in
  if forceful then unmount
  else
    r <- call (IsMountPoint targetPath) ;;
    match r with
    | (_, Some e) =>
        if os_IsNotExist e then Ret (true, Some tt, None)
        else Ret (true, None, Some (unpublish_failed "mount point check on targetPath:" targetPath "" e))
    | (true, None) => unmount
    | (false, None) => remove
    end.

(** ** Authentication *)

(** The keys that have another name in old secrets; each is renamed. *)
Definition keysCompatible : list (string * string) :=
  [("accesskey", "access-key"); ("accesskey2", "access-key2");
   ("secretkey", "secret-key"); ("secretkey2", "secret-key2")].
Definition rename_key (m : smap) (kk : string * string) : smap :=
  match m !! kk.1 with Some v => delete kk.1 (<[kk.2 := v]> m) | None => m end.

Definition auth_keys : list string := ["access-key"; "access-key2"; "bucket"; "bucket2"; "subdir"].
Definition auth_keysStripped : list string :=
  ["token"; "secret-key"; "secret-key2"; "passphrase"].

(** The variable that stands for a secret value in the command that is shown. *)
Definition stripped_var (k : string) : string :=
  if decide (k = "secret-key") then "secretkey"
  else if decide (k = "secret-key2") then "secretkey2" else k.

Definition auth_args (secrets : smap) : list string :=
  (λ k, "--" +:+ k +:+ "=" +:+ EscapeBashStr (m_get secrets k))
    <$> filter (λ k, m_get secrets k ≠ "") (auth_keys ++ auth_keysStripped).
Definition auth_cmd_args (secrets : smap) : list string :=
  ((λ k, "--" +:+ k +:+ "=" +:+ EscapeBashStr (m_get secrets k))
    <$> filter (λ k, m_get secrets k ≠ "") auth_keys) ++
  ((λ k, "--" +:+ k +:+ "=${" +:+ stripped_var k +:+ "}")
    <$> filter (λ k, m_get secrets k ≠ "") auth_keysStripped).

(** The end of [AuthFs]: the command is shown, or run. *)
Definition run_auth (c : ctx) (s : DfsSetting) (force : bool) (args cmdArgs : list string)
    : prog (result string) :=
  if negb force then Ret (Ok (Join cmdArgs " "))
  else
    let cmdCtx := WithTimeout c (8 * defaultCheckTimeout) in
    envs <- cmd_envs (s_Envs s) ;;
    r <- call (ExecEnv cmdCtx config.DfsCMDPath args (envs ++ ["Dfs_NO_CHECK_OBJECT_STORAGE=1"])) ;;
    match r.2 with
    | Some e =>
        ce <- call (CtxErr cmdCtx) ;;
        if decide (ce = Some DeadlineExceeded)
        then Ret (Err (ErrNew "dingofs auth 16s timed out"))
        else Ret (Err (errors_Wrap e r.1))
    | None => Ret (Ok r.1)
    end.

Definition AuthFs (c : ctx) (secrets : option smap) (s : DfsSetting) (force : bool)
    : prog (option smap * result string) :=
  match secrets with
  | None => Ret (None, Err (ErrStatus CodeInvalidArgument "Nil secrets"))
  | Some secrets =>
      let name := m_get secrets "name" in
      if decide (name = "") then
        Ret (Some secrets, Err (ErrStatus CodeInvalidArgument "Empty name"))
      else
        let secrets := foldl rename_key secrets keysCompatible in
        let args := ["auth"; EscapeBashStr name] ++ auth_args secrets in
        let cmdArgs := [config.DfsCMDPath; "auth"; EscapeBashStr name] ++ auth_cmd_args secrets in
        v <- call (LookupEnv "Dfs_NO_UPDATE_CONFIG") ;;
        let no_update := bool_decide (v = Some "enabled") in
        if no_update && bool_decide (m_get secrets "bucket" = "") then
          Ret (Some secrets,
               Err (ErrNew "bucket argument is required when --no-update option is provided"))
        else
          let upd := if no_update then ["--no-update"] else [] in
          match (if decide (s_FormatOptions s = "") then Ok [] else ParseFormatOptions s) with
          | Err e =>
              Ret (Some secrets, Err (ErrStatus CodeInvalidArgument
                     ("Parse format options error: " +:+ error_text e)))
          | Ok opts =>
              let conf := if decide (s_ClientConfPath s = "") then []
                          else ["--conf-dir=" +:+ s_ClientConfPath s] in
              r <- run_auth c s force
                     (args ++ upd ++ RepresentFormatOptions opts ++ conf)
                     (cmdArgs ++ upd ++ StripFormatOptions opts ["session-token"] ++ conf) ;;
              Ret (Some secrets, r)
          end
  end.
End provider.

(** * Properties *)

(** A secret the API server answered a lookup with. *)
Definition got_secret (name ns : string) (s : Secret) : call_pred := λ Y e,
  match e in event Y return Y → Prop with
  | SecretGet n m => λ r, n = name ∧ m = ns ∧ r = Ok s
  | _ => λ _, False
  end.

Section provider_facts.
Context `{G : !Globals} `{X : !Ext} `{F : !Fuel}.

(** ** Unmounting holds the lock *)

(** A pod the API server answered with. *)
Definition seen_pod (pod : Pod) : call_pred := λ Y e,
  match e in event Y return Y → Prop with
  | PodGet _ _ _ => λ r, r = Ok pod
  | PodList _ _ _ _ => λ r, ∃ l, r = Ok l ∧ pod ∈ l
  | _ => λ _, False
  end.

Lemma release_target_lock_free c t n : within lock_free (release_target c t n).
Proof.
  assert (∀ pod, within lock_free (RetryOnConflict (del_ref c t pod))) as H1.
  { intros pod. apply within_RetryOnConflict; [done|]. unfold del_ref, DelPodAnnotation. within_run. }
  assert (within lock_free (DUmount c n)) as H2.
  { apply within_RetryOnConflict; [done|].
    unfold dumount, last_n, ShouldDelay, GetTimeAfterDelay, AddPodAnnotation. within_run. }
  unfold release_target, UmountTarget, umount_until_gone, GetMountRef. within_run.
Qed.

Lemma release_no_pod_passive c t : within passive (release_target c t "").
Proof.
  unfold release_target, UmountTarget, umount_until_gone. within_run; done.
Qed.

Lemma find_mount_pod_Some t l pod :
  find_mount_pod t l = Some pod → pod ∈ l ∧ is_Some (annotations pod !! GetReferenceKey t).
Proof.
  unfold find_mount_pod. intros ([i p] & E & Hp)%fmap_Some. cbn in Hp. subst.
  apply list_find_Some in E as (Hi & Hs & _). split; [by eapply list_elem_of_lookup_2|done].
Qed.

(** C12: Unmounting a target writes pods only under the lock of the mount pod that
    records the target: either no pod is written at all, or a pod that the API
    server showed records the target, the lock of its hash label is held at
    every write, and it is free again when the call returns or panics. *)
Theorem DfsUnmount_locked c volumeId t :
  wp any_env (DfsUnmount c volumeId t) [] (λ o tr,
    Forall (on_call (λ Y e _, no_pod_writes Y e = true)) tr ∨
    ∃ pod, let i := GetPodLock (m_get (pod_Labels pod) config.PodHashLabelKey) in
      happened (seen_pod pod) tr ∧ is_Some (annotations pod !! GetReferenceKey t) ∧
      guarded (under_lock i no_pod_writes) tr ∧ (o ≠ Diverged → locked i tr = false)).
Proof.
  unfold DfsUnmount, getUniqueId, GenPodNameByUniqueId, GetPod, ListPod. cbn [call bind wp].
  intros r _.
  destruct (match r with Err e => negb (IsNotFound e) | Ok _ => false end).
  { left. by repeat constructor. }
  cbn [call bind wp]. intros [pods|e] _; [|left; by repeat constructor].
  set (l := _ ++ pods). set (tr := [_; _]).
  destruct (find_mount_pod t l) as [pod|] eqn:Hf.
  - apply find_mount_pod_Some in Hf as [Hin Ha]. case_decide; [left; by repeat constructor|].
    set (i := GetPodLock _).
    assert (happened (seen_pod pod) tr) as Hs.
    { apply elem_of_app in Hin as [Hin|Hin]; [right|]; left; [|by exists pods].
      destruct r as [p|e]; [|by apply not_elem_of_nil in Hin].
      apply list_elem_of_singleton in Hin. by subst. }
    eapply wp_mono; [|apply wp_and; [apply (wp_keeps _ _ _ _ Hs)|
      apply (wp_with_mutex _ i no_pod_writes); [done|done|apply release_target_lock_free|]]].
    + intros o tr' (Hs' & Hg & Hl). right. by exists pod.
    + split; [by left|]. by split; [left|].
  - eapply wp_mono; [|apply (wp_within _ passive), release_no_pod_passive].
    intros o tr' (new & -> & Hn). left. apply Forall_app. split; [|by repeat constructor].
    eapply Forall_impl; [exact Hn|]. intros [Y e x] H. cbn in *. by apply andb_true_iff in H as [? _].
Qed.

(** ** Creating the file system *)

Definition fs_absent (name out : string) : Prop :=
  let lines := Split out newline in
  length lines < 3 ∨ ∃ infos, fs_lines lines = Ret infos ∧ name ∉ fs_Name <$> infos.

(** The list of the tool did not have the file system. *)
Definition listed_absent (name : string) : call_pred := λ Y e,
  match e in event Y return Y → Prop with
  | Exec _ cmd args => λ r, cmd = toolPath ∧ take 2 args = ["list"; "fs"] ∧ r.2 = None ∧
                            fs_absent name r.1
  | _ => λ _, False
  end.
Definition fs_created : call_pred := λ Y e,
  match e in event Y return Y → Prop with
  | Exec _ cmd args => λ r, cmd = config.DfsCMDPath ∧ take 2 args = ["create"; "fs"] ∧ r.2 = None
  | _ => λ _, False
  end.

(** A command that creates a file system: what comes before, and its flags. *)
Definition create_args (secrets : smap) (args : list string) : Prop :=
  ∃ fl params, args = ["create"; "fs"] ++ fl ∧
    fl ≡ₚ (λ kv, "--" +:+ kv.1 +:+ "=" +:+ kv.2) <$> map_to_list params ∧
    params !! "fsname" = Some (m_get secrets "name") ∧
    params !! "mdsaddr" = secrets !! "mdsAddr".
Definition create_fs_guard (secrets : smap) : guard := λ Y e _ tr,
  match e with
  | Exec _ cmd args =>
      (take 2 args = ["list"; "fs"] ∧ cmd = toolPath) ∨
      (create_args secrets args ∧ happened (listed_absent (m_get secrets "name")) tr) ∨
      (take 2 args = ["config"; "fs"] ∧ happened fs_created tr)
  | _ => False
  end.

Lemma fs_lines_total l : (∃ infos, fs_lines l = Ret infos) ∨ ∃ m, fs_lines l = Panic m.
Proof.
  induction l as [|y l IH]; cbn [fs_lines]; [by left; eexists|].
  assert ((∃ o, fs_line y = Ret o) ∨ ∃ m, fs_line y = Panic m) as [[o ->]|[m ->]].
  { unfold fs_line. repeat case_match; eauto. }
  - destruct IH as [[infos ->]|[m ->]]; cbn; eauto.
  - right. by exists m.
Qed.

(** The answer of [CheckFsExisted], and the list it is read off. *)
Lemma CheckFsExisted_absent name a tr (Q : outcome (result bool) → trace → Prop) :
  (∀ r x, r ≠ Ok false → Q (Done r) (Call (Exec Background toolPath ["list"; "fs"; "--mdsaddr=" +:+ a]) x :: tr)) →
  (∀ m x, Q (Panicked m) (Call (Exec Background toolPath ["list"; "fs"; "--mdsaddr=" +:+ a]) x :: tr)) →
  (∀ x, x.2 = None → fs_absent name x.1 →
    Q (Done (Ok false)) (Call (Exec Background toolPath ["list"; "fs"; "--mdsaddr=" +:+ a]) x :: tr)) →
  wp any_env (CheckFsExisted name a) tr Q.
Proof.
  intros H1 H2 H3. unfold CheckFsExisted. cbn [call bind wp]. intros [out [e|]] _; [by apply H1|].
  cbn [fst snd]. case_decide; cbn [wp]; [apply H3; [done|by left]|].
  destruct (fs_lines_total (Split out (String (byte 10) ""))) as [[infos E]|[m E]]; rewrite E; [|apply H2].
  cbn [bind wp]. destruct (existsb _ infos) eqn:Hb; [by apply H1|]. apply H3; [done|].
  right. exists infos. split; [done|]. intros (i & Hn & Hi)%list_elem_of_fmap.
  assert (existsb (λ i, bool_decide (fs_Name i = name)) infos = true) as Ht; [|congruence].
  apply existsb_bool_decide. by exists i.
Qed.

Lemma config_quota_guarded secrets fsName ct tr :
  guarded (create_fs_guard secrets) tr → happened fs_created tr →
  wp any_env (config_quota config.DfsCMDPath fsName ct) tr (λ _ tr', guarded (create_fs_guard secrets) tr').
Proof.
  intros Hg Hc. unfold config_quota. case_decide; [done|]. cbn [call bind wp]. intros [out [e|]] _;
    (split; [by right; right|done]).
Qed.

(** C28: A file system is created only after the tool listed none of that name, by
    one command whose flags are, in some order, those of a map with the name and
    the address of the secret; its quota is set only after that succeeded. *)
Theorem CreateFS_safe secrets :
  wp any_env (CreateFS secrets) [] (λ _ tr, guarded (create_fs_guard secrets) tr).
Proof.
  unfold CreateFS, ValidateCommonParams. destruct (secrets !! "mdsAddr") as [addr|] eqn:Ha; [|done].
  apply wp_bind, CheckFsExisted_absent.
  - intros [[]|e] x H; [|done|]; by split; [left|].
  - intros m x. by split; [left|].
  - intros x Hx Habs. set (tr := [Call _ _]). cbn [wp].
    assert (guarded (create_fs_guard secrets) tr) as Hg by (by split; [left|]).
    assert (happened (listed_absent (m_get secrets "name")) tr) as Hl by (by left).
    clearbody tr. destruct (ValidateCreateFsParams _ _) as [ct|e] eqn:Hv; [|done].
    cbn [call bind wp]. intros [out oe] _. set (tr' := Call _ _ :: tr).
    assert (guarded (create_fs_guard secrets) tr') as Hg'.
    { split; [|done]. right. left. split; [|done]. eexists _, _. split_and!; [done|apply flags_perm|..].
      - cbn. by rewrite lookup_insert_ne, lookup_insert_eq.
      - cbn. rewrite !lookup_insert_ne by done.
        rewrite (ValidateCreateFsParams_other _ _ _ _ Hv) by (by apply (bool_decide_unpack _)).
        cbn. by rewrite lookup_insert_eq. }
    destruct oe as [e|]; cbn [fst snd wp]; [done|].
    apply config_quota_guarded; [done|]. by left.
Qed.

(** ** The command that is shown *)

(** Two maps that may differ only in the values of secret keys, and only where
    both have one. *)
Definition secret_keys : list string :=
  ["token"; "secret-key"; "secret-key2"; "passphrase"; "secretkey"; "secretkey2"].
Definition same_public (m m' : smap) : Prop :=
  ∀ k, if decide (k ∈ secret_keys)
       then (is_Some (m !! k) ↔ is_Some (m' !! k)) ∧ (m_get m k = "" ↔ m_get m' k = "")
       else m !! k = m' !! k.

(** What [same_public] says of one key. *)
Definition same_at (m m' : smap) (k : string) : Prop :=
  if decide (k ∈ secret_keys)
  then (is_Some (m !! k) ↔ is_Some (m' !! k)) ∧ (m_get m k = "" ↔ m_get m' k = "")
  else m !! k = m' !! k.

Lemma rename_public m m' a b :
  same_public m m' → (a ∈ secret_keys ↔ b ∈ secret_keys) →
  same_public (rename_key m (a, b)) (rename_key m' (a, b)).
Proof.
  intros H Hab. unfold rename_key. cbn [fst snd].
  assert ((m !! a = None ∧ m' !! a = None) ∨ ∃ v v', m !! a = Some v ∧ m' !! a = Some v' ∧
    (v = "" ↔ v' = "") ∧ (a ∉ secret_keys → v = v')) as [[-> ->]|(v & v' & E & E' & Hv & He)]; [|done|].
  { specialize (H a). unfold m_get in H. case_decide.
    - destruct H as [H1 H2]. destruct (m !! a) as [v|], (m' !! a) as [v'|]; cbn in *.
      + right. by exists v, v'.
      + destruct H1 as [[? [=]] _]. by eexists.
      + destruct H1 as [_ [? [=]]]. by eexists.
      + by left.
    - rewrite H. destruct (m' !! a) as [v|]; [right; by exists v, v|by left]. }
  rewrite E, E'. intros k. specialize (H k). unfold m_get in *.
  destruct (decide (k = a)) as [->|Hka]; [rewrite !lookup_delete_eq; by case_decide|].
  rewrite !lookup_delete_ne by done.
  destruct (decide (k = b)) as [->|Hkb]; [rewrite !lookup_insert_eq|by rewrite !lookup_insert_ne].
  case_decide; [split; [|done]; split; by eexists|]. f_equal. apply He. by rewrite Hab.
Qed.

Lemma renames_public m m' :
  same_public m m' → same_public (foldl rename_key m keysCompatible) (foldl rename_key m' keysCompatible).
Proof.
  intros H. cbn [foldl keysCompatible].
  repeat (apply rename_public; [|by apply (bool_decide_unpack _)]). done.
Qed.

Lemma filter_keys_ext (P Q : string → Prop) `{∀ k, Decision (P k)} `{∀ k, Decision (Q k)} l :
  Forall (λ k, P k ↔ Q k) l → filter P l = filter Q l.
Proof.
  induction 1 as [|k l Hk _ IH]; [done|]. destruct (decide (P k)) as [HP|HP].
  - rewrite !filter_cons_True by tauto. by rewrite IH.
  - rewrite !filter_cons_False by tauto. done.
Qed.

Lemma public_get m m' k : same_public m m' → k ∉ secret_keys → m_get m k = m_get m' k.
Proof. intros H Hk. specialize (H k). rewrite decide_False in H by done. unfold m_get. by rewrite H. Qed.

Lemma auth_cmd_args_public m m' : same_public m m' → auth_cmd_args m = auth_cmd_args m'.
Proof.
  intros H. unfold auth_cmd_args. f_equal.
  - assert (Forall (λ k, k ∉ secret_keys) auth_keys) as Hk by (by apply (bool_decide_unpack _)).
    rewrite (filter_keys_ext _ (λ k, m_get m' k ≠ "")).
    + apply list_fmap_ext. intros i k Hi. rewrite (public_get m m'); [done..|].
      apply list_elem_of_lookup_2, list_elem_of_filter in Hi as [_ Hi]. by eapply Forall_forall in Hk.
    + eapply Forall_impl; [exact Hk|]. cbn. intros k Hn. by rewrite (public_get m m').
  - f_equal. apply filter_keys_ext.
    assert (Forall (λ k, k ∈ secret_keys) auth_keysStripped) as Hk by (by apply (bool_decide_unpack _)).
    eapply Forall_impl; [exact Hk|]. cbn. intros k Hn. specialize (H k).
    rewrite decide_True in H by done. destruct H as [_ H]. by rewrite H.
Qed.

End provider_facts.

(** ** Examples *)

