(* ===== verification/Concurrent.v ===== *)
(** * Concurrent: requests on the mount pod of a volume, interleaved

    Publishing and unpublishing targets of one volume run as threads that share
    the API server and the mutexes of [src/pkg/util/util.go].  [DMount] and
    [DfsUnmount] write the mount pod only while they hold the mutex of its hash;
    by the reduction theorem of [Rely] every interleaving is a sequential run of
    the contract [pod_op_step], in the order in which the requests hold the
    mutex, and no interleaving deletes a pod that a target still uses. *)

From S2P Require Import Prelude GoStrings GoHash Objects Effects Config Rely Demo Setting Util.
From S2P Require Import K8sClient Resource Builder ApiServer PodMount RefCount Provider.

(** ** Requests and their contract *)

Inductive mount_req :=
  | MountReq (c : ctx) (app : option AppInfo) (s : DfsSetting)
  | UnmountReq (c : ctx) (volumeId target : string).

(** A mount sets the mount path of its setting too. *)
Definition serve_mount `{!Globals, !Ext, !Fuel} (r : mount_req) : prog (string * option error) :=
  match r with
  | MountReq c app s => r <- DMount c app s ;; Ret (s_MountPath r.1, r.2)
  | UnmountReq c volumeId target => e <- DfsUnmount c volumeId target ;; Ret ("", e)
  end.

(** Mounting a target on a volume that has no mount pod makes one. *)
Inductive pod_op := Attach (target : string) | Detach (target : string).

Definition pod_op_step (o : pod_op) (l : life) : life * bool :=
  match o, l with
  | Attach t, Gone => (Live {[ GetReferenceKey t ]}, true)
  | Attach t, l => ref_step (AddTarget t) l
  | Detach t, l => ref_step (ReleaseTarget t) l
  end.

Definition op_of (r : mount_req) : pod_op :=
  match r with
  | MountReq _ _ s => Attach (s_TargetPath s)
  | UnmountReq _ _ t => Detach t
  end.

(** What a request shows of the pod while it holds the mutex. *)
Definition op_seen (o : pod_op) (l l' : life) : Prop :=
  l' = l ∨ l' = (pod_op_step o l).1 ∨ ∃ t, o = Detach t ∧ l' = drop_key t l.

(** A request performs its operation on the pod once or, when it is about
    another pod or fails before, not at all; an unmount that performs it
    succeeds, and a mount that succeeds has performed it, on the pod whose name
    its path ends with ([path_of]). *)
Definition once (r : mount_req) (done : list (pod_op * bool)) : Prop :=
  done = [] ∨ done = [(op_of r, true)].

Definition op_spec {A} (r : mount_req) (post : A → list (pod_op * bool) → Prop)
    : tspec life pod_op A := MkSpec (op_seen (op_of r)) (once r) post.

Definition unmount_spec (r : mount_req) : tspec life pod_op (option error) :=
  op_spec r (λ e done, done ≠ [] → e = None).

Definition req_spec (n : string) (r : mount_req) : tspec life pod_op (string * option error) :=
  op_spec r (λ res done,
    match r with
    | MountReq _ _ s =>
        res.2 = None → ∃ name, path_of s name res.1 ∧ (name = n → done ≠ [])
    | UnmountReq _ _ _ => done ≠ [] → res.2 = None
    end).

Section requests.
Context {G : Globals} {X : Ext} {F : Fuel} {W : Type} {S : ApiServer W}.
(** the mount pod and the mutex of its hash *)
Context (i : Z) (n : string).

#[local] Abbreviation impl := (implements i n).
#[local] Abbreviation own := (n, Namespace).
#[local] Abbreviation idle := (idle (@serve W S) (spared own) impl).
#[local] Abbreviation harmless := (idle (λ _, True)).

(** A name that the driver would give a new pod of this volume is not that of
    the pod, unless the requests agree on the mutex. *)
Definition names_apart (s : DfsSetting) : Prop :=
  GetPodLock (GenHashOfSetting s) = i ∨
  ∀ r, "dingofs-" +:+ NodeName +:+ "-" +:+ s_UniqueId s +:+ "-" +:+ r ≠ n.

(** The metadata of the pods of a setting: no deletion delay, no annotation
    under a reference key, and the driver's namespace. *)
Definition plain (s : DfsSetting) : Prop :=
  let a := default default_attr (s_Attr s) in
  s_DeletedDelay s = "" ∧ a_Namespace a = Namespace ∧
  a_Annotations a !! config.DeleteDelayTimeKey = None ∧
  ∀ t, a_Annotations a !! GetReferenceKey t = None.

Definition req_ok (r : mount_req) : Prop :=
  match r with
  | MountReq _ app s => names_apart s ∧ plain s ∧
      ∀ a, app = Some a → (app_Name a, app_Namespace a) ≠ own
  | UnmountReq _ _ _ => True
  end.

#[local] Opaque GetReferenceKey.

(** ** Calls that leave the mount pod alone *)

Definition spares : event_pred := λ Y e, negb (writes_pods e) && negb (adds_mounts e) && lock_free Y e.

Lemma spares_idle Y (e : event Y) :
  spares Y e = true → mutex_op e = None ∧ ∀ w l, impl w l → spared own w (serve e w).2.
Proof.
  unfold spares, writes_pods. rewrite !andb_true_iff, !negb_true_iff. intros [[H1 H2] H3].
  split; [by apply lock_free_mutex|]. intros w l _. apply serve_spared; [|done].
  by destruct (pod_written e).
Qed.

Lemma harmless_within {B} (p : prog B) : within spares p → harmless p.
Proof. apply idle_within_any, spares_idle. Qed.

Lemma harmless_bind {B C} (p : prog B) (f : B → prog C) :
  harmless p → (∀ b, harmless (f b)) → harmless (bind p f).
Proof. intros Hp Hf. apply idle_bind. eapply idle_mono; [|exact Hp]. auto. Qed.

Lemma idle_call {Y B} (P : B → Prop) (e : event Y) (k : Y → prog B) :
  mutex_op e = None → pod_written e ≠ Some own → adds_mounts e = false →
  (∀ w l, impl w l → idle P (k (serve e w).1)) → idle P (bind (call e) k).
Proof.
  intros H1 H2 H3 Hk. split; [done|]. intros w l Hl. split; [by apply serve_spared|]. by eapply Hk.
Qed.

Lemma harmless_call {Y} (e : event Y) :
  mutex_op e = None → pod_written e ≠ Some own → adds_mounts e = false → harmless (call e).
Proof. intros H1 H2 H3. split; [done|]. intros w l Hl. split; [by apply serve_spared|done]. Qed.

Lemma harmless_retry f : harmless f → harmless (RetryOnConflict f).
Proof. apply idle_retry. intros d w. by apply serve_spared. Qed.

(** What a read tells: the pod has the name that was asked for, and the mount
    pod is as the contract says. *)
Definition known (p : Pod) : Prop := pod_Name p = n → pod_Namespace p = Namespace → mount_pod i n p.

Lemma idle_get {B} (P : B → Prop) c name ns (k : result Pod → prog B) :
  (∀ p, pod_Name p = name → pod_Namespace p = ns → known p → idle P (k (Ok p))) →
  (∀ e, idle P (k (Err e))) → idle P (bind (GetPod c name ns) k).
Proof.
  intros Hp He. apply idle_call; [done..|]. intros w l [_ Hl].
  destruct (store w !! (name, ns)) as [p|] eqn:E.
  - rewrite (serve_get c _ _ _ _ E). destruct (store_named _ _ _ _ E) as [Hn Hns].
    apply Hp; [done..|]. unfold known. rewrite Hn, Hns. intros -> ->. rewrite E in Hl. by destruct Hl.
  - destruct (serve_get_none c _ _ _ E) as (e & -> & _). apply He.
Qed.

Lemma idle_list {B} (P : B → Prop) sel fields (k : result (list Pod) → prog B) :
  enableAPIServerListCache = false →
  (∀ pods, Forall (λ p, known p ∧ pod_Namespace p = Namespace ∧ selected sel p) pods →
     idle P (k (Ok pods))) →
  (∀ e, idle P (k (Err e))) → idle P (bind (ListPod Namespace sel fields) k).
Proof.
  intros Hc Hp He. unfold ListPod. rewrite Hc. apply idle_call; [done..|]. intros w l [_ Hl].
  destruct (serve (PodList Namespace sel fields false) w).1 as [pods|e] eqn:E; [|apply He].
  apply Hp, Forall_forall. intros p Hin. destruct (serve_list _ _ _ _ _ _ E Hin) as [Hs Hsel].
  destruct (store_named _ _ _ _ Hs) as [_ Hns]. split_and!; [|done..]. intros En _.
  rewrite En in Hs. rewrite Hs in Hl. by destruct Hl.
Qed.

(** ** Other pods *)

(** Programs on a pod of another name. *)
Section other.
Context (name : string) (Hname : name ≠ n).

Ltac other_pod := cbn [pod_written]; congruence.

Lemma add_ref_other c t : harmless (add_ref c t name).
Proof.
  unfold add_ref. apply idle_get; [|done]. intros p Hp _ _.
  case_decide; [done|]. case_decide; [done|]. apply harmless_call; [done| |done]. other_pod.
Qed.

Lemma AddRefOfMount_other c t : harmless (AddRefOfMount c t name).
Proof. apply harmless_retry, add_ref_other. Qed.

Lemma UmountTarget_other c t : harmless (UmountTarget c t name).
Proof.
  unfold UmountTarget. apply harmless_bind.
  { apply harmless_within. unfold umount_until_gone. within_run. }
  intros [e|]; [done|]. apply harmless_bind; [by apply harmless_call|]. intros [e|]; [done|].
  case_decide; [done|]. apply idle_get; [|by intros e; destruct (IsNotFound e)].
  intros p Hp Hns _. apply harmless_retry. unfold del_ref. rewrite Hp, Hns.
  apply idle_get; [|done]. intros po _ _ _. case_decide; [done|].
  apply harmless_call; [done| |done]. other_pod.
Qed.

Lemma ShouldDelay_other p : pod_Name p = name → harmless (ShouldDelay p).
Proof.
  intros Hp. unfold ShouldDelay, GetTimeAfterDelay.
  destruct (annotations p !! config.DeleteDelayTimeKey) as [d|]; [|done].
  destruct (annotations p !! config.DeleteDelayAtKey) as [d'|].
  - apply harmless_within. within_run.
  - apply harmless_bind; [apply harmless_within; within_run|]. intros [d'|e]; [|done].
    apply harmless_bind; [|by intros [e|]]. apply harmless_call; [done| |done]. other_pod.
Qed.

Lemma dumount_other c : harmless (dumount c name).
Proof.
  unfold dumount. apply idle_get; [|by intros e; destruct (IsNotFound e)]. intros p Hp _ _.
  case_decide; [done|]. apply harmless_bind; [by apply ShouldDelay_other|].
  intros [[]|e]; [done| |done]. apply harmless_bind.
  { apply harmless_call; [done| |done]. other_pod. }
  intros [e|]; [done|]. apply harmless_within. unfold last_n. within_run.
Qed.

Lemma release_target_other c t : harmless (release_target c t name).
Proof.
  unfold release_target. apply harmless_bind; [apply UmountTarget_other|]. intros [e|]; [done|].
  case_decide; [done|]. apply harmless_bind.
  { apply harmless_within. unfold GetMountRef. within_run. }
  intros [k|e]; [|done]. case_decide; [|done]. apply harmless_retry, dumount_other.
Qed.
End other.

(** ** Unmounting *)

Context (Hcache : enableAPIServerListCache = false) (Hlen : 7 ≤ len n).

#[local] Abbreviation safe_as T := (tsafe (@serve W S) (spared own) pod_op_step impl i T).
#[local] Abbreviation unmount_safe r := (safe_as (unmount_spec r)).
#[local] Abbreviation req_safe r := (safe_as (req_spec n r)).

Lemma impl_rely w w' l : impl w l → spared own w w' → impl w' l.
Proof. intros. by eapply implements_spared. Qed.

Lemma op_seen_refl o l : op_seen o l l.
Proof. by left. Qed.

(** The critical section of an unmount of the pod. *)
Lemma release_section c v t w l :
  impl w l →
  rwp (@serve W S) (spared own) (seen_inv impl (unmount_spec (UnmountReq c v t)) l) (release_target c t n) w
    (section_post pod_op_step impl (unmount_spec (UnmountReq c v t)) [] l).
Proof.
  intros Hl. eapply rwp_mono; [|apply (release_target_implements i n (op_seen (Detach t) l) c t w l)].
  - intros o w' (r & -> & Hi & _ & Hr). replace (ref_step (ReleaseTarget t) l).2 with true in Hr
      by (by destruct l). apply bool_decide_eq_true in Hr as ->.
    exists [(Detach t, true)], (ref_step (ReleaseTarget t) l).1. split_and!; [|done|by right|].
    + cbn. by rewrite decide_True by (by destruct l).
    + by intros a [= <-].
  - apply op_seen_refl.
  - right. right. by exists t.
  - right. left. destruct l; [done| |done]. cbn. by case_decide.
  - lia.
  - done.
Qed.

Lemma find_mount_pod_known t pods p :
  Forall (λ p, known p ∧ pod_Namespace p = Namespace) pods → find_mount_pod t pods = Some p →
  known p ∧ pod_Namespace p = Namespace.
Proof.
  intros Hp Hf. unfold find_mount_pod in Hf. apply fmap_Some in Hf as ([j q] & Hf & ->).
  apply list_find_Some in Hf as (Hj & _ & _). by apply (Forall_lookup_1 _ _ _ _ Hp Hj).
Qed.

Lemma release_found c v t p w :
  known p → pod_Namespace p = Namespace → m_get (pod_Labels p) config.PodHashLabelKey ≠ "" →
  unmount_safe (UnmountReq c v t) [] None
    (with_mutex (GetPodLock (m_get (pod_Labels p) config.PodHashLabelKey))
       (release_target c t (pod_Name p))) w.
Proof.
  intros Hk Hns Hh. destruct (decide (pod_Name p = n)) as [Hn|Hn].
  - destruct (mp_hash _ _ _ (Hk Hn Hns)) as [_ ->]. rewrite Hn.
    apply tsafe_critical; [apply release_target_lock_free|]. apply release_section.
  - apply tsafe_no_op; [apply impl_rely|apply op_seen_refl|by left|apply release_target_lock_free|].
    eapply idle_mono; [|by apply release_target_other]. by intros a _ [].
Qed.

(** The list of the volume's pods and what follows, with the pod of the old name. *)
Lemma unmount_rest c v t sel fields pre w :
  Forall (λ p, known p ∧ pod_Namespace p = Namespace) pre →
  unmount_safe (UnmountReq c v t) [] None
    (pods <-! ListPod Namespace sel fields ;;
     match find_mount_pod t (pre ++ pods) with
     | None => release_target c t ""
     | Some p =>
         let hashVal := m_get (pod_Labels p) config.PodHashLabelKey in
         if decide (hashVal = "") then
           Ret (Some (ErrNew ("pod " +:+ pod_Namespace p +:+ "/" +:+ pod_Name p
                              +:+ " has no hash label")))
         else with_mutex (GetPodLock hashVal) (release_target c t (pod_Name p))
     end) w.
Proof.
  intros Hpre. apply tsafe_bind; [apply _|]. apply tsafe_idle.
  apply (idle_list _ sel fields Ret); [done| |by intros e w1 []].
  intros pods Hpods w1. destruct (find_mount_pod t (pre ++ pods)) as [p|] eqn:Ef.
  - destruct (find_mount_pod_known t (pre ++ pods) p) as [Hk Hns]; [|done|].
    { apply Forall_app. split; [done|]. eapply Forall_impl; [exact Hpods|]. by intros q (? & ? & _). }
    cbv zeta. case_decide; [by intros []|]. by apply release_found.
  - apply tsafe_idle. eapply idle_mono; [|apply release_target_other].
    + by intros a _ [].
    + intros <-. cbn in Hlen. lia.
Qed.

Lemma DfsUnmount_safe c v t w : unmount_safe (UnmountReq c v t) [] None (DfsUnmount c v t) w.
Proof.
  unfold DfsUnmount, getUniqueId, GenPodNameByUniqueId. cbn [bind].
  set (old := "dingofs-" +:+ _). apply tsafe_bind; [apply _|]. apply tsafe_idle.
  apply (idle_get _ c old Namespace Ret).
  - intros p Hn Hns Hk w1. apply (unmount_rest c v t _ _ [p]). by apply Forall_singleton.
  - intros e w1. cbn [result_err]. destruct (IsNotFound e); [|by intros []].
    by apply (unmount_rest c v t _ _ []).
Qed.

(** ** Mounting on another pod *)

Lemma NewMountPod_spares s podName : within spares (NewMountPod s podName).
Proof. unfold NewMountPod, genCommonPod, genDfsVolumes, initFuseConfig. within_run. Qed.
Lemma CreateOrUpdateSecret_spares secret : within spares (CreateOrUpdateSecret secret).
Proof. apply within_RetryOnConflict; [done|]. unfold create_or_update_secret. within_run. Qed.
Lemma prepare_dir_spares path c d : within spares (DoWithTimeout_err c d (prepare_dir path)).
Proof.
  apply within_DoWithTimeout_err; [done|]. unfold prepare_dir, umount_until_gone. within_run.
Qed.
Lemma waitUtilMountReady_spares c s podName : within spares (waitUtilMountReady c s podName).
Proof.
  unfold waitUtilMountReady, WaitUtilMountReady, mount_ready_round, DoWithTimeout,
    DevMinorTableStore, GetErrContainerLog, StripPasswd, umount_until_gone. within_run.
Qed.
Lemma RandStringRunes_spares k : within spares (RandStringRunes k).
Proof. induction k; cbn [RandStringRunes]; within_run. Qed.

(** The new pod: its name, and the attributes it is made from. *)
Lemma NewMountPod_idle s podName :
  idle (λ r, ∃ a, r.1 = set_s_Attr (Some a) s ∧ ∀ p, r.2 = Ok p →
          pod_Name p = podName ∧ config.Finalizer ∈ pod_Finalizers p ∧
          pod_DeletionTimestamp p = None ∧ spec_NodeName (pod_Spec p) = NodeName ∧ made_from s a p)
    (NewMountPod s podName).
Proof.
  apply (idle_within _ _ _ spares _ _ []); [apply spares_idle|apply NewMountPod_spares|].
  eapply wp_mono; [|apply NewMountPod_meta]. intros [[s' [p|e]]|m|] tr [_ H]; [| |done..].
  - destruct H as (a & -> & Hp). exists a. split; [done|]. by intros p' [= <-].
  - destruct H as (a & ->). by exists a.
Qed.

(** The scheduling of the pod changes neither its name nor its metadata. *)
Definition same_meta (p p' : Pod) : Prop :=
  pod_Name p' = pod_Name p ∧ pod_Namespace p' = pod_Namespace p ∧
  pod_Labels p' = pod_Labels p ∧ pod_Annotations p' = pod_Annotations p ∧
  pod_Finalizers p' = pod_Finalizers p ∧ pod_DeletionTimestamp p' = pod_DeletionTimestamp p.

Lemma place_pod_idle c app p :
  spec_NodeName (pod_Spec p) = NodeName → idle (same_meta p) (place_pod c app p).
Proof.
  intros Hn. apply (idle_within _ _ _ spares _ _ []); [apply spares_idle| |].
  - unfold place_pod. within_run.
  - eapply wp_mono; [|by apply place_pod_ok].
    intros o tr (_ & p' & -> & _ & H1 & H2 & H3 & H4 & H5 & H6). by split_and!.
Qed.

(** What follows the creation of the pod. *)
Lemma after_create_spares p q :
  within spares (metricPort <- findAvailableNodePort (generateNodePort (pod_Name p)) ;;
     createSerivce (m_get (spec_NodeSelector (pod_Spec p)) hostname_label)
       (pod_Namespace p) (pod_Name p) metricPort ;;;
     Ret (Ok (Some q) : result (option Pod))).
Proof.
  unfold findAvailableNodePort, createSerivce, last_n. within_run.
  generalize 100. intros k. induction k; cbn [random_ports]; within_run.
Qed.

Section other_mount.
Context (name : string) (Hname : name ≠ n).

Lemma CreatePod_other p : pod_Name p = name → harmless (CreatePod (Some p)).
Proof.
  intros Hp. unfold CreatePod. apply harmless_bind.
  { apply harmless_call; [done| |done]. cbn [pod_written]. congruence. }
  intros [q|e]; [|done]. apply harmless_within, after_create_spares.
Qed.

Lemma create_mount_pod_other c app secret s : harmless (create_mount_pod c name app secret s).
Proof.
  unfold create_mount_pod. apply idle_bind. eapply idle_mono; [|apply NewMountPod_idle].
  intros [s' [p|e]] (a & _ & Hp); [|done]. destruct (Hp p eq_refl) as (Hn & _ & _ & Hnode & _).
  apply harmless_bind; [apply harmless_within; unfold last_n; within_run|]. intros uid.
  apply idle_bind. eapply idle_mono; [|by apply place_pod_idle]. intros p' (Hn' & _).
  apply harmless_bind; [apply harmless_within, CreateOrUpdateSecret_spares|]. intros [e|]; [done|].
  apply harmless_bind; [|done]. apply CreatePod_other. by rewrite Hn'.
Qed.

Lemma createPodOrAddRef_other c s app : harmless (createPodOrAddRef c name s app).
Proof.
  unfold createPodOrAddRef. apply harmless_bind; [apply harmless_within; unfold last_n; within_run|].
  intros suffix. cbv zeta. apply harmless_bind; [apply harmless_within, prepare_dir_spares|].
  intros [e|]; [done|]. apply idle_loop. intros _. apply idle_get.
  - intros p _ _ _. case_decide.
    + apply idle_bind. eapply idle_mono; [|by apply harmless_call]. done.
    + apply idle_bind. eapply idle_mono; [|apply harmless_within, CreateOrUpdateSecret_spares].
      intros [e|] _; [done|]. apply idle_bind. eapply idle_mono; [|by apply AddRefOfMount_other]. done.
  - intros e. destruct (IsNotFound e); [|by destruct (IsTimeout e)].
    apply idle_bind. eapply idle_mono; [|apply create_mount_pod_other]. done.
Qed.
End other_mount.

(** ** Mounting on the pod *)

(** A pod with this metadata is a mount pod with one target. *)
Lemma created_pod t h annos q :
  pod_Name q = n → pod_Namespace q = Namespace → pod_DeletionTimestamp q = None →
  pod_Finalizers q ≠ [] → pod_Annotations q = Some (<[GetReferenceKey t := t]> annos) →
  pod_Labels q !! config.PodHashLabelKey = Some h → h ≠ "" → GetPodLock h = i →
  is_Some (annos !! config.UniqueId) → annos !! config.DeleteDelayTimeKey = None →
  (∀ t', annos !! GetReferenceKey t' = None) →
  mount_pod i n q ∧ life_of q = Live {[ GetReferenceKey t ]}.
Proof.
  intros Hn Hns Hd Hf Ha Hh Hh0 Hi Hu Hdel Hk.
  assert (annotations q = <[GetReferenceKey t := t]> annos) as Ea by (unfold annotations; by rewrite Ha).
  assert (m_get (pod_Labels q) config.PodHashLabelKey = h) as Eh by (unfold m_get; by rewrite Hh).
  assert (mount_pod i n q) as Hm.
  { split; rewrite ?Ea, ?Eh; try done.
    - intros t' v. rewrite lookup_insert_Some. intros [[? <-]|[_ Hv]]; [done|by rewrite Hk in Hv].
    - rewrite lookup_insert_ne; [done|]. apply refkey_ne_config. set_solver.
    - rewrite lookup_insert_ne; [done|]. apply refkey_ne_config. set_solver. }
  split; [done|]. unfold life_of. rewrite Hd. f_equal. apply set_eq. intros k.
  rewrite elem_of_ref_keys, elem_of_singleton, Ea. split.
  - intros (v & Hv & ->). apply lookup_insert_Some in Hv as [[? _]|[_ Hv]]; [done|by rewrite Hk in Hv].
  - intros ->. exists t. by rewrite lookup_insert_eq.
Qed.

(** The configuration changes neither the namespace nor the annotations. *)
Lemma attr_kept s a :
  GenPodAttrWithCfg s None = Ok (set_s_Attr (Some a) s) →
  a_Namespace a = a_Namespace (default default_attr (s_Attr s)) ∧
  a_Annotations a = a_Annotations (default default_attr (s_Attr s)).
Proof.
  unfold GenPodAttrWithCfg. set (a0 := default default_attr (s_Attr s)). cbn [result_bind].
  rewrite (ApplyConfigPatch_total _ a0) by done. cbn [default from_option]. intros E.
  apply (f_equal (λ r, match r with Ok s => s_Attr s | Err _ => None end)) in E.
  cbn [s_Attr set_s_Attr set_s_MountOptions] in E. injection E as <-. split; [done|].
  change (merge_into (a_Annotations a0) ∅ = a_Annotations a0). unfold merge_into.
  apply (left_id_L ∅ (∪)).
Qed.

(** The annotations of the pods of a plain setting. *)
Lemma plain_annotations s2 :
  s_DeletedDelay s2 = "" → a_Annotations (attr_of s2) !! config.DeleteDelayTimeKey = None →
  (∀ t, a_Annotations (attr_of s2) !! GetReferenceKey t = None) →
  let annos := (genMetadata s2).2 in
  is_Some (annos !! config.UniqueId) ∧ annos !! config.DeleteDelayTimeKey = None ∧
  ∀ t, annos !! GetReferenceKey t = None.
Proof.
  intros Hd Ha Hk. unfold genMetadata. rewrite decide_True by done. cbn [snd].
  set (m0 := <[config.UniqueId := _]> _).
  assert (is_Some (m0 !! config.UniqueId) ∧ m0 !! config.DeleteDelayTimeKey = None ∧
    ∀ t, m0 !! GetReferenceKey t = None) as (H1 & H2 & H3).
  { unfold m0. rewrite lookup_insert_eq. split; [done|]. split.
    - by rewrite !lookup_insert_ne.
    - intros t. rewrite !lookup_insert_ne; [done|symmetry; apply refkey_ne_config; set_solver..]. }
  destruct (s_CleanCache s2); [|done]. split_and!.
  - by rewrite lookup_insert_ne.
  - by rewrite lookup_insert_ne.
  - intros t. rewrite lookup_insert_ne; [done|]. symmetry. apply refkey_ne_config. set_solver.
Qed.

(** The target is recorded on the pod, or the pod is as it was and the result is
    not the one that [ok] calls a success. *)
Definition attached (t : string) (l : life) (w : W) : Prop :=
  impl w (pod_op_step (Attach t) l).1 ∧ (pod_op_step (Attach t) l).2 = true.
Definition attach_post {B} (ok : B → bool) (t : string) (l : life) (o : outcome B) (w : W) : Prop :=
  attached t l w ∨ (impl w l ∧ ∀ b, o = Done b → ok b = false).

#[local] Abbreviation attaching ok t l p w :=
  (rwp (@serve W S) (spared own) (seen i n (op_seen (Attach t) l)) p w (attach_post ok t l)).

Lemma attached_seen t l w : attached t l w → seen i n (op_seen (Attach t) l) w.
Proof. intros [Hw _]. eexists. split; [|exact Hw]. by right; left. Qed.
Lemma impl_seen t l w : impl w l → seen i n (op_seen (Attach t) l) w.
Proof. intros Hw. by exists l; split; [left|]. Qed.

Lemma attached_rely t l w w' : attached t l w → spared own w w' → attached t l w'.
Proof. intros [H ?] Hs. split; [|done]. by eapply impl_rely. Qed.
Lemma attach_post_rely {B} (ok : B → bool) t l o w w' :
  attach_post ok t l o w → spared own w w' → attach_post ok t l o w'.
Proof. intros [H|[H ?]] Hs; [left; by eapply attached_rely|right; split; [by eapply impl_rely|done]]. Qed.
Lemma attach_post_seen {B} (ok : B → bool) t l o w :
  attach_post ok t l o w → seen i n (op_seen (Attach t) l) w.
Proof. intros [H|[H _]]; [by apply attached_seen|by apply impl_seen]. Qed.

(** What leaves the pod alone keeps what is done, and fails before. *)
Lemma attaching_after {B} (ok : B → bool) t l (p : prog B) w :
  harmless p → attached t l w → attaching ok t l p w.
Proof.
  intros Hp [Hw Hok].
  eapply rwp_mono; [|eapply rwp_idle; [apply impl_rely|exact Hp|exact Hw|]].
  - intros o w' [H _]. by left.
  - intros w' H. by apply attached_seen.
Qed.
Lemma attaching_fails {B} (ok : B → bool) t l (p : prog B) w :
  idle (λ b, ok b = false) p → impl w l → attaching ok t l p w.
Proof.
  intros Hp Hw. eapply rwp_mono; [|eapply rwp_idle; [apply impl_rely|exact Hp|exact Hw|]].
  - intros o w' [H Hb]. by right.
  - intros w' H. by apply impl_seen.
Qed.

Lemma attaching_bind {B C} (ok : C → bool) t l (P : B → Prop) (p : prog B) (f : B → prog C) w :
  idle P p → impl w l → (∀ b w', P b → impl w' l → attaching ok t l (f b) w') →
  attaching ok t l (bind p f) w.
Proof.
  intros Hp Hw Hf. eapply rwp_idle_bind; [apply _|apply impl_rely|exact Hp|exact Hw| |exact Hf| |].
  - intros w' H. by apply impl_seen.
  - intros s w' H. by right.
  - intros w' H. by right.
Qed.

(** The result of the last step, translated. *)
Lemma attaching_map {B C} (ok : B → bool) (ok' : C → bool) t l (p : prog B) (f : B → C) w :
  (∀ b, ok b = false → ok' (f b) = false) → attaching ok t l p w →
  attaching ok' t l (b <- p ;; Ret (f b)) w.
Proof.
  intros Hf Hp. apply rwp_bind; [apply _|]. eapply rwp_mono; [|exact Hp].
  intros [b|m|] w' H; [|by destruct H as [H|[H _]]; [left|right]..].
  destruct H as [H|[H Hb]]; [by apply attaching_after|].
  apply attaching_fails; [|done]. apply Hf. by apply Hb.
Qed.

(** What is stored of a created pod is a mount pod too. *)
Lemma created_as_mount_pod p q :
  created_as p q → pod_DeletionTimestamp p = None → mount_pod i n p →
  mount_pod i n q ∧ life_of q = life_of p.
Proof.
  intros (H1 & H2 & H3 & H4 & H5 & H6) Hd [M1 M2 M3 M4 M5 M6 M7].
  assert (annotations q = annotations p) as Ea by (unfold annotations; by rewrite H4).
  split; [split; rewrite ?Ea, ?H1, ?H2, ?H3, ?H5; done|].
  unfold life_of, ref_keys, GetAllRefKeys. by rewrite Ea, H6, Hd.
Qed.

Lemma CreatePod_own ok t p w :
  impl w Gone → mount_pod i n p → pod_DeletionTimestamp p = None →
  life_of p = Live {[ GetReferenceKey t ]} → attaching ok t Gone (CreatePod (Some p)) w.
Proof.
  intros Hw Hp Hd Hl. unfold CreatePod. apply rwp_call. intros w1 H1.
  assert (impl w1 Gone) as Hw1 by (by eapply impl_rely). split; [by apply impl_seen|].
  intros r w2 E. pose proof (mp_name _ _ _ Hp) as Hn. pose proof (mp_namespace _ _ _ Hp) as Hns.
  assert (store w1 !! own = None) as Hnone.
  { destruct Hw1 as [_ Hw1]. destruct (store w1 !! own) as [q|]; [|done]. destruct Hw1 as [_ Hq].
    unfold life_of in Hq. by destruct (pod_DeletionTimestamp q). }
  destruct (serve_create p w1) as (q & w3 & E' & Hq & Hst); [rewrite Hn| |].
  { intros En. rewrite En in Hlen. cbn in Hlen. lia. }
  { by rewrite Hn, Hns. }
  rewrite E in E'. injection E' as -> ->. destruct (created_as_mount_pod p q) as [Hmq Hlq]; [done..|].
  apply attaching_after; [apply harmless_within, after_create_spares|]. split; [|done].
  change (impl w3 (Live {[ GetReferenceKey t ]})). rewrite <-Hl, <-Hlq.
  eapply implements_write; [exact Hw1|exact E|done| |done]. by rewrite Hst, Hn, Hns.
Qed.

(** Success of [createPodOrAddRef]. *)
Definition mounted (r : DfsSetting * option error) : bool := bool_decide (r.2 = None).

(** The setting under which the pod is created. *)
Definition made_setting (s : DfsSetting) (path secret : string) : DfsSetting :=
  set_s_SecretName secret (set_s_MountPath path (set_s_HashVal (GenHashOfSetting s) s)).

Lemma create_mount_pod_own c app secret s path name w :
  plain s → GetPodLock (GenHashOfSetting s) = i → impl w Gone →
  attaching mounted (s_TargetPath s) Gone
    (create_mount_pod c n app secret (made_setting s path name)) w.
Proof.
  intros (Hdel & Hns & Hdel' & Hrefs) Hi Hw. set (s2 := made_setting s path name). unfold create_mount_pod.
  apply (attaching_bind _ _ _ _ _ _ _ (NewMountPod_idle s2 n) Hw).
  intros [s' [p|e]] w1 (a & Es' & Hp) Hw1; [|by apply attaching_fails].
  cbn [fst snd] in *. subst s'. destruct (Hp p eq_refl) as (Hn & Hf & Hd & Hnode & Hm1 & Hm2 & Hm3 & Hm4).
  destruct (attr_kept _ _ Hm1) as [Ens Ean].
  change (s_Attr s2) with (s_Attr s) in Ens, Ean. rewrite <-Ens in Hns. rewrite <-Ean in Hdel', Hrefs.
  destruct (plain_annotations (set_s_Attr (Some a) s2)) as (Hu & Hdt & Hk);
    [done..|].
  destruct (last_n_ok 6 n) as (uid & -> & _); [lia|]. cbn [bind].
  apply (attaching_bind _ _ _ (same_meta (set_pod_Labels (<[config.PodUniqueIdLabelKey:=uid]>
    (<[config.PodHashLabelKey:=GenHashOfSetting s]> (pod_Labels p)))
    (set_pod_Annotations (Some (<[GetReferenceKey (s_TargetPath s):=s_TargetPath s]>
       (annotations p))) p)))); [by apply place_pod_idle|done|].
  intros p2 w2 (Hn2 & Hns2 & Hl2 & Ha2 & Hf2 & Hd2) Hw2.
  apply (attaching_bind _ _ _ (λ _, True)); [apply harmless_within, CreateOrUpdateSecret_spares|done|].
  intros [e|] w3 _ Hw3; [by apply attaching_fails|].
  destruct (created_pod (s_TargetPath s) (GenHashOfSetting s)
    (genMetadata (set_s_Attr (Some a) s2)).2 p2) as [Hmp Hlife]; try done.
  - by rewrite Hn2.
  - rewrite Hns2. cbn. by rewrite Hm4.
  - by rewrite Hd2.
  - rewrite Hf2. cbn. intros E. by rewrite E in Hf; apply elem_of_nil in Hf.
  - rewrite Ha2. cbn. unfold annotations. by rewrite Hm3.
  - rewrite Hl2. cbn. rewrite lookup_insert_ne by done. apply lookup_insert_eq.
  - apply (attaching_map (λ r, bool_decide (result_err r = None))); [done|].
    apply CreatePod_own; [done|done|by rewrite Hd2|done].
Qed.

(** Recording the target on a live pod. *)
Lemma AddRefOfMount_own c t w l :
  impl w l → l ≠ Gone → attaching (λ e, bool_decide (e = None)) t l (AddRefOfMount c t n) w.
Proof.
  intros Hw Hl. assert (pod_op_step (Attach t) l = ref_step (AddTarget t) l) as Es by (by destruct l).
  eapply rwp_mono; [|apply (AddRefOfMount_implements i n (op_seen (Attach t) l) c t w l)].
  - intros o w' (r & -> & Hi & _ & Hr). unfold attach_post, attached. rewrite Es.
    destruct l as [|K|K]; [done|by left|]. right. split; [done|]. by intros b [= <-].
  - by left.
  - right. left. by rewrite Es.
  - done.
Qed.

(** One round of the loop of [createPodOrAddRef]: it leaves with what is done, or
    goes on with the pod as it was. *)
Definition round_ok {B} (ok : B → bool) (r : unit + B) : bool :=
  match r with inl _ => false | inr b => ok b end.
Definition round_post {B} (ok : B → bool) (t : string) (l : life) (o : outcome (unit + B)) (w : W)
    : Prop :=
  match o with Done (inl _) => impl w l | _ => attach_post (round_ok ok) t l o w end.
#[local] Abbreviation in_round ok t l p w :=
  (rwp (@serve W S) (spared own) (seen i n (op_seen (Attach t) l)) p w (round_post ok t l)).

Lemma round_exit {B C} (ok : B → bool) (ok' : C → bool) t l (p : prog C) (f : C → B) w :
  (∀ c, ok' c = false → ok (f c) = false) → attaching ok' t l p w →
  in_round ok t l (b <- p ;; Ret (inr (f b))) w.
Proof.
  intros Hf Hp. apply rwp_bind; [apply _|]. eapply rwp_mono; [|exact Hp].
  intros [b|m|] w' H; [|by destruct H as [H|[H _]]; [left|right]..]. intros w2 H2.
  pose proof (attach_post_rely _ _ _ _ _ _ H H2) as H'. split; [by eapply attach_post_seen|].
  destruct H' as [H'|[H' Hb]]; [by left|right]. split; [done|]. intros b' [= <-]. apply Hf. by apply Hb.
Qed.

Lemma round_next {B} (ok : B → bool) t l w : impl w l → in_round ok t l (Ret (inl tt : unit + B)) w.
Proof.
  intros Hw w' H. assert (impl w' l) by (by eapply impl_rely). split; [by apply impl_seen|done].
Qed.
Lemma round_ret {B} (ok : B → bool) t l b w :
  impl w l → ok b = false → in_round ok t l (Ret (inr b : unit + B)) w.
Proof.
  intros Hw Hb w' H. assert (impl w' l) by (by eapply impl_rely). split; [by apply impl_seen|].
  right. split; [done|]. by intros b' [= <-].
Qed.

Lemma round_bind {B C} (ok : B → bool) t l (p : prog C) (f : C → prog (unit + B)) w :
  harmless p → impl w l → (∀ b w', impl w' l → in_round ok t l (f b) w') →
  in_round ok t l (bind p f) w.
Proof.
  intros Hp Hw Hf. eapply rwp_idle_bind; [apply _|apply impl_rely|exact Hp|exact Hw| | | |]; eauto.
  - intros w' H. by apply impl_seen.
  - intros s w' H. by right.
  - intros w' H. by right.
Qed.

Lemma attaching_loop {B} (ok : B → bool) t l k (body : unit → prog (unit + B)) w :
  impl w l → (∀ w, impl w l → in_round ok t l (body tt) w) → attaching ok t l (loop k body tt) w.
Proof.
  intros Hw Hb. revert w Hw. induction k as [|k IH]; intros w Hw; [by apply attaching_fails|].
  cbn [loop]. apply rwp_bind; [apply _|]. eapply rwp_mono; [|by apply Hb].
  intros [[[]|b]|m|] w' H; [by apply IH| |by destruct H as [H|[H _]]; [left|right]..].
  destruct H as [H|[H Hok]]; [by apply attaching_after|]. apply attaching_fails; [|done].
  by apply (Hok _ eq_refl).
Qed.

(** Reading the pod while the mutex is held. *)
Lemma round_get {B} (ok : B → bool) t l c (k : result Pod → prog (unit + B)) w :
  impl w l →
  (∀ e w', impl w' Gone → l = Gone → IsNotFound e = true → in_round ok t l (k (Err e)) w') →
  (∀ p w', impl w' l → l = life_of p → in_round ok t l (k (Ok p)) w') →
  in_round ok t l (bind (GetPod c n Namespace) k) w.
Proof.
  intros Hw He Hp. apply rwp_get.
  - intros w' H. eapply (seen_spared i n _ l w); [by left|done|done].
  - intros e w' H E Hnf. destruct Hw as [Hb Hi]. rewrite E in Hi. subst l.
    apply He; [|done|done]. eapply impl_rely; [|exact H]. split; [done|]. by rewrite E.
  - intros p w' H E. pose proof Hw as [_ Hi]. rewrite E in Hi. destruct Hi as [_ Hl].
    apply Hp; [by eapply impl_rely|done].
Qed.

Lemma createPodOrAddRef_own c s app w l :
  plain s → GetPodLock (GenHashOfSetting s) = i → impl w l →
  attaching mounted (s_TargetPath s) l
    (createPodOrAddRef c n (set_s_HashVal (GenHashOfSetting s) s) app) w.
Proof.
  intros Hplain Hi Hw. unfold createPodOrAddRef.
  destruct (last_n_ok 7 n) as (suffix & -> & _); [done|]. cbn [bind]. cbv zeta.
  set (path := s_MountPath _ +:+ suffix). set (name := "dingofs-" +:+ _).
  change (set_s_SecretName name (set_s_MountPath path (set_s_HashVal (GenHashOfSetting s) s)))
    with (made_setting s path name).
  apply (attaching_bind _ _ _ (λ _, True)); [apply harmless_within, prepare_dir_spares|done|].
  intros [e|] w1 _ Hw1; [by apply attaching_fails|].
  set (secret := SetPVAsOwner _ _). apply attaching_loop; [done|]. clear w Hw w1 Hw1. intros w Hw.
  apply round_get; [done| |].
  - intros e w' Hw' -> ->. apply (round_exit _ mounted); [done|]. by apply create_mount_pod_own.
  - intros p w' Hw' Hl. case_decide as Hd.
    + apply round_bind; [by apply harmless_call|done|]. intros _ w2 H2. by apply round_next.
    + apply round_bind; [apply harmless_within, CreateOrUpdateSecret_spares|done|].
      intros [e|] w2 H2; [by apply round_ret|].
      apply (round_exit _ (λ e, bool_decide (e = None)) _ _ _ (λ e, (made_setting s path name, e)));
        [done|]. apply AddRefOfMount_own; [done|].
      rewrite Hl. unfold life_of. by destruct (pod_DeletionTimestamp p).
Qed.

(** ** The mount request *)

(** The name is that of the pod only when the request holds the pod's mutex. *)
Lemma GenMountPodName_idle s :
  names_apart s →
  idle (λ r, r = Ok n → GetPodLock (GenHashOfSetting s) = i)
    (GenMountPodName (set_s_HashVal (GenHashOfSetting s) s)).
Proof.
  intros Hapart. unfold GenMountPodName. apply idle_list; [done| |done].
  intros pods Hpods. destruct (list_find _ pods) as [[j p]|] eqn:Ef.
  - apply list_find_Some in Ef as (Hj & _ & _).
    destruct (Forall_lookup_1 _ _ _ _ Hpods Hj) as (Hk & Hns & Hsel). intros [= Hn].
    destruct (mp_hash _ _ _ (Hk Hn Hns)) as [_ Hi]. etrans; [|exact Hi]. f_equal. unfold m_get.
    assert (pod_Labels p !! config.PodHashLabelKey = Some (GenHashOfSetting s)) as ->; [|done].
    eapply lookup_weaken; [|by apply Hsel]. unfold mount_pod_selector. cbn [ls_MatchLabels].
    by rewrite !lookup_insert_ne, lookup_singleton_eq.
  - apply idle_bind. apply idle_bind.
    eapply idle_mono; [|apply harmless_within, RandStringRunes_spares].
    intros r _ [= En]. destruct Hapart as [?|Hne]; [done|]. by destruct (Hne r).
Qed.

Lemma SetMountLabel_idle name ns : (name, ns) ≠ own → harmless (SetMountLabel name ns).
Proof.
  intros Hne. unfold SetMountLabel. apply idle_get; [|done]. intros p Hn Hns _.
  apply harmless_call; [done| |done]. cbn [pod_written]. congruence.
Qed.

(** The part of [mount_locked] after the choice of the name. *)
Definition label_app (app : option AppInfo) : prog (option error) :=
  match app with
  | Some app =>
      if bool_decide (app_Name app ≠ "") && bool_decide (app_Namespace app ≠ "")
      then SetMountLabel (app_Name app) (app_Namespace app) else Ret None
  | None => Ret None
  end.

Lemma label_app_idle app :
  (∀ a, app = Some a → (app_Name a, app_Namespace a) ≠ own) → harmless (label_app app).
Proof.
  intros Ha. unfold label_app. destruct app as [a|]; [|done].
  destruct (_ && _); [|done]. by apply SetMountLabel_idle, Ha.
Qed.

(** Success on the pod. *)
Definition mounted_on (r : DfsSetting * result string) : bool :=
  match r.2 with Ok name => bool_decide (name = n) | Err _ => false end.

Lemma mount_locked_other c app s :
  req_ok (MountReq c app s) → GetPodLock (GenHashOfSetting s) ≠ i →
  idle (λ r, mounted_on r = false) (mount_locked c app (set_s_HashVal (GenHashOfSetting s) s)).
Proof.
  intros (Hapart & _ & Ha) Hi. unfold mount_locked. apply idle_bind.
  eapply idle_mono; [|by apply GenMountPodName_idle]. intros [name|e] Hname; [|done].
  assert (name ≠ n) as Hne by (intros ->; by apply Hi, Hname).
  apply idle_bind. eapply idle_mono; [|by apply label_app_idle]. intros [e|] _; [done|].
  apply idle_bind. eapply idle_mono; [|by apply createPodOrAddRef_other].
  intros [s' [e|]] _; [done|by apply bool_decide_eq_false].
Qed.

Lemma mount_locked_own c app s w l :
  req_ok (MountReq c app s) → GetPodLock (GenHashOfSetting s) = i → impl w l →
  attaching mounted_on (s_TargetPath s) l
    (mount_locked c app (set_s_HashVal (GenHashOfSetting s) s)) w.
Proof.
  intros (Hapart & Hplain & Ha) Hi Hw. unfold mount_locked.
  apply (attaching_bind _ _ _ _ _ _ _ (GenMountPodName_idle s Hapart) Hw).
  intros [name|e] w1 _ Hw1; [|by apply attaching_fails].
  apply (attaching_bind _ _ _ (λ _, True)); [by apply label_app_idle|done|].
  intros [e|] w2 _ Hw2; [by apply attaching_fails|].
  destruct (decide (name = n)) as [->|Hne].
  - eapply (attaching_map mounted); [|by apply createPodOrAddRef_own].
    intros [s' [e|]] H; [done|by apply bool_decide_eq_false in H].
  - apply attaching_fails; [|done]. apply idle_bind.
    eapply idle_mono; [|by apply createPodOrAddRef_other]. intros [s' [e|]] _; [done|].
    by apply bool_decide_eq_false.
Qed.

Lemma DMount_safe c app s w :
  req_ok (MountReq c app s) →
  req_safe (MountReq c app s) [] None (serve_mount (MountReq c app s)) w.
Proof.
  intros Hok. cbn [serve_mount]. apply tsafe_bind; [apply _|]. unfold DMount. cbv zeta.
  apply tsafe_bind; [apply _|]. set (T := then_spec _ _ _ _ _ _ _).
  pose proof (mount_locked_path c app (set_s_HashVal (GenHashOfSetting s) s)) as Hpath.
  assert (∀ r d, path_given (set_s_HashVal (GenHashOfSetting s) s) r →
    (mounted_on r = true → d ≠ []) → ts_post T r d) as Hpost.
  { intros [s' [name|e]] d Hp Hd w1; [|by intros w2 [=]]. apply tsafe_idle, idle_bind.
    eapply idle_mono; [|apply harmless_within, waitUtilMountReady_spares].
    intros e _ w2 _. exists name. split; [by apply Hp|]. intros ->. by apply Hd, bool_decide_eq_true. }
  destruct (decide (GetPodLock (GenHashOfSetting s) = i)) as [Hi|Hi].
  - rewrite Hi. apply tsafe_critical; [apply mount_locked_lock_free|]. intros w1 l Hl.
    pose proof (mount_locked_own c app s w1 l Hok Hi Hl) as Hsec.
    apply (rwp_yields _ _ _ _ _ _ _ Hpath) in Hsec. eapply rwp_mono; [|exact Hsec].
    intros o w' [[[Hw' Hs]|[Hw' Hs]] Hp]; (destruct o as [a|m|]; [| |done]).
    1,2: exists [(Attach (s_TargetPath s), true)], (pod_op_step (Attach (s_TargetPath s)) l).1;
      split_and!; [cbn; by rewrite decide_True|done|by right|];
      intros a' E; apply Hpost; [by apply Hp|done].
    all: exists [], l; split_and!; [done|done|by left|]; intros a' E; apply Hpost; [by apply Hp|];
      by rewrite (Hs a' E).
  - apply tsafe_no_op; [apply impl_rely|apply op_seen_refl|by left|apply mount_locked_lock_free|].
    pose proof (mount_locked_other c app s Hok Hi) as Hsec.
    apply (idle_yields _ _ _ _ _ _ Hpath) in Hsec. eapply idle_mono; [|exact Hsec].
    intros r [Hr Hp]. apply Hpost; [done|]. by rewrite Hr.
Qed.

Lemma serve_mount_safe r w : req_ok r → req_safe r [] None (serve_mount r) w.
Proof.
  destruct r as [c app s|c v t]; [apply DMount_safe|]. intros _. cbn [serve_mount].
  apply tsafe_bind; [apply _|]. eapply tsafe_post; [| | |apply DfsUnmount_safe]; [done..|].
  intros e d H w'. exact H.
Qed.

(** ** Properties *)

(** The mount pod is in the state [l] of the contract or, while a request holds the
    mutex of its hash - it took it last and has not given it back -, in one that the
    operation of that request passes through. *)
Definition pod_at (reqs : list mount_req) (acts : list (nat * option (bool * Z))) (l : life)
    (st : conc (W := W) (A := string * option error)) : Prop :=
  implements i n (c_world st) l ∨
  ∃ j r l', reqs !! j = Some r ∧ op_seen (op_of r) l l' ∧ implements i n (c_world st) l' ∧
            i ∈ c_locks st ∧ mutex_order true i acts = mutex_order false i acts ++ [j].

(** Every entry of the log is the operation of its request, which has no other. *)
Definition tagged (reqs : list mount_req) (log : list (nat * (pod_op * bool))) : Prop :=
  (∀ j o, (j, o) ∈ log → ∃ r, reqs !! j = Some r ∧ o = (op_of r, true)) ∧
  ∀ j, length (ops_of j log) ≤ 1.

(** The requests that have returned: a mount that succeeded, with the path of the
    pod, has an entry, and an unmount that has an entry succeeded. *)
Definition answered (reqs : list mount_req) (log : list (nat * (pod_op * bool)))
    (ths : list (prog (string * option error))) : Prop :=
  ∀ j path e, ths !! j = Some (Ret (path, e)) →
    (∀ c app s, reqs !! j = Some (MountReq c app s) → e = None →
       ∃ name, path_of s name path ∧ (name = n → ops_of j log ≠ [])) ∧
    (∀ c v t, reqs !! j = Some (UnmountReq c v t) → ops_of j log ≠ [] → e = None).

(** The requests in any interleaving, from a state of the contract. *)
Lemma requests_refine reqs w0 l0 acts st :
  implements i n w0 l0 → Forall req_ok reqs →
  conc_acts (@serve W S) (MkConc w0 ∅ (serve_mount <$> reqs)) acts st →
  ∃ log l, lock_ordered i acts log ∧ contract_run pod_op_step (snd <$> log) l0 = Some l ∧ pod_at reqs acts l st ∧ tagged reqs log ∧
    answered reqs log (c_threads st).
Proof.
  intros Hl0 Hreqs Hr.
  destruct (conc_refines (@serve W S) (spared own) pod_op_step impl i impl_rely
    (req_spec n <$> reqs) (serve_mount <$> reqs) w0 l0 acts st) as (log & l & H0 & H1 & H2 & H3 & H4); [done| |done|].
  { apply Forall2_fmap, Forall_Forall2_diag. eapply Forall_impl; [exact Hreqs|]. intros r Hok.
    split; [by left|]. intros w. by apply serve_mount_safe. }
  assert (∀ j T, (req_spec n <$> reqs) !! j = Some T ↔
    ∃ r, reqs !! j = Some r ∧ T = req_spec n r) as Hlook.
  { intros j T. rewrite list_lookup_fmap_Some. split; intros (r & ? & ?); eauto. }
  exists log, l. split; [done|]. split; [done|]. split; [|split; [split|]].
  - destruct H2 as [H2|(j & T & l' & HT & Hs & Hi & Hm & Ho)]; [by left|right].
    apply Hlook in HT as (r & Hrj & ->). by exists j, r, l'.
  - intros j o Ho. destruct (H3 j o Ho) as [T HT]. pose proof HT as (r & Hrj & ->)%Hlook.
    exists r. split; [done|]. destruct (H4 j _ HT) as [Hd _]. apply elem_of_ops in Ho.
    destruct Hd as [E|E]; rewrite E in Ho;
      [by apply elem_of_nil in Ho|by apply list_elem_of_singleton in Ho].
  - intros j. destruct ((req_spec n <$> reqs) !! j) as [T|] eqn:HT.
    + destruct (H4 j T HT) as [Hd _]. apply Hlook in HT as (r & _ & ->).
      destruct Hd as [-> | ->]; cbn; lia.
    + destruct (ops_of j log) as [|o ops] eqn:E; [cbn; lia|]. exfalso.
      assert (o ∈ ops_of j log) as Hin%elem_of_ops by (rewrite E; by left).
      destruct (H3 _ _ Hin) as [T HT']. congruence.
  - intros j path e Hret. split.
    + intros c app s Hj. destruct (H4 j (req_spec n (MountReq c app s))) as [_ Hp]; [apply Hlook; eauto|].
      by apply (Hp _ Hret).
    + intros c v t Hj. destruct (H4 j (req_spec n (UnmountReq c v t))) as [_ Hp]; [apply Hlook; eauto|].
      by apply (Hp _ Hret).
Qed.

End requests.

Section linear.
Context {G : Globals} {X : Ext} {F : Fuel} {W : Type} {S : ApiServer W}.
#[local] Opaque GetReferenceKey.


(** Operations that do not release the key keep it. *)
Definition keeps_key (k : string) (o : pod_op) : Prop := ∀ t, o = Detach t → GetReferenceKey t ≠ k.
Definition holds_key (k : string) (l : life) : Prop := ∃ K, l = Live K ∧ k ∈ K.

Lemma op_seen_keeps k o l l' : keeps_key k o → holds_key k l → op_seen o l l' → holds_key k l'.
Proof.
  intros Ho (K & -> & Hk) [->|[->|(t & -> & ->)]]; [by exists K| |].
  - destruct o as [t|t]; cbn.
    + eexists. split; [done|]. set_solver.
    + specialize (Ho t eq_refl). rewrite decide_False by set_solver. eexists. split; [done|]. set_solver.
  - specialize (Ho t eq_refl). eexists. split; [done|]. set_solver.
Qed.

Lemma contract_run_keeps k log l l' :
  Forall (λ e, keeps_key k e.1) log → holds_key k l → contract_run pod_op_step log l = Some l' →
  holds_key k l'.
Proof.
  intros Hlog. revert l. induction Hlog as [|[o b] log Ho _ IH]; intros l Hl; cbn [contract_run].
  - by intros [= <-].
  - case_decide; [|done]. apply IH. eapply op_seen_keeps; [exact Ho|exact Hl|]. by right; left.
Qed.

(** C2: No interleaving deletes a pod in use.  Under the conditions of the
    linearisation - a healthy API server, uncached lists, a mount pod without
    deletion delay, and mounts without deletion delay, of other volumes only with
    other pod names - while a target recorded on the mount pod is not unmounted,
    at every instant of any interleaving of [DMount] and [DfsUnmount] requests,
    also between the calls of a request that holds the mutex, the mount pod exists,
    is not being deleted and records the target. *)
Theorem concurrent_pod_kept i n reqs w0 K t st :
  enableAPIServerListCache = false → 7 ≤ len n →
  implements i n w0 (Live K) → GetReferenceKey t ∈ K → Forall (req_ok i n) reqs →
  Forall (λ r, keeps_key (GetReferenceKey t) (op_of r)) reqs →
  rtc (conc_step (@serve W S)) (MkConc w0 ∅ (serve_mount <$> reqs)) st →
  ∃ p, store (c_world st) !! (n, Namespace) = Some p ∧ pod_DeletionTimestamp p = None ∧
       is_Some (annotations p !! GetReferenceKey t).
Proof.
  intros Hc Hn Hw Hk Hok Hkeep [acts Hr]%steps_acts.
  destruct (requests_refine i n Hc Hn reqs w0 _ acts st Hw Hok Hr) as (log & l & _ & H1 & H2 & [H3 _] & _).
  assert (holds_key (GetReferenceKey t) l) as Hl.
  { eapply contract_run_keeps; [|by exists K|exact H1]. apply Forall_fmap, Forall_forall.
    intros [j o] Hj. destruct (H3 j o Hj) as (r & Hrj & ->). by apply (Forall_lookup_1 _ _ _ _ Hkeep Hrj). }
  assert (∃ l', holds_key (GetReferenceKey t) l' ∧ implements i n (c_world st) l') as (l' & (K' & -> & Hk') & _ & Hi).
  { destruct H2 as [H2|(j & r & l' & Hrj & Hs & Hi & _)]; [by exists l|]. exists l'. split; [|done].
    eapply op_seen_keeps; [|exact Hl|exact Hs]. by apply (Forall_lookup_1 _ _ _ _ Hkeep Hrj). }
  destruct (store (c_world st) !! (n, Namespace)) as [p|]; [|done]. destruct Hi as [Hmp Hlife]. exists p.
  unfold life_of in Hlife. destruct (pod_DeletionTimestamp p); [done|]. injection Hlife as ->.
  split_and!; [done..|]. by apply (ref_keys_lookup i t n p Hmp).
Qed.
End linear.

(** ** Examples *)

Section concurrent_examples.
#[local] Existing Instances demo_globals demo_ext.
#[local] Instance conc_fuel : Fuel := 5.

Definition demo_reqs : list mount_req :=
  [UnmountReq Background "pvc-1" "/t1"; MountReq Background None (demo_shared "/t2")].

(** Both start; the mount takes the mutex while the unmount has listed the pods
    and waits for it. *)
Definition demo_order : list nat :=
  [0; 0; 1; 0; 1; 1; 0; 1; 1; 1; 1; 1; 1; 1; 1; 0; 0; 0; 0; 0; 0; 0; 0; 0; 0; 0; 0; 0].
Definition demo_end : conc := conc_run (@serve memory memory_server) demo_order
  (MkConc demo_memory ∅ (serve_mount <$> demo_reqs)).

Lemma demo_reqs_ok :
  Forall (req_ok (GetPodLock demo_hash) "dingofs-node1-pvc-1-abcdef") demo_reqs.
Proof.
  apply Forall_cons. split; [done|]. apply Forall_singleton. split_and!.
  - left. vm_compute. reflexivity.
  - split; [done|]. split; [done|]. split; [done|]. intros t. apply lookup_empty.
  - done.
Qed.

(** The unmount has returned, the mount waits for the mount point, and the pod
    has the second target alone. *)
Lemma demo_end_state :
  c_locks demo_end = ∅ ∧ (∃ k, c_threads demo_end = [Ret ("", None); k]) ∧
  (ref_keys <$> (store (c_world demo_end) !! ("dingofs-node1-pvc-1-abcdef", "dingofs")))
    = Some {[ GetReferenceKey "/t2" ]}.
Proof.
  split; [vm_compute; reflexivity|]. split; [|vm_compute; reflexivity].
  assert ((λ p, match p with Ret ("", None) => true | _ => false end) <$> c_threads demo_end = [true; false])
    as E by (vm_compute; reflexivity).
  destruct (c_threads demo_end) as [|[[[|? ?] [e|]]|X e k|m|] [|q [|? ?]]]; try discriminate E. by exists q.
Qed.


Lemma concurrent_pod_kept_witness :
  ∃ p, store (c_world (conc_run (@serve memory memory_server) [0; 1; 0; 1; 0; 0; 0; 0; 0]
         (MkConc demo_memory ∅ (serve_mount <$>
            [UnmountReq Background "pvc-1" "/t2"; MountReq Background None (demo_shared "/t3")]))))
         !! ("dingofs-node1-pvc-1-abcdef", Namespace) = Some p ∧ pod_DeletionTimestamp p = None ∧
       is_Some (annotations p !! GetReferenceKey "/t1").
Proof.
  apply (concurrent_pod_kept (G := demo_globals) (S := memory_server) (GetPodLock demo_hash) "dingofs-node1-pvc-1-abcdef"
    [UnmountReq Background "pvc-1" "/t2"; MountReq Background None (demo_shared "/t3")]
    demo_memory {[ GetReferenceKey "/t1" ]} "/t1" _ eq_refl ltac:(cbn; lia)).
  - exact demo_implements.
  - by apply elem_of_singleton.
  - apply Forall_cons. split; [exact I|]. apply Forall_singleton. split_and!.
    + left. vm_compute. reflexivity.
    + split; [done|]. split; [done|]. split; [done|]. intros t. apply lookup_empty.
    + done.
  - apply Forall_cons. split; [|apply Forall_singleton; intros t E; discriminate E].
    intros t E. injection E as <-. vm_compute. intros E. discriminate E.
  - apply conc_run_reachable.
Defined.
End concurrent_examples.
