(* ===== verification/OnePod.v ===== *)
(** * OnePod: the requests on a volume share one mount pod

    [DMount] chooses the mount pod of a setting under the mutex of its hash: the
    live pod of the setting on this node when there is one, else a new one.  On a
    server whose lists are complete, no interleaving of mount and unmount
    requests, on this and on other volumes, makes two live mount pods of one
    setting.  The invariant is local to the choice: once the name is chosen there
    is no live pod of the setting with another name, and as long as the mutex is
    held nobody else makes one. *)

From S2P Require Import Prelude GoStrings GoHash Objects Effects Config Rely Demo Setting Util.
From S2P Require Import K8sClient Resource Builder ApiServer PodMount RefCount PodDriver Provider Concurrent.

(** ** What a mount request makes of its setting *)

Section made.
Context {G : Globals} {X : Ext} {F : Fuel}.

Lemma NewMountPod_yields s podName :
  yields (λ r, ∃ a, r.1 = set_s_Attr (Some a) s ∧ ∀ p, r.2 = Ok p →
            pod_Name p = podName ∧ spec_NodeName (pod_Spec p) = NodeName) (NewMountPod s podName).
Proof.
  apply (yields_wp _ _ []). eapply wp_mono; [|apply NewMountPod_meta]. intros o tr [_ H] [s' [p|e]] ->.
  - destruct H as (a & -> & Hn & _ & _ & Hnode & _). exists a. split; [done|]. by intros p' [= <-].
  - destruct H as (a & ->). by exists a.
Qed.

Lemma place_pod_yields c app p :
  spec_NodeName (pod_Spec p) = NodeName →
  yields (λ p', pod_Name p' = pod_Name p ∧ pod_Labels p' = pod_Labels p) (place_pod c app p).
Proof.
  intros Hn. apply (yields_wp _ _ []). eapply wp_mono; [|by apply place_pod_ok].
  intros o tr (_ & p' & -> & _ & H1 & _ & H2 & _) q [= <-]. by split.
Qed.
End made.

Section one_pod.
Context {G : Globals} {X : Ext} {F : Fuel} {W : Type} {S : ApiServer W}.
(** the setting *)
Context (s0 : DfsSetting).

#[local] Abbreviation h0 := (GenHashOfSetting s0).
#[local] Abbreviation i0 := (GetPodLock h0).

(** A live mount pod of the setting on this node, as [GenMountPodName] looks for
    it, and that there is at most one, or none but [n]. *)
Definition serves (p : Pod) : Prop :=
  ls_MatchLabels (mount_pod_selector (set_s_HashVal h0 s0)) ⊆ pod_Labels p ∧ reusable p = true.
#[export] Instance serves_dec p : Decision (serves p).
Proof. unfold serves. apply _. Defined.
Definition serving (w : W) (n : string) : Prop :=
  ∃ p, store w !! (n, Namespace) = Some p ∧ serves p.
Definition at_most_one (w : W) : Prop := ∀ n1 n2, serving w n1 → serving w n2 → n1 = n2.
Definition none_but (n : string) (w : W) : Prop := ∀ n', serving w n' → n' = n.

(** No pod more. *)
Definition no_more (w w' : W) : Prop := ∀ n, serving w' n → serving w n.
#[local] Instance no_more_preorder : PreOrder no_more.
Proof. split; [by intros w n|]. intros w1 w2 w3 H1 H2 n H. auto. Qed.

Lemma none_but_one n w : none_but n w → at_most_one w.
Proof. intros H n1 n2 H1%H H2%H. congruence. Qed.
Lemma at_most_one_no_more w w' : at_most_one w → no_more w w' → at_most_one w'.
Proof. intros H Hn n1 n2 H1 H2. auto. Qed.
Lemma none_but_no_more n w w' : none_but n w → no_more w w' → none_but n w'.
Proof. intros H Hn n' H'. auto. Qed.

(** ** Calls that make no pod *)

Definition selector_keys : list string :=
  [config.PodTypeKey; config.PodVolumeIdLabelKey; config.PodHashLabelKey].

Definition tame_patch (b : patch) : bool :=
  metadata_patch b &&
  match b with MergeLabels m => forallb (λ k, bool_decide (m !! k = None)) selector_keys | _ => true end.

Definition tame : event_pred := λ Y e,
  match e with
  | PodCreate _ | PodUpdate _ => false
  | PodPatch _ _ b => tame_patch b
  | e => lock_free _ e
  end.

Lemma serves_patched b p p' :
  tame_patch b = true → patched_labels b (pod_Labels p) (pod_Labels p') →
  pod_DeletionTimestamp p' = pod_DeletionTimestamp p → pod_Spec p' = pod_Spec p →
  serves p' → serves p.
Proof.
  intros Hb Hl Hd Hs [H1 H2]. split; [|unfold reusable, on_this_node in *; by rewrite <-Hd, <-Hs].
  destruct Hl as [El|Hl]; [by rewrite <-El|]. destruct b as [ops|m|m]; [done| |done].
  cbn in Hb. rewrite !andb_true_iff, !bool_decide_eq_true in Hb. destruct Hb as (B1 & B2 & B3 & _).
  rewrite Hl in H1. apply map_subseteq_spec. intros k v Hk. pose proof Hk as Hk'.
  eapply lookup_weaken in Hk'; [|exact H1].
  assert (m !! k = None) as Hm.
  { cbn in Hk. do 2 (apply lookup_insert_Some in Hk as [[<- _]|[_ Hk]]; [done|]).
    by apply lookup_singleton_Some in Hk as [<- _]. }
  by rewrite lookup_union_r in Hk'.
Qed.

Lemma tame_no_more Y (e : event Y) w : tame Y e = true → no_more w (serve e w).2.
Proof.
  intros He n (p & Hp & Hs). destruct (decide (pod_written e = Some (n, Namespace))) as [Ew|Ew].
  2: { exists p. split; [|done]. by rewrite serve_frame in Hp. }
  destruct e; try discriminate He; cbn in Ew; try discriminate Ew; injection Ew as -> ->; cbn in He.
  - destruct (serve_patch _ _ _ _ _ (proj1 (andb_prop _ _ He)) Hp) as (q & Hq & Hl & Hd & Hsp).
    exists q. split; [done|]. by eapply serves_patched.
  - destruct (store w !! (n, Namespace)) as [q|] eqn:Eq.
    2: { by rewrite serve_delete_none in Hp. }
    destruct (serve_delete _ _ _ _ Eq) as (w' & q' & E & Hd & Hst). rewrite E in Hp. cbn in Hp.
    rewrite Hst, lookup_partial_alter_eq in Hp. subst q'. unfold deleted_to in Hd.
    case_decide; [done|]. destruct Hd as (t & [= ->] & _). destruct Hs as [_ Hs]. done.
Qed.

(** Programs of such calls. *)
#[local] Abbreviation quiet_as G P := (idle (@serve W S) G (λ _ (_ : unit), True) P).
#[local] Abbreviation quiet G := (quiet_as G (λ _, True)).

(** ** The parts of the requests *)

Lemma spares_tame {B} (p : prog B) : within spares p → within tame p.
Proof.
  apply within_mono. intros Y e. unfold spares, tame. by destruct e.
Qed.

Lemma add_ref_tame c t name : within tame (add_ref c t name).
Proof. unfold add_ref, ReplacePodAnnotation. within_run. Qed.
Lemma AddRefOfMount_tame c t name : within tame (AddRefOfMount c t name).
Proof. apply within_RetryOnConflict; [done|apply add_ref_tame]. Qed.

Lemma UmountTarget_tame c t name : within tame (UmountTarget c t name).
Proof.
  unfold UmountTarget, umount_until_gone. within_run.
  apply within_RetryOnConflict; [done|]. unfold del_ref, DelPodAnnotation. within_run.
Qed.

Lemma release_target_tame c t name : within tame (release_target c t name).
Proof.
  unfold release_target. apply within_bind; [apply UmountTarget_tame|]. intros [e|]; [done|].
  case_decide; [done|]. unfold GetMountRef. within_run. apply within_RetryOnConflict; [done|].
  unfold dumount, ShouldDelay, AddPodAnnotation, GetTimeAfterDelay, last_n. within_run.
Qed.

Lemma GenMountPodName_tame s : within tame (GenMountPodName s).
Proof.
  unfold GenMountPodName, GenPodNameByUniqueId, ListPod. within_run.
  apply spares_tame, RandStringRunes_spares.
Qed.
Lemma label_app_tame app : within tame (label_app app).
Proof. unfold label_app, SetMountLabel, AddPodLabel. within_run. Qed.

(** ** Making the mount pod *)

Section guarantee.
(** what the calls guarantee, the creation of the pod [name] included *)
Context (Gu : relation W) (Hgu : ∀ w w', no_more w w' → Gu w w').
Context (name : string) (s : DfsSetting).
Context (Hcreate : ∀ p w, pod_Name p = name → 7 ≤ len name →
  pod_Labels p !! config.PodHashLabelKey = Some (s_HashVal s) → Gu w (serve (PodCreate p) w).2).

Lemma quiet_within {B} (p : prog B) : within tame p → quiet Gu p.
Proof.
  apply idle_within_any. intros Y e He. split.
  - destruct e; try done; by apply lock_free_mutex.
  - intros w [] _. by apply Hgu, tame_no_more.
Qed.
Lemma quiet_spares {B} (p : prog B) : within spares p → quiet Gu p.
Proof. intros Hp. by apply quiet_within, spares_tame. Qed.

Lemma quiet_bind {B C} (p : prog B) (f : B → prog C) :
  quiet Gu p → (∀ b, quiet Gu (f b)) → quiet Gu (bind p f).
Proof. intros Hp Hf. apply idle_bind. eapply idle_mono; [|exact Hp]. auto. Qed.
Lemma quiet_yields {B C} (P : B → Prop) (p : prog B) (f : B → prog C) :
  yields P p → quiet Gu p → (∀ b, P b → quiet Gu (f b)) → quiet Gu (bind p f).
Proof.
  intros HP Hp Hf. apply idle_bind. eapply idle_mono; [|by apply idle_yields].
  intros b [_ Hb]. by apply Hf.
Qed.

Lemma CreatePod_quiet p :
  pod_Name p = name → 7 ≤ len name → pod_Labels p !! config.PodHashLabelKey = Some (s_HashVal s) →
  quiet Gu (CreatePod (Some p)).
Proof.
  intros Hn Hlen Hh. unfold CreatePod. split; [done|]. intros w [] _. split; [by apply Hcreate|].
  cbn [bind]. destruct (serve (PodCreate p) w).1 as [q|e]; [|done].
  apply quiet_spares, after_create_spares.
Qed.

Lemma create_mount_pod_quiet c app secret s1 :
  s_HashVal s1 = s_HashVal s → 7 ≤ len name → quiet Gu (create_mount_pod c name app secret s1).
Proof.
  intros Hs Hlen. unfold create_mount_pod.
  eapply quiet_yields; [apply NewMountPod_yields|apply quiet_spares, NewMountPod_spares|].
  intros [s' [p|e]] (a & Ea & Hp); cbn [fst] in Ea; subst s'; [|done].
  destruct (Hp p eq_refl) as [Hn Hnode].
  apply quiet_bind; [apply quiet_spares; unfold last_n; within_run|]. intros uid.
  eapply quiet_yields; [by apply place_pod_yields|apply quiet_spares; unfold place_pod; within_run|].
  intros p' [Hn' Hl']. apply quiet_bind; [apply quiet_spares, CreateOrUpdateSecret_spares|].
  intros [e|]; [done|]. apply quiet_bind; [|done]. apply CreatePod_quiet; [by rewrite Hn'|done|].
  rewrite Hl', <-Hs. cbn. by rewrite lookup_insert_ne, lookup_insert_eq.
Qed.

Lemma createPodOrAddRef_quiet c app : quiet Gu (createPodOrAddRef c name s app).
Proof.
  unfold createPodOrAddRef, last_n. case_decide as Hlen; [|done]. cbn [bind]. cbv zeta.
  apply quiet_bind; [apply quiet_spares, prepare_dir_spares|]. intros [e|]; [done|].
  apply idle_loop. intros _. eapply idle_mono; [by intros [?|?]|].
  apply quiet_bind; [apply quiet_within; unfold GetPod; within_run|]. intros [p|e].
  - case_decide; [apply quiet_within; within_run|].
    apply quiet_bind; [apply quiet_spares, CreateOrUpdateSecret_spares|]. intros [e|]; [done|].
    apply quiet_bind; [apply quiet_within, AddRefOfMount_tame|done].
  - destruct (IsNotFound e); [|by destruct (IsTimeout e)]. apply quiet_bind; [|done].
    by apply create_mount_pod_quiet.
Qed.

(** What [mount_locked] does once the name is chosen. *)
Lemma mount_rest_quiet c app :
  quiet Gu (e <- label_app app ;;
    match e with
    | Some e => Ret (s, Err e)
    | None =>
        r <- createPodOrAddRef c name s app ;;
        Ret (r.1, match r.2 with Some e => Err e | None => Ok name end)
    end).
Proof.
  apply quiet_bind; [apply quiet_within, label_app_tame|]. intros [e|]; [done|].
  apply quiet_bind; [apply createPodOrAddRef_quiet|done].
Qed.
End guarantee.

(** Creating the pod of the chosen name, and a pod of another hash. *)
Lemma create_none_but p w : none_but (pod_Name p) w → none_but (pod_Name p) (serve (PodCreate p) w).2.
Proof.
  intros Hw n (q & Hq & Hs). destruct (decide (n = pod_Name p)) as [|Hn]; [done|]. apply Hw.
  exists q. split; [|done]. rewrite serve_frame in Hq; [done|]. cbn [pod_written]. congruence.
Qed.

Lemma create_other p w hv :
  7 ≤ len (pod_Name p) → pod_Labels p !! config.PodHashLabelKey = Some hv → hv ≠ h0 →
  no_more w (serve (PodCreate p) w).2.
Proof.
  intros Hlen Hh Hne n (q & Hq & Hs).
  destruct (store w !! (pod_Name p, pod_Namespace p)) as [q0|] eqn:Eq.
  { exists q. split; [|done]. by rewrite serve_create_taken in Hq by (by eexists). }
  destruct (serve_create p w) as (p' & w' & E & (_ & _ & Hl & _) & Hst); [|done|].
  { intros En. rewrite En in Hlen. cbn in Hlen. lia. }
  rewrite E in Hq. cbn in Hq. rewrite Hst in Hq. apply lookup_insert_Some in Hq as [[_ <-]|[_ Hq]].
  - destruct Hs as [Hs _]. destruct Hne. apply (inj Some). rewrite <-Hh, <-Hl.
    eapply lookup_weaken; [|exact Hs]. unfold mount_pod_selector. cbn [ls_MatchLabels].
    by rewrite !lookup_insert_ne, lookup_singleton_eq.
  - by exists q.
Qed.

(** ** The choice of the name *)

Context (Hcache : enableAPIServerListCache = false).

#[local] Abbreviation alone p w Q := (rwp (@serve W S) no_more at_most_one p w Q).
#[local] Abbreviation same_volume s := (s_HashVal s = h0 ∧ s_UniqueId s = s_UniqueId s0).

Lemma serves_selected s p :
  same_volume s → serves p ↔ selected (Some (mount_pod_selector s)) p ∧ reusable p = true.
Proof.
  intros [Hh Hu]. unfold serves, selected. replace (mount_pod_selector (set_s_HashVal h0 s0))
    with (mount_pod_selector s) by (unfold mount_pod_selector; cbn; by rewrite Hh, Hu).
  split; intros [H1 H2]; (split; [|done]); [by intros ? [= <-]|by apply H1].
Qed.

(** The list shows every pod of the setting: either one of them is chosen, or
    there is none. *)
Lemma list_choice s w pods :
  same_volume s → at_most_one w →
  (serve (PodList Namespace (Some (mount_pod_selector s)) None false) w).1 = Ok pods →
  match list_find (λ p, reusable p = true) pods with
  | Some (_, p) => none_but (pod_Name p) w
  | None => ∀ n, none_but n w
  end.
Proof.
  intros Hs Hw Hl. destruct (list_find _ pods) as [[j p]|] eqn:Ef.
  - apply list_find_Some in Ef as (Hj & Hp & _). apply list_elem_of_lookup_2 in Hj.
    destruct (serve_list _ _ _ _ _ _ Hl Hj) as [Hst Hsel]. intros n Hn. apply Hw; [done|].
    exists p. split; [done|]. by apply (serves_selected s).
  - intros n n' (p & Hp & [Hsel Hre]%(serves_selected s)); [|done]. exfalso.
    apply list_find_None in Ef. rewrite Forall_forall in Ef. apply (Ef p); [|done].
    by eapply serve_list_all.
Qed.

Lemma alone_tame {B} (J : W → Prop) (p : prog B) w :
  within tame p → J w → (∀ w w', J w → no_more w w' → J w') → (∀ w, J w → at_most_one w) →
  alone p w (λ _ w', J w').
Proof.
  intros Hp Hw HJ H1. eapply rwp_mono; [|apply (rwp_guarantee _ _ no_more J _ (λ _, True))];
    [by intros o w' [H _]|by apply quiet_within|done..].
Qed.

Lemma GenMountPodName_chooses s w :
  same_volume s → at_most_one w →
  alone (GenMountPodName s) w (λ o w',
    match o with Done (Ok name) => none_but name w' | _ => at_most_one w' end).
Proof.
  intros Hs Hw. unfold GenMountPodName, ListPod. rewrite Hcache. apply rwp_call. intros w1 H1.
  assert (at_most_one w1) as Hw1 by (by eapply at_most_one_no_more). split; [done|].
  intros r w2 E.
  assert (no_more w1 w2) as H2.
  { replace w2 with (serve (PodList Namespace (Some (mount_pod_selector s)) None false) w1).2
      by (by rewrite E). by apply tame_no_more. }
  destruct r as [pods|e].
  2: { intros w' H'. assert (at_most_one w') by (do 2 (eapply at_most_one_no_more; [|eassumption]); done).
       done. }
  pose proof (list_choice s w1 pods Hs Hw1) as Hc. rewrite E in Hc. specialize (Hc eq_refl).
  destruct (list_find _ pods) as [[j p]|].
  - intros w' H'. assert (none_but (pod_Name p) w') by (do 2 (eapply none_but_no_more; [|eassumption]); done).
    split; [by eapply none_but_one|done].
  - eapply rwp_mono; [|apply (alone_tame (λ w, ∀ n, none_but n w))].
    + intros [[name|e]|m|] w' Hn; [done|..]; by apply (none_but_one "").
    + unfold GenPodNameByUniqueId. within_run. apply spares_tame, RandStringRunes_spares.
    + intros n. by eapply none_but_no_more.
    + intros w3 w4 Hn H' n. by apply (none_but_no_more n w3).
    + intros w3 Hn. by apply (none_but_one "").
Qed.

(** ** The requests *)

Lemma mount_locked_alone c app s w :
  same_volume s → at_most_one w → alone (mount_locked c app s) w (λ _ w', at_most_one w').
Proof.
  intros Hs Hw. unfold mount_locked. apply rwp_bind; [apply _|].
  eapply rwp_mono; [|by apply GenMountPodName_chooses]. intros [[name|e]|m|] w' Hn; [|intros w2 H2; assert (at_most_one w2) by (by eapply at_most_one_no_more)|..];
    [|done..].
  set (Gu := λ w w', none_but name w → none_but name w').
  eapply rwp_mono; [|apply (rwp_guarantee _ _ Gu (none_but name) _ (λ _, True))].
  - intros o w2 [H _]. by eapply none_but_one.
  - apply (mount_rest_quiet Gu).
    + intros w1 w2 H12 H. by eapply none_but_no_more.
    + intros p w1 <- _ _ H. by apply create_none_but.
  - intros w1 w2. apply none_but_no_more.
  - intros w1 w2 H1 H2. by apply H2.
  - intros w1. apply none_but_one.
  - done.
Qed.

Lemma mount_locked_elsewhere c app s :
  s_HashVal s ≠ h0 → quiet no_more (mount_locked c app s).
Proof.
  intros Hs. unfold mount_locked. apply quiet_bind; [apply quiet_within; [done|apply GenMountPodName_tame]|].
  intros [name|e]; [|done]. apply (mount_rest_quiet no_more); [done|].
  intros p w <- Hlen Hh. by eapply create_other.
Qed.

(** Two settings with one hash are of one volume. *)
Definition hash_apart (r : mount_req) : Prop :=
  match r with
  | MountReq _ _ s => GenHashOfSetting s = h0 → s_UniqueId s = s_UniqueId s0
  | UnmountReq _ _ _ => True
  end.

(** The contract: no operation, and at most one pod all the time. *)
Definition one_spec (A : Type) : tspec unit unit A :=
  MkSpec (λ _ _, True) (λ d, d = []) (λ _ d, d = []).
#[local] Abbreviation single := (λ w (_ : unit), at_most_one w).
#[local] Abbreviation safe p w :=
  (tsafe (@serve W S) no_more (λ _ l, (l, true)) single i0 (one_spec _) [] None p w).

Lemma single_rely w w' l : single w l → no_more w w' → single w' l.
Proof. apply at_most_one_no_more. Qed.

Lemma quiet_single {B} (P : B → Prop) (p : prog B) :
  quiet no_more p → (∀ b, P b) → idle (@serve W S) no_more single P p.
Proof.
  intros Hp HP. eapply idle_mono; [|eapply idle_weaken; [|exact Hp]]; [by intros b _|].
  intros w l _. by exists tt.
Qed.

Lemma safe_tame {B} (p : prog B) w : within tame p → safe p w.
Proof. intros Hp. apply tsafe_idle, quiet_single; [by apply quiet_within|done]. Qed.

Lemma safe_section {B} j (p : prog B) w :
  within lock_free p → quiet no_more p → safe (with_mutex j p) w.
Proof.
  intros Hl Hp. apply tsafe_no_op; [apply single_rely|done..|]. by apply quiet_single.
Qed.

Lemma safe_bind {B C} (p : prog B) (f : B → prog C) w :
  safe p w → (∀ b w, safe (f b) w) → safe (bind p f) w.
Proof.
  intros Hp Hf. apply tsafe_bind; [apply _|]. eapply tsafe_post; [| | |exact Hp]; [done..|].
  intros b d -> w'. apply Hf.
Qed.

Lemma mount_section_safe c app s w :
  hash_apart (MountReq c app s) →
  safe (with_mutex (GetPodLock (GenHashOfSetting s))
          (mount_locked c app (set_s_HashVal (GenHashOfSetting s) s))) w.
Proof.
  intros Hs. destruct (decide (GenHashOfSetting s = h0)) as [Hh|Hh].
  - rewrite Hh at 1. apply tsafe_critical; [apply mount_locked_lock_free|]. intros w1 [] H1.
    eapply rwp_inv_mono; [|eapply rwp_mono; [|apply mount_locked_alone]]; [by exists tt| |by auto|done].
    intros [r|m|] w2 H2; [| |done]; by exists [], tt.
  - apply safe_section; [apply mount_locked_lock_free|]. by apply mount_locked_elsewhere.
Qed.

Lemma DMount_single c app s w : hash_apart (MountReq c app s) → safe (DMount c app s) w.
Proof.
  intros Hs. unfold DMount. cbv zeta. apply safe_bind; [by apply mount_section_safe|].
  intros [s' [name|e]] w'; [|done]. apply safe_tame.
  apply within_bind; [apply spares_tame, waitUtilMountReady_spares|done].
Qed.

Lemma DfsUnmount_single c v t w : safe (DfsUnmount c v t) w.
Proof.
  unfold DfsUnmount, getUniqueId, GenPodNameByUniqueId. cbn [bind].
  apply safe_bind; [apply safe_tame; unfold GetPod; within_run|]. intros pod w1. case_match; [done|].
  apply safe_bind; [apply safe_tame; unfold ListPod; within_run|]. intros [pods|e] w2; [|done].
  destruct (find_mount_pod _ _) as [p|]; [|apply safe_tame, release_target_tame].
  cbv zeta. case_decide; [done|]. apply safe_section; [apply release_target_lock_free|].
  apply quiet_within; [done|apply release_target_tame].
Qed.

Lemma serve_mount_single r w : hash_apart r → safe (serve_mount r) w.
Proof.
  intros Hr. destruct r as [c app s|c v t]; cbn [serve_mount];
    (apply safe_bind; [|done]); [by apply DMount_single|apply DfsUnmount_single].
Qed.

Lemma requests_single reqs w0 acts st :
  at_most_one w0 → Forall hash_apart reqs →
  conc_acts (@serve W S) (MkConc w0 ∅ (serve_mount <$> reqs)) acts st → at_most_one (c_world st).
Proof.
  intros Hw Hreqs Hr.
  destruct (conc_refines (@serve W S) no_more (λ _ l, (l, true)) single i0 single_rely
    ((λ _, one_spec _) <$> reqs) (serve_mount <$> reqs) w0 tt acts st Hw) as (log & [] & _ & _ & H & _);
    [|done|by destruct H as [H|(? & ? & ? & _ & _ & H & _)]].
  apply Forall2_fmap, Forall_Forall2_diag. eapply Forall_impl; [exact Hreqs|]. intros r Hok.
  split; [done|]. intros w. by apply serve_mount_single.
Qed.
End one_pod.

(** C3: The requests on a volume share one mount pod.  The conditions: the API
    server is healthy, so that an uncached list has every pod; the driver lists
    the pods uncached (with ENABLE_APISERVER_LIST_CACHE, when a list may be stale,
    nothing is claimed); and a setting whose hash is that of [s0] has its unique id
    too ([hash_apart]).  Then from a state with at most one live mount pod of the
    setting [s0] on this node, every state that any interleaving of [DMount] and
    [DfsUnmount] requests reaches, on this and on other settings, has at most
    one. *)
Theorem one_mount_pod {G : Globals} {X : Ext} {F : Fuel} {W : Type} {S : ApiServer W} s0 reqs w0 st :
  enableAPIServerListCache = false →
  at_most_one s0 w0 → Forall (hash_apart s0) reqs →
  rtc (conc_step (@serve W S)) (MkConc w0 ∅ (serve_mount <$> reqs)) st →
  at_most_one s0 (c_world st).
Proof.
  intros Hc Hw Hreqs [acts Hr]%steps_acts. by apply (requests_single s0 Hc reqs w0 acts st).
Qed.

(** ** Examples *)

Section one_pod_examples.
#[local] Existing Instances demo_globals demo_ext.
#[local] Instance one_fuel : Fuel := 5.

(** Two mounts of a volume without a mount pod, in turns. *)
Definition both_reqs : list mount_req :=
  [MountReq Background None (demo_shared "/t1"); MountReq Background None (demo_shared "/t2")].
Definition both_end : conc := conc_run (@serve memory memory_server)
  (concat (replicate 40 [0; 1])) (MkConc (MkMemory ∅ ∅) ∅ (serve_mount <$> both_reqs)).

(** The first makes the pod, the second waits for the mutex and adds its target. *)
Lemma both_end_state :
  (λ kp, (kp.1, elements (ref_keys kp.2))) <$> map_to_list (mem_pods (c_world both_end))
  = [(("dingofs-node1-pvc-1-aaaaaa", "dingofs"),
      elements ({[ GetReferenceKey "/t1"; GetReferenceKey "/t2" ]} : gset string))].
Proof. vm_compute. reflexivity. Qed.

Lemma one_mount_pod_witness :
  at_most_one (S := memory_server) (demo_shared "/t1") (c_world both_end).
Proof.
  apply (one_mount_pod (G := demo_globals) (S := memory_server) (demo_shared "/t1") both_reqs
    (MkMemory ∅ ∅) _ eq_refl).
  - intros n1 n2 (p & Hp & _). change (mem_store (MkMemory ∅ ∅) !! (n1, Namespace) = Some p) in Hp.
    apply mem_store_Some in Hp as [[Hp _] _]. cbn [mem_pods] in Hp. by apply lookup_empty_Some in Hp.
  - apply Forall_cons. split; [intros _; reflexivity|]. apply Forall_singleton. intros _. reflexivity.
  - apply conc_run_reachable.
Defined.

(** Recovery is not such a request.  The mount pod of the volume is being deleted
    with a target recorded; a mount of another target passes it over and makes a
    new pod; [podDeletedHandler], which only looks whether the deleted pod is gone,
    makes it again, and the volume has two live mount pods on the node. *)
Definition ended_pod : Pod :=
  upd_spec (set_spec_Containers
      [set_cn_Command ["sh"; "-c"; "dingo-fuse /dfs/pvc-1-abcdef"] empty_container])
    (set_pod_DeletionTimestamp (Some 0%Z) demo_mount_pod).
Definition ended_memory : memory :=
  MkMemory {[ ("dingofs-node1-pvc-1-abcdef", "dingofs") := ended_pod ]} ∅.
Definition mounted_meanwhile : memory :=
  (interp mem_serve (serve_mount (MountReq Background None (demo_shared "/t2"))) ended_memory).2.
Definition recovered : memory :=
  (interp mem_serve (podDeletedHandler Background ended_pod) mounted_meanwhile).2.

Lemma recovery_second_pod : ¬ at_most_one (S := memory_server) (demo_shared "/t1") recovered.
Proof.
  assert ((λ p, bool_decide (serves (demo_shared "/t1") p)) <$>
            mem_store recovered !! ("dingofs-node1-pvc-1-aaaaaa", "dingofs") = Some true) as H1
    by (vm_compute; reflexivity).
  assert ((λ p, bool_decide (serves (demo_shared "/t1") p)) <$>
            mem_store recovered !! ("dingofs-node1-pvc-1-abcdef", "dingofs") = Some true) as H2
    by (vm_compute; reflexivity).
  apply fmap_Some in H1 as (p1 & E1 & Hp1). apply fmap_Some in H2 as (p2 & E2 & Hp2).
  symmetry in Hp1, Hp2. apply bool_decide_eq_true in Hp1, Hp2. intros H.
  assert ("dingofs-node1-pvc-1-aaaaaa" = "dingofs-node1-pvc-1-abcdef") as E; [|discriminate E].
  apply H; [exists p1|exists p2]; by split.
Qed.
End one_pod_examples.
