(* ===== verification/Controllers.v ===== *)
(** * Controllers: the controllers that watch the API server

    [src/pkg/controller/mount_controller.go], [job_controller.go],
    [pod_controller.go], [app_controller.go] and [secret_controller.go].  A
    controller is the filter its watch applies to the events of an object
    (creation, update, deletion) and the reconciliation of one object.  The
    event filters of the source first turn an interface value into the object;
    here they take the object. *)

From S2P Require Import Prelude GoStrings GoTime GoNum Objects Effects Config Demo Security Setting.
From S2P Require Import Util FsTool K8sClient Resource Builder ApiServer PodMount MountInfo PodDriver Provider.

(** [reconcile.Result]. *)
Record reconcile_Result := MkReconcile { rr_Requeue : bool; rr_RequeueAfter : Z }.
Definition no_result : reconcile_Result := MkReconcile false 0.
Definition reply : Type := reconcile_Result * option error.
Definition done_with (e : option error) : prog reply := Ret (no_result, e).

(** The head of every [Reconcile]: an object that is gone needs nothing, another
    error of the lookup is returned. *)
Definition on_object {A} (get : prog (result A)) (k : A → prog reply) : prog reply :=
  r <- get ;;
  match r with
  | Ok a => k a
  | Err e => done_with (if IsNotFound e then None else Some e)
  end.

Section csi_node.
Context `{G : !Globals}.

(** The pods of the CSI node service on a node. *)
Definition csi_node_pods (nodeName : string) : prog (result (list Pod)) :=
  ListPod Namespace
    (Some {| ls_MatchLabels := {[ config.CSINodeLabelKey := config.CSINodeLabelValue ]};
             ls_MatchExpressions := [] |})
    (Some {[ "spec.nodeName" := nodeName ]}).

End csi_node.

(** ** Mount pods of nodes without a driver *)

Module MountController.
Section mount.
Context `{G : !Globals}.

(** [CreateFunc], and [DeleteFunc], which asks the same. *)
Definition watch (pod : Pod) : bool :=
  match pod_DeletionTimestamp pod with
  | None => false
  | Some _ => ContainsString (pod_Finalizers pod) config.Finalizer
  end.
Definition watch_delete (pod : Pod) : bool := watch pod.
(** [UpdateFunc]; the flag is whether the resource version is unchanged. *)
Definition watch_update (sameVersion : bool) (podNew : Pod) : bool :=
  if sameVersion then false else watch podNew.

Definition reconcile (mountPod : Pod) : prog reply :=
  match pod_DeletionTimestamp mountPod with
  | None => done_with None
  | Some _ =>
      if negb (ContainsString (pod_Finalizers mountPod) config.Finalizer) then done_with None
      else
        csiPods <- csi_node_pods (spec_NodeName (pod_Spec mountPod)) ;;
        match csiPods with
        | Err e => done_with (Some e)
        | Ok (_ :: _) => done_with None
        | Ok [] => e <- RemoveFinalizer mountPod config.Finalizer ;; done_with e
        end
  end.

Definition Reconcile (name ns : string) : prog reply :=
  on_object (GetPod Request name ns) reconcile.
End mount.
End MountController.

(** ** Jobs that were not recycled *)

Module JobController.
Section job.
Context `{G : !Globals}.
Definition watch (job : Job) : bool :=
  match job_DeletionTimestamp job with Some _ => false | None => true end.
Definition watch_delete (job : Job) : bool := watch job.
Definition watch_update (sameVersion : bool) (jobNew : Job) : bool :=
  if sameVersion then false else watch jobNew.

Definition reconcile (job : Job) : prog reply :=
  match job_DeletionTimestamp job with
  | Some _ => done_with None
  | None =>
      let nodeName := spec_NodeName (job_Template job) in
      if decide (nodeName = "") then
        recycle <- IsJobShouldBeRecycled job ;;
        if recycle : bool
        then e <- DeleteJob (job_Name job) (job_Namespace job) ;; done_with e
        else done_with None
      else
        csiPods <- csi_node_pods nodeName ;;
        match csiPods with
        | Err e => done_with (Some e)
        | Ok csiPods =>
            recycle <- match csiPods with
                       | [] => Ret true
                       | _ :: _ => IsJobShouldBeRecycled job
                       end ;;
            if recycle : bool then
              e <- DeleteJob (job_Name job) (job_Namespace job) ;;
              match e with
              | Some e => Ret (MkReconcile true 0, Some e)
              | None => done_with None
              end
            else done_with None
        end
  end.

Definition Reconcile (name ns : string) : prog reply :=
  on_object (GetJob Request name ns) reconcile.
End job.
End JobController.

(** ** Mount pods of this node *)

Module PodController.
Section pod.
Context `{G : !Globals} `{X : !Ext} `{F : !Fuel}.

(** Whether a pod is bound to the node of the driver, or meant for it. *)
Definition on_node (pod : Pod) : bool :=
  bool_decide (spec_NodeName (pod_Spec pod) = NodeName)
  || bool_decide (m_get (spec_NodeSelector (pod_Spec pod)) hostname_label = NodeName).
Definition watch (pod : Pod) : bool := on_node pod.
Definition watch_delete (pod : Pod) : bool := on_node pod.
Definition watch_update (sameVersion : bool) (podNew : Pod) : bool :=
  if negb (on_node podNew) then false else negb sameVersion.

(** When a pod is looked at again. *)
Definition requeue (now : Z) (annotations : smap) (r : Result) : reply :=
  let delayAtStr := m_get annotations config.DeleteDelayAtKey in
  if decide (delayAtStr ≠ "") then
    match GetTime delayAtStr with
    | Err e => (no_result, Some e)
    | Ok delayAt =>
        (MkReconcile true (if (delayAt <? now)%Z then 0 else time_Sub delayAt now), None)
    end
  else (MkReconcile true (if RequeueImmediately r then RequeueAfter r else 10 * Minute), None).

Definition reconcile (c : ctx) (mountPod : Pod) : prog reply :=
  if negb (on_node mountPod) then done_with None
  else
    mit <- parse newMountInfoTable ;;
    match mit with
    | Err e => done_with (Some e)
    | Ok mit =>
        podLists <- ListPod ""
          (Some {| ls_MatchLabels := ∅; ls_MatchExpressions := [config.UniqueId] |})
          (Some {[ "spec.nodeName" := NodeName ]}) ;;
        match podLists with
        | Err e => done_with (Some e)
        | Ok podLists =>
            result <- Run c (setPodsStatus mit (Some podLists)) (Some mountPod) ;;
            match result with
            | Err e => done_with (Some e)
            | Ok result =>
                let delayAtStr := m_get (annotations mountPod) config.DeleteDelayAtKey in
                now <- (if decide (delayAtStr ≠ "")
                        then if is_ok (GetTime delayAtStr) then call Now else Ret 0%Z
                        else Ret 0%Z) ;;
                Ret (requeue now (annotations mountPod) result)
            end
        end
    end.

Definition Reconcile (name ns : string) : prog reply :=
  let c := WithTimeout Request ReconcileTimeout in
  on_object (GetPod c name ns) (reconcile c).
End pod.
End PodController.

(** ** Application pods with a mount sidecar *)

Module AppController.
Section app.
Context `{G : !Globals}.
Definition is_fuse (name : string) : bool := Contains name config.MountContainerName.

(** The test of one container status: an application container has exited, the
    mount container is running. *)
Definition status_wanted (cs : ContainerStatus) : bool :=
  if is_fuse (cs_Name cs) then cs_Running cs
  else bool_decide (cs_Terminated cs ≠ None).

Definition ShouldInQueue (pod : option Pod) : bool :=
  match pod with
  | None => false
  | Some pod =>
      if CheckExpectValue (pod_Labels pod) config.InjectSidecarDisable config.True then false
      else if decide (spec_RestartPolicy (pod_Spec pod) = "Always") then false
      else if negb (existsb (λ cn, is_fuse (cn_Name cn)) (spec_Containers (pod_Spec pod)))
      then false
      else
        let statuses := ps_ContainerStatuses (pod_Status pod) in
        if decide (ps_Phase (pod_Status pod) ≠ "Running" ∨ length statuses < 2) then false
        else forallb status_wanted statuses
  end.

Definition watch_create (pod : Pod) : bool := ShouldInQueue (Some pod).
Definition watch_update (sameVersion : bool) (podNew : Pod) : bool :=
  if sameVersion then false else ShouldInQueue (Some podNew).
Definition watch_delete (pod : Pod) : bool := false.

(** The last time an application container finished. *)
Definition exited_time (statuses : list ContainerStatus) : Z :=
  foldl (λ t cs,
    if is_fuse (cs_Name cs) then t
    else match cs_Terminated cs with
         | Some _ => if (t <? cs_FinishedAt cs)%Z then cs_FinishedAt cs else t
         | None => t
         end) zero_time statuses.

Definition umountFuseSidecar (pod : Pod) (fuseContainer : Container) : prog (option error) :=
  if decide (cn_Name fuseContainer = "") then Ret None
  else
    match cn_Lifecycle fuseContainer ≫= lc_PreStop with
    | None => Ret None
    | Some cmd =>
        r <- ExecuteInContainer (pod_Name pod) (pod_Namespace pod) (cn_Name fuseContainer) cmd ;;
        let '(_, stderr, err) := r in
        match err with
        | None => Ret None
        | Some e =>
            if not_mounted_output stderr then Ret None
            else if Contains (error_text e) "exit code 137" then Ret None
            else Ret (Some e)
        end
    end.

Definition killFuseProcess (pod : Pod) (fuseContainer : Container) : prog (option error) :=
  if decide (cn_Name fuseContainer = "") then Ret None
  else
    r <- ExecuteInContainer (pod_Name pod) (pod_Namespace pod) (cn_Name fuseContainer)
           ["sh"; "-c"; "pkill dingo-fuse"] ;;
    Ret r.2.

(** [umountFuseSidecars] and [killFuseProcesss]: up to the first error. *)
Definition for_fuse (pod : Pod) (f : Pod → Container → prog (option error))
    : prog (option error) :=
  for_each (spec_Containers (pod_Spec pod))
    (λ cn, if is_fuse (cn_Name cn)
           then e <- f pod cn ;; Ret match e with Some e => Some (Some e) | None => None end
           else Ret None)
    (Ret None).
Definition umountFuseSidecars (pod : Pod) : prog (option error) := for_fuse pod umountFuseSidecar.
Definition killFuseProcesss (pod : Pod) : prog (option error) := for_fuse pod killFuseProcess.

Definition reconcile (pod : Pod) : prog reply :=
  if negb (ShouldInQueue (Some pod)) then done_with None
  else
    let t := exited_time (ps_ContainerStatuses (pod_Status pod)) in
    kill <- (if decide (t = zero_time) then Ret false
             else now <- call Now ;; Ret (5 * Minute <? time_Sub now t)%Z) ;;
    if kill : bool then e <- killFuseProcesss pod ;; done_with e
    else
      e <- umountFuseSidecars pod ;;
      match e with
      | Some e => done_with (Some e)
      | None => Ret (MkReconcile false (5 * Minute), None)
      end.

Definition Reconcile (name ns : string) : prog reply :=
  on_object (GetPod Request name ns) reconcile.
End app.
End AppController.

(** ** Secrets of volumes *)

Module SecretController.
Section secret.
Context `{G : !Globals} `{X : !Ext} `{F : !Fuel}.
Definition watch_create (s : Secret) : bool := true.
Definition watch_update (sameVersion : bool) (secretNew : Secret) : bool := negb sameVersion.
Definition watch_delete (s : Secret) : bool := false.

(** The data of a secret; an absent key reads as nil. *)
Definition data (s : Secret) : smap := nil_map (sec_Data s).

Definition secret_suffix : string := "-secret".

(** The conditions on the secret itself: one of an old driver, for a mount pod,
    that has no label. *)
Definition old_pod_secret (s : Secret) : bool :=
  bool_decide (sec_Namespace s = Namespace)
  && bool_decide (sec_Labels s !! config.DingofsSecretLabelKey = None)
  && HasPrefix (sec_Name s) "dingofs-" && HasSuffix (sec_Name s) secret_suffix
  && bool_decide (¬ (data s !! "token" = None ∧ data s !! "metaurl" = None)).

Definition checkAndCleanOrphanSecret (s : Secret) : prog (option error) :=
  if negb (old_pod_secret s) then Ret None
  else
    now <- call Now ;;
    if negb (sec_CreationTimestamp s + Hour <? now)%Z then Ret None
    else if decide (data s !! "check_mount.sh" = None) then Ret None
    else
      let podName := TrimSuffix (sec_Name s) secret_suffix in
      r <- GetPod Request podName (sec_Namespace s) ;;
      if on_err IsNotFound (result_err r)
      then DeleteSecret (sec_Name s) (sec_Namespace s)
      else Ret None.

(** [os.MkdirTemp(os.TempDir(), pattern)]. *)
Definition os_MkdirTemp (pattern : string) : prog (result string) :=
  dir <- call (Getenv "TMPDIR") ;;
  call (MkdirTemp (if decide (dir = "") then "/tmp" else dir) pattern).

(** The configuration is generated in a temporary directory and written back. *)
Definition inject_config (s : Secret) (secretsMap : smap) (dfsSetting : DfsSetting)
    (tempConfDir : string) : prog reply :=
  let dfsSetting := set_s_ClientConfPath tempConfDir dfsSetting in
  output <- AuthFs Request (Some secretsMap) dfsSetting true ;;
  match output.2 with
  | Err e => done_with (Some e)
  | Ok _ =>
      let confPath := path_Join [s_ClientConfPath dfsSetting; s_Name dfsSetting +:+ ".conf"] in
      b <- call (ReadFile confPath) ;;
      match b with
      | Err e => done_with (Some e)
      | Ok confs =>
          let secretsMap := <["initconfig" := confs]> (nil_map output.1) in
          e <- UpdateSecret (Some (set_sec_StringData secretsMap s)) ;;
          match e with
          | Some e => done_with (Some e)
          | None => Ret (MkReconcile true SecretReconcilerInterval, None)
          end
      end
  end.

Definition reconcile (s : Secret) : prog reply :=
  e <- checkAndCleanOrphanSecret s ;;
  match e with
  | Some e => done_with (Some e)
  | None =>
      if decide (data s !! "token" = None) then done_with None
      else if decide (data s !! "name" = None) then done_with None
      else
        r <- InitDfs false "" "" (Some (data s)) None None ;;
        match r.2 with
        | Err e => done_with (Some e)
        | Ok dfsSetting =>
            dir <- os_MkdirTemp "dingofs-" ;;
            match dir with
            | Err e => done_with (Some e)
            | Ok tempConfDir =>
                defer (RemoveAll tempConfDir) (inject_config s (data s) dfsSetting tempConfDir)
            end
        end
  end.

Definition Reconcile (name ns : string) : prog reply :=
  on_object (GetSecret name ns) reconcile.
End secret.
End SecretController.

(** * Properties *)

(** An object the API server answered a lookup with. *)
Definition got_pod (name ns : string) (pod : Pod) : call_pred := λ Y e,
  match e in event Y return Y → Prop with
  | PodGet _ n s => λ r, n = name ∧ s = ns ∧ r = Ok pod
  | _ => λ _, False
  end.
Definition got_job (name ns : string) (job : Job) : call_pred := λ Y e,
  match e in event Y return Y → Prop with
  | JobGet _ n s => λ r, n = name ∧ s = ns ∧ r = Ok job
  | _ => λ _, False
  end.

Section facts.
Context `{G : !Globals} `{X : !Ext} `{F : !Fuel}.

(** ** The filters lose nothing *)

Lemma mount_watch_false pod : MountController.watch pod = false → MountController.reconcile pod = done_with None.
Proof.
  unfold MountController.watch, MountController.reconcile. destruct (pod_DeletionTimestamp pod); [|done]. by intros ->.
Qed.

Lemma job_watch_false j : JobController.watch j = false → JobController.reconcile j = done_with None.
Proof. unfold JobController.watch, JobController.reconcile. by destruct (job_DeletionTimestamp j). Qed.

Lemma pod_watch_false c p : PodController.watch p = false → PodController.reconcile c p = done_with None.
Proof. unfold PodController.watch, PodController.reconcile. by intros ->. Qed.

Lemma app_watch_false p : AppController.watch_create p = false → AppController.reconcile p = done_with None.
Proof. unfold AppController.watch_create, AppController.reconcile. by intros ->. Qed.

(** ** Finalizers and jobs of nodes without a driver *)

(** The driver has no pod on a node. *)
Definition no_driver (nodeName : string) : call_pred := λ Y e,
  match e in event Y return Y → Prop with
  | PodList ns sel fields _ => λ r,
      ns = Namespace ∧
      sel = Some {| ls_MatchLabels := {[ config.CSINodeLabelKey := config.CSINodeLabelValue ]};
                    ls_MatchExpressions := [] |} ∧
      fields = Some {[ "spec.nodeName" := nodeName ]} ∧ r = Ok []
  | _ => λ _, False
  end.

Definition mount_guard (name ns : string) : guard := λ Y e _ tr,
  match e with
  | PodPatch n s body => ∃ pod, n = pod_Name pod ∧ s = pod_Namespace pod ∧
      happened (got_pod name ns pod) tr ∧ happened (no_driver (spec_NodeName (pod_Spec pod))) tr ∧
      pod_DeletionTimestamp pod ≠ None ∧ config.Finalizer ∈ pod_Finalizers pod ∧
      body = JSONPatch [ReplaceList "/metadata/finalizers"
                          (filter (λ f, f ≠ config.Finalizer) (pod_Finalizers pod))]
  | PodGet _ _ _ | PodList _ _ _ _ => True
  | _ => False
  end.

Lemma ContainsString_true l s : ContainsString l s = true → s ∈ l.
Proof. intros (x & ? & ->)%existsb_bool_decide. done. Qed.

(** C21: The mount controller changes nothing but the finalizer of the driver, and
    takes it away only from a mount pod that is being deleted, that has it, and
    on whose node the API server listed no pod of the driver. *)
Theorem mount_finalizer_safe name ns :
  wp any_env (MountController.Reconcile name ns) [] (λ o tr,
    guarded (mount_guard name ns) tr ∧ ∃ r, o = Done (no_result, r)).
Proof.
  unfold MountController.Reconcile, on_object, GetPod. cbn [call bind wp].
  intros [pod|e] _; cbn [wp]; [|by repeat (split || eexists)].
  destruct (MountController.watch pod) eqn:Hw.
  2:{ rewrite mount_watch_false by done. by repeat (split || eexists). }
  unfold MountController.watch in Hw. unfold MountController.reconcile, csi_node_pods, ListPod, RemoveFinalizer, PatchPod.
  destruct (pod_DeletionTimestamp pod) as [t|] eqn:Hd; [|done]. rewrite Hw. cbn [negb call bind wp].
  intros [[|p l]|e] _; cbn [call bind wp]; [|by repeat (split || eexists)..].
  intros r _. split; [|by eexists]. split; [|done]. exists pod.
  split_and!; [done|done|right; by left|by left|congruence|by apply ContainsString_true|done].
Qed.

(** Why a job may be deleted. *)
Definition job_finished (job : Job) : Prop :=
  IsJobCompleted job = true ∨ IsJobFailed job = true.
Definition job_guard (name ns : string) : guard := λ Y e _ tr,
  match e with
  | JobDelete n s => ∃ job, n = job_Name job ∧ s = job_Namespace job ∧
      happened (got_job name ns job) tr ∧ job_DeletionTimestamp job = None ∧
      let node := spec_NodeName (job_Template job) in
      (job_finished job ∨ node ≠ "" ∧ happened (no_driver node) tr)
  | JobGet _ _ _ | PodList _ _ _ _ | Now => True
  | _ => False
  end.

Lemma job_recyclable_finished now job : job_recyclable now job = true → job_finished job.
Proof.
  unfold job_recyclable, job_finished. destruct (IsJobCompleted job), (IsJobFailed job); auto.
Qed.

Lemma IsJobShouldBeRecycled_finished job tr :
  wp any_env (IsJobShouldBeRecycled job) tr (λ o tr', ∃ b, o = Done b ∧
    (b = true → job_finished job) ∧ (tr' = tr ∨ ∃ t, tr' = Call Now t :: tr)).
Proof.
  unfold IsJobShouldBeRecycled. destruct (negb _ && negb _) eqn:Hn.
  { exists false. split_and!; [done|done|by left]. }
  assert (job_finished job) as Hf.
  { unfold job_finished. by destruct (IsJobCompleted job), (IsJobFailed job); auto. }
  destruct (job_TTLSecondsAfterFinished job), (job_CompletionTime job); cbn [call bind wp]; eauto 6.
Qed.

(** C22: The job controller deletes only the job it was asked about, and only when
    it is not being deleted already and has completed or failed, or is bound to
    a node on which the API server listed no pod of the driver. *)
Theorem job_deletion_justified name ns :
  wp any_env (JobController.Reconcile name ns) [] (λ o tr,
    guarded (job_guard name ns) tr ∧ ∃ r, o = Done r).
Proof.
  unfold JobController.Reconcile, on_object, GetJob. cbn [call bind wp].
  intros [j|e] _; cbn [wp]; [|by repeat (split || eexists)].
  unfold JobController.reconcile, DeleteJob, csi_node_pods, ListPod.
  destruct (job_DeletionTimestamp j) eqn:Hd; [by repeat (split || eexists)|]. case_decide as Hn.
  - apply wp_bind. eapply wp_mono; [|apply IsJobShouldBeRecycled_finished].
    intros o tr (b & -> & Hb & Ht). cbn [wp].
    assert (guarded (job_guard name ns) tr ∧ happened (got_job name ns j) tr) as [Hg Hh].
    { destruct Ht as [->|[t ->]]; split; [done|by left|done|right; by left]. }
    destruct b; cbn [call bind wp]; [|split; [done|by eexists]]. intros r _. split; [|by eexists].
    split; [|by destruct r]. exists j. split_and!; [done..|]. left. by apply Hb.
  - cbn [call bind wp]. intros [l|e] _; [|by repeat (split || eexists)]. apply wp_bind.
    set (tr0 := [_; _]).
    apply (wp_mono _ _ _ (λ o tr, ∃ b, o = Done b ∧ (b = true → job_finished j ∨ l = []) ∧
             (tr = tr0 ∨ ∃ t, tr = Call Now t :: tr0))).
    2:{ destruct l as [|p l]; [cbn [wp]; by eauto 7|].
        eapply wp_mono; [|apply IsJobShouldBeRecycled_finished].
        intros o tr (b & -> & Hb & Ht). exists b. by auto. }
    intros o tr (b & -> & Hb & Ht). cbn [wp].
    assert (guarded (job_guard name ns) tr ∧ happened (got_job name ns j) tr ∧
            (l = [] → happened (no_driver (spec_NodeName (job_Template j))) tr)) as (Hg & Hh & Hl).
    { destruct Ht as [->|[t ->]]; split_and!; try done; [right; by left|intros ->; by left|
        right; right; by left|intros ->; right; by left]. }
    destruct b; cbn [call bind wp]; [|split; [done|by eexists]].
    intros r _. assert (job_guard name ns _ (JobDelete (job_Name j) (job_Namespace j)) r tr).
    { exists j. split_and!; [done..|]. destruct (Hb eq_refl) as [|Hn']; auto. }
    destruct r; cbn [wp]; (split; [by split|by eexists]).
Qed.

(** ** Mount pods stay in the queue *)

(** The clock was read at [t]. *)
Definition clock_read (t : Z) : call_pred := λ Y e,
  match e in event Y return Y → Prop with Now => λ x, x = t | _ => λ _, False end.

(** What is promised of a pod: it comes back, and one whose deletion is delayed
    comes back when the delay is over. *)
Definition comes_back (p : Pod) (r : reconcile_Result) (tr : trace) : Prop :=
  rr_Requeue r = true ∧
  let at_ := m_get (annotations p) config.DeleteDelayAtKey in
  (at_ ≠ "" → ∃ d now, GetTime at_ = Ok d ∧ happened (clock_read now) tr ∧
     rr_RequeueAfter r = Z.max 0 (time_Sub d now)).

Lemma requeue_comes_back p res now tr :
  let at_ := m_get (annotations p) config.DeleteDelayAtKey in
  (at_ ≠ "" → is_ok (GetTime at_) = true → happened (clock_read now) tr) →
  match PodController.requeue now (annotations p) res with
  | (r, None) => comes_back p r tr
  | (_, Some _) => True
  end.
Proof.
  intros at_ Hc. unfold PodController.requeue, comes_back. fold at_. case_decide as Ha; [|split; [done|by intros []]].
  destruct (GetTime at_) as [d|e] eqn:Hd; [|done]. split; [done|]. intros _. exists d, now.
  split_and!; [done|by apply Hc; rewrite ?Hd|]. cbn.
  destruct (Z.ltb_spec d now); unfold time_Sub; lia.
Qed.

(** C23: The pod controller never forgets a mount pod of its node.  When the
    lookup, its first call, found one, the reconciliation ends with an error,
    after which the pod is tried again, or asks to look at the pod again; and a
    pod whose deletion is delayed is looked at again when the delay is over. *)
Theorem pod_stays_queued name ns :
  wp any_env (PodController.Reconcile name ns) [] (λ o tr, ∃ new c r,
    tr = new ++ [Call (PodGet c name ns) r] ∧
    match o, r with
    | Done (rr, None), Ok p => PodController.on_node p = true → comes_back p rr tr
    | _, _ => True
    end).
Proof.
  unfold PodController.Reconcile, on_object, GetPod. cbn [call bind wp]. intros r _.
  set (tr0 := [_]). rewrite <-(app_nil_l tr0).
  eapply wp_mono with (Q := λ o tr, (∃ new, tr = new ++ tr0) ∧
    match o, r with
    | Done (rr, None), Ok p => PodController.on_node p = true → comes_back p rr tr
    | _, _ => True
    end).
  { intros o tr [[new ->] H]. by eexists new, _, r. }
  apply wp_and; [apply wp_suffix|].
  destruct r as [p|e]; [|unfold done_with; cbn [wp]; by destruct (IsNotFound e)].
  unfold PodController.reconcile. destruct (PodController.on_node p); [|by cbn [negb done_with wp]]. cbn [negb].
  unfold parse, ListPod. cbn [call bind wp]. intros [tbl|e] _; cbn [call bind wp done_with]; [|done].
  intros [l|e] _; cbn [call bind wp done_with]; [|done].
  apply wp_skip; [done|done|]. intros [res|e] tr; cbn [done_with wp]; [|done].
  set (at_ := m_get _ _). case_decide as Ha; [destruct (is_ok (GetTime at_)) eqn:Ho|];
    cbn [call bind wp].
  - intros now _. pose proof (requeue_comes_back p res now (Call Now now :: tr)) as H. cbv zeta in H.
    destruct (PodController.requeue _ _ _) as [rr [e|]]; [done|]. intros _. apply H. intros _ _. by left.
  - pose proof (requeue_comes_back p res 0 tr) as H. cbv zeta in H. fold at_ in H.
    destruct (PodController.requeue _ _ _) as [rr [e|]]; [done|]. intros _. apply H. congruence.
  - pose proof (requeue_comes_back p res 0 tr) as H. cbv zeta in H. fold at_ in H.
    destruct (PodController.requeue _ _ _) as [rr [e|]]; [done|]. intros _. apply H. intros ?. by destruct Ha.
Qed.

(** ** Application pods are only touched when they have ended *)

Lemma exited_time_max statuses cs :
  cs ∈ statuses → AppController.is_fuse (cs_Name cs) = false → cs_Terminated cs ≠ None →
  (cs_FinishedAt cs ≤ AppController.exited_time statuses)%Z.
Proof.
  unfold AppController.exited_time. generalize zero_time.
  assert (∀ l t, (t ≤ foldl (λ t cs, if AppController.is_fuse (cs_Name cs) then t
    else match cs_Terminated cs with
         | Some _ => if (t <? cs_FinishedAt cs)%Z then cs_FinishedAt cs else t
         | None => t end) t l)%Z) as Hge.
  { induction l as [|a l IH]; intros t; cbn; [lia|]. etrans; [|apply IH].
    destruct (AppController.is_fuse _), (cs_Terminated a); try lia. destruct (Z.ltb_spec t (cs_FinishedAt a)); lia. }
  intros t Hin Hf Ht. revert t. induction Hin as [a l|a b l Hin IH]; intros t; cbn; [|by apply IH].
  rewrite Hf. destruct (cs_Terminated a); [|done]. etrans; [|apply Hge].
  destruct (Z.ltb_spec t (cs_FinishedAt a)); lia.
Qed.

(** All application containers of a pod have ended and its mount containers run. *)
Definition app_ended (pod : Pod) : Prop :=
  ps_Phase (pod_Status pod) = "Running" ∧
  ∀ cs, cs ∈ ps_ContainerStatuses (pod_Status pod) →
    if AppController.is_fuse (cs_Name cs) then cs_Running cs = true else cs_Terminated cs ≠ None.

Lemma ShouldInQueue_ended pod : AppController.ShouldInQueue (Some pod) = true → app_ended pod.
Proof.
  unfold AppController.ShouldInQueue. destruct (CheckExpectValue _ _ _); [done|]. case_decide; [done|].
  destruct (negb _); [done|]. case_decide as Hp; [done|]. intros Hs.
  split; [destruct (decide (ps_Phase (pod_Status pod) = "Running")); naive_solver|].
  intros cs Hin. rewrite forallb_forall in Hs. specialize (Hs cs ltac:(by apply list_elem_of_In)).
  unfold AppController.status_wanted in Hs. destruct (AppController.is_fuse _); [done|]. by apply bool_decide_eq_true in Hs.
Qed.

Definition app_guard (name ns : string) : guard := λ Y e _ tr,
  match e with
  | PodExec n s container cmd => ∃ pod cn, n = pod_Name pod ∧ s = pod_Namespace pod ∧
      happened (got_pod name ns pod) tr ∧ app_ended pod ∧
      cn ∈ spec_Containers (pod_Spec pod) ∧ cn_Name cn = container ∧ AppController.is_fuse container = true ∧
      ((cn_Lifecycle cn ≫= lc_PreStop) = Some cmd ∨
       cmd = ["sh"; "-c"; "pkill dingo-fuse"] ∧ ∃ now, happened (clock_read now) tr ∧
         ∀ cs, cs ∈ ps_ContainerStatuses (pod_Status pod) → AppController.is_fuse (cs_Name cs) = false →
           (cs_FinishedAt cs + 5 * Minute < now)%Z)
  | PodGet _ _ _ | Now | InClusterConfig => True
  | _ => False
  end.

Lemma for_fuse_guard (R : guard) pod f tr :
  guarded R tr →
  (∀ cn tr', cn ∈ spec_Containers (pod_Spec pod) → AppController.is_fuse (cn_Name cn) = true →
     extends (λ _ _, true) tr tr' → guarded R tr' → wp any_env (f pod cn) tr' (λ o tr'',
       guarded R tr'' ∧ extends (λ _ _, true) tr tr'' ∧ ∃ r, o = Done r)) →
  wp any_env (AppController.for_fuse pod f) tr (λ o tr', guarded R tr' ∧ ∃ r, o = Done r).
Proof.
  intros Hg Hf. unfold AppController.for_fuse.
  apply (wp_for_each _ (λ l tr', guarded R tr' ∧ extends (λ _ _, true) tr tr' ∧
           ∀ cn, cn ∈ l → cn ∈ spec_Containers (pod_Spec pod))).
  - by split_and!.
  - intros cn l tr' (Hg' & He & Hl). destruct (AppController.is_fuse (cn_Name cn)) eqn:Hn; cbn [wp].
    + apply wp_bind. eapply wp_mono; [|apply Hf; [apply Hl; set_solver|done..]].
      intros o tr'' (Hg'' & He' & r & ->). cbn [wp].
      destruct r; [split; [done|by eexists]|]. split_and!; [done|done|set_solver].
    + split_and!; [done|done|set_solver].
  - intros tr' (Hg' & _). cbn [wp]. split; [done|by eexists].
Qed.

Lemma exec_guarded (R : guard) n s container cmd (k : string * string * option error → prog (option error))
    tr tr' :
  (∀ x tr, R _ InClusterConfig x tr) →
  (∀ x c, R _ (PodExec n s container cmd) x (Call InClusterConfig c :: tr')) → (∀ x, ∃ r, k x = Ret r) →
  extends (λ _ _, true) tr tr' → guarded R tr' →
  wp any_env (bind (ExecuteInContainer n s container cmd) k) tr' (λ o tr'',
    guarded R tr'' ∧ extends (λ _ _, true) tr tr'' ∧ ∃ r, o = Done r).
Proof.
  intros HC HR Hk He Hg. unfold ExecuteInContainer. cbn [call bind wp]. intros c _.
  assert (extends (λ _ _, true) tr (Call InClusterConfig c :: tr')) as He'
    by (etrans; [exact He|by apply (extends_call _ InClusterConfig c)]).
  destruct c as [c|e]; cbn [bind wp].
  - intros [[so se] r] _. cbn [bind wp]. destruct (Hk (TrimSpace so, TrimSpace se, r)) as [r' ->]. cbn [wp].
    split_and!; [by split; [|split]|etrans; [exact He'|]|by eexists].
    by apply (extends_call _ (PodExec n s container cmd) (so, se, r)).
  - destruct (Hk ("", "", Some e)) as [r' ->]. cbn [wp]. split_and!; [by split|done|by eexists].
Qed.

(** The application controller runs commands only in mount containers of a
    running pod all of whose application containers have ended: the preStop
    command of the container, or, when all of them ended more than five minutes
    ago, the one that kills the client; and it always ends. *)
Theorem app_commands_justified name ns :
  wp any_env (AppController.Reconcile name ns) [] (λ o tr,
    guarded (app_guard name ns) tr ∧ ∃ r, o = Done r).
Proof.
  unfold AppController.Reconcile, on_object, GetPod. cbn [call bind wp].
  intros [pod|e] _; cbn [done_with wp]; [|split; [done|by eexists]].
  destruct (AppController.watch_create pod) eqn:Hw.
  2:{ rewrite app_watch_false by done. cbn [done_with wp]. split; [done|by eexists]. }
  unfold AppController.watch_create in Hw. unfold AppController.reconcile. rewrite Hw. cbn [negb].
  pose proof (ShouldInQueue_ended _ Hw) as Hend. set (tr0 := [_]).
  assert (∀ tr, extends (λ _ _, true) tr0 tr → happened (got_pod name ns pod) tr) as Hgot.
  { intros tr He. eapply extends_happened; [exact He|]. by left. }
  set (t := AppController.exited_time _). apply wp_bind.
  apply (wp_mono _ _ _ (λ o tr, guarded (app_guard name ns) tr ∧ extends (λ _ _, true) tr0 tr ∧
    ∃ k : bool, o = Done k ∧ (k = true → ∃ now, happened (clock_read now) tr ∧ (t + 5 * Minute < now)%Z))).
  2:{ case_decide; cbn [call bind wp]; [split_and!; [done|done|by exists false]|].
      intros now _. split_and!; [done|by apply (extends_call _ Now now)|].
      eexists. split; [done|]. intros Hk%Z.ltb_lt. exists now. split; [by left|].
      unfold time_Sub, Minute, Second in *. lia. }
  intros o tr (Hg & He & k & -> & Hk). cbn [wp]. destruct k.
  - destruct (Hk eq_refl) as (now & Hnow & Hlt). apply wp_bind.
    eapply wp_mono; [|apply (for_fuse_guard (app_guard name ns)); [done|]].
    { intros o tr' (Hg' & r & ->). cbn [done_with wp]. split; [done|by eexists]. }
    intros cn tr' Hin Hn He' Hg'. unfold AppController.killFuseProcess. case_decide; cbn [wp].
    { split_and!; [done|done|by eexists]. }
    apply exec_guarded; [done|intros x c|by eexists|done|done].
    exists pod, cn. split_and!; try done; [right; apply Hgot; by etrans|]. right. split; [done|].
    exists now. split; [right; by eapply extends_happened|]. intros cs Hcs Hf.
    destruct Hend as [_ Hall]. pose proof (Hall cs Hcs) as Ht. rewrite Hf in Ht.
    pose proof (exited_time_max _ _ Hcs Hf Ht) as Hm. fold t in Hm. lia.
  - apply wp_bind. eapply wp_mono; [|apply (for_fuse_guard (app_guard name ns)); [done|]].
    { intros o tr' (Hg' & r & ->). destruct r; cbn [done_with wp]; split; try done; by eexists. }
    intros cn tr' Hin Hn He' Hg'. unfold AppController.umountFuseSidecar. case_decide; cbn [wp].
    { split_and!; [done|done|by eexists]. }
    destruct (cn_Lifecycle cn ≫= lc_PreStop) as [cmd|] eqn:Hp; cbn [wp]; [|split_and!; [done|done|by eexists]].
    apply exec_guarded; [done|intros x c| |done|done].
    { exists pod, cn. split_and!; try done; [right; apply Hgot; by etrans|]. by left. }
    intros [[so se] [e|]]; [|by eexists].
    destruct (not_mounted_output _); [|destruct (Contains _ _)]; by eexists.
Qed.

(** ** Secrets *)

(** The calls that neither write secrets nor make temporary directories. *)
Definition no_secret_writes : event_pred := λ Y e,
  match e with
  | SecretDelete _ _ | SecretUpdate _ | SecretCreate _ | SecretPatch _ _ _ | MkdirTemp _ _ => false
  | _ => true
  end.

Definition read_file (conf : string) : call_pred := λ Y e,
  match e in event Y return Y → Prop with ReadFile _ => λ r, r = Ok conf | _ => λ _, False end.
Definition made_dir (d : string) : call_pred := λ Y e,
  match e in event Y return Y → Prop with MkdirTemp _ _ => λ r, r = Ok d | _ => λ _, False end.
Definition removed_dir (d : string) : call_pred := λ Y e,
  match e in event Y return Y → Prop with RemoveAll p => λ _, p = d | _ => λ _, False end.
Definition pod_gone (name ns : string) : call_pred := λ Y e,
  match e in event Y return Y → Prop with
  | PodGet _ n m => λ r, n = name ∧ m = ns ∧ on_err IsNotFound (result_err r) = true
  | _ => λ _, False
  end.

Definition secret_guard (name ns : string) : guard := λ Y e _ tr,
  match e with
  | SecretDelete n m => ∃ s podName now, happened (got_secret name ns s) tr ∧
      n = sec_Name s ∧ m = Namespace ∧ m = sec_Namespace s ∧
      n = podName +:+ "-secret" ∧ sec_Labels s !! config.DingofsSecretLabelKey = None ∧
      is_Some (SecretController.data s !! "check_mount.sh") ∧
      happened (pod_gone podName m) tr ∧
      happened (clock_read now) tr ∧ (sec_CreationTimestamp s + Hour < now)%Z
  | SecretUpdate u => ∃ s conf, happened (got_secret name ns s) tr ∧ happened (read_file conf) tr ∧
      ∃ m, u = set_sec_StringData m s ∧ m !! "initconfig" = Some conf
  | SecretCreate _ | SecretPatch _ _ _ => False
  | _ => True
  end.

Lemma InitDfs_no_secret_writes v t s c o : within no_secret_writes (InitDfs false v t s c o).
Proof. unfold InitDfs, volume_objects, CreateFS, config_quota, CheckFsExisted. within_run. Qed.
Lemma AuthFs_no_secret_writes c m s b : within no_secret_writes (AuthFs c m s b).
Proof. unfold AuthFs, run_auth, cmd_envs. within_run. Qed.

Lemma no_secret_writes_guard name ns Y (e : event Y) x tr :
  no_secret_writes Y e = true → secret_guard name ns Y e x tr.
Proof. by destruct e. Qed.

(** The state of a run before the configuration is generated. *)
Definition settled (name ns : string) (s : Secret) (tr : trace) : Prop :=
  guarded (secret_guard name ns) tr ∧ happened (got_secret name ns s) tr ∧
  ∀ d, ¬ happened (made_dir d) tr.

Lemma settled_extends name ns s tr tr' :
  extends no_secret_writes tr tr' → settled name ns s tr → settled name ns s tr'.
Proof.
  intros He (Hg & Hh & Hd). split_and!; [|by eapply extends_happened|].
  - eapply extends_guarded; [apply no_secret_writes_guard|done|done].
  - intros d. destruct He as (new & -> & Hn). intros [H|H]%Exists_app; [|by eapply Hd].
    apply Exists_exists in H as ([Y e x] & Hin & H). rewrite Forall_forall in Hn.
    specialize (Hn _ Hin). by destruct e.
Qed.

Lemma settled_call name ns s {Y} (e : event Y) x tr :
  no_secret_writes Y e = true → settled name ns s tr → settled name ns s (Call e x :: tr).
Proof. intros He. apply settled_extends. by apply (extends_call _ e x). Qed.

Lemma orphan_settled name ns s tr :
  settled name ns s tr →
  wp any_env (SecretController.checkAndCleanOrphanSecret s) tr (λ o tr',
    settled name ns s tr' ∧ ∃ r, o = Done r).
Proof.
  intros Hs. unfold SecretController.checkAndCleanOrphanSecret, GetPod, DeleteSecret.
  destruct (SecretController.old_pod_secret s) eqn:Ho; cbn [negb call bind wp]; [|by split; [|eexists]].
  intros now _. apply (settled_call _ _ _ Now now) in Hs; [|done].
  destruct (Z.ltb_spec (sec_CreationTimestamp s + Hour) now) as [Ht|Ht]; cbn [negb wp];
    [|by split; [|eexists]].
  case_decide as Hc; cbn [call bind wp]; [by split; [|eexists]|]. intros r _.
  set (podName := TrimSuffix _ _).
  pose proof (settled_call _ _ _ (PodGet Request podName (sec_Namespace s)) r _ eq_refl Hs) as Hs'.
  destruct (on_err IsNotFound (result_err r)) eqn:Hr; cbn [call wp]; [|by split; [|eexists]].
  intros r' _. split; [|by eexists]. destruct Hs' as (Hg & Hh & Hd).
  split_and!; [split; [|done]|by right|intros d H; inversion H; [done|by eapply Hd]].
  unfold SecretController.old_pod_secret in Ho. rewrite !andb_true_iff, !bool_decide_eq_true in Ho.
  destruct Ho as ((((Hns & Hl) & _) & [p Hp]%HasSuffix_true) & _).
  exists s, podName, now. split_and!; try done.
  - unfold podName. rewrite Hp at 1. f_equal. by rewrite Hp, TrimSuffix_app.
  - by destruct (SecretController.data s !! _).
  - by left.
  - right. by left.
Qed.

(** Generating the configuration: what is written is what was read. *)
Lemma inject_guarded name ns s m set d tr :
  guarded (secret_guard name ns) tr → happened (got_secret name ns s) tr →
  wp any_env (SecretController.inject_config s m set d) tr (λ o tr',
    guarded (secret_guard name ns) tr' ∧ ∀ d', happened (made_dir d') tr' → happened (made_dir d') tr).
Proof.
  intros Hg Hh. unfold SecretController.inject_config. apply wp_bind.
  eapply wp_mono; [|apply (wp_within _ no_secret_writes), AuthFs_no_secret_writes].
  intros o tr' He.
  assert (guarded (secret_guard name ns) tr' ∧ happened (got_secret name ns s) tr') as [Hg' Hh'].
  { split; [|by eapply (extends_happened _ _ _ _ He)].
    eapply extends_guarded; [apply no_secret_writes_guard|exact He|done]. }
  assert (∀ d', happened (made_dir d') tr' → happened (made_dir d') tr) as Hd.
  { intros d'. destruct He as (new & -> & Hn). intros [H|H]%Exists_app; [|done].
    apply Exists_exists in H as ([Y e x] & Hin & H). rewrite Forall_forall in Hn.
    specialize (Hn _ Hin). by destruct e. }
  destruct o as [[m' [out|e]]|msg|]; cbn [done_with call bind wp]; try done.
  intros [conf|e] _; cbn [call bind wp UpdateSecret].
  2:{ split; [by split|]. intros d' H. inversion H; [done|auto]. }
  intros r _. destruct r; cbn [done_with wp].
  all: split; [split; [|by split]|intros d' H; inversion H as [|? ? H']; [done|inversion H'; [done|auto]]].
  all: exists s, conf; split_and!; [by right|by left|]; eexists; split; [done|apply lookup_insert_eq].
Qed.

(** C20: The secret controller deletes a secret only when it is one of the driver's
    namespace, without the label of the newer versions, more than an hour old
    and named after a mount pod that the API server did not find; it updates
    only the secret it read, to add the configuration that was generated; and
    whatever the outcome, the temporary directory of that configuration, with
    the credentials in it, is removed. *)
Theorem secret_controller_safe name ns :
  wp any_env (SecretController.Reconcile name ns) [] (λ o tr,
    guarded (secret_guard name ns) tr ∧
    (o ≠ Diverged → ∀ d, happened (made_dir d) tr → happened (removed_dir d) tr)).
Proof.
  assert (∀ o tr s, settled name ns s tr → guarded (secret_guard name ns) tr ∧
    (o ≠ @Diverged reply → ∀ d, happened (made_dir d) tr → happened (removed_dir d) tr)) as Hset.
  { intros o tr s (Hg & _ & Hd). split; [done|]. intros _ d H. by destruct (Hd d). }
  unfold SecretController.Reconcile, on_object, GetSecret. cbn [call bind wp].
  intros [s|e] _; cbn [done_with wp].
  2:{ split; [done|]. intros _ d H. by inversion H as [|? ? H']; [|inversion H']. }
  assert (settled name ns s [Call (SecretGet name ns) (Ok s)]) as Hs.
  { split_and!; [done|by left|]. intros d H. by inversion H as [|? ? H']; [|inversion H']. }
  unfold SecretController.reconcile. apply wp_bind. eapply wp_mono; [|by apply orphan_settled].
  intros o tr (Hs1 & r & ->). destruct r as [e|]; cbn [done_with wp]; [by eapply Hset|].
  case_decide; [by eapply Hset|]. case_decide; [by eapply Hset|]. apply wp_bind.
  eapply wp_mono; [|apply (wp_within _ no_secret_writes), InitDfs_no_secret_writes].
  intros o tr2 He. apply (settled_extends _ _ _ _ _ He) in Hs1.
  destruct o as [[m [set|e]]|msg|]; cbn [done_with wp]; try by eapply Hset.
  unfold SecretController.os_MkdirTemp. cbn [call bind wp]. intros tmp _ [dir|e] _; cbn [done_with wp].
  2:{ destruct Hs1 as (Hg & Hh & Hd). split; [by split|]. intros _ d Hm.
      inversion Hm as [|? ? Hm']; [done|]. inversion Hm'; [done|]. by destruct (Hd d). }
  apply wp_defer. destruct Hs1 as (Hg & Hh & Hd).
  eapply wp_mono; [|apply (inject_guarded name ns); [by split|by right; right]].
  intros o tr' (Hg' & Hd'). destruct o; [intros x _|intros x _|done].
  all: split; [by split|]; intros _ d Hm; left; cbn; inversion Hm as [|? ? Hm']; [done|].
  all: apply Hd' in Hm'; inversion Hm' as [? ? Hm''|? ? Hm'']; [by injection Hm''|].
  all: inversion Hm''; [done|]; by destruct (Hd d).
Qed.
End facts.
