(* ===== verification/Reconciler.v ===== *)
(** * Reconciler: the polling loop over the pods of the kubelet

    [src/pkg/controller/reconciler.go].  A round lists the pods of the node and
    starts a goroutine for each mount pod that is due; the goroutine runs the
    pod driver and notes when the pod is due again.  The table of the notes and
    the back-off timers live in the process: reading and writing them are
    events. *)

From S2P Require Import Prelude GoStrings GoNum Objects Effects Config Demo Kubelet Util K8sClient.
From S2P Require Import Resource Setting Builder PodMount MountInfo PodDriver.

Section reconciler.
Context `{G : !Globals} `{X : !Ext} `{F : !Fuel}.

(** [StartReconciler]: the kubelet must answer once before the loop starts. *)
Definition StartReconciler : prog (option error) :=
  match Atoi KubeletPort with
  | Err e => Ret (Some e)
  | Ok port =>
      kc <-! NewKubeletClient HostIp port ;;
      _ <-! GetNodeRunningPods kc ;;
      _ <-! NewClient ;;
      call (Spawn (TaskReconciler kc)) ;;;
      Ret None
  end.

(** The mount pods of the driver. *)
Definition is_mount_pod (pod : Pod) : bool :=
  bool_decide (pod_Namespace pod = Namespace)
  && bool_decide (pod_Labels pod !! config.PodTypeKey = Some config.PodTypeValue).

(** Whether the pod is as it was and not due yet. *)
Definition skipped (last : option PodSync) (crt : podStatus) : prog bool :=
  match last with
  | Some l =>
      if decide (sy_podStatus l = crt) then now <- call Now ;; Ret (now <? sy_nextSyncAt l)%Z
      else Ret false
  | None => Ret false
  end.

(** The loop over the pods: a goroutine for each one that is due. *)
Fixpoint start_pods (table : list MountInfo) (all : list Pod) (pods : list Pod) : prog unit :=
  match pods with
  | [] => Ret tt
  | pod :: pods =>
      (if negb (is_mount_pod pod) then Ret tt
       else
         let crt := getPodStatus (Some pod) in
         last <- call (StatusLoad (pod_Name pod)) ;;
         skip <- skipped last crt ;;
         if skip : bool then Ret tt else call (Spawn (TaskSyncPod table all pod crt last))) ;;;
      start_pods table all pods
  end.

(** One round of [doReconcile]; the errors are only logged.  A nil list is
    dereferenced. *)
Definition round (kc : KubeletClient) : prog unit :=
  podList <- GetNodeRunningPods kc ;;
  match podList with
  | Err _ => Ret tt
  | Ok podList =>
      mit <- parse newMountInfoTable ;;
      match mit with
      | Err _ => Ret tt
      | Ok mit =>
          match podList with
          | None => Panic "nil pointer dereference"
          | Some podList =>
              start_pods (mis mit) podList podList ;;;
              call BackOffGC ;;;
              call GroupWait
          end
      end
  end ;;;
  call (Sleep (config.ReconcilerInterval * Second)).

(** [doReconcile] never returns: it is its rounds, of which the model makes as
    many as there is fuel for. *)
Definition doReconcile (kc : KubeletClient) : prog unit :=
  loop fuel (λ _ : unit, round kc ;;; Ret (inl tt)) tt.

Definition group_ctx : ctx := Group (WithTimeout Background ReconcileTimeout).
Definition backOffID (pod : Pod) : string := "mountpod/" +:+ pod_Name pod.

(** When a pod is due after a run of the driver at [now]. *)
Definition next_sync (now : Z) (r : Result) : Z :=
  if RequeueImmediately r then now
  else if (0 <? RequeueAfter r)%Z then (now + RequeueAfter r)%Z
  else (now + 10 * Minute)%Z.

(** The goroutine of a pod.  Its deferred write of the table is the last call on
    both ways out; a panic of the driver ends the process, and the table with
    it. *)
Definition sync_pod (table : list MountInfo) (pods : list Pod) (pod : Pod) (crt : podStatus)
    (last : option PodSync) : prog (option error) :=
  let mit := setPodsStatus (MkMountInfoTable table ∅) (Some pods) in
  cancelled <- call (CtxErr group_ctx) ;;
  match cancelled with
  | Some _ => Ret None
  | None =>
      clock <- call Now ;;
      waiting <- call (BackOffIn (backOffID pod) clock) ;;
      if waiting : bool then Ret None
      else
        result <- Run group_ctx mit (Some pod) ;;
        syncAt <- call Now ;;
        match result with
        | Err e =>
            now <- call Now ;;
            call (BackOffNext (backOffID pod) now) ;;;
            next <- call Now ;;
            call (StatusStore (pod_Name pod) (MkPodSync crt syncAt next)) ;;;
            Ret (Some e)
        | Ok result =>
            call (BackOffReset (backOffID pod)) ;;;
            now <- call Now ;;
            call (StatusStore (pod_Name pod) (MkPodSync crt syncAt (next_sync now result))) ;;;
            Ret None
        end
  end.
End reconciler.

(** * Properties *)

Section facts.
Context `{G : !Globals} `{X : !Ext} `{F : !Fuel}.

(** ** A round starts the pods that are due *)

(** The environment of a round: the kubelet answers with [body], the mount table
    is [table]; the notes of the earlier rounds are [st] and the time is [now] all
    through the round. *)
Definition round_env (body : string) (table : list MountInfo) (st : gmap string PodSync) (now : Z)
    : env := λ _ Y e x,
  match e in event Y return Y → Prop with
  | HttpGet _ _ => λ r, r = None
  | ReadBody => λ r, r = Ok body
  | ParseMountInfo => λ r, r = Ok table
  | StatusLoad n => λ r, r = st !! n
  | Now => λ t, t = now
  | _ => λ _, True
  end x.

(** What it is to be due: a mount pod that is new, or whose state has changed,
    or whose time has come. *)
Definition due (st : gmap string PodSync) (now : Z) (pod : Pod) : Prop :=
  is_mount_pod pod = true ∧
  match st !! pod_Name pod with
  | None => True
  | Some l => sy_podStatus l ≠ getPodStatus (Some pod) ∨ (sy_nextSyncAt l ≤ now)%Z
  end.
#[export] Instance due_dec st now pod : Decision (due st now pod).
Proof. unfold due. destruct (st !! pod_Name pod); apply _. Defined.

(** The goroutines a trace started, the earliest first. *)
Fixpoint started (tr : trace) : list task :=
  match tr with
  | [] => []
  | Call (Spawn t) _ :: tr => started tr ++ [t]
  | _ :: tr => started tr
  end.

Definition sync_task (table : list MountInfo) (all : list Pod) (st : gmap string PodSync) (pod : Pod)
    : task :=
  TaskSyncPod table all pod (getPodStatus (Some pod)) (st !! pod_Name pod).

Lemma start_pods_due body table st now pods l tr :
  wp (round_env body table st now) (start_pods table pods l) tr (λ o tr',
    o = Done tt ∧
    started tr' = started tr ++ (sync_task table pods st <$> filter (due st now) l)).
Proof.
  revert tr. induction l as [|p l IH]; intros tr; cbn [start_pods].
  { cbn [wp]. by rewrite app_nil_r. }
  apply wp_bind.
  apply (wp_mono _ _ _ (λ o tr', o = Done tt ∧
    started tr' = started tr ++ (sync_task table pods st <$> filter (due st now) [p]))).
  { intros o tr' [-> Hs]. eapply wp_mono; [|apply IH]. intros o tr'' [-> ->]. split; [done|].
    rewrite Hs, <-app_assoc. f_equal. by rewrite <-fmap_app, <-filter_app. }
  rewrite filter_cons, filter_nil.
  destruct (is_mount_pod p) eqn:Hm; cbn [negb].
  2:{ rewrite decide_False by (intros [? _]; congruence). cbn [wp]. by rewrite app_nil_r. }
  cbn [call bind wp]. intros last Hl. cbn in Hl. subst last. unfold skipped.
  destruct (st !! pod_Name p) as [y|] eqn:Hy.
  - case_decide as Hst; cbn [call bind wp].
    + intros t ->. destruct (Z.ltb_spec now (sy_nextSyncAt y)); cbn [call bind wp].
      * rewrite decide_False; [cbn; by rewrite app_nil_r|].
        unfold due. rewrite Hy. intros [_ [?|?]]; [done|lia].
      * intros [] _. rewrite decide_True; [split; [done|cbn; unfold sync_task; by rewrite Hy]|].
        unfold due. rewrite Hy. by auto.
    + intros [] _. rewrite decide_True; [split; [done|cbn; unfold sync_task; by rewrite Hy]|].
      unfold due. rewrite Hy. by auto.
  - cbn [call bind wp]. intros [] _. rewrite decide_True; [split; [done|cbn; unfold sync_task; by rewrite Hy]|].
    unfold due. by rewrite Hy.
Qed.

(** C25: A round of the reconciler starts exactly the mount pods that are due, each
    once, in the order of the kubelet's list: the pods of the driver that it has
    no note of, whose state differs from the note, or whose time has come.  It
    then waits for them and sleeps.  This is for a round in which the kubelet
    answers with a body that decodes to a list of pods, the mount table can be
    read, and the notes and the clock stay as they are while the pods are
    started. *)
Theorem round_starts_due kc body pods table st now :
  body ≠ "Unauthorized" → UnmarshalPodList body = Ok (Some pods) →
  wp (round_env body table st now) (round kc) [] (λ o tr,
    o = Done tt ∧ started tr = (sync_task table pods st <$> filter (due st now) pods) ∧
    ∃ tr', tr = Call (Sleep (config.ReconcilerInterval * Second)) tt :: Call GroupWait tt :: tr').
Proof.
  intros Hb Hu. unfold round, GetNodeRunningPods, parse. cbn [call bind wp]. intros r ->. cbn [call bind wp].
  intros r ->. rewrite decide_False by done. cbn [call bind wp]. rewrite Hu.
  cbn [call bind wp]. intros r ->.
  cbn [bind wp mis]. apply wp_bind. apply wp_bind. eapply wp_mono; [|apply start_pods_due].
  intros o tr [-> Hs]. cbn [call bind wp]. intros [] _ [] _ [] _.
  split_and!; [done|exact Hs|by eexists].
Qed.

(** ** A pod is due again soon *)

(** The results of the handlers ask for no delay. *)
Definition no_delay (a : result Result) : Prop :=
  match a with Ok r => RequeueAfter r = 0%Z | Err _ => True end.

Lemma redeploy_no_delay c p r : RequeueAfter r = 0%Z → yields no_delay (redeploy c p r).
Proof.
  intros Hr. unfold redeploy. destruct (_ && _); [|done]. apply yields_bind. intros _.
  apply yields_bind. intros [e|]; [done|]. apply yields_bind. intros [|]; [|done].
  apply yields_bind. intros _. by apply yields_bind.
Qed.

Lemma as_result_no_delay (r : Result) p : RequeueAfter r = 0%Z → yields no_delay (as_result r p).
Proof. intros Hr. unfold as_result. apply yields_bind. by intros [e|]. Qed.

Lemma takeover_no_delay c p : yields no_delay (takeover c p).
Proof.
  apply yields_loop. intros _. apply yields_bind. intros [po|e].
  - destruct (is_deleted po); by apply yields_bind.
  - destruct (IsTimeout e); [done|]. destruct (IsNotFound e); [|done].
    apply (yields_seq no_delay); [|done]. unfold recreate_pod. apply yields_bind. intros r.
    apply yields_bind. intros _. apply yields_bind. by intros [].
Qed.

Lemma handle_no_delay c mit ps p : yields no_delay (handle c mit ps p).
Proof.
  destruct ps; cbn [handle].
  - unfold podReadyHandler. destruct (pod_Annotations p); [|done]. apply yields_bind. intros [mp|e]; [|done].
    apply yields_with_mutex, yields_bind. intros [e|]; [|by apply as_result_no_delay].
    apply yields_bind. intros _. apply yields_bind. intros _. by apply as_result_no_delay.
  - unfold podErrorHandler. case_decide; [done|]. by apply yields_with_mutex, redeploy_no_delay.
  - unfold podDeletedHandler, finish_mount. destruct (negb _); [done|]. apply yields_bind. intros [e|]; [done|].
    apply yields_bind. intros _. destruct (IsPodResourceError p); [done|]. apply yields_bind. intros [mp|e]; [|done].
    destruct (pod_Annotations p); [|done]. case_decide; [done|].
    case_decide; [|by apply yields_with_mutex, takeover_no_delay].
    do 4 (apply yields_bind; intros _). done.
  - unfold podPendingHandler. case_decide; [done|]. by apply yields_with_mutex, redeploy_no_delay.
Qed.

Lemma Run_no_delay c mit p : yields no_delay (Run c mit p).
Proof.
  destruct p as [p|]; [|done]. cbn [Run]. apply yields_bind. intros [e|]; [done|].
  destruct (getPodStatus (Some p)); try apply handle_no_delay.
  all: apply yields_bind; intros [po|e]; [apply handle_no_delay|done].
Qed.

(** The driver's work on a pod writes no note. *)
Definition no_note : event_pred := λ Y e, match e with StatusStore _ _ => false | _ => true end.

Lemma checkAnnotations_no_note c mit p : within no_note (checkAnnotations c mit p).
Proof.
  unfold checkAnnotations, drop_stale, delete_unreferenced, ShouldDelay, GetTimeAfterDelay,
    AddPodAnnotation, DelPodAnnotation. within_run.
Qed.
Lemma GetMountPathOfPod_no_note p : within no_note (GetMountPathOfPod p).
Proof. unfold GetMountPathOfPod, parseMntPath. within_run. Qed.
#[local] Hint Resolve checkAnnotations_no_note GetMountPathOfPod_no_note : go.
Lemma mkrMp_no_note c p : within no_note (mkrMp c p).
Proof. unfold mkrMp, DoWithTimeout_err, DoWithTimeout. within_run. Qed.
Lemma CreatePod_no_note p : within no_note (CreatePod p).
Proof.
  unfold CreatePod, findAvailableNodePort, createSerivce, last_n. within_run.
  generalize 100. intros k. induction k; cbn [random_ports]; within_run.
Qed.
Lemma RemoveFinalizer_no_note p f : within no_note (RemoveFinalizer p f).
Proof. unfold RemoveFinalizer. within_run. Qed.
#[local] Hint Resolve mkrMp_no_note CreatePod_no_note RemoveFinalizer_no_note : go.
Lemma redeploy_no_note c p r : within no_note (redeploy c p r).
Proof. unfold redeploy, wait_pod_gone. within_run. Qed.
Lemma takeover_no_note c p : within no_note (takeover c p).
Proof.
  unfold takeover, recreate_pod, applyConfigPatch, GenPodAttrWithMountPod, ReplacePodAnnotation, last_n.
  within_run.
Qed.
#[local] Hint Resolve redeploy_no_note takeover_no_note : go.
Lemma umount_times_no_note n t : within no_note (umount_times n t).
Proof. induction n; cbn [umount_times]; within_run. Qed.
Lemma check_all_no_note c l : within no_note (check_all c l).
Proof. induction l; cbn [check_all]; unfold ti_check, DoWithTimeout; within_run. Qed.
#[local] Hint Resolve umount_times_no_note check_all_no_note : go.
Lemma resolveTarget_no_note c mit t : within no_note (resolveTarget c mit t).
Proof. unfold resolveTarget, resolveTargetItem, ti_check, DoWithTimeout. within_run. Qed.
#[local] Hint Resolve resolveTarget_no_note : go.
Lemma recover_no_note c mit p m : within no_note (recover c mit p m).
Proof.
  unfold recover, recoverTarget, umountTarget, umountTargetUntilRemain, rebind, parse, UmountPath,
    DoWithTimeout. within_run.
Qed.
#[local] Hint Resolve recover_no_note : go.

Lemma handle_no_note c mit ps p : within no_note (handle c mit ps p).
Proof.
  destruct ps; cbn [handle].
  - unfold podReadyHandler, as_result, WaitUtilMountReady, mount_ready_round, umount_until_gone,
      DevMinorTableStore, UmountPath, DoWithTimeout_err, DoWithTimeout. within_run.
  - unfold podErrorHandler. within_run.
  - unfold podDeletedHandler, finish_mount, UmountPath, DoWithTimeout_err, DoWithTimeout. within_run.
  - unfold podPendingHandler. within_run.
Qed.
#[local] Hint Resolve handle_no_note : go.
Lemma Run_no_note c mit p : within no_note (Run c mit p).
Proof. destruct p as [p|]; [|done]. cbn [Run]. within_run. Qed.

(** A note that was written, the only one, at a time the clock showed just
    before. *)
Definition note_free (tr : trace) : Prop := extends no_note [] tr.
Definition noted (name : string) (s : PodSync) (t : Z) (tr : trace) : Prop :=
  ∃ u tr', tr = Call (StatusStore name s) u :: Call Now t :: tr' ∧ note_free tr'.

(** What the goroutine has done when it leaves the pod alone. *)
Definition left_alone (p : Pod) (tr : trace) : Prop :=
  (∃ w, tr = [Call (CtxErr group_ctx) (Some w)]) ∨
  (∃ t, tr = [Call (BackOffIn (backOffID p) t) true; Call Now t; Call (CtxErr group_ctx) None]).

Lemma note_free_call Y (e : event Y) x tr : no_note Y e = true → note_free tr → note_free (Call e x :: tr).
Proof. intros He (new & -> & Hn). exists (Call e x :: new). split; [done|]. by constructor. Qed.

(** C26: The goroutine of a pod that returns either leaves the notes and the pod
    alone - it has asked the group, found it cancelled and done nothing else, or has
    asked the group, the clock and the back-off, found the pod waiting and done
    nothing else -; or it writes one note, with its last call, of the state it saw
    and a time that is not before the clock and at most ten minutes ahead, at once
    after a failure.  A round ten minutes later therefore finds the pod due. *)
Theorem sync_pod_due table pods p crt last :
  wp any_env (sync_pod table pods p crt last) [] (λ o tr,
    match o with
    | Done e =>
        (e = None ∧ left_alone p tr) ∨
        ∃ s t, noted (pod_Name p) s t tr ∧ sy_podStatus s = crt ∧
          (t ≤ sy_nextSyncAt s ≤ t + 10 * Minute)%Z ∧ (e ≠ None → sy_nextSyncAt s = t) ∧
          ∀ st now, is_mount_pod p = true → (t + 10 * Minute ≤ now)%Z →
            due (<[pod_Name p := s]> st) now p
    | _ => note_free tr
    end).
Proof.
  unfold sync_pod. cbn [call bind wp].
  intros [w|] _; cbn [call bind wp]; [left; split; [done|left; by exists w]|].
  intros clock _ [|] _; cbn [call bind wp]; [left; split; [done|right; by exists clock]|].
  apply wp_bind. eapply wp_mono; [|apply wp_and; [apply (wp_yields _ no_delay), Run_no_delay
    |apply (wp_within _ no_note), Run_no_note]].
  intros o tr [Hres He]. assert (note_free tr) as Hf.
  { eapply transitivity; [|exact He]. by do 3 (apply note_free_call; [done|]); exists []. }
  destruct o as [res|m|]; [|done..]. cbn [call bind wp]. intros syncAt _.
  apply (note_free_call _ Now syncAt) in Hf; [|done].
  assert (∀ s t (e : option error) tr, noted (pod_Name p) s t tr → sy_podStatus s = crt →
    (t ≤ sy_nextSyncAt s ≤ t + 10 * Minute)%Z → (e ≠ None → sy_nextSyncAt s = t) →
    (e = None ∧ left_alone p tr) ∨ ∃ s t, noted (pod_Name p) s t tr ∧ sy_podStatus s = crt ∧
      (t ≤ sy_nextSyncAt s ≤ t + 10 * Minute)%Z ∧ (e ≠ None → sy_nextSyncAt s = t) ∧
      ∀ st now, is_mount_pod p = true → (t + 10 * Minute ≤ now)%Z →
        due (<[pod_Name p := s]> st) now p) as Hgoal.
  { intros s t e tr' Hn Hc Hb He'. right. exists s, t. split_and!; try done; [lia|lia|].
    intros st now Hm Hnow. split; [done|]. rewrite lookup_insert_eq. right. lia. }
  destruct res as [r|e]; cbn [call bind wp].
  - intros [] _ t _ [] _. apply (Hgoal (MkPodSync crt syncAt (next_sync t r)) t); [|done| |done].
    { eexists _, _. split; [done|]. by apply note_free_call. }
    cbn in Hres |- *. unfold next_sync. rewrite Hres. unfold Minute, Second. destruct (RequeueImmediately r); cbn; lia.
  - intros now _ [] _ t _ [] _. apply (Hgoal (MkPodSync crt syncAt t) t); [|done| |done].
    { eexists _, _. split; [done|]. by do 2 (apply note_free_call; [done|]). }
    cbn. unfold Minute, Second. lia.
Qed.
End facts.

(** ** Examples *)

Section reconciler_examples.
#[local] Existing Instances demo_globals demo_ext.
#[local] Instance reconciler_fuel : Fuel := 3.

(** The kubelet lists a mount pod without a note, one with a note of its state
    that is not due before the time 100, and an application pod. *)
Definition demo_body : string := "pods:dingofs-node1-pvc-1-abcdef,dingofs-node1-pvc-2-abcdef,web".
Definition demo_listed : list Pod :=
  demo_pod <$> ["dingofs-node1-pvc-1-abcdef"; "dingofs-node1-pvc-2-abcdef"; "web"].
Definition demo_notes : gmap string PodSync :=
  {[ "dingofs-node1-pvc-2-abcdef" :=
       MkPodSync (getPodStatus (Some (demo_pod "dingofs-node1-pvc-2-abcdef"))) 0 100 ]}.

Definition demo_client : KubeletClient :=
  MkKubeletClient "127.0.0.1" 10250 DefaultTransport (MkTransport "" "" "" "" "" "" true "token") Second.

Lemma round_starts_due_witness :
  wp (round_env demo_body [] demo_notes 10) (round demo_client) [] (λ o tr,
    o = Done tt ∧
    started tr = (sync_task [] demo_listed demo_notes <$> filter (due demo_notes 10) demo_listed) ∧
    ∃ tr', tr = Call (Sleep (config.ReconcilerInterval * Second)) tt :: Call GroupWait tt :: tr') ∧
  pod_Name <$> filter (due demo_notes 10) demo_listed = ["dingofs-node1-pvc-1-abcdef"].
Proof.
  split; [|vm_compute; reflexivity].
  apply (round_starts_due (G := demo_globals) (X := demo_ext) demo_client demo_body demo_listed [] demo_notes 10).
  - discriminate.
  - vm_compute. reflexivity.
Defined.
End reconciler_examples.
