(* ===== verification/ControllerService.v ===== *)
(** * ControllerService: the CSI controller ([src/pkg/dingofs-driver/controller.go])

    Creating, deleting and expanding volumes.  The map of known volumes and the
    volume locks are shared by concurrent requests: each access to them is an
    event, and [vols_serve] is the state behind those events. *)

From S2P Require Import Prelude GoStrings GoNum Objects Effects Interleave Config Demo Security Setting Util.
From S2P Require Import FsTool K8sClient Resource Builder ApiServer PodMount Provider.

(** ** Messages *)

Inductive AccessMode :=
  | UNKNOWN | SINGLE_NODE_WRITER | SINGLE_NODE_READER_ONLY | MULTI_NODE_READER_ONLY
  | MULTI_NODE_SINGLE_WRITER | MULTI_NODE_MULTI_WRITER | SINGLE_NODE_SINGLE_WRITER
  | SINGLE_NODE_MULTI_WRITER.
#[export] Instance AccessMode_eq_dec : EqDecision AccessMode.
Proof. solve_decision. Defined.

(** The access type of a capability; that of a mount has its flags, or is nil. *)
Inductive AccessType :=
  | NoAccessType
  | AccessBlock
  | AccessMount (flags : option (list string)).

Record VolumeCapability := MkCapability {
  vc_AccessType : AccessType;
  vc_AccessMode : option AccessMode
}.

(** [AccessMode.GetMode()] and [GetMount()], which accept nil. *)
Definition GetMode (vc : VolumeCapability) : AccessMode := default UNKNOWN (vc_AccessMode vc).
Definition mount_flags (vc : VolumeCapability) : list string :=
  match vc_AccessType vc with AccessMount (Some l) => l | _ => [] end.

Record CapacityRange := MkRange { RequiredBytes : Z; LimitBytes : Z }.

Record CreateVolumeRequest := MkCreateVolume {
  cv_Name : string;
  cv_VolumeCapabilities : option (list VolumeCapability);
  cv_Parameters : smap;
  cv_Secrets : option smap;
  cv_CapacityRange : option CapacityRange
}.
Record csi_Volume := MkCsiVolume {
  v_VolumeId : string;
  v_CapacityBytes : Z;
  v_VolumeContext : smap
}.
Record ExpandVolumeRequest := MkExpandVolume {
  ev_VolumeId : string;
  ev_CapacityRange : option CapacityRange;
  ev_VolumeCapability : option VolumeCapability;
  ev_Secrets : option smap
}.

(** ** Capabilities *)

Definition volumeCaps : list AccessMode :=
  [SINGLE_NODE_WRITER; MULTI_NODE_MULTI_WRITER; MULTI_NODE_READER_ONLY].

Definition hasSupport (vc : VolumeCapability) : bool :=
  match vc_AccessType vc with
  | AccessMount _ => bool_decide (GetMode vc ∈ volumeCaps)
  | _ => false
  end.
Definition isValidVolumeCapabilities (volCaps : list VolumeCapability) : bool :=
  forallb hasSupport volCaps.

Definition refuse {A} (code : grpc_code) (msg : string) : prog (result A) :=
  Ret (Err (ErrStatus code msg)).
#[export] Hint Unfold refuse : go.
Definition unimplemented {A} : result A := Err (ErrStatus CodeUnimplemented "").

Section controller.
Context `{G : !Globals} `{X : !Ext} `{F : !Fuel}.

(** ** Requests *)

Definition CreateVolume (c : ctx) (req : CreateVolumeRequest) : prog (result csi_Volume) :=
  let name := cv_Name req in
  if decide (name = "") then refuse CodeInvalidArgument "Volume Name cannot be empty"
  else match cv_VolumeCapabilities req with
  | None => refuse CodeInvalidArgument "Volume Capabilities cannot be empty"
  | Some caps =>
      if negb (isValidVolumeCapabilities caps)
      then refuse CodeInvalidArgument "Volume Capabilities not fully supported"
      else
        let subPath := TrimPrefix name "pvc-" in
        let secrets := nil_map (cv_Secrets req) in
        let requiredCap := match cv_CapacityRange req with Some r => RequiredBytes r | None => 0%Z end in
        capa <- call (VolsLoad name) ;;
        if match capa with Some n => bool_decide (n < requiredCap)%Z | None => false end then
          refuse CodeAlreadyExists ("Volume: " +:+ quote name +:+ ", capacity bytes: "
                                    +:+ Itoa requiredCap)
        else
          call (VolsStore name requiredCap) ;;;
          if existsb (λ vc, bool_decide (GetMode vc = MULTI_NODE_READER_ONLY)) caps then
            refuse CodeInvalidArgument "Dynamic mounting uses the sub-path named pv name as data isolation, so read-only mode cannot be used."
          else
            e <- DfsCreateVol subPath secrets ;;
            match e with
            | Some e => refuse CodeInternal ("Could not createVol in dingofs: " +:+ error_text e)
            | None =>
                e <- SetQuota c secrets None (path_Join ["/"; subPath]) requiredCap ;;
                match e with
                | Some e => refuse CodeInternal ("set quota for subPath " +:+ subPath +:+ ": "
                                                 +:+ error_text e)
                | None =>
                    Ret (Ok (MkCsiVolume name requiredCap
                               (<["capacity" := Itoa requiredCap]>
                                 (<["subPath" := subPath]> (cv_Parameters req)))))
                end
            end
  end.

Definition DeleteVolume (c : ctx) (volumeID : string) (secrets : option smap) : prog (result unit) :=
  if decide (volumeID = "") then refuse CodeInvalidArgument "Volume ID not provided"
  else if negb (CheckDynamicPV volumeID) then Ret (Ok tt)
  else if decide (nil_map secrets = ∅) then Ret (Ok tt)
  else
    acquired <- call (VolTryAcquire volumeID) ;;
    if negb acquired then
      refuse CodeAborted ("DeleteVolume: Volume " +:+ quote volumeID
                          +:+ " is being used by another operation")
    else
      defer (VolRelease volumeID)
        (e <- DfsDeleteVol c volumeID volumeID secrets ;;
         match e with
         | Some e => refuse CodeInternal ("Could not delVol in dingofs: " +:+ error_text e)
         | None => call (VolsDelete volumeID) ;;; Ret (Ok tt)
         end).

(** [ValidateVolumeCapabilities]: the confirmed capabilities, or none. *)
Definition ValidateVolumeCapabilities (volumeID : string) (volCaps : list VolumeCapability)
    : prog (result (option (list VolumeCapability))) :=
  if decide (volumeID = "") then refuse CodeInvalidArgument "Volume ID not provided"
  else if decide (length volCaps = 0) then
    refuse CodeInvalidArgument "Volume capabilities not provided"
  else
    v <- call (VolsLoad volumeID) ;;
    match v with
    | None => refuse CodeNotFound ("Could not get volume by ID " +:+ quote volumeID)
    | Some _ =>
        Ret (Ok (if isValidVolumeCapabilities volCaps then Some volCaps else None))
    end.

(** The [subdir] among the mount options, the last one. *)
Definition quota_subdir (options : list string) : string :=
  foldl (λ d o, match Split o "=" with
                | ["subdir"; v] => path_Join ["/"; v]
                | _ => d
                end) "" options.

(** [ControllerExpandVolume]: the new size; the node has nothing to expand. *)
Definition ControllerExpandVolume (c : ctx) (req : ExpandVolumeRequest) : prog (result (Z * bool)) :=
  let volumeID := ev_VolumeId req in
  if decide (volumeID = "") then refuse CodeInvalidArgument "Volume ID not provided"
  else match ev_CapacityRange req with
  | None => refuse CodeInvalidArgument "Capacity range not provided"
  | Some r =>
      let newSize := RequiredBytes r in
      let maxVolSize := LimitBytes r in
      if decide (0 < maxVolSize ∧ maxVolSize < newSize)%Z then
        refuse CodeInvalidArgument "After round-up, volume size exceeds the limit specified"
      else match ev_VolumeCapability req with
      | None => refuse CodeInvalidArgument "Volume capability not provided"
      | Some volCap =>
          quotaPath <- GetSubPath volumeID ;;
          match quotaPath with
          | Err e => refuse CodeInternal ("get quotaPath error: " +:+ error_text e)
          | Ok quotaPath =>
              s <- InitDfs true volumeID "" (ev_Secrets req) None (Some (mount_flags volCap)) ;;
              match s.2 with
              | Err e => refuse CodeInternal ("get settings: " +:+ error_text e)
              | Ok s =>
                  e <- SetQuota c (nil_map (ev_Secrets req)) (Some s)
                         (path_Join [quota_subdir (s_MountOptions s); quotaPath]) newSize ;;
                  match e with
                  | Some e => refuse CodeInternal ("set quota: " +:+ error_text e)
                  | None => Ret (Ok (newSize, false))
                  end
              end
          end
      end
  end.
End controller.

(** ** The shared state *)

(** [controllerService]: the known volumes and the volumes being deleted. *)
Record controllerService := MkController { vols : gmap string Z; volLocks : VolumeLocks }.

Definition vols_serve {X} (e : event X) (st : controllerService) : option (X * controllerService) :=
  match e in event X return option (X * controllerService) with
  | VolTryAcquire v => let '(b, l) := TryAcquire (volLocks st) v in Some (b, MkController (vols st) l)
  | VolRelease v => Some (tt, MkController (vols st) (Release (volLocks st) v))
  | VolsLoad n => Some (vols st !! n, st)
  | VolsStore n z => Some (tt, MkController (<[n := z]> (vols st)) (volLocks st))
  | VolsDelete n => Some (tt, MkController (delete n (vols st)) (volLocks st))
  | _ => None
  end.

(** * Properties *)

Section controller_facts.
Context `{G : !Globals} `{X : !Ext} `{F : !Fuel}.

(** ** Quotas *)

Lemma quota_gib_div capacity : quota_gib capacity = (capacity ÷ 2 ^ 30)%Z.
Proof. unfold quota_gib. rewrite !Z.quot_quot by lia. done. Qed.

(** A quota is set from one GiB on, rounded down. *)
Lemma quota_gib_pos capacity :
  (0 < quota_gib capacity)%Z →
  (2 ^ 30 ≤ capacity)%Z ∧ (quota_gib capacity * 2 ^ 30 ≤ capacity < (quota_gib capacity + 1) * 2 ^ 30)%Z.
Proof.
  rewrite quota_gib_div. intros H. assert (0 ≤ capacity)%Z as Hc.
  { apply Z.nlt_ge. intros Hneg. assert (capacity ÷ 2 ^ 30 ≤ 0)%Z; [|lia].
    apply Z.quot_le_upper_bound; lia. }
  rewrite Z.quot_div_nonneg in H |- * by lia.
  pose proof (Z.div_mod capacity (2 ^ 30)). pose proof (Z.mod_pos_bound capacity (2 ^ 30)). nia.
Qed.

(** The command that sets the quota of a path, run or left to run. *)
Definition quota_args (secrets : smap) (path : string) (capacity : Z) : list string :=
  ["fs"; "quota"; "set"; "--fsname"; m_get secrets "name"; "--path"; path;
   "--capacity"; Itoa (quota_gib capacity); "--mdsaddr"; m_get secrets "mdsAddr"].
Definition quota_asked (secrets : smap) (path : string) (capacity : Z) : call_pred := λ Y e,
  match e in event Y return Y → Prop with
  | ExecEnv _ cmd args _ => λ r, cmd = config.DfsCMDPath ∧ args = quota_args secrets path capacity ∧
                                 wrapSetQuotaErr r.1 r.2 = None
  | Spawn (TaskSetQuota args _) => λ _, args = quota_args secrets path capacity
  | _ => λ _, False
  end.

Lemma SetQuota_asked c secrets s path capacity tr :
  wp any_env (SetQuota c secrets s path capacity) tr (λ o tr', o = Done None →
    (2 ^ 30 ≤ capacity)%Z ∧ happened (quota_asked secrets path capacity) tr').
Proof.
  unfold SetQuota. case_decide as Hc; [done|].
  assert (2 ^ 30 ≤ capacity)%Z as Hp by (apply quota_gib_pos; lia).
  unfold cmd_envs. cbn [call bind wp]. intros env _ [] _; cbn [call bind wp].
  - intros [out oe] _ E. injection E as E. split; [done|]. by left.
  - intros [] _ _. split; [done|]. by left.
  - intros [] _ _. split; [done|]. by left.
Qed.

(** ** Creating a volume *)

(** The directory of a volume in the file system of the secret, on the host. *)
Definition volume_dir (secrets : smap) (subPath : string) : string :=
  path_Join [path_Join [config.HostContainerDir +:+ config.DefaultHostDfsPath; m_get secrets "name"];
             subPath].
(** The directory was made, or its [Stat] did not answer that it is missing: it is
    there, or the answer was another error. *)
Definition dir_not_missing (path : string) : call_pred := λ Y e,
  match e in event Y return Y → Prop with
  | Stat p => λ r, p = path ∧ on_err os_IsNotExist (result_err r) = false
  | MkdirAll p _ => λ r, p = path ∧ r = None
  | _ => λ _, False
  end.

Lemma DfsCreateVol_there subPath secrets tr :
  wp any_env (DfsCreateVol subPath secrets) tr (λ o tr',
    o = Done None → happened (dir_not_missing (volume_dir secrets subPath)) tr').
Proof.
  unfold DfsCreateVol. cbn [call bind wp]. intros fi _.
  destruct (on_err os_IsNotExist (result_err fi)) eqn:Hf.
  - cbn [call bind wp]. intros [e|] _; [done|]. intros _. by left.
  - intros _. by left.
Qed.

(** A [Stat] that fails with another error than "not exist" is taken for a
    directory that is there: the creation reports success after this one call. *)
Theorem DfsCreateVol_unknown subPath secrets e :
  os_IsNotExist e = false →
  runs (DfsCreateVol subPath secrets) [] [Call (Stat (volume_dir secrets subPath)) (Err e)] (Done None).
Proof.
  intros He. unfold DfsCreateVol. cbn [call bind]. eapply (runs_vis _ _ (Err e)). cbn [result_err on_err].
  rewrite He. apply runs_ret.
Qed.

(** A volume that was created has its directory and its quota: a successful
    [CreateVolume] returns the name as the id, the capacity asked for, at least
    one GiB, and the parameters with the sub path and the capacity added; the
    directory of the sub path was made or not found to be missing, and the quota
    command for it, in whole GiB, succeeded, is unsupported, or still runs; no capability
    is read-only. *)
Theorem CreateVolume_ok c req :
  wp any_env (CreateVolume c req) [] (λ o tr, ∀ v, o = Done (Ok v) →
    let subPath := TrimPrefix (cv_Name req) "pvc-" in
    let secrets := nil_map (cv_Secrets req) in
    v_VolumeId v = cv_Name req ∧ (2 ^ 30 ≤ v_CapacityBytes v)%Z ∧
    (∃ r, cv_CapacityRange req = Some r ∧ RequiredBytes r = v_CapacityBytes v) ∧
    v_VolumeContext v = <["capacity" := Itoa (v_CapacityBytes v)]>
                          (<["subPath" := subPath]> (cv_Parameters req)) ∧
    happened (dir_not_missing (volume_dir secrets subPath)) tr ∧
    happened (quota_asked secrets (path_Join ["/"; subPath]) (v_CapacityBytes v)) tr ∧
    ∃ caps, cv_VolumeCapabilities req = Some caps ∧
      Forall (λ vc, hasSupport vc = true ∧ GetMode vc ≠ MULTI_NODE_READER_ONLY) caps).
Proof.
  unfold CreateVolume. case_decide; [done|].
  destruct (cv_VolumeCapabilities req) as [caps|]; [|done].
  destruct (isValidVolumeCapabilities caps) eqn:Hv; [|done]. cbn [negb call bind wp].
  set (cap := match cv_CapacityRange req with Some r => _ | None => _ end).
  intros capa _. destruct (match capa with Some n => _ | None => _ end); [done|].
  cbn [call bind wp]. intros [] _. destruct (existsb _ caps) eqn:Hro; [done|].
  apply wp_bind. eapply wp_mono; [|apply DfsCreateVol_there]. intros [[e|]|m|] tr1 H1; [done| |done..].
  specialize (H1 eq_refl). apply wp_bind.
  eapply wp_mono; [|apply wp_and; [apply (wp_keeps _ _ _ _ H1)|apply SetQuota_asked]].
  intros [[e|]|m|] tr2 [H2 H3]; [done| |done..]. destruct (H3 eq_refl) as [Hcap H4].
  intros v [= <-]. cbn. split_and!; try done.
  - unfold cap in *. destruct (cv_CapacityRange req) as [r|]; [by exists r|lia].
  - exists caps. split; [done|]. apply Forall_forall. intros vc Hin. split.
    + unfold isValidVolumeCapabilities in Hv. rewrite forallb_forall in Hv.
      by apply Hv, list_elem_of_In.
    + intros Hm. assert (existsb (λ vc, bool_decide (GetMode vc = MULTI_NODE_READER_ONLY)) caps = true);
        [|congruence]. apply existsb_bool_decide. by exists vc.
Qed.

(** ** Deleting a volume *)

(** The job that removes the directory [p]. *)
Definition deletes_path (p : string) (j : Job) : Prop :=
  ∃ s cn cns, s_SubPath s = p ∧ spec_Containers (job_Template j) = cn :: cns ∧
    cn_Command cn = ["sh"; "-c"; Join [genInitFSCommand s; getDeleteVolumeCmd s] newline].

Lemma NewJobForDeleteVolume_path s tr :
  wp any_env (NewJobForDeleteVolume s) tr (λ o tr',
    tr' = tr ∧ match o with Done (_, j) => deletes_path (s_SubPath s) j | _ => True end).
Proof.
  unfold NewJobForDeleteVolume, newJob, genCommonPod.
  set (s0 := set_s_SecretName _ s). destruct (GenPodAttrWithCfg_nil s0) as (a & -> & _).
  destruct (genMetadata _) as [labels annos]. unfold genDfsVolumes.
  destruct (spec_Containers (pod_Spec CSIPod)); [done|].
  destruct (config_volumes 1 _) as [cvs cms]. cbn [bind wp]. split; [done|].
  exists (set_s_Attr (Some a) s0). do 2 eexists. split; [done|]. split; [cbn; reflexivity|reflexivity].
Qed.

Definition no_job_create : event_pred := λ Y e, match e with JobCreate _ => false | _ => true end.
Definition delete_job_guard (p : string) : guard := λ Y e _ _,
  match e with JobCreate j => deletes_path p j | _ => True end.

Lemma no_job_guard p Y (e : event Y) x tr :
  no_job_create Y e = true → delete_job_guard p Y e x tr.
Proof. by destruct e. Qed.

Lemma InitDfs_no_job b v t secrets volCtx opts :
  within no_job_create (InitDfs b v t secrets volCtx opts).
Proof.
  unfold InitDfs, volume_objects, GetPVWithVolumeHandleOrAppInfo, CreateFS, config_quota,
    CheckFsExisted. within_run.
Qed.
Lemma createOrUpdateSecret_no_job s : within no_job_create (createOrUpdateSecret s).
Proof. apply within_RetryOnConflict; [done|]. unfold create_or_update_secret. within_run. Qed.
Lemma await_job_no_job c j : within no_job_create (await_job c j).
Proof.
  unfold await_job, waitUtilJobCompleted, job_round, getNotCompleteCnLog, IsJobShouldBeRecycled. within_run.
Qed.
#[local] Hint Resolve createOrUpdateSecret_no_job await_job_no_job : go.

Lemma DfsDeleteVol_path c volumeID subPath secrets tr :
  guarded (delete_job_guard subPath) tr →
  wp any_env (DfsDeleteVol c volumeID subPath secrets) tr (λ _ tr',
    guarded (delete_job_guard subPath) tr').
Proof.
  assert (∀ A (p : prog A) tr, within no_job_create p → guarded (delete_job_guard subPath) tr →
    wp any_env p tr (λ _ tr', guarded (delete_job_guard subPath) tr')) as Hw.
  { intros A p tr1 Hp Hg. eapply wp_mono; [|apply (wp_within _ no_job_create), Hp].
    intros o tr2 He. eapply extends_guarded; [apply no_job_guard|exact He|done]. }
  intros Hg. unfold DfsDeleteVol. cbn [GetPersistentVolume call bind wp]. intros [pv|e] _; [|done].
  destruct (pv_CSI pv) as [csi|]; [|done].
  apply wp_bind. eapply wp_mono; [|apply Hw; [apply InitDfs_no_job|done]].
  intros [[vc [s|e]]|m|] tr1 Hg1; [|done..]. cbn [snd].
  apply wp_bind. unfold PodMount.DeleteVolume. apply wp_bind.
  set (s1 := set_s_MountPath _ (set_s_SubPath subPath s)).
  eapply wp_mono; [|apply (NewJobForDeleteVolume_path s1)].
  intros [[s2 j]|m|] tr2 [-> Hj]; [|done..]. change (s_SubPath s1) with subPath in Hj.
  assert (∀ (p : prog (option error)) tr, within no_job_create p →
    guarded (delete_job_guard subPath) tr → wp any_env p tr (λ o tr', match o with
      | Done None => wp any_env (DfsCleanupMountPoint c (s_MountPath s1)) tr' (λ _ tr',
                       guarded (delete_job_guard subPath) tr')
      | _ => guarded (delete_job_guard subPath) tr'
      end)) as Hend.
  { intros p tr2 Hp Hg2. eapply wp_mono; [|by apply Hw]. intros [[e|]|m|] tr3 Hg3; [done| |done..].
    apply Hw; [|done]. by apply within_DoWithTimeout_err. }
  assert (∀ owner, within no_job_create
    (check createOrUpdateSecret (SetJobAsOwner (NewSecret s2) owner) ;; await_job c j)) as Hrest
    by (intros; within_run).
  unfold get_or_create_job, GetJob, CreateJob. cbn [call bind wp]. intros [old|e] _.
  - eapply wp_mono; [|apply Hend; [apply Hrest|by split]]. by intros [[e|]|m|] tr2 H.
  - destruct (IsNotFound e); [|by split]. cbn [call bind wp]. intros [j'|e'] _.
    + eapply wp_mono; [|apply Hend; [apply Hrest|by split_and!]]. by intros [[e'|]|m|] tr2 H.
    + by split_and!.
Qed.

(** The directory that is deleted is not the one that was created: for a
    volume whose name starts with [pvc-], creating it makes only directories of
    the name without that prefix, and deleting it runs only jobs for the name
    with it. *)
Theorem deleted_directory_differs c req volumeID secrets :
  wp any_env (CreateVolume c req) [] (λ _ tr, guarded (λ Y e _ _,
    match e with
    | MkdirAll p _ => p = volume_dir (nil_map (cv_Secrets req)) (TrimPrefix (cv_Name req) "pvc-")
    | _ => True
    end) tr) ∧
  wp any_env (DeleteVolume c volumeID secrets) [] (λ _ tr,
    guarded (delete_job_guard volumeID) tr) ∧
  (∀ x, TrimPrefix ("pvc-" +:+ x) "pvc-" = x ∧ x ≠ "pvc-" +:+ x).
Proof.
  split_and!.
  - set (R := λ Y e _ _, _). assert (∀ A (p : prog A) tr,
      within (λ Y e, match e with MkdirAll _ _ => false | _ => true end) p → guarded R tr →
      wp any_env p tr (λ _ tr', guarded R tr')) as Hw.
    { intros A p tr Hp Hg. eapply wp_mono; [|apply wp_within, Hp]. intros o tr' He.
      eapply extends_guarded; [|exact He|done]. by intros Y [] x tr1. }
    unfold CreateVolume. case_decide; [done|]. destruct (cv_VolumeCapabilities req); [|done].
    destruct (isValidVolumeCapabilities _); [|done]. cbn [negb call bind wp]. intros capa _.
    destruct (match capa with Some n => _ | None => _ end); [done|].
    cbn [call bind wp]. intros [] _. destruct (existsb _ _); [done|].
    unfold DfsCreateVol. cbn [call bind wp]. intros fi _. case_match; cbn [call bind wp].
    + intros [e|] _; cbn [bind wp]; [by split_and!|]. apply Hw; [|by split_and!].
      unfold SetQuota, cmd_envs. within_run.
    + apply Hw; [|by split_and!]. unfold SetQuota, cmd_envs. within_run.
  - unfold DeleteVolume. case_decide; [done|]. destruct (CheckDynamicPV volumeID); [|done].
    cbn [negb]. case_decide; [done|]. cbn [call bind wp]. intros [] _; [|done]. cbn [negb].
    apply wp_defer. apply wp_bind. eapply wp_mono; [|by apply DfsDeleteVol_path; split].
    intros [[e|]|m|] tr Hg; [|cbn [call bind wp]; intros [] _|..]; try done; by split_and!.
  - intros x. split; [apply TrimPrefix_app|]. intros E. apply (f_equal len) in E.
    rewrite len_append in E. cbn in E. lia.
Qed.

(** ** The shared state *)

(** The service with its state, over an environment [h]. *)
Definition with_vols {W} (h : handler W) : handler (controllerService * W) := λ Y e sw,
  match vols_serve e sw.1 with
  | Some (x, st) => (x, (st, sw.2))
  | None => let '(x, w) := h Y e sw.2 in (x, (sw.1, w))
  end.

Definition off_vols : event_pred := λ Y e,
  match e with
  | VolTryAcquire _ | VolRelease _ | VolsLoad _ | VolsStore _ _ | VolsDelete _ => false
  | _ => true
  end.

Lemma off_vols_state {W A} (h : handler W) (p : prog A) st w :
  within off_vols p → ∃ o w', interp (with_vols h) p (st, w) = (o, (st, w')).
Proof.
  revert w. induction p as [a|Y e k IH|m|]; intros w Hp; cbn [interp]; eauto.
  destruct Hp as [He Hk]. assert (vols_serve e st = None) as Hs by (by destruct e).
  unfold with_vols at 1. cbn [fst snd]. rewrite Hs. destruct (h Y e w) as [x w1]. by apply IH.
Qed.

(** A volume that could not be created is remembered all the same: when
    [CreateVolume] fails with an internal error, its capacity is recorded, and
    a request for more is refused because the volume exists. *)
Theorem failed_create_remembered {W} (h : handler W) c req st w msg st' w' req' caps' :
  let cap r := match cv_CapacityRange r with Some r => RequiredBytes r | None => 0%Z end in
  interp (with_vols h) (CreateVolume c req) (st, w) =
    (Done (Err (ErrStatus CodeInternal msg)), (st', w')) →
  cv_Name req' = cv_Name req → cv_VolumeCapabilities req' = Some caps' →
  isValidVolumeCapabilities caps' = true → (cap req < cap req')%Z →
  vols st' !! cv_Name req = Some (cap req) ∧
  ∃ msg', interp (with_vols h) (CreateVolume c req') (st', w') =
    (Done (Err (ErrStatus CodeAlreadyExists msg')), (st', w')).
Proof.
  intros cap H Hname Hcaps Hv Hlt.
  assert (cv_Name req ≠ "" ∧ vols st' !! cv_Name req = Some (cap req)) as [Hn Hvol].
  { revert H. unfold CreateVolume. fold (cap req). case_decide as Hn; [done|].
    destruct (cv_VolumeCapabilities req) as [caps|]; [|done].
    destruct (isValidVolumeCapabilities caps); [|done]. cbn [negb call bind interp].
    unfold with_vols at 1. cbn [vols_serve fst snd].
    destruct (match vols st !! cv_Name req with Some n => _ | None => _ end); [done|].
    cbn [call bind interp]. unfold with_vols at 1. cbn [vols_serve fst snd].
    destruct (existsb _ caps); [done|].
    set (st1 := MkController _ _). set (p := bind (DfsCreateVol _ _) _).
    destruct (off_vols_state h p st1 w) as (o & w1 & ->).
    { unfold p, DfsCreateVol, SetQuota, cmd_envs. within_run. }
    intros [= -> <- <-]. split; [done|]. cbn. by rewrite lookup_insert_eq. }
  split; [done|]. unfold CreateVolume. fold (cap req'). rewrite Hname, decide_False, Hcaps, Hv by done.
  cbn [negb call bind interp]. unfold with_vols at 1. cbn [vols_serve fst snd]. rewrite Hvol.
  rewrite bool_decide_eq_true_2 by done. by eexists.
Qed.
End controller_facts.

(** ** Requests that run at the same time *)

#[export] Program Instance volume_locks : TryLock controllerService := {
  shared Y e := vols_serve e;
  held := volLocks;
  lock_change Y e := match e in event Y return Y → option (string * bool) with
                     | VolTryAcquire p => λ b, if b then Some (p, true) else None
                     | VolRelease p => λ _, Some (p, false)
                     | _ => λ _, None
                     end
}.
Next Obligation.
  intros Y e s x s' p He Hc. destruct e; try done. destruct x; [|done]. injection Hc as <-.
  cbn in He. unfold TryAcquire in He. case_decide; [done|]. by injection He as <-.
Qed.
Next Obligation.
  intros Y e s x s' p He Hc. destruct e; try done; [by destruct x|].
  injection Hc as <-. by injection He as _ <-.
Qed.
Next Obligation.
  intros Y e s x s' He Hc. destruct e; try done; cbn in He; [|by injection He as _ <-..].
  destruct x; [done|]. unfold TryAcquire in He. case_decide; [by injection He as <-|done].
Qed.
Next Obligation.
  intros Y e s x He. destruct e; try done. cbn in He. by destruct (TryAcquire _ _).
Qed.

Section controller_pool.
Context `{G : !Globals} `{X : !Ext} `{F : !Fuel}.

Inductive controller_request :=
  | Create (req : CreateVolumeRequest)
  | Delete (volumeID : string) (secrets : option smap).

Definition serve_volume (r : controller_request) : prog (option error) :=
  match r with
  | Create req => r <- CreateVolume Request req ;; Ret (result_err r)
  | Delete v secrets => r <- DeleteVolume Request v secrets ;; Ret (result_err r)
  end.

(** A job that deletes a directory is created by the holder of the volume that
    names it, and a lock is released by its holder. *)
Definition volume_guard : guard := λ Y e x tr,
  release_own Y e x tr ∧
  match e with JobCreate j => ∃ v, holds v tr = true ∧ deletes_path v j | _ => True end.

Lemma holds_off v p tr tr' :
  extends off_vols tr tr' → holds (L := volume_locks) p tr = v → holds p tr' = v.
Proof.
  intros (new & -> & Hn) H. induction Hn as [|[Y e x] new Hc _ IH]; [done|]. by destruct e.
Qed.

Lemma DfsDeleteVol_off c v s secrets : within off_vols (DfsDeleteVol c v s secrets).
Proof.
  assert (∀ l, within off_vols (fs_lines l)).
  { intros l. induction l as [|y l IH]; cbn [fs_lines]; [done|]. unfold fs_line. within_run. }
  assert (∀ s, within off_vols (createOrUpdateSecret s)).
  { intros s1. apply within_RetryOnConflict; [done|]. unfold create_or_update_secret. within_run. }
  unfold DfsDeleteVol, InitDfs, volume_objects, GetPVWithVolumeHandleOrAppInfo, CreateFS,
    config_quota, CheckFsExisted, PodMount.DeleteVolume, NewJobForDeleteVolume, newJob, genCommonPod,
    genDfsVolumes, get_or_create_job, await_job, waitUtilJobCompleted, job_round,
    getNotCompleteCnLog, IsJobShouldBeRecycled, DfsCleanupMountPoint. within_run.
  all: by apply within_DoWithTimeout_err.
Qed.

Lemma CreateVolume_guarded c req :
  wp any_env (CreateVolume c req) [] (λ _ tr, guarded volume_guard tr).
Proof.
  eapply wp_mono; [|apply (wp_within _ (λ Y e,
    match e with VolTryAcquire _ | VolRelease _ | JobCreate _ => false | _ => true end))].
  - intros o tr He. eapply extends_guarded; [|exact He|done].
    intros Y e x tr1 Hp. by destruct e.
  - unfold CreateVolume, DfsCreateVol, SetQuota, cmd_envs. within_run.
Qed.

Lemma DeleteVolume_guarded c v secrets :
  wp any_env (DeleteVolume c v secrets) [] (λ _ tr, guarded volume_guard tr).
Proof.
  unfold DeleteVolume. case_decide; [done|]. destruct (CheckDynamicPV v); [|done].
  cbn [negb]. case_decide; [done|]. cbn [call bind wp]. intros [] _; [|by split; [split|]].
  cbn [negb]. set (tr0 := [Call _ _]). apply wp_defer, wp_bind.
  assert (holds v tr0 = true) as Hv by (cbn; by rewrite decide_True).
  assert (guarded volume_guard tr0) as Hg0 by (by split; [split|]).
  assert (guarded (delete_job_guard v) tr0) as Hd0 by done. clearbody tr0.
  eapply wp_mono; [|apply wp_and; [by apply DfsDeleteVol_path|
    apply (wp_within _ off_vols), DfsDeleteVol_off]].
  intros o tr [Hd He]. assert (holds v tr = true) as Hv' by (by eapply holds_off).
  assert (guarded volume_guard tr) as Hg.
  { clear Hv'. destruct He as (new & -> & Hn). induction Hn as [|[Y e x] new Hc Hn IH]; [done|].
    destruct Hd as [Hj Hd]. split; [|by apply IH].
    assert (holds v (new ++ tr0) = true) as Hh by (eapply holds_off; [by exists new|done]).
    split; [by destruct e|]. destruct e; try done. by exists v. }
  assert (∀ x, guarded volume_guard (Call (VolRelease v) x :: tr)) as Hrel.
  { intros x. split; [|done]. split; [|done]. by intros p [= <-]. }
  destruct o as [[e|]|m|]; [by intros x _| |by intros x _|done].
  cbn [call bind wp]. intros [] _ x _. split; [|by split].
  split; [|done]. by intros p [= <-].
Qed.

Lemma serve_volume_guarded r :
  wp any_env (serve_volume r) [] (λ _ tr, guarded volume_guard tr).
Proof.
  destruct r as [req|v secrets]; unfold serve_volume; apply wp_bind.
  - eapply wp_mono; [|apply CreateVolume_guarded]. by intros [r|m|] tr H.
  - eapply wp_mono; [|apply DeleteVolume_guarded]. by intros [r|m|] tr H.
Qed.

(** C15: Deletions of one volume exclude each other: when any number of requests to
    create and delete volumes run concurrently, in every interleaving and for
    every answer of the environment, no two hold the same volume, and a job that
    deletes a directory is created only by the holder of the volume it is for. *)
Theorem controller_requests_exclusive reqs st :
  rtc pool_step (MkController ∅ ∅, start (serve_volume <$> reqs)) st →
  exclusive st.2 ∧ Forall (λ t : thread, guarded volume_guard t.2) st.2.
Proof.
  assert (∀ R : guard, (∀ Y (e : event Y) x tr, volume_guard Y e x tr → R Y e x tr) →
    Forall (λ p, wp any_env p [] (λ _ tr, guarded R tr)) (serve_volume <$> reqs)) as H.
  { intros R HR. apply Forall_fmap, Forall_true. intros r. cbn.
    eapply wp_mono; [|apply serve_volume_guarded]. intros o tr Hg.
    induction tr as [|[Y e x] tr IH]; [done|]. destruct Hg. split; auto. }
  intros Hr. split.
  - apply (pool_exclusive (serve_volume <$> reqs) (MkController ∅ ∅)); [done| |done].
    apply H. by intros Y e x tr [].
  - eapply pool_guarded; [|exact Hr]. by apply H.
Qed.
End controller_pool.

(** ** Examples *)

Definition demo_volume : string := "pvc-12345678-1234-1234-1234-123456789abc".
Definition demo_deletion : controller_request := Delete demo_volume (Some {[ "name" := "fs" ]}).

(** Two deletions of one volume: the second is turned away. *)
Lemma controller_requests_exclusive_witness :
  ∃ st, schedule [0; 1] (MkController ∅ ∅, start (@serve_volume demo_globals demo_ext (3 : Fuel) <$>
      [demo_deletion; demo_deletion])) = Some st ∧
    (λ t : thread, holds demo_volume t.2) <$> st.2 = [true; false] ∧ exclusive st.2.
Proof.
  apply (schedule_ends (λ st, (λ t : thread, holds demo_volume t.2) <$> st.2)); [by vm_compute|].
  intros st Hr.
  exact (proj1 (controller_requests_exclusive (G := demo_globals) (X := demo_ext) (F := 3) _ _ Hr)).
Defined.
