(* ===== verification/Provisioner.v ===== *)
(** * Provisioner: dynamic volumes

    [src/pkg/dingofs-driver/provisioner.go]: [Provision] creates the directory of
    a claim and describes its volume, [Delete] removes the directory of a volume
    that is not shared.  The calls that register the service with the external
    provisioner are left out, and so is the state [ProvisioningFinished], which
    every result carries. *)

From S2P Require Import Prelude GoStrings GoNum Objects Effects Config Demo Security Setting Util.
From S2P Require Import FsTool K8sClient Resource Template Builder ApiServer PodMount Provider ControllerService.

Section provisioner.
Context `{G : !Globals} `{X : !Ext} `{F : !Fuel}.

(** [newProvisionerService]: the namespace of the leader election. *)
Record provisionerService := MkProvisionerService {
  leaderElection : bool;
  leaderElectionNamespace : string;
  leaderElectionLeaseDuration : Z
}.
Definition newProvisionerService (le : bool) (ns : string) (d : Z) : provisionerService :=
  MkProvisionerService le (if decide (ns = "") then Namespace else ns) d.

(** [Run]: the process ends when there is no client; otherwise the controller of
    the provisioner library runs with the options of the leader election. *)
Definition Run (client : bool) (p : provisionerService) : prog (option Z) :=
  if client then
    call (RunProvisioner DriverName (leaderElection p) (leaderElectionNamespace p)
            (leaderElectionLeaseDuration p)) ;;; Ret None
  else Ret (Some 1%Z).

(** [provisioncontroller.ProvisionOptions]. *)
Record ProvisionOptions := MkProvisionOptions {
  po_StorageClass : StorageClass;
  po_PVName : string;
  po_PVC : PersistentVolumeClaim;
  po_SelectedNode : option Node
}.

(** [Quantity.Value]: whole units, rounded away from zero. *)
Definition quantity_Value (q : Z) : Z :=
  if (0 <=? q)%Z then ((q + 999999999) / 1000000000)%Z else (- ((- q + 999999999) / 1000000000))%Z.

(** The parameters of the class, with their references resolved. *)
Definition sc_params (meta : ObjectMeta) (pvName : string) (params : smap) : smap :=
  map_imap (λ k v, Some (if HasPrefix k "csi.storage.k8s.io/" then ResolveSecret meta v pvName
                         else StringParser meta v)) params.

(** The sub path of the volume: the pattern of the class, or the volume's name. *)
Definition sub_path (scParams : smap) (pvName : string) : string :=
  if decide (m_get scParams "pathPattern" ≠ "") then m_get scParams "pathPattern" else pvName.

Definition mount_options (meta : ObjectMeta) (opts : list string) : list string :=
  opts ≫= λ mo, Split (TrimSpace (StringParser meta mo)) ",".

(** The volume context: the parameters are written last. *)
Definition vol_ctx (scParams : smap) (subPath : string) (q : Z) : smap :=
  merge_into (<["capacity" := Itoa (quantity_Value q)]> {[ "subPath" := subPath ]}) scParams.

Definition secret_data (s : Secret) : smap := nil_map (sec_Data s).

(** The volume that is reported. *)
Definition new_pv (o : ProvisionOptions) (scParams : smap) (mountOptions : list string)
    (volCtx : smap) (policy : string) : PersistentVolume :=
  let par k := m_get scParams k in
  {| pv_Name := po_PVName o;
     pv_UID := "";
     pv_CSI := Some
       {| csi_Driver := DriverName;
          csi_VolumeHandle := po_PVName o;
          csi_VolumeAttributes := volCtx;
          csi_NodePublishSecretRef :=
            Some (par config.PublishSecretName, par config.PublishSecretNamespace);
          csi_ReadOnly := false;
          csi_FSType := "dingofs";
          csi_ControllerExpandSecretRef :=
            if decide (par config.ControllerExpandSecretName ≠ "" ∧
                       par config.ControllerExpandSecretNamespace ≠ "")
            then Some (par config.ControllerExpandSecretName,
                       par config.ControllerExpandSecretNamespace)
            else None |};
     pv_ClaimRef := None;
     pv_StorageClassName := sc_Name (po_StorageClass o);
     pv_MountOptions := mountOptions;
     pv_Annotations := ∅;
     pv_Capacity := pvc_Storage (po_PVC o);
     pv_DeletionTimestamp := None;
     pv_ReclaimPolicy := policy;
     pv_AccessModes := pvc_AccessModes (po_PVC o);
     pv_VolumeMode := pvc_VolumeMode (po_PVC o) |}.

Definition readonly_refused : error :=
  ErrStatus CodeInvalidArgument
    "Dynamic mounting uses the sub-path named pv name as data isolation, so read-only mode cannot be used.".

Definition Provision (o : ProvisionOptions) : prog (result PersistentVolume) :=
  let params := sc_Parameters (po_StorageClass o) in
  match pvc_Selector (po_PVC o) with
  | Some _ => Ret (Err (ErrNew "claim Selector is not supported"))
  | None =>
      let meta := NewObjectMeta (po_PVC o) (po_SelectedNode o) in
      let scParams := sc_params meta (po_PVName o) params in
      let subPath := sub_path scParams (po_PVName o) in
      if decide ("ReadOnlyMany" ∈ pvc_AccessModes (po_PVC o) ∧ m_get params "pathPattern" = "")
      then Ret (Err readonly_refused)
      else
        let mountOptions := mount_options meta (sc_MountOptions (po_StorageClass o)) in
        let volCtx := vol_ctx scParams subPath (pvc_Storage (po_PVC o)) in
        secret <- GetSecret (m_get scParams config.ProvisionerSecretName)
                    (m_get scParams config.ProvisionerSecretNamespace) ;;
        match secret with
        | Err e => Ret (Err (ErrNew ("unable to provision new pv: " +:+ error_text e)))
        | Ok secret =>
            check? DfsCreateVol subPath (secret_data secret) ;;
            match sc_ReclaimPolicy (po_StorageClass o) with
            | None => Panic "nil pointer dereference"
            | Some policy =>
                (if decide (policy = "Delete" ∧ m_get params "secretFinalizer" = "true")
                 then AddSecretFinalizer secret config.Finalizer ;;; Ret tt
                 else Ret tt) ;;;
                Ret (Ok (new_pv o scParams mountOptions volCtx policy))
            end
        end
  end.

(** [Delete]. *)
Definition release_secret (volume : PersistentVolume) (csi : CSISource) (secret : Secret)
    : prog (option error) :=
  if decide (m_get (csi_VolumeAttributes csi) "secretFinalizer" = "true") then
    shouldRemoveFinalizer <-! CheckForSecretFinalizer volume ;;
    if shouldRemoveFinalizer : bool then RemoveSecretFinalizer secret config.Finalizer else Ret None
  else Ret None.

Definition Delete (volume : PersistentVolume) : prog (option error) :=
  if decide (pv_ReclaimPolicy volume ≠ "Delete") then Ret None
  else
    match pv_CSI volume with
    | None => Panic "nil pointer dereference"
    | Some csi =>
        shouldDeleted <-! CheckForSubPath volume (m_get (csi_VolumeAttributes csi) "pathPattern") ;;
        if negb shouldDeleted then Ret None
        else
          let subPath := m_get (csi_VolumeAttributes csi) "subPath" in
          match csi_NodePublishSecretRef csi with
          | None => Panic "nil pointer dereference"
          | Some (secretName, secretNamespace) =>
              secret <-! GetSecret secretName secretNamespace ;;
              e <- DfsDeleteVol Request (pv_Name volume) subPath (Some (secret_data secret)) ;;
              match e with
              | Some e => Ret (Some (ErrNew ("unable to provision delete volume: " +:+ error_text e)))
              | None => release_secret volume csi secret
              end
          end
    end.
End provisioner.

(** * Properties *)

Section facts.
Context `{G : !Globals} `{X : !Ext} `{F : !Fuel}.

(** ** Provisioning *)

(** What a provisioned volume is. *)
Record provisioned (o : ProvisionOptions) (pv : PersistentVolume) (tr : trace) : Prop := {
  pro_name : pv_Name pv = po_PVName o;
  pro_capacity : pv_Capacity pv = pvc_Storage (po_PVC o);
  pro_modes : pv_AccessModes pv = pvc_AccessModes (po_PVC o);
  pro_policy : sc_ReclaimPolicy (po_StorageClass o) = Some (pv_ReclaimPolicy pv);
  pro_source : ∃ csi secret,
    pv_CSI pv = Some csi ∧ csi_Driver csi = DriverName ∧ csi_VolumeHandle csi = po_PVName o ∧
    let params := sc_params (NewObjectMeta (po_PVC o) (po_SelectedNode o)) (po_PVName o)
                    (sc_Parameters (po_StorageClass o)) in
    let sub := sub_path params (po_PVName o) in
    happened (got_secret (m_get params config.ProvisionerSecretName)
                (m_get params config.ProvisionerSecretNamespace) secret) tr ∧
    happened (dir_not_missing (volume_dir (secret_data secret) sub)) tr ∧
    (∀ k v, params !! k = Some v → csi_VolumeAttributes csi !! k = Some v) ∧
    (params !! "subPath" = None → csi_VolumeAttributes csi !! "subPath" = Some sub) ∧
    (params !! "capacity" = None →
       csi_VolumeAttributes csi !! "capacity" = Some (Itoa (quantity_Value (pvc_Storage (po_PVC o)))))
}.

Lemma sc_params_attr scParams sub q k :
  vol_ctx scParams sub q !! k =
  match scParams !! k with
  | Some v => Some v
  | None => (<["capacity" := Itoa (quantity_Value q)]> {[ "subPath" := sub ]} : smap) !! k
  end.
Proof. apply merge_into_lookup. Qed.

(** C27: A claim that was provisioned gets the volume it asked for: the volume of
    the given name with the size, the access modes and the policy of the
    claim and its class, whose attributes are the resolved parameters of the
    class with the sub path and the capacity; and the directory of that sub
    path, in the file system of the secret that was read, was made, or its [Stat]
    did not answer that it is missing (any other error of the [Stat] passes for a
    directory that is there, [DfsCreateVol_unknown]).  A claim for reading only, of a class without a path pattern, is
    refused before any call. *)
Theorem Provision_sound o :
  wp any_env (Provision o) [] (λ out tr,
    match out with Done (Ok pv) => provisioned o pv tr | _ => True end) ∧
  ("ReadOnlyMany" ∈ pvc_AccessModes (po_PVC o) →
   m_get (sc_Parameters (po_StorageClass o)) "pathPattern" = "" →
   ∃ e, Provision o = Ret (Err e)).
Proof.
  split.
  - unfold Provision. destruct (pvc_Selector (po_PVC o)); [done|]. case_decide; [done|].
    unfold GetSecret. cbn [call bind wp]. intros [secret|e] _; [|done].
    set (params := sc_params _ _ _). set (tr0 := [_]).
    assert (happened (got_secret (m_get params config.ProvisionerSecretName)
      (m_get params config.ProvisionerSecretNamespace) secret) tr0) as Hs by by left.
    apply wp_bind. eapply wp_mono; [|apply wp_and; [apply (wp_keeps _ _ _ _ Hs)|apply DfsCreateVol_there]].
    intros [[e|]|m|] tr1 [Hs1 Hd]; [done| |done..]. specialize (Hd eq_refl).
    destruct (sc_ReclaimPolicy (po_StorageClass o)) as [policy|] eqn:Hp; [|done]. apply wp_bind.
    eapply wp_mono; [|apply wp_and; [apply (wp_keeps _ _ _ _ Hs1)|apply (wp_keeps _ _ _ _ Hd)]].
    intros [u|m|] tr2 [Hs2 Hd2]; [|done..]. cbn [wp]. split; try done.
    eexists _, secret. do 3 (split; [done|]). cbv zeta. fold params. cbn [csi_VolumeAttributes].
    split_and!; [done..| | |].
    + intros k v Hk. rewrite sc_params_attr. by rewrite Hk.
    + intros Hk. rewrite sc_params_attr. rewrite Hk. by simplify_map_eq.
    + intros Hk. rewrite sc_params_attr. rewrite Hk. by simplify_map_eq.
  - intros Hm Hp. unfold Provision. destruct (pvc_Selector (po_PVC o)); [by eexists|].
    rewrite decide_True by done. by eexists.
Qed.

(** ** Deleting *)

Definition listed_volumes (pvs : list PersistentVolume) : call_pred := λ Y e,
  match e in event Y return Y → Prop with PVList => λ r, r = Ok pvs | _ => λ _, False end.

Definition delete_guard (volume : PersistentVolume) : guard := λ Y e _ tr,
  match e with
  | JobCreate j => ∃ csi, pv_CSI volume = Some csi ∧ pv_ReclaimPolicy volume = "Delete" ∧
      deletes_path (m_get (csi_VolumeAttributes csi) "subPath") j ∧
      (m_get (csi_VolumeAttributes csi) "pathPattern" = "" ∨
       ∃ pvs, happened (listed_volumes pvs) tr ∧ Forall (λ pv, ¬ uses_subpath volume pv) pvs)
  | _ => True
  end.

Lemma no_job_delete_guard volume {A} (p : prog A) tr :
  within no_job_create p → guarded (delete_guard volume) tr →
  wp any_env p tr (λ _ tr', guarded (delete_guard volume) tr').
Proof.
  intros Hp Hg. eapply wp_mono; [|apply wp_within, Hp]. intros o tr' He.
  eapply extends_guarded; [|exact He|done]. by intros Y [] x tr1.
Qed.

(** What a run adds to a trace is guarded by what held before it. *)
Lemma guarded_since (R R' : guard) (P : trace → Prop) new tr :
  (∀ c tr, P tr → P (c :: tr)) → (∀ Y (e : event Y) x tr, R Y e x tr → P tr → R' Y e x tr) →
  P tr → guarded R' tr → guarded R (new ++ tr) → guarded R' (new ++ tr) ∧ P (new ++ tr).
Proof.
  intros HP HR Ht Hg. induction new as [|[Y e x] new IH]; [done|]. intros [He Hn].
  destruct (IH Hn) as [Hg' Hp]. split; [split; [by apply HR|done]|by apply HP].
Qed.

(** C16: The data of a volume is removed only when its policy says so: a job that
    removes a directory is for the sub path of the volume, and runs only when
    the volume has no path pattern or a list of the volumes, read before, has
    no other live one of the class on the same sub path. *)
Theorem Delete_safe volume :
  wp any_env (Delete volume) [] (λ _ tr, guarded (delete_guard volume) tr).
Proof.
  unfold Delete. case_decide as Hpol; [done|]. destruct (pv_CSI volume) as [csi|] eqn:Hc; [|done].
  set (pat := m_get _ "pathPattern"). apply wp_bind.
  set (P := λ tr : trace, pat = "" ∨ ∃ pvs, happened (listed_volumes pvs) tr ∧
                             Forall (λ pv, ¬ uses_subpath volume pv) pvs).
  set (sub := m_get _ "subPath").
  apply (wp_mono _ _ _ (λ o tr, (guarded (delete_guard volume) tr ∧
    guarded (delete_job_guard sub) tr) ∧ (o = Done (Ok true) → P tr))).
  2:{ apply wp_and; [|destruct (decide (pat = "")) as [He|He]].
      - eapply wp_mono; [|apply (wp_within _ no_job_create)]; [|unfold CheckForSubPath, csi_attr; within_run].
        intros o tr He. by split; (eapply extends_guarded; [|exact He|done]; intros Y [] x tr1).
      - eapply wp_mono; [|apply wp_suffix]. intros o tr _ _. by left.
      - eapply wp_mono; [|by apply CheckForSubPath_ok]. intros o tr H ->.
        destruct H as (pvs & -> & H). right. exists pvs. split; [by left|done]. }
  intros o tr [[Hg Hg'] HP]. destruct o as [[[|]|e]|m|]; cbn [negb wp]; try done. specialize (HP eq_refl).
  assert (∀ c tr, P tr → P (c :: tr)) as HPc.
  { intros c tr1 [?|(pvs & ? & ?)]; [by left|right; exists pvs; split; [by right|done]]. }
  destruct (csi_NodePublishSecretRef csi) as [[sn sns]|]; [|done]. unfold GetSecret. cbn [call bind wp].
  intros r _. set (tr1 := _ :: tr). destruct r as [secret|e]; [|by split]. apply wp_bind.
  eapply wp_mono; [|apply wp_and; [apply wp_suffix|by apply (DfsDeleteVol_path Request (pv_Name volume) sub);
    split]].
  intros o tr2 [[new ->] Hn].
  assert (guarded (delete_guard volume) (new ++ tr1) ∧ P (new ++ tr1)) as [Hg2 _].
  { apply (guarded_since (delete_job_guard sub)); [done| |by apply HPc|by split|done].
    intros Y e x tr2 He HP2. destruct e; try done. exists csi. split_and!; [done| |done|done].
    by destruct (decide (pv_ReclaimPolicy volume = "Delete")). }
  destruct o as [[e|]|m|]; try done. unfold release_secret.
  apply no_job_delete_guard; [|done]. unfold CheckForSecretFinalizer, csi_attr, RemoveSecretFinalizer,
    patchSecretFinalizer. within_run.
Qed.

(** ** Outside the file system *)

Definition escape_secret : Secret :=
  MkSecret "s" "ns" ∅ [] [] (Some {[ "name" := "fs1" ]}) ∅ 0.
Definition escape_options : ProvisionOptions :=
  MkProvisionOptions
    (MkStorageClass "sc" {[ "pathPattern" := "${.PVC.annotations.dir}" ]} "csi.dingofs.com" []
       (Some "Retain"))
    "pvc-1"
    (MkPersistentVolumeClaim "c" "ns" "u" ∅ {[ "dir" := "../fs2" ]} "" None None ["ReadWriteMany"] 0
       None)
    None.
(** No directory exists yet, and the secret is that of the file system [fs1]. *)
Definition escape_handler : handler () := λ Y e w,
  (match e in event Y return Y with SecretGet _ _ => Ok escape_secret | e => quiet e end, w).

(** A claim can leave the file system of its class: with a pattern that takes
    the sub path from an annotation of the claim, the annotation [../fs2]
    makes the directory of another file system the volume's, and it is created
    there. *)
Theorem claim_leaves_file_system :
  m_get (secret_data escape_secret) "name" = "fs1" ∧
  ∃ pv tr, interp (tracing escape_handler) (Provision escape_options) (tt, []) =
    (Done (Ok pv), (tt, Call (MkdirAll "/host/dingofs/fs2" 493) None :: tr)).
Proof. split; [reflexivity|]. do 2 eexists. vm_compute. reflexivity. Qed.
End facts.
