(* ===== verification/NodeService.v ===== *)
(** * NodeService: the CSI node service ([src/pkg/dingofs-driver/node.go])

    Publishing and unpublishing a volume at a target path.  Requests for one
    target exclude each other by the map [nodePublishUnpublishLock]: [lock] and
    [unlock] are its operations, and a request uses them through the events
    [TargetTryLock] and [TargetUnlock]. *)

From S2P Require Import Prelude GoStrings GoNum Objects Effects Interleave Config Demo Security Setting Util.
From S2P Require Import FsTool Kubelet K8sClient Resource Builder ApiServer PodMount Provider ControllerService.

(** ** The lock of the targets *)

Definition lock (held : gset string) (targetPath : string) : bool * gset string :=
  if decide (targetPath ∈ held) then (false, held) else (true, {[ targetPath ]} ∪ held).
Definition unlock (held : gset string) (targetPath : string) : gset string :=
  held ∖ {[ targetPath ]}.

(** ** Messages *)

Record NodePublishVolumeRequest := MkPublish {
  np_VolumeId : string;
  np_TargetPath : string;
  np_VolumeCapability : option VolumeCapability;
  np_Readonly : bool;
  np_Secrets : option smap;
  np_VolumeContext : option smap
}.

(** [csi.VolumeUsage]; the unit is bytes or inodes. *)
Inductive usage_unit := BYTES | INODES.
Record VolumeUsage := MkUsage {
  vu_Available : Z; vu_Total : Z; vu_Used : Z; vu_Unit : usage_unit }.

Section node.
Context `{G : !Globals} `{X : !Ext} `{F : !Fuel}.

(** ** Publishing *)

Definition publish_failed (what : string) (e : error) : error :=
  ErrNew ("NodePublishVolume - " +:+ what +:+ " failed with error [" +:+ error_text e +:+ "]").
Definition in_brackets (s : string) : string := "[" +:+ s +:+ "]".

(** The directory of a local volume on the host. *)
Definition host_vol_path (volumeID : string) (secrets : option smap) : result string :=
  match secrets with
  | Some secrets =>
      Ok (path_Join [config.DefaultHostDfsPath; m_get secrets "name"; TrimPrefix volumeID "pvc-"])
  | None =>
      match GetDfsInfo volumeID with
      | Ok v => Ok (dv_MountPath v)
      | Err _ => Err (ErrStatus CodeInvalidArgument
                        "NodePublishVolume : volumeID is not in proper format")
      end
  end.

(** The bind mount of a local volume; a target that turns out not to be on
    DingoFS is unmounted again. *)
Definition bind_local (hostVolPath targetPath : string) : prog (result unit) :=
  let volPathInContainer := config.HostContainerDir +:+ hostVolPath in
  e <- call (Mount volPathInContainer targetPath "" ["bind"]) ;;
  match e with
  | Some e =>
      Ret (Err (publish_failed ("mounting " +:+ in_brackets hostVolPath +:+ " at "
                                +:+ in_brackets targetPath) e))
  | None =>
      e <- CheckDfsType volPathInContainer ;;
      match e with
      | None => Ret (Ok tt)
      | Some e =>
          uerr <- call (Unmount targetPath) ;;
          match uerr with
          | Some uerr => Ret (Err (publish_failed ("unmount " +:+ in_brackets targetPath) uerr))
          | None => Ret (Err e)
          end
      end
  end.

(** The target of a local volume: whether it is a mount point already. *)
Definition local_target (targetPath : string) : prog (result bool) :=
  r <- call (IsMountPoint targetPath) ;;
  match r with
  | (mntPoint, None) => Ret (Ok mntPoint)
  | (mntPoint, Some e) =>
      if os_IsNotExist e then
        e <- call (Mkdir targetPath 488) ;;
        match e with
        | Some e =>
            Ret (Err (publish_failed ("targetPath " +:+ in_brackets targetPath +:+ " creation") e))
        | None => Ret (Ok mntPoint)
        end
      else Ret (Err (publish_failed ("targetPath " +:+ in_brackets targetPath +:+ " check") e))
  end.

Definition publish_local (req : NodePublishVolumeRequest) : prog (result unit) :=
  let targetPath := np_TargetPath req in
  match host_vol_path (np_VolumeId req) (np_Secrets req) with
  | Err e => Ret (Err e)
  | Ok hostVolPath =>
      let volPathInContainer := config.HostContainerDir +:+ hostVolPath in
      fi <- call (Stat volPathInContainer) ;;
      e <- (if on_err os_IsNotExist (result_err fi) then call (MkdirAll volPathInContainer 493)
            else Ret None) ;;
      match e with
      | Some e => Ret (Err (publish_failed ("create " +:+ in_brackets volPathInContainer) e))
      | None =>
          mntPoint <-? local_target targetPath ;;
          if mntPoint : bool then Ret (Ok tt) else bind_local hostVolPath targetPath
      end
  end.

(** The mount options of a request: those of the volume context, then those of
    the capability, then the log options that are missing. *)
Definition request_options (req : NodePublishVolumeRequest) (volCap : VolumeCapability)
    : list string :=
  (match nil_map (np_VolumeContext req) !! "mountOptions" with
   | Some opts => Split opts ","
   | None => []
   end)
  ++ (if np_Readonly req || bool_decide (GetMode volCap = MULTI_NODE_READER_ONLY)
      then ["ro"] else [])
  ++ mount_flags volCap.

Definition log_options (volumeID : string) (opts : list string) : list string :=
  let foundLogPrefix :=
    existsb (λ o, HasPrefix o (config.DefaultS3LogPrefixKey +:+ "=")
                  || HasPrefix o (config.DefaultClientCommonLogDirKey +:+ "=")) opts in
  let foundLogDir := false in
  opts
  ++ (if negb foundLogPrefix
      then [config.DefaultS3LogPrefixKey +:+ "=" +:+ config.DefaultS3LogPrefixVal +:+ "/" +:+ volumeID]
      else [])
  ++ (if negb foundLogDir
      then [config.DefaultClientCommonLogDirKey +:+ "=" +:+ config.DefaultClientCommonLogDirVal
            +:+ "/" +:+ volumeID]
      else []).

(** The volume is mounted by a mount pod and bound to the target. *)
Definition publish_pod (c : ctx) (req : NodePublishVolumeRequest) (volCap : VolumeCapability)
    : prog (result unit) :=
  let volumeID := np_VolumeId req in
  let targetPath := np_TargetPath req in
  let mountOptions := log_options volumeID (request_options req volCap) in
  r <- DfsMount c volumeID targetPath (np_Secrets req) (np_VolumeContext req) (Some mountOptions) ;;
  let '(volCtx, r) := r in
  match r with
  | Err e => refuse CodeInternal ("Could not mount dingofs: " +:+ error_text e)
  | Ok fs =>
      bindSource <- CreateVol c fs (m_get (nil_map volCtx) "subPath") ;;
      match bindSource with
      | Err e => refuse CodeInternal ("Could not create volume: " +:+ volumeID +:+ ", "
                                      +:+ error_text e)
      | Ok bindSource =>
          e <- BindTarget c fs bindSource targetPath ;;
          match e with
          | Some e => refuse CodeInternal ("Could not bind " +:+ quote bindSource +:+ " at "
                                           +:+ quote targetPath +:+ ": " +:+ error_text e)
          | None => Ret (Ok tt)
          end
      end
  end.

Definition publish_locked (c : ctx) (req : NodePublishVolumeRequest) : prog (result unit) :=
  let targetPath := np_TargetPath req in
  match np_VolumeCapability req with
  | None => refuse CodeInvalidArgument "Volume capability not provided"
  | Some volCap =>
      if negb (isValidVolumeCapabilities [volCap])
      then refuse CodeInvalidArgument "Volume capability not supported"
      else
        e <- CreateTarget c targetPath ;;
        match e with
        | Some e => refuse CodeInternal ("Could not create dir " +:+ quote targetPath +:+ ": "
                                         +:+ error_text e)
        | None =>
            if bool_decide (np_Secrets req = None) || LocalPV then publish_local req
            else publish_pod c req volCap
        end
  end.

(** A request for a target, under its lock. *)
Definition with_target_lock {A} (rpc targetPath : string) (p : prog (result A)) : prog (result A) :=
  ok <- call (TargetTryLock targetPath) ;;
  if negb ok then
    refuse CodeInternal (rpc +:+ " - another NodePublish/NodeUnpublish is in progress for the targetPath: "
                         +:+ in_brackets targetPath)
  else defer (TargetUnlock targetPath) p.

Definition NodePublishVolume (c : ctx) (req : NodePublishVolumeRequest) : prog (result unit) :=
  if decide (np_VolumeId req = "") then refuse CodeInvalidArgument "volumeID must be provided"
  else if decide (np_TargetPath req = "") then refuse CodeInvalidArgument "Target path not provided"
  else with_target_lock "NodePublishVolume" (np_TargetPath req) (publish_locked c req).

(** ** Unpublishing *)

(** [UnmountAndDelete] and what the caller makes of it. *)
Definition unpublish_target (targetPath : string) (forceful : bool) : prog (result unit) :=
  r <- UnmountAndDelete targetPath forceful ;;
  let '(needReturn, _, e) := r in
  if needReturn : bool then Ret match e with Some e => Err e | None => Ok tt end
  else Ret (Ok tt).

Definition unpublish_local (targetPath : string) : prog (result unit) :=
  fi <- call (Lstat targetPath) ;;
  match fi with
  | Ok _ => unpublish_target targetPath false
  | Err e =>
      if os_IsNotExist e then Ret (Ok tt)
      else if Contains (error_text e) "stale NFS file handle" then unpublish_target targetPath true
      else refuse CodeInternal ("NodeUnpublishVolume - lstat " +:+ in_brackets targetPath
                                +:+ " failed with error " +:+ in_brackets (error_text e))
  end.

Definition NodeUnpublishVolume (c : ctx) (volumeId targetPath : string) : prog (result unit) :=
  if decide (targetPath = "") then refuse CodeInvalidArgument "Target path not provided"
  else
    with_target_lock "NodeUnpublishVolume" targetPath
      (match GetDfsInfo volumeId with
       | Ok _ => unpublish_local targetPath
       | Err _ =>
           e <- DfsUnmount c volumeId targetPath ;;
           match e with
           | Some e => refuse CodeInternal ("Could not unmount " +:+ quote targetPath +:+ ": "
                                            +:+ error_text e)
           | None => Ret (Ok tt)
           end
       end).

(** ** Statistics *)

(** [int64(x)]: the conversion of an unsigned value wraps. *)
Definition volume_usage (total free : Z) (unit : usage_unit) : VolumeUsage :=
  MkUsage (i64 free) (i64 total) (i64 (i64 total - i64 free)) unit.

Definition NodeGetVolumeStats (c : ctx) (volumeID volumePath : string)
    : prog (result (list VolumeUsage)) :=
  if decide (volumeID = "") then refuse CodeInvalidArgument "Volume ID not provided"
  else if decide (volumePath = "") then refuse CodeInvalidArgument "Volume path not provided"
  else
    r <- DoWithTimeout c defaultCheckTimeout
           (r <- call (PathExists volumePath) ;;
            Ret match r with (b, None) => Ok b | (_, Some e) => Err e end) ;;
    match r with
    | Err e => refuse CodeInternal ("Check volume path, err: " +:+ error_text e)
    | Ok false => refuse CodeNotFound "Volume path not exists"
    | Ok true =>
        notMnt <- DoWithTimeout c defaultCheckTimeout (call (IsNotMountPoint volumePath)) ;;
        match notMnt with
        | Err e => refuse CodeInternal ("Check volume path is mountpoint failed: " +:+ error_text e)
        | Ok true => refuse CodeInternal "Volume path not mounted"
        | Ok false =>
            u <- GetDiskUsage volumePath ;;
            let '(totalSize, freeSize, totalInodes, freeInodes) := u in
            Ret (Ok [volume_usage totalSize freeSize BYTES;
                     volume_usage totalInodes freeInodes INODES])
        end
    end.
End node.

(** * Properties *)

(** ** Requests for one target exclude each other *)

#[export] Program Instance target_locks : TryLock (gset string) := {
  shared X e := match e in event X return gset string → option (X * gset string) with
                | TargetTryLock p => λ s, Some (lock s p)
                | TargetUnlock p => λ s, Some (tt, unlock s p)
                | _ => λ _, None
                end;
  held s := s;
  lock_change X e := match e in event X return X → option (string * bool) with
                     | TargetTryLock p => λ b, if b then Some (p, true) else None
                     | TargetUnlock p => λ _, Some (p, false)
                     | _ => λ _, None
                     end
}.
Next Obligation.
  intros X e s x s' p He Hc. destruct e; try done. destruct x; [|done]. injection Hc as <-.
  injection He as He. unfold lock in He. case_decide; [done|]. by injection He as <-.
Qed.
Next Obligation.
  intros X e s x s' p He Hc. destruct e; try done; [by destruct x|].
  injection Hc as <-. by injection He as _ <-.
Qed.
Next Obligation.
  intros X e s x s' He Hc. destruct e; try done. destruct x; [done|].
  injection He as He. unfold lock in He. case_decide; [by injection He as <-|done].
Qed.
Next Obligation. intros X e s x He. by destruct e. Qed.

(** The path that a command unmounts. *)
Definition umounted (cmd : string) (args : list string) : option string :=
  if decide (cmd = "umount") then last args else None.

(** The calls that change what is mounted at a path, or remove it, are made by
    the holder of its lock, but for the command that unmounts a path of the
    request's [own]; and a lock is released by its holder. *)
Definition target_guard (own : string → bool) : guard := λ X e x tr,
  release_own X e x tr ∧
  match e with
  | Mount _ t _ _ | Unmount t | CleanupMountPoint t _ | Remove t => holds t tr = true
  | Exec _ cmd args => ∀ p, umounted cmd args = Some p → holds p tr = true ∨ own p = true
  | _ => True
  end.

(** The calls of a request for [t] while it holds the lock. *)
Definition on_target (own : string → bool) (t : string) : event_pred := λ X e,
  match e with
  | TargetTryLock _ | TargetUnlock _ => false
  | Mount _ t' _ _ | Unmount t' | CleanupMountPoint t' _ | Remove t' => bool_decide (t' = t)
  | Exec _ cmd args =>
      match umounted cmd args with Some p => bool_decide (p = t) || own p | None => true end
  | _ => true
  end.
Definition off_target (own : string → bool) : event_pred := λ X e,
  match e with
  | TargetTryLock _ | TargetUnlock _ | Mount _ _ _ _ | Unmount _ | CleanupMountPoint _ _
  | Remove _ => false
  | Exec _ cmd args => match umounted cmd args with Some p => own p | None => true end
  | _ => true
  end.

Lemma off_on_target own t X (e : event X) : off_target own X e = true → on_target own t X e = true.
Proof. destruct e; try done. cbn. destruct (umounted _ _); [|done]. intros ->. apply orb_true_r. Qed.

Lemma on_target_off own t {A} (p : prog A) : within (off_target own) p → within (on_target own t) p.
Proof. apply within_mono, off_on_target. Qed.

Lemma on_target_guard own t X (e : event X) x tr :
  on_target own t X e = true → holds t tr = true →
  target_guard own X e x tr ∧ holds t (Call e x :: tr) = true.
Proof.
  intros He Ht. unfold target_guard, release_own.
  destruct e; try done; cbn in *; (split; [split; [done|]|done]); try done;
    try by apply bool_decide_eq_true in He as ->.
  intros p Hp. rewrite Hp in He. apply orb_true_iff in He as [->%bool_decide_eq_true|He]; auto.
Qed.

Lemma extends_target own t tr tr' :
  extends (on_target own t) tr tr' → guarded (target_guard own) tr → holds t tr = true →
  guarded (target_guard own) tr' ∧ holds t tr' = true.
Proof.
  intros (new & -> & Hn) Hg Ht. induction Hn as [|[X e x] new Hc _ [IH1 IH2]]; [done|].
  destruct (on_target_guard own t X e x (new ++ tr) Hc IH2). done.
Qed.

Lemma with_target_lock_guarded own {A} rpc t (p : prog (result A)) :
  within (on_target own t) p →
  wp any_env (with_target_lock rpc t p) [] (λ o tr,
    guarded (target_guard own) tr ∧ (o ≠ Diverged → ∀ q, holds q tr = false)).
Proof.
  intros Hp. unfold with_target_lock. cbn [call bind wp]. intros [] _; cbn [negb].
  - apply wp_defer. eapply wp_mono; [|apply (wp_within _ (on_target own t)), Hp].
    intros o tr He. destruct (extends_target _ _ _ _ He) as [Hg Ht].
    { by split; [split|]. }
    { cbn. by rewrite decide_True. }
    assert (∀ q, q ≠ t → holds q tr = false) as Hq.
    { intros q Hq. clear Hg Ht. destruct He as (new & -> & Hn).
      induction Hn as [|[X e x] new Hc _ IH]; [cbn; by rewrite decide_False|]. by destruct e. }
    assert (guarded (target_guard own) (Call (TargetUnlock t) tt :: tr)) as Hg'.
    { split; [|done]. split; [|done]. by intros q [= ->]. }
    destruct o as [a|m|]; [intros [] _..|by split]; (split; [done|]; intros _ q; cbn;
      case_decide; [done|by apply Hq]).
  - cbn. by split; [split; [split|]|].
Qed.

Section node_facts.
Context `{G : !Globals} `{X : !Ext} `{F : !Fuel}.

(** ** The calls of the provider, off the target and on it *)

Section calls.
(** the paths of the request's own *)
Context (own : string → bool).
#[local] Abbreviation off := (off_target own).

Lemma umount_until_gone_off t : own t = true → within off (umount_until_gone t).
Proof. intros Ht. unfold umount_until_gone. within_run. split; [done|]. intros. within_run. Qed.
Lemma RandStringRunes_off n : within off (RandStringRunes n).
Proof. induction n; cbn [RandStringRunes]; within_run. Qed.
Lemma CreateOrUpdateSecret_off secret : within off (CreateOrUpdateSecret secret).
Proof. apply within_RetryOnConflict; [done|]. unfold create_or_update_secret. within_run. Qed.
Lemma AddRefOfMount_off c t n : within off (AddRefOfMount c t n).
Proof.
  apply within_RetryOnConflict; [done|]. unfold add_ref, ReplacePodAnnotation. within_run.
Qed.
Lemma CreatePod_off p : within off (CreatePod p).
Proof.
  unfold CreatePod, findAvailableNodePort, createSerivce, last_n. within_run.
  generalize 100. intros k. induction k; cbn [random_ports]; within_run.
Qed.
#[local] Hint Resolve umount_until_gone_off RandStringRunes_off CreateOrUpdateSecret_off
  AddRefOfMount_off CreatePod_off : go.

Lemma prepare_dir_off c d path : own path = true → within off (DoWithTimeout_err c d (prepare_dir path)).
Proof. intros Hp. apply within_DoWithTimeout_err; [done|]. unfold prepare_dir. within_run. Qed.
Lemma NewMountPod_off s podName : within off (NewMountPod s podName).
Proof. unfold NewMountPod, genCommonPod, genDfsVolumes, initFuseConfig. within_run. Qed.
Lemma waitUtilMountReady_off c s podName :
  own (s_MountPath s) = true → within off (waitUtilMountReady c s podName).
Proof.
  intros Hs. unfold waitUtilMountReady, WaitUtilMountReady, mount_ready_round, DoWithTimeout,
    DevMinorTableStore, GetErrContainerLog, StripPasswd. within_run.
Qed.
#[local] Hint Resolve prepare_dir_off NewMountPod_off waitUtilMountReady_off : go.

Lemma createPodOrAddRef_off c name s app :
  (∀ path, path_of s name path → own path = true) → within off (createPodOrAddRef c name s app).
Proof.
  intros Ho. unfold createPodOrAddRef, last_n. case_decide as Hn; [|exact I]. cbn [bind]. cbv zeta.
  assert (own (s_MountPath s +:+ drop_s (len name - 7) name) = true) as Hown.
  { by apply Ho, path_of_last. }
  unfold create_mount_pod, place_pod, last_n. within_run.
Qed.

Lemma DMount_off c app s :
  (∀ name path, path_of s name path → own path = true) → within off (DMount c app s).
Proof.
  intros Ho. unfold DMount. cbv zeta. set (s1 := set_s_HashVal _ s).
  assert (∀ name path, path_of s1 name path → own path = true) as Ho1 by exact Ho.
  eapply within_seq; [apply yields_with_mutex, mount_locked_path| |].
  - unfold mount_locked, GenMountPodName, GenPodNameByUniqueId, SetMountLabel, AddPodLabel. within_run.
    apply createPodOrAddRef_off. intros path. apply Ho1.
  - intros [s' [name|e]] Hp; [|exact I]. apply within_bind; [|done].
    by eapply waitUtilMountReady_off, Ho1, Hp.
Qed.

Lemma CheckFsExisted_off n a : within off (CheckFsExisted n a).
Proof. unfold CheckFsExisted. within_run. Qed.
#[local] Hint Resolve CheckFsExisted_off : go.

Lemma InitDfs_off b v t secrets volCtx opts : within off (InitDfs b v t secrets volCtx opts).
Proof.
  unfold InitDfs, volume_objects, GetPVWithVolumeHandleOrAppInfo, CreateFS, config_quota. within_run.
Qed.

Lemma kubelet_dir_off l : within off (kubelet_dir l).
Proof. induction l as [|y l IH]; cbn [kubelet_dir]; within_run. Qed.
#[local] Hint Resolve kubelet_dir_off : go.
Lemma validTarget_off t : within off (validTarget t).
Proof. unfold validTarget. within_run. Qed.
Lemma ParseAppInfo_off volCtx : within off (ParseAppInfo volCtx).
Proof.
  unfold ParseAppInfo, NewKubeletClient, client_token, kubelet_timeout, makeTransport,
    GetNodeRunningPods. within_run.
Qed.
Lemma CreateVol_off c fs sub : within off (CreateVol c fs sub).
Proof. unfold CreateVol, DoWithTimeout_err, DoWithTimeout. within_run. Qed.
End calls.

(** The setting of a volume that is mounted has its id, and its path is below the
    mount base. *)
Lemma InitDfs_unique b v t secrets volCtx opts :
  t ≠ "" → yields (λ r, ∀ s, r.2 = Ok s → s_UniqueId s = v) (InitDfs b v t secrets volCtx opts).
Proof.
  intros Ht. unfold InitDfs. apply yields_bind. intros [pv pvc]. cbv zeta.
  destruct (ParseSetting _ _ _ _ _); [|done]. apply yields_bind. intros [e|]; [done|].
  rewrite decide_False by done. cbn. by intros s [= <-].
Qed.

Lemma MountFs_dir c app s :
  yields (λ r, ∀ mp, r.2 = Ok mp → mount_dir (s_UniqueId s) mp = true) (MountFs c app s).
Proof.
  unfold MountFs. cbv zeta. eapply yields_seq; [apply DMount_path|]. intros [s' [e|]] Hp; [done|].
  destruct (Hp eq_refl) as [name Hn]. apply yields_bind. intros _ mp [= <-].
  eapply mount_dir_of; [|exact Hn]. reflexivity.
Qed.

Lemma MountFs_off c app s : within (off_target (mount_dir (s_UniqueId s))) (MountFs c app s).
Proof.
  unfold MountFs. apply within_bind; [|intros [s' [e|]]; unfold StripPasswd; within_run].
  apply DMount_off. intros name path. by apply mount_dir_of.
Qed.

Lemma DfsMount_dir c v t secrets volCtx opts :
  t ≠ "" → yields (λ r, ∀ fs, r.2 = Ok fs → mount_dir v (dfs_MountPath fs) = true)
             (DfsMount c v t secrets volCtx opts).
Proof.
  intros Ht. unfold DfsMount. apply yields_bind. intros [e|]; [done|].
  eapply yields_seq; [by apply InitDfs_unique|]. intros [volCtx' [s|e]] Hs; [|done].
  apply yields_bind. intros [app|e]; [|done]. eapply yields_seq; [apply MountFs_dir|].
  rewrite (Hs s eq_refl). intros [s' [mp|e]] Hmp; [|done]. intros fs [= <-]. by apply Hmp.
Qed.

Lemma DfsMount_off c v t secrets volCtx opts :
  t ≠ "" → within (off_target (mount_dir v)) (DfsMount c v t secrets volCtx opts).
Proof.
  intros Ht. unfold DfsMount. apply within_bind; [apply validTarget_off|]. intros [e|]; [done|].
  eapply within_seq; [by apply InitDfs_unique|apply InitDfs_off|]. intros [volCtx' [s|e]] Hs; [|done].
  apply within_bind; [apply ParseAppInfo_off|]. intros [app|e]; [|done].
  apply within_bind; [rewrite <-(Hs s eq_refl); apply MountFs_off|]. by intros [s' [mp|e]].
Qed.

(** *** On the target *)

Lemma on_Mount own t a f o : within (on_target own t) (call (Mount a t f o)).
Proof. split; [by apply bool_decide_eq_true|done]. Qed.
Lemma on_Unmount own t : within (on_target own t) (call (Unmount t)).
Proof. split; [by apply bool_decide_eq_true|done]. Qed.
Lemma on_Cleanup own t b : within (on_target own t) (call (CleanupMountPoint t b)).
Proof. split; [by apply bool_decide_eq_true|done]. Qed.
Lemma on_Remove own t : within (on_target own t) (call (Remove t)).
Proof. split; [by apply bool_decide_eq_true|done]. Qed.
Lemma on_umount own t c : within (on_target own t) (call (Exec c "umount" ["-l"; t])).
Proof.
  split; [|done]. unfold on_target, umounted. rewrite decide_True by done. cbn [last].
  by rewrite bool_decide_eq_true_2.
Qed.
#[local] Hint Resolve on_Mount on_Unmount on_Cleanup on_Remove on_umount on_target_off CreateVol_off : go.

Lemma CreateTarget_on own c t : within (on_target own t) (CreateTarget c t).
Proof. unfold CreateTarget, DoWithTimeout_err, DoWithTimeout, UmountPath. within_run. Qed.
Lemma umount_until_gone_on own t : within (on_target own t) (umount_until_gone t).
Proof. unfold umount_until_gone. within_run. Qed.
#[local] Hint Resolve CreateTarget_on umount_until_gone_on DfsMount_off : go.

Lemma publish_locked_on c req :
  np_TargetPath req ≠ "" →
  within (on_target (mount_dir (np_VolumeId req)) (np_TargetPath req)) (publish_locked c req).
Proof.
  intros Ht. unfold publish_locked, refuse, publish_local, local_target, bind_local, CheckDfsType,
    getDfsPaths, publish_pod, BindTarget, UmountPath. within_run.
Qed.

Lemma DelPodAnnotation_off own pod ks : within (off_target own) (DelPodAnnotation pod ks).
Proof. unfold DelPodAnnotation. within_run. Qed.
Lemma ShouldDelay_off own pod : within (off_target own) (ShouldDelay pod).
Proof. unfold ShouldDelay, GetTimeAfterDelay, AddPodAnnotation. within_run. Qed.
#[local] Hint Resolve DelPodAnnotation_off ShouldDelay_off : go.

Lemma DUmount_off own c n : within (off_target own) (DUmount c n).
Proof. apply within_RetryOnConflict; [done|]. unfold dumount, last_n. within_run. Qed.
Lemma del_ref_off own c t pod : within (off_target own) (RetryOnConflict (del_ref c t pod)).
Proof. apply within_RetryOnConflict; [done|]. unfold del_ref. within_run. Qed.
#[local] Hint Resolve DUmount_off del_ref_off : go.

Lemma release_target_on own c t n : within (on_target own t) (release_target c t n).
Proof. unfold release_target, UmountTarget, GetMountRef. within_run. Qed.
#[local] Hint Resolve release_target_on : go.

Lemma unpublish_on own c volumeId t :
  within (on_target own t)
    match GetDfsInfo volumeId with
    | Ok _ => unpublish_local t
    | Err _ =>
        e <- DfsUnmount c volumeId t ;;
        match e with
        | Some e => refuse CodeInternal ("Could not unmount " +:+ quote t +:+ ": " +:+ error_text e)
        | None => Ret (Ok tt)
        end
    end.
Proof.
  unfold unpublish_local, unpublish_target, UnmountAndDelete, DfsUnmount, GenPodNameByUniqueId,
    refuse. within_run.
Qed.

(** ** Requests that run at the same time *)

Inductive node_request :=
  | Publish (req : NodePublishVolumeRequest)
  | Unpublish (volumeId targetPath : string).

Definition serve_request (r : node_request) : prog (result unit) :=
  match r with
  | Publish req => NodePublishVolume Request req
  | Unpublish v t => NodeUnpublishVolume Request v t
  end.

(** The paths a request may unmount without holding them: the mount directories
    of the volume it publishes. *)
Definition own_dir (r : node_request) (path : string) : bool :=
  match r with
  | Publish req => mount_dir (np_VolumeId req) path
  | Unpublish _ _ => false
  end.

Lemma serve_request_guarded r :
  wp any_env (serve_request r) [] (λ o tr,
    guarded (target_guard (own_dir r)) tr ∧ (o ≠ Diverged → ∀ q, holds q tr = false)).
Proof.
  destruct r as [req|v t]; unfold serve_request, NodePublishVolume, NodeUnpublishVolume;
    repeat case_decide; try done.
  - by apply with_target_lock_guarded, publish_locked_on.
  - apply with_target_lock_guarded, unpublish_on.
Qed.

(** C5: Requests for one target exclude each other: when any number of publish and
    unpublish requests run concurrently, in every interleaving and for every
    answer of the environment, no two hold the same target, and each mounts,
    unmounts - by a call of the mount library or by an umount command -, cleans up
    or removes a path only while it holds that path.  There is one exception: a
    publish request may run the umount command on a path that it does not hold
    when that path is a mount directory of the volume it publishes (the mount base
    joined with the volume id, and seven letters), which it does to remount a
    disconnected mount point. *)
Theorem node_requests_exclusive reqs st :
  rtc pool_step (∅, start (serve_request <$> reqs)) st →
  exclusive st.2 ∧ Forall2 (λ r (t : thread), guarded (target_guard (own_dir r)) t.2) reqs st.2.
Proof.
  intros Hr. split.
  - eapply pool_exclusive; [done| |exact Hr]. apply Forall_fmap, Forall_true. intros r. cbn.
    eapply wp_mono; [|apply serve_request_guarded]. intros o tr [Hg _].
    eapply guarded_mono; [|exact Hg]. by intros Y e x tr' [].
  - apply (pool_guarded_each (λ r, target_guard (own_dir r)) serve_request _ _ _) in Hr; [done|].
    intros r. eapply wp_mono; [|apply serve_request_guarded]. by intros o tr [Hg _].
Qed.

(** A request that has ended holds no target. *)
Theorem node_request_releases r :
  wp any_env (serve_request r) [] (λ o tr, o ≠ Diverged → ∀ q, holds q tr = false).
Proof. eapply wp_mono; [|apply serve_request_guarded]. by intros o tr [_ H]. Qed.

(** ** What success means *)

(** Whether a request is for a volume that is on the host already. *)
Definition is_local (req : NodePublishVolumeRequest) : bool :=
  bool_decide (np_Secrets req = None) || LocalPV.

(** What is bound to the target: the volume's directory on the host, or a path
    below a mount directory of the volume. *)
Definition bind_source (req : NodePublishVolumeRequest) (src : string) : Prop :=
  if is_local req then
    ∃ h, host_vol_path (np_VolumeId req) (np_Secrets req) = Ok h ∧ src = config.HostContainerDir +:+ h
  else ∃ mp sub, mount_dir (np_VolumeId req) mp = true ∧ src = path_Join [mp; sub].

(** The target was bound to the volume, or found bound already: a local target is
    a mount point, any other is on the device of a mount directory of the volume. *)
Definition published (req : NodePublishVolumeRequest) : call_pred := λ Y e,
  match e in event Y return Y → Prop with
  | Mount src t _ opts => λ r,
      t = np_TargetPath req ∧ opts = ["bind"] ∧ r = None ∧ bind_source req src
  | IsMountPoint t => λ r, is_local req = true ∧ t = np_TargetPath req ∧ r.1 = true
  | ParseMountInfo => λ r, is_local req = false ∧ ∃ l minor mp,
      r = Ok l ∧ mount_dir (np_VolumeId req) mp = true ∧
      minor_at (np_TargetPath req) l = Some minor ∧ minor_at mp l = Some minor
  | _ => λ _, False
  end.

Abbreviation succeeds p tr Q :=
  (wp any_env p tr (λ o tr', o = Done (Ok tt) → Q tr')) (only parsing).

Lemma BindTarget_published c fs sub req tr :
  is_local req = false → mount_dir (np_VolumeId req) (dfs_MountPath fs) = true →
  wp any_env (BindTarget c fs (path_Join [dfs_MountPath fs; sub]) (np_TargetPath req)) tr (λ o tr',
    o = Done None → happened (published req) tr').
Proof.
  intros Hloc Hd. unfold BindTarget. cbn [call bind wp]. intros [l|e] _; [|done].
  destruct (minor_at (dfs_MountPath fs) l) as [m|] eqn:Hm; [|done].
  assert (bind_source req (path_Join [dfs_MountPath fs; sub])) as Hsrc.
  { unfold bind_source. rewrite Hloc. by eexists _, _. }
  generalize dependent (path_Join [dfs_MountPath fs; sub]). intros src Hsrc. set (t := np_TargetPath req).
  assert (∀ tr, wp any_env
    (e <- call (Mount src t "none" ["bind"]) ;;
     match e with Some e => call (Remove t) ;;; Ret (Some e) | None => Ret None end) tr
    (λ o tr', o = Done None → happened (published req) tr')) as Hb.
  { intros tr1. cbn [call bind wp]. intros [e|] _; cbn; [done|]. intros _. by apply happened_here. }
  destruct (minor_at t l) as [m'|] eqn:Ht; [|apply Hb]. case_decide as Hdec; [|].
  - subst m'. intros _. apply happened_here. split; [done|]. by exists l, m, (dfs_MountPath fs).
  - cbn [UmountPath call bind wp]. intros x _. apply Hb.
Qed.

Lemma publish_local_published req tr :
  is_local req = true → succeeds (publish_local req) tr (happened (published req)).
Proof.
  intros Hloc. unfold publish_local. destruct (host_vol_path _ _) as [h|e] eqn:Hh; [|done].
  cbn [call bind wp]. intros fi _. apply wp_skip; [done|done|]. intros [e|] tr1; [done|].
  unfold local_target. cbn [call bind wp]. intros [mnt oe] _.
  assert (∀ tr, (mnt = true → happened (published req) tr) →
    succeeds (if mnt then Ret (Ok tt) else bind_local h (np_TargetPath req)) tr
      (happened (published req))) as Hb.
  { intros tr2 Htr. destruct mnt; [intros _; by apply Htr|].
    unfold bind_local. cbn [call bind wp]. intros [e|] _; [done|].
    apply wp_bind. eapply wp_mono; [|apply (wp_keeps _ (published req))].
    - intros [[e|]|m|] tr3 H; [|intros _; exact H|done..]. cbn. by intros [e'|] _.
    - apply happened_here. split_and!; try done. unfold bind_source. rewrite Hloc. by exists h. }
  destruct oe as [e|]; cbn [bind wp].
  - destruct (os_IsNotExist e); [|done]. cbn [call bind wp]. intros [e'|] _; [done|].
    apply Hb. intros ->. by right; left.
  - apply Hb. intros ->. by left.
Qed.

Lemma CreateVol_path c fs sub :
  yields (λ r, ∀ src, r = Ok src → src = path_Join [dfs_MountPath fs; sub]) (CreateVol c fs sub).
Proof.
  unfold CreateVol. cbv zeta. apply yields_bind. intros [[]|e]; [by intros src [= <-]| |done].
  apply yields_bind. intros [e|]; [done|]. apply yields_bind. intros [fi|e]; [|done].
  case_decide; [|by intros src [= <-]]. apply yields_bind. intros [e|]; [done|]. by intros src [= <-].
Qed.

Lemma publish_pod_published c req vc tr :
  is_local req = false → np_TargetPath req ≠ "" →
  succeeds (publish_pod c req vc) tr (happened (published req)).
Proof.
  intros Hloc Ht. unfold publish_pod. apply wp_bind. eapply wp_mono; [|apply wp_yields, DfsMount_dir, Ht].
  intros [[volCtx [fs|e]]|m|] tr1 Hd; [|done..]. specialize (Hd fs eq_refl). apply wp_bind.
  eapply wp_mono; [|apply wp_yields, CreateVol_path]. intros [[src|e]|m|] tr2 Hsrc; [|done..].
  rewrite (Hsrc src eq_refl). apply wp_bind. eapply wp_mono; [|by apply BindTarget_published].
  intros [[e|]|m|] tr3 H; [done| |done..]. intros _. by apply H.
Qed.


(** ** Unpublishing *)

(** A local target is gone: not there, or removed. *)
Definition target_gone (target : string) : call_pred := λ Y e,
  match e in event Y return Y → Prop with
  | Lstat t => λ r, t = target ∧ on_err os_IsNotExist (result_err r) = true
  | IsMountPoint t => λ r, t = target ∧ on_err os_IsNotExist r.2 = true
  | Remove t => λ r, t = target ∧ (r = None ∨ on_err os_IsNotExist r = true)
  | _ => λ _, False
  end.

(** A path is removed only when it is no mount point, or after its unmount. *)
Definition not_mounted_now (target : string) : call_pred := λ Y e,
  match e in event Y return Y → Prop with
  | IsMountPoint t => λ r, t = target ∧ r = (false, None)
  | Unmount t => λ r, t = target ∧ r = None
  | _ => λ _, False
  end.
Definition remove_guard : guard := λ Y e _ tr,
  match e with Remove t => happened (not_mounted_now t) tr | _ => True end.

Lemma UmountTarget_gone c t n tr :
  wp any_env (UmountTarget c t n) tr (λ o tr', o = Done None →
    happened (found_unmounted t) tr' ∧ happened (cleaned_up t) tr').
Proof.
  unfold UmountTarget. apply wp_bind. unfold umount_until_gone.
  apply (wp_loop _ (λ _ _, True)); [done|done|]. intros _ tr1 _. cbn [call bind wp].
  intros [out [e|]] _; cbn [wp fst snd]; [|done].
  destruct (not_mounted_output out) eqn:Ho; cbn [wp]; [|done]. intros [e'|] _; cbn [wp]; [done|].
  set (tr2 := Call (CleanupMountPoint t false) None :: _).
  assert (happened (found_unmounted t) tr2 ∧ happened (cleaned_up t) tr2) as [H1 H2].
  { split; [right|by left]. left. by split_and!. }
  clearbody tr2. eapply wp_mono; [|apply wp_and; [by apply wp_keeps, H1|by apply wp_keeps, H2]].
  by intros o tr3 H _.
Qed.

Lemma UnmountAndDelete_gone t forceful tr :
  guarded remove_guard tr →
  wp any_env (unpublish_target t forceful) tr (λ o tr',
    guarded remove_guard tr' ∧ (o = Done (Ok tt) → happened (target_gone t) tr')).
Proof.
  intros Hg. unfold unpublish_target, UnmountAndDelete.
  set (remove := bind (call (Remove t)) _). set (unmount := bind (call (Unmount t)) _).
  set (k := λ r : bool * option unit * option error, _).
  assert (∀ tr, guarded remove_guard tr → happened (not_mounted_now t) tr →
    wp any_env (bind remove k) tr (λ o tr',
      guarded remove_guard tr' ∧ (o = Done (Ok tt) → happened (target_gone t) tr'))) as Hrm.
  { intros tr1 Hg1 Hm. unfold remove. cbn [call bind wp]. intros [e|] _.
    - destruct (os_IsNotExist e) eqn:He; cbn; (split; [by split|]); [|done].
      intros _. left. split; [done|]. by right.
    - cbn. split; [by split|]. intros _. left. split; [done|]. by left. }
  assert (∀ tr, guarded remove_guard tr →
    wp any_env (bind unmount k) tr (λ o tr',
      guarded remove_guard tr' ∧ (o = Done (Ok tt) → happened (target_gone t) tr'))) as Hum.
  { intros tr1 Hg1. unfold unmount. cbn [call bind wp]. intros [e|] _; [by cbn|].
    apply Hrm; [by split|]. by left. }
  destruct forceful; [by apply Hum|]. cbn [call bind wp]. intros [[] [e|]] _.
  1,3: destruct (os_IsNotExist e) eqn:He; cbn; (split; [by split|]); [|done];
    intros _; left; by split.
  - apply Hum. by split.
  - apply Hrm; [by split|]. by left.
Qed.

Lemma release_target_gone c t n tr :
  wp any_env (release_target c t n) tr (λ o tr', o = Done None →
    happened (found_unmounted t) tr' ∧ happened (cleaned_up t) tr').
Proof.
  unfold release_target. apply wp_bind.
  eapply wp_mono; [|apply UmountTarget_gone]. intros [[e'|]|m|] tr' H; [done| |done..].
  destruct (H eq_refl) as [H1 H2].
  eapply wp_mono; [|apply wp_and; [by apply wp_keeps, H1|by apply wp_keeps, H2]].
  by intros o tr2 H' _.
Qed.

Lemma DfsUnmount_gone c volumeId t tr :
  wp any_env (DfsUnmount c volumeId t) tr (λ o tr', o = Done None →
    happened (found_unmounted t) tr' ∧ happened (cleaned_up t) tr').
Proof.
  unfold DfsUnmount, getUniqueId, GenPodNameByUniqueId, GetPod, ListPod.
  cbn [call bind wp]. intros pod _.
  destruct pod as [pod|e']; [|destruct (IsNotFound e')]; cbn [negb]; [| |done].
  all: cbn [call bind wp]; intros [pods|e'']  _; [|done].
  all: destruct (find_mount_pod t _) as [mp|]; [|apply release_target_gone].
  all: case_decide; [done|]; cbn [with_mutex wp]; intros [] _; apply wp_with_unlock.
  all: eapply wp_mono; [|apply release_target_gone]; intros [r|m|] tr' H'; [|done..].
  all: intros _ E; destruct (H' E); split; by apply happened_later.
Qed.

Lemma unpublish_local_gone t tr :
  guarded remove_guard tr →
  wp any_env (unpublish_local t) tr (λ o tr',
    guarded remove_guard tr' ∧ (o = Done (Ok tt) → happened (target_gone t) tr')).
Proof.
  intros Hg. unfold unpublish_local. cbn [call bind wp]. intros [fi|e] _.
  - by apply UnmountAndDelete_gone; split.
  - destruct (os_IsNotExist e) eqn:He; [|destruct (Contains _ _)].
    + split; [by split|]. intros _. by left.
    + by apply UnmountAndDelete_gone; split.
    + done.
Qed.

(** C10: An unpublish request that succeeds leaves nothing behind: the target of a
    mount pod was unmounted until nothing was mounted on it, and cleaned up; a
    local target is gone, and is never removed while it is mounted. *)
Theorem NodeUnpublishVolume_gone c volumeId t :
  wp any_env (NodeUnpublishVolume c volumeId t) [] (λ o tr,
    o = Done (Ok tt) →
    if is_ok (GetDfsInfo volumeId) then happened (target_gone t) tr ∧ guarded remove_guard tr
    else happened (found_unmounted t) tr ∧ happened (cleaned_up t) tr).
Proof.
  unfold NodeUnpublishVolume. case_decide as Ht; [done|].
  unfold with_target_lock. cbn [call bind wp]. intros [] _; [|done]. cbn [negb].
  apply wp_defer. destruct (GetDfsInfo volumeId) as [v|e]; cbn [is_ok].
  - eapply wp_mono; [|by apply unpublish_local_gone]. intros [r|m|] tr [Hg H]; [|done..].
    intros x _ E. split; [by apply happened_later, H|by split].
  - apply wp_bind. eapply wp_mono; [|apply DfsUnmount_gone].
    intros [[e'|]|m|] tr H; [done| |done..]. intros x _ _. destruct (H eq_refl).
    split; by apply happened_later.
Qed.

(** ** Log options *)

(** The log options are not what is meant: a request that names its log
    directory gets a second one, and is taken to have named the log prefix,
    which is then missing. *)
Theorem log_options_confused volumeID opts dir :
  config.DefaultClientCommonLogDirKey +:+ "=" +:+ dir ∈ opts →
  log_options volumeID opts =
    opts ++ [config.DefaultClientCommonLogDirKey +:+ "=" +:+ config.DefaultClientCommonLogDirVal
             +:+ "/" +:+ volumeID].
Proof.
  intros Hin. unfold log_options. replace (existsb _ opts) with true; [done|].
  symmetry. apply existsb_exists. eexists. split; [by apply list_elem_of_In|].
  apply orb_true_iff. right. by rewrite <-append_assoc, HasPrefix_app.
Qed.
End node_facts.

(** ** Examples *)

(** Two requests for one target: the second is turned away while the first holds
    the target. *)
Lemma node_requests_exclusive_witness :
  ∃ st, schedule [0; 1] (∅ : gset string, start (@serve_request demo_globals demo_ext (3 : Fuel) <$>
      [Unpublish "v" "/t"; Unpublish "v" "/t"])) = Some st ∧
    (λ t : thread, holds "/t" t.2) <$> st.2 = [true; false] ∧ exclusive st.2.
Proof.
  apply (schedule_ends (λ st, (λ t : thread, holds "/t" t.2) <$> st.2)); [by vm_compute|].
  intros st Hr.
  exact (proj1 (node_requests_exclusive (G := demo_globals) (X := demo_ext) (F := 3) _ _ Hr)).
Defined.
