(* ===== verification/Driver.v ===== *)
(** * Driver: the CSI server ([src/pkg/dingofs-driver/driver.go] and [identity.go])

    The driver is the identity, the controller and the node service behind one
    gRPC server, with the external provisioner beside it.  [serve_rpc] is the
    dispatch of the server: one constructor of [rpc] per procedure, with the
    arguments that are looked at.  Creating the driver reads the environment
    again and changes the process-wide settings: a [process] is these settings
    and the name of the pod, and a function that may call [os.Exit] returns a
    [flow]. *)

From S2P Require Import Prelude GoStrings GoNum GoUrl Objects Effects Interleave Config Demo Security Setting.
From S2P Require Import Util Endpoint FsTool Kubelet K8sClient Resource Template Builder ApiServer PodMount.
From S2P Require Import Provider ControllerService Provisioner NodeService.

(** ** Capabilities *)

Inductive controller_cap :=
  | CREATE_DELETE_VOLUME | PUBLISH_UNPUBLISH_VOLUME | LIST_VOLUMES | GET_CAPACITY
  | CREATE_DELETE_SNAPSHOT | LIST_SNAPSHOTS | EXPAND_VOLUME | GET_VOLUME.
Inductive node_cap := STAGE_UNSTAGE_VOLUME | GET_VOLUME_STATS | NODE_EXPAND_VOLUME.
Inductive plugin_cap := CONTROLLER_SERVICE.
#[export] Instance controller_cap_eq_dec : EqDecision controller_cap.
Proof. solve_decision. Defined.
#[export] Instance node_cap_eq_dec : EqDecision node_cap.
Proof. solve_decision. Defined.

Definition controllerCaps : list controller_cap := [CREATE_DELETE_VOLUME; EXPAND_VOLUME].
Definition nodeCaps : list node_cap := [GET_VOLUME_STATS].

(** ** The server *)

Record nodeService := MkNodeService { nodeID : string }.
Record Driver := MkDriver {
  d_controller : controllerService;
  d_node : nodeService;
  d_provisioner : provisionerService;
  d_endpoint : string
}.

(** The procedures of the three services. *)
Inductive rpc :=
  | RpcGetPluginInfo | RpcGetPluginCapabilities | RpcProbe
  | RpcCreateVolume (req : CreateVolumeRequest)
  | RpcDeleteVolume (volumeID : string) (secrets : option smap)
  | RpcControllerPublishVolume | RpcControllerUnpublishVolume
  | RpcValidateVolumeCapabilities (volumeID : string) (caps : list VolumeCapability)
  | RpcListVolumes | RpcGetCapacity | RpcControllerGetCapabilities
  | RpcCreateSnapshot | RpcDeleteSnapshot | RpcListSnapshots
  | RpcControllerExpandVolume (req : ExpandVolumeRequest)
  | RpcControllerGetVolume
  | RpcNodeStageVolume | RpcNodeUnstageVolume
  | RpcNodePublishVolume (req : NodePublishVolumeRequest)
  | RpcNodeUnpublishVolume (volumeId targetPath : string)
  | RpcNodeGetVolumeStats (volumeID volumePath : string)
  | RpcNodeExpandVolume | RpcNodeGetCapabilities | RpcNodeGetInfo.

Inductive response :=
  | PluginInfo (name : string)
  | PluginCapabilities (l : list plugin_cap)
  | ProbeReady
  | VolumeCreated (v : csi_Volume)
  | Empty
  | Confirmed (l : option (list VolumeCapability))
  | ControllerCapabilities (l : list controller_cap)
  | Expanded (capacity : Z) (nodeExpansionRequired : bool)
  | VolumeStats (l : list VolumeUsage)
  | NodeCapabilities (l : list node_cap)
  | NodeInfo (nodeId : string).

Section driver.
Context `{G : !Globals} `{X : !Ext} `{F : !Fuel}.

Definition respond {A} (f : A → response) (p : prog (result A)) : prog (result response) :=
  a <-? p ;; Ret (Ok (f a)).

Definition GetPluginInfo : prog (result response) := Ret (Ok (PluginInfo DriverName)).
Definition GetPluginCapabilities : prog (result response) :=
  Ret (Ok (PluginCapabilities [CONTROLLER_SERVICE])).
Definition Probe : prog (result response) := Ret (Ok ProbeReady).
Definition ControllerGetCapabilities : prog (result response) :=
  Ret (Ok (ControllerCapabilities controllerCaps)).
Definition NodeGetCapabilities : prog (result response) := Ret (Ok (NodeCapabilities nodeCaps)).
Definition NodeGetInfo (d : nodeService) : prog (result response) := Ret (Ok (NodeInfo (nodeID d))).

(** The procedures that answer that they are not implemented. *)
Definition GetCapacity : prog (result response) := Ret unimplemented.
Definition ListVolumes : prog (result response) := Ret unimplemented.
Definition CreateSnapshot : prog (result response) := Ret unimplemented.
Definition DeleteSnapshot : prog (result response) := Ret unimplemented.
Definition ListSnapshots : prog (result response) := Ret unimplemented.
Definition ControllerPublishVolume : prog (result response) := Ret unimplemented.
Definition ControllerUnpublishVolume : prog (result response) := Ret unimplemented.
Definition ControllerGetVolume : prog (result response) := Ret unimplemented.
Definition NodeStageVolume : prog (result response) := Ret unimplemented.
Definition NodeUnstageVolume : prog (result response) := Ret unimplemented.
Definition NodeExpandVolume : prog (result response) := Ret unimplemented.

Definition serve_rpc (d : Driver) (r : rpc) : prog (result response) :=
  match r with
  | RpcGetPluginInfo => GetPluginInfo
  | RpcGetPluginCapabilities => GetPluginCapabilities
  | RpcProbe => Probe
  | RpcCreateVolume req => respond VolumeCreated (CreateVolume Request req)
  | RpcDeleteVolume v secrets => respond (λ _, Empty) (ControllerService.DeleteVolume Request v secrets)
  | RpcControllerPublishVolume => ControllerPublishVolume
  | RpcControllerUnpublishVolume => ControllerUnpublishVolume
  | RpcValidateVolumeCapabilities v caps => respond Confirmed (ValidateVolumeCapabilities v caps)
  | RpcListVolumes => ListVolumes
  | RpcGetCapacity => GetCapacity
  | RpcControllerGetCapabilities => ControllerGetCapabilities
  | RpcCreateSnapshot => CreateSnapshot
  | RpcDeleteSnapshot => DeleteSnapshot
  | RpcListSnapshots => ListSnapshots
  | RpcControllerExpandVolume req =>
      respond (λ r, Expanded r.1 r.2) (ControllerExpandVolume Request req)
  | RpcControllerGetVolume => ControllerGetVolume
  | RpcNodeStageVolume => NodeStageVolume
  | RpcNodeUnstageVolume => NodeUnstageVolume
  | RpcNodePublishVolume req => respond (λ _, Empty) (NodePublishVolume Request req)
  | RpcNodeUnpublishVolume v t => respond (λ _, Empty) (NodeUnpublishVolume Request v t)
  | RpcNodeGetVolumeStats v p => respond VolumeStats (NodeGetVolumeStats Request v p)
  | RpcNodeExpandVolume => NodeExpandVolume
  | RpcNodeGetCapabilities => NodeGetCapabilities
  | RpcNodeGetInfo => NodeGetInfo (d_node d)
  end.
End driver.

(** ** Starting the driver *)

Inductive flow (A : Type) := Continue (a : A) | Exit (code : Z).
Arguments Continue {A} a.
Arguments Exit {A} code.
Notation "x <-- p ;; k" :=
  (bind p (λ r, match r with Continue x => k | Exit n => Ret (Exit n) end))
  (at level 100, p at next level, k at level 200, right associativity) : go_scope.

Record process := MkProcess { p_cfg : Globals; p_PodName : string }.

(** [if os.Getenv(k) != "" { v = os.Getenv(k) }]. *)
Definition getenv_twice (name dflt : string) : prog string :=
  v <- call (Getenv name) ;;
  if decide (v ≠ "") then call (Getenv name) else Ret dflt.

(** The settings with the names and the pod that [parseNodeConfig] reads. *)
Definition with_names (g : Globals) (driver node ns : string) : Globals :=
  {| DriverName := driver; NodeName := node; Namespace := ns; HostIp := HostIp;
     KubeletPort := KubeletPort; CSIPod := CSIPod; MountManager := MountManager;
     Immutable := Immutable; Provisioner := Provisioner; CacheClientConf := CacheClientConf;
     LocalPV := LocalPV; DFSConfigPath := DFSConfigPath;
     DFSMountPriorityName := DFSMountPriorityName;
     DFSMountPreemptionPolicy := DFSMountPreemptionPolicy;
     DefaultMountImage := DefaultMountImage; MountPointPath := MountPointPath;
     HostDirPath := HostDirPath; enableAPIServerListCache := enableAPIServerListCache;
     ReconcileTimeout := ReconcileTimeout; SecretReconcilerInterval := SecretReconcilerInterval;
     SHELL_MOUNT_POINT := SHELL_MOUNT_POINT; checkMountScript := checkMountScript |}.
Definition with_csi_pod (g : Globals) (pod : Pod) : Globals :=
  {| DriverName := DriverName; NodeName := NodeName; Namespace := Namespace; HostIp := HostIp;
     KubeletPort := KubeletPort; CSIPod := pod; MountManager := MountManager;
     Immutable := Immutable; Provisioner := Provisioner; CacheClientConf := CacheClientConf;
     LocalPV := LocalPV; DFSConfigPath := DFSConfigPath;
     DFSMountPriorityName := DFSMountPriorityName;
     DFSMountPreemptionPolicy := DFSMountPreemptionPolicy;
     DefaultMountImage := DefaultMountImage; MountPointPath := MountPointPath;
     HostDirPath := HostDirPath; enableAPIServerListCache := enableAPIServerListCache;
     ReconcileTimeout := ReconcileTimeout; SecretReconcilerInterval := SecretReconcilerInterval;
     SHELL_MOUNT_POINT := SHELL_MOUNT_POINT; checkMountScript := checkMountScript |}.

Section start.
Context `{X : !Ext}.

(** [parseNodeConfig] of [driver.go]: the pod's first container is printed, and
    must be there. *)
Definition parseNodeConfig (p : process) : prog (flow process) :=
  driver <- getenv_twice "DRIVER_NAME" (@DriverName (p_cfg p)) ;;
  node <- call (Getenv "NODE_NAME") ;;
  ns <- call (Getenv "DINGOFS_MOUNT_NAMESPACE") ;;
  podName <- call (Getenv "POD_NAME") ;;
  client <- NewClient ;;
  match client with
  | Err _ => Ret (Exit 1)
  | Ok _ =>
      pod <- GetPod Background podName ns ;;
      match pod with
      | Err _ => Ret (Exit 1)
      | Ok pod =>
          match spec_Containers (pod_Spec pod) with
          | [] => Panic "index out of range"
          | _ => Ret (Continue (MkProcess (with_csi_pod (with_names (p_cfg p) driver node ns) pod) podName))
          end
      end
  end.

Definition newControllerService : controllerService := MkController ∅ ∅.
Definition newNodeService (id : string) (p : process) : prog (flow (process * nodeService)) :=
  p <-- parseNodeConfig p ;; Ret (Continue (p, MkNodeService id)).

Definition NewDriver (endpoint id : string) (leaderElection : bool) (leNamespace : string)
    (lease : Z) (p : process) : prog (flow (result (process * Driver))) :=
  client <- NewClient ;;
  match client with
  | Err e => Ret (Continue (Err e))
  | Ok _ =>
      let cs := newControllerService in
      r <-- newNodeService id p ;;
      let '(p, ns) := r in
      let ps := @newProvisionerService (p_cfg p) leaderElection leNamespace lease in
      Ret (Continue (Ok (p, MkDriver cs ns ps endpoint)))
  end.

(** [Run] of a driver: the provisioner beside the server. *)
Definition Driver_Run (p : process) (d : Driver) : prog (option error) :=
  (if @Provisioner (p_cfg p) then
     let ps := d_provisioner d in
     call (Spawn (TaskProvisioner (leaderElection ps) (leaderElectionNamespace ps)
                    (leaderElectionLeaseDuration ps)))
   else Ret tt) ;;;
  r <-! ParseEndpoint (d_endpoint d) ;;
  listener <-! call (NetListen r.1 r.2) ;;
  call (GrpcServe listener).
End start.

(** * Properties *)

(** ** What is advertised is implemented *)

(** The capability that the CSI specification demands for a procedure. *)
Definition required_cap (r : rpc) : option (controller_cap + node_cap) :=
  match r with
  | RpcCreateVolume _ | RpcDeleteVolume _ _ => Some (inl CREATE_DELETE_VOLUME)
  | RpcControllerPublishVolume | RpcControllerUnpublishVolume => Some (inl PUBLISH_UNPUBLISH_VOLUME)
  | RpcListVolumes => Some (inl LIST_VOLUMES)
  | RpcGetCapacity => Some (inl GET_CAPACITY)
  | RpcCreateSnapshot | RpcDeleteSnapshot => Some (inl CREATE_DELETE_SNAPSHOT)
  | RpcListSnapshots => Some (inl LIST_SNAPSHOTS)
  | RpcControllerExpandVolume _ => Some (inl EXPAND_VOLUME)
  | RpcControllerGetVolume => Some (inl GET_VOLUME)
  | RpcNodeStageVolume | RpcNodeUnstageVolume => Some (inr STAGE_UNSTAGE_VOLUME)
  | RpcNodeGetVolumeStats _ _ => Some (inr GET_VOLUME_STATS)
  | RpcNodeExpandVolume => Some (inr NODE_EXPAND_VOLUME)
  | _ => None
  end.
Definition advertised (r : rpc) : Prop :=
  match required_cap r with
  | Some (inl c) => c ∈ controllerCaps
  | Some (inr c) => c ∈ nodeCaps
  | None => True
  end.
#[export] Instance advertised_dec r : Decision (advertised r).
Proof. unfold advertised. destruct (required_cap r) as [[]|]; apply _. Defined.

Definition implemented {A} (r : result A) : Prop :=
  match r with Err (ErrStatus CodeUnimplemented _) => False | _ => True end.

Lemma yields_defer {A} (Q : A → Prop) (e : event unit) (p : prog A) :
  yields Q p → yields Q (defer e p).
Proof. intros Hp. induction p as [a|Y e' k IH|m|]; simpl in *; auto. Qed.

(** Closes [yields implemented p]: only the last answer counts. *)
Ltac yields_run :=
  repeat match goal with
  | |- yields _ (bind _ _) => apply yields_bind; intros ?
  | |- yields _ (defer _ _) => apply yields_defer
  | |- yields _ (match ?x with _ => _ end) => destruct x
  | |- yields _ (Ret _) => exact I
  | |- yields _ (Panic _) => exact I
  | |- yields _ (refuse _ _) => exact I
  | |- yields _ _ => progress cbv beta iota zeta
  | |- yields _ _ => solve [auto]
  end.

Section driver_facts.
Context `{G : !Globals} `{X : !Ext} `{F : !Fuel}.

Lemma CheckDfsType_plain p : yields (λ e, ∀ x, e = Some x → implemented (A := unit) (Err x)) (CheckDfsType p).
Proof. unfold CheckDfsType. apply yields_bind. intros ps. by destruct (existsb _ _); intros x [= <-]. Qed.

Lemma bind_local_implemented h t : yields implemented (bind_local h t).
Proof.
  unfold bind_local. apply yields_bind. intros [e|]; [done|].
  eapply yields_seq; [apply CheckDfsType_plain|]. intros [e|] He; [|done].
  apply yields_bind. intros [u|]; [done|]. by apply He.
Qed.

Lemma local_target_implemented t : yields implemented (local_target t).
Proof.
  unfold local_target. apply yields_bind. intros [b [e|]]; [|done]. destruct (os_IsNotExist e); [|done].
  apply yields_bind. by intros [e'|].
Qed.

Lemma publish_local_implemented req : yields implemented (publish_local req).
Proof.
  unfold publish_local, host_vol_path. destruct (match np_Secrets req with Some _ => _ | None => _ end) as [h|e] eqn:E.
  - apply yields_bind. intros fi. apply yields_bind. intros [e|]; [done|].
    eapply yields_seq; [apply local_target_implemented|]. intros [[]|e] He; [done| |by apply He].
    apply bind_local_implemented.
  - destruct (np_Secrets req); [done|]. destruct (GetDfsInfo _); [done|]. by injection E as <-.
Qed.

Lemma unpublish_target_implemented t b : yields implemented (unpublish_target t b).
Proof.
  unfold unpublish_target. apply (yields_seq (λ r, ∀ x, r.2 = Some x → implemented (A := unit) (Err x))).
  - unfold UnmountAndDelete. yields_run; by intros x [= <-].
  - intros [[[] u] [e|]] He; try done. by apply He.
Qed.

Lemma respond_implemented {A} (f : A → response) (p : prog (result A)) :
  yields implemented p → yields implemented (respond f p).
Proof.
  intros H. unfold respond. eapply yields_seq; [exact H|]. by intros [a|e] Ha.
Qed.

(** C31: The driver keeps the promises of its capabilities: a procedure whose
    capability is advertised, or that needs none, is never answered with the
    code for what is not implemented, and one whose capability is not
    advertised is always answered with it, without doing anything. *)
Theorem advertised_implemented d r :
  if decide (advertised r) then wp any_env (serve_rpc d r) [] (λ o _,
    match o with Done a => implemented a | _ => True end)
  else serve_rpc d r = Ret unimplemented.
Proof.
  destruct (decide (advertised r)) as [Ha|Ha].
  - apply (wp_yields _ implemented).
    destruct r; cbn [serve_rpc]; try exact I;
      try (exfalso; revert Ha; by apply (bool_decide_unpack (¬ advertised _)));
      apply respond_implemented.
    + unfold CreateVolume. yields_run.
    + unfold ControllerService.DeleteVolume. yields_run.
    + unfold ValidateVolumeCapabilities. yields_run.
    + unfold ControllerExpandVolume. yields_run.
    + unfold NodePublishVolume, with_target_lock, publish_locked, publish_pod. yields_run.
      apply publish_local_implemented.
    + unfold NodeUnpublishVolume, with_target_lock, unpublish_local. yields_run;
        apply unpublish_target_implemented.
    + unfold NodeGetVolumeStats. yields_run.
  - destruct r; first [reflexivity | by (exfalso; apply Ha; vm_compute; first [exact I | set_solver])].
Qed.
End driver_facts.
