(* ===== verification/Csicommon.v ===== *)
(** * Csicommon: the scaffolding of a CSI driver ([src/pkg/csicommon])

    A driver object with the capabilities it was given, servers that answer every
    procedure by default, and a gRPC server that runs in a goroutine.  Nothing of
    the other packages calls it.  The theorems: a request is accepted when its
    capability was given last; an endpoint is taken apart as it was put together;
    and the wait for the server never ends. *)

From S2P Require Import Prelude GoStrings GoNum Objects Effects Config Util ControllerService Driver.
From Stdlib Require Import Ascii.

(** ** The driver ([driver.go], the constructors of [utils.go]) *)

(** The types of capabilities and access modes are protobuf enumerations, 32-bit
    integers; [UNKNOWN] is zero in each. *)
Definition RPC_UNKNOWN : Z := 0.
Definition Service_CONTROLLER_SERVICE : Z := 1.

(** [csi.ControllerServiceCapability]: its [Type] may be unset; the getters
    then give [UNKNOWN]. *)
Record ControllerServiceCapability := MkControllerCap { csc_Rpc : option Z }.
Definition GetRpc_GetType (c : ControllerServiceCapability) : Z := default RPC_UNKNOWN (csc_Rpc c).
Record VolumeCapability_AccessMode := MkAccessMode { am_Mode : Z }.

Definition NewVolumeCapabilityAccessMode (mode : Z) : VolumeCapability_AccessMode := MkAccessMode mode.
Definition NewControllerServiceCapability (cap : Z) : ControllerServiceCapability :=
  MkControllerCap (Some cap).

Record CSIDriver := MkCSIDriver {
  cd_Name : string;
  cd_NodeID : string;
  cd_Version : VersionInfo;
  cd_cap : list ControllerServiceCapability;
  cd_vc : list VolumeCapability_AccessMode
}.

(** [NewCSIDriver]: a nil pointer when something is missing. *)
Definition NewCSIDriver (name : string) (version : VersionInfo) (nodeID : string)
    : option CSIDriver :=
  if decide (name = "") then None
  else if decide (nodeID = "") then None
  else if decide (version = no_version) then None
  else Some (MkCSIDriver name nodeID version [] []).

Definition nil_pointer {A} : prog A := Panic "invalid memory address or nil pointer dereference".

(** The name of a capability ([String] of the generated enumeration) goes into
    the error. *)
Definition ValidateControllerServiceRequest (RPC_Type_String : Z → string)
    (d : option CSIDriver) (c : Z) : prog (option error) :=
  if decide (c = RPC_UNKNOWN) then Ret None
  else match d with
       | None => nil_pointer
       | Some d =>
           if existsb (λ cap, bool_decide (c = GetRpc_GetType cap)) (cd_cap d) then Ret None
           else Ret (Some (ErrStatus CodeInvalidArgument (RPC_Type_String c)))
       end.

(** The capabilities replace those given before. *)
Definition AddControllerServiceCapabilities (cl : list Z) (d : CSIDriver) : CSIDriver :=
  MkCSIDriver (cd_Name d) (cd_NodeID d) (cd_Version d)
    (NewControllerServiceCapability <$> cl) (cd_vc d).
Definition AddVolumeCapabilityAccessModes (vc : list Z) (d : CSIDriver)
    : CSIDriver * list VolumeCapability_AccessMode :=
  let vca := NewVolumeCapabilityAccessMode <$> vc in
  (MkCSIDriver (cd_Name d) (cd_NodeID d) (cd_Version d) (cd_cap d) vca, vca).
Definition GetVolumeCapabilityAccessModes (d : CSIDriver) : list VolumeCapability_AccessMode :=
  cd_vc d.

(** ** The servers that answer by default *)

(** What a procedure answers. *)
Inductive default_response :=
  | DefaultPluginInfo (name vendorVersion : string)
  | DefaultProbe
  | DefaultPluginCapabilities (services : list Z)
  | DefaultControllerCapabilities (caps : list ControllerServiceCapability)
  | DefaultNodeInfo (nodeId : string)
  | DefaultNodeCapabilities (caps : list Z).

(** The field of a driver that may be nil. *)
Definition of_driver {A} (d : option CSIDriver) (f : CSIDriver → prog A) : prog A :=
  match d with Some d => f d | None => nil_pointer end.

Module DefaultIdentityServer.
Record t := Make { Driver : option CSIDriver }.
Definition GetPluginInfo (ids : t) : prog (result default_response) :=
  of_driver (Driver ids) (λ d,
    if decide (cd_Name d = "") then
      Ret (Err (ErrStatus CodeUnavailable "Driver name not configured"))
    else if decide (cd_Version d = no_version) then
      Ret (Err (ErrStatus CodeUnavailable "Driver is missing version"))
    else Ret (Ok (DefaultPluginInfo (cd_Name d) (DriverVersion (cd_Version d))))).
Definition Probe (ids : t) : prog (result default_response) := Ret (Ok DefaultProbe).
Definition GetPluginCapabilities (ids : t) : prog (result default_response) :=
  Ret (Ok (DefaultPluginCapabilities [Service_CONTROLLER_SERVICE])).
End DefaultIdentityServer.

Module DefaultControllerServer.
Record t := Make { Driver : option CSIDriver }.
Definition CreateVolume (cs : t) : prog (result default_response) := Ret unimplemented.
Definition DeleteVolume (cs : t) : prog (result default_response) := Ret unimplemented.
Definition ControllerPublishVolume (cs : t) : prog (result default_response) := Ret unimplemented.
Definition ControllerUnpublishVolume (cs : t) : prog (result default_response) := Ret unimplemented.
Definition ValidateVolumeCapabilities (cs : t) : prog (result default_response) := Ret unimplemented.
Definition ListVolumes (cs : t) : prog (result default_response) := Ret unimplemented.
Definition GetCapacity (cs : t) : prog (result default_response) := Ret unimplemented.
Definition ControllerGetCapabilities (cs : t) : prog (result default_response) :=
  of_driver (Driver cs) (λ d, Ret (Ok (DefaultControllerCapabilities (cd_cap d)))).
Definition CreateSnapshot (cs : t) : prog (result default_response) := Ret unimplemented.
Definition DeleteSnapshot (cs : t) : prog (result default_response) := Ret unimplemented.
Definition ListSnapshots (cs : t) : prog (result default_response) := Ret unimplemented.
Definition ControllerExpandVolume (cs : t) : prog (result default_response) := Ret unimplemented.
Definition ControllerGetVolume (cs : t) : prog (result default_response) := Ret unimplemented.
End DefaultControllerServer.

Module DefaultNodeServer.
Record t := Make { Driver : option CSIDriver }.
Definition NodePublishVolume (ns : t) : prog (result default_response) := Ret unimplemented.
Definition NodeUnpublishVolume (ns : t) : prog (result default_response) := Ret unimplemented.
Definition NodeGetInfo (ns : t) : prog (result default_response) :=
  of_driver (Driver ns) (λ d, Ret (Ok (DefaultNodeInfo (cd_NodeID d)))).
Definition NodeGetCapabilities (ns : t) : prog (result default_response) :=
  Ret (Ok (DefaultNodeCapabilities [RPC_UNKNOWN])).
Definition NodeGetVolumeStats (ns : t) : prog (result default_response) := Ret unimplemented.
Definition NodeStageVolume (ns : t) : prog (result default_response) := Panic "implement me".
Definition NodeUnstageVolume (ns : t) : prog (result default_response) := Panic "implement me".
Definition NodeExpandVolume (ns : t) : prog (result default_response) := Panic "implement me".
End DefaultNodeServer.

Definition NewDefaultNodeServer (d : option CSIDriver) : DefaultNodeServer.t :=
  DefaultNodeServer.Make d.
Definition NewDefaultIdentityServer (d : option CSIDriver) : DefaultIdentityServer.t :=
  DefaultIdentityServer.Make d.
Definition NewDefaultControllerServer (d : option CSIDriver) : DefaultControllerServer.t :=
  DefaultControllerServer.Make d.

(** ** The server ([server.go]) *)

Definition ParseEndpoint (ep : string) : prog (result (string * string)) :=
  let invalid := Ret (Err (ErrNew ("Invalid endpoint: " +:+ ep))) in
  if HasPrefix (ToLower ep) "unix://" || HasPrefix (ToLower ep) "tcp://" then
    match SplitN2 ep "://" with
    | [proto; addr] => if decide (addr = "") then invalid else Ret (Ok (proto, addr))
    | _ => Panic "index out of range"
    end
  else invalid.

(** The services that are registered, those whose server is not nil. *)
Inductive service := IdentityService | ControllerService | NodeService.
Definition registered (ids cs ns : bool) : list service :=
  (if ids then [IdentityService] else []) ++ (if cs then [ControllerService] else []) ++
  (if ns then [NodeService] else []).

(** [serve] up to the point where [s.server] is set: the listener.  [klog.Fatal]
    ends the process with the status 255. *)
Definition serve_listen (endpoint : string) : prog (flow Z) :=
  r <- ParseEndpoint endpoint ;;
  match r with
  | Err _ => Ret (Exit 255)
  | Ok (proto, addr) =>
      let listen addr :=
        l <- call (NetListen proto addr) ;;
        Ret match l with Err _ => Exit 255 | Ok listener => Continue listener end in
      if decide (proto = "unix") then
        let addr := "/" +:+ addr in
        e <- call (Remove addr) ;;
        match e with
        | Some e => if os_IsNotExist e then listen addr else Ret (Exit 255)
        | None => listen addr
        end
      else listen addr
  end.
(** What [Serve] answers is dropped. *)
Definition serve (endpoint : string) : prog (flow unit) :=
  listener <-- serve_listen endpoint ;;
  call (GrpcServe listener) ;;; Ret (Continue tt).

(** The object that callers and the goroutine share: the counter of the
    [WaitGroup] and the gRPC server, nil until [serve] sets it; and the
    goroutines that run [serve], by whether they have set it. *)
Record nonBlockingGRPCServer := MkServer {
  wg : nat;
  server : option (list service);
  waiting : list (list service);
  serving : list (list service)
}.

Definition NewNonBlockingGRPCServer : nonBlockingGRPCServer := MkServer 0 None [] [].

Definition Start (ids cs ns : bool) (s : nonBlockingGRPCServer) : nonBlockingGRPCServer :=
  MkServer (S (wg s)) (server s) (registered ids cs ns :: waiting s) (serving s).
(** [Wait] returns when the counter is zero. *)
Definition Wait (s : nonBlockingGRPCServer) : bool := bool_decide (wg s = 0).
(** [Stop] and [ForceStop] call a method of the server; on a nil one they panic. *)
Definition Stop (s : nonBlockingGRPCServer) : prog unit :=
  match server s with Some _ => Ret tt | None => nil_pointer end.
Definition ForceStop (s : nonBlockingGRPCServer) : prog unit :=
  match server s with Some _ => Ret tt | None => nil_pointer end.

(** The steps of the callers and of the goroutines: [serve] sets the server, and
    later returns. *)
Inductive server_step : nonBlockingGRPCServer → nonBlockingGRPCServer → Prop :=
  | server_start ids cs ns s : server_step s (Start ids cs ns s)
  | server_set n srv l1 l2 k sv :
      server_step (MkServer n srv (l1 ++ k :: l2) sv) (MkServer n (Some k) (l1 ++ l2) (k :: sv))
  | server_returns n srv w l1 l2 k :
      server_step (MkServer n srv w (l1 ++ k :: l2)) (MkServer n srv w (l1 ++ l2)).

(** [RunNodePublishServer] and its variants: the object after [Start], on whose
    [Wait] the caller is.  The identity server is never nil; the others are as
    the caller gives them. *)
Definition RunNodePublishServer (ns : bool) : nonBlockingGRPCServer :=
  Start true false ns NewNonBlockingGRPCServer.
Definition RunControllerPublishServer (cs : bool) : nonBlockingGRPCServer :=
  Start true cs false NewNonBlockingGRPCServer.
Definition RunControllerandNodePublishServer (cs ns : bool) : nonBlockingGRPCServer :=
  Start true cs ns NewNonBlockingGRPCServer.

(** [logGRPC] passes the answer of the handler on; what it logs is not part of
    the model. *)
Definition logGRPC {A} (handler : prog (result A)) : prog (result A) :=
  r <- handler ;; Ret r.

(** * Properties *)

Section csicommon_facts.
Context (RPC_Type_String : Z → string).

(** Whether a request for a capability is accepted. *)
Definition accepts (d : option CSIDriver) (c : Z) : Prop :=
  ValidateControllerServiceRequest RPC_Type_String d c = Ret None.

(** A driver accepts the requests of the capabilities given last: after any
    sequence of [AddControllerServiceCapabilities] on a driver object, a request
    is accepted exactly when its type is in the last list or is [UNKNOWN], the
    default controller server advertises exactly that list, and anything else is
    refused as an invalid argument; earlier lists are forgotten. *)
Theorem capabilities_given d lists cl c :
  let d := AddControllerServiceCapabilities cl (foldr AddControllerServiceCapabilities d lists) in
  (accepts (Some d) c ↔ c = RPC_UNKNOWN ∨ c ∈ cl) ∧
  (¬ accepts (Some d) c → ValidateControllerServiceRequest RPC_Type_String (Some d) c =
     Ret (Some (ErrStatus CodeInvalidArgument (RPC_Type_String c)))) ∧
  ∃ caps, DefaultControllerServer.ControllerGetCapabilities (NewDefaultControllerServer (Some d)) =
            Ret (Ok (DefaultControllerCapabilities caps)) ∧ GetRpc_GetType <$> caps = cl.
Proof.
  intros d'. assert (cd_cap d' = NewControllerServiceCapability <$> cl) as Hcap by done.
  assert (existsb (λ cap, bool_decide (c = GetRpc_GetType cap)) (cd_cap d') = true ↔ c ∈ cl) as He.
  { rewrite Hcap, existsb_exists. setoid_rewrite <-list_elem_of_In.
    setoid_rewrite bool_decide_eq_true. split.
    - intros (cap & Hin & ->). apply list_elem_of_fmap in Hin as (x & -> & Hx). done.
    - intros Hin. exists (NewControllerServiceCapability c). split; [|done].
      by apply list_elem_of_fmap_2. }
  unfold accepts, ValidateControllerServiceRequest. split; [|split].
  - case_decide as H0; [naive_solver|]. destruct (existsb _ _) eqn:E; [naive_solver|].
    split; [done|]. intros [?|Hin]; [done|]. apply He in Hin. congruence.
  - case_decide; [done|]. by destruct (existsb _ _).
  - eexists. split; [reflexivity|]. rewrite Hcap, <-list_fmap_compose.
    by rewrite (list_fmap_ext _ id) by done; rewrite list_fmap_id.
Qed.

(** ** Endpoints *)

Lemma Cut_scheme p r : ":"%char ∉ chars p → Cut (p +:+ "://" +:+ r) "://" = Some (p, r).
Proof.
  induction p as [|c p IH]; intros Hp; rewrite Cut_unfold; [done|].
  cbn [chars] in Hp. apply not_elem_of_cons in Hp as [Hc Hp].
  rewrite append_cons. cbn [strip_prefix]. rewrite decide_False by done. by rewrite IH.
Qed.

(** The marks of a scheme are not letters. *)
Lemma lower_mark c d : d ∈ [":"; "/"]%char → lower c = d → c = d.
Proof.
  intros Hd Hc. assert (c = d ∨ lower c ∉ [":"; "/"]%char) as [?|Hn]; [|done|by subst].
  rewrite <-Hc. clear. destruct c as [[] [] [] [] [] [] [] []]; 
    apply (bool_decide_unpack _); vm_compute; exact I.
Qed.

Lemma ToLower_scheme ep q t :
  ToLower ep = q +:+ "://" +:+ t → ∃ p r, ep = p +:+ "://" +:+ r ∧ ToLower p = q ∧ ToLower r = t.
Proof.
  intros E%(f_equal chars). unfold ToLower in E. rewrite chars_of_chars, !chars_append in E.
  apply fmap_app_inv in E as (l1 & l2 & E1 & E2 & Ep).
  symmetry in E2. apply fmap_app_inv in E2 as (l3 & l4 & E3 & E4 & ->).
  exists (of_chars l1), (of_chars l4). unfold ToLower. rewrite !chars_of_chars, <-E1, <-E4, !of_chars_chars.
  split; [|done]. rewrite <-(of_chars_chars ep), Ep, !of_chars_app. do 2 f_equal.
  destruct l3 as [|a [|b [|c [|? ?]]]]; try discriminate E3. cbn in E3. injection E3 as Ea Eb Ec.
  by rewrite (lower_mark a ":"%char), (lower_mark b "/"%char), (lower_mark c "/"%char) by (done || set_solver).
Qed.

Lemma scheme_colon p q : ToLower p = q → ":"%char ∉ chars q → ":"%char ∉ chars p.
Proof.
  intros <- Hq Hp. apply Hq. unfold ToLower. rewrite chars_of_chars.
  change ":"%char with (lower ":"%char). by apply list_elem_of_fmap_2.
Qed.

Lemma ToLower_append s t : ToLower (s +:+ t) = ToLower s +:+ ToLower t.
Proof. unfold ToLower. by rewrite chars_append, fmap_app, of_chars_app. Qed.

(** The protocols. *)
Definition scheme (p : string) : Prop := ToLower p ∈ ["unix"; "tcp"].

Lemma scheme_no_colon p : scheme p → ":"%char ∉ chars p.
Proof.
  unfold scheme. rewrite !elem_of_cons. intros [E|[E|[]%elem_of_nil]]; apply (scheme_colon _ _ E);
    apply (bool_decide_unpack _); vm_compute; exact I.
Qed.

Lemma scheme_parts p r p' r' :
  scheme p → scheme p' → p +:+ "://" +:+ r = p' +:+ "://" +:+ r' → p = p' ∧ r = r'.
Proof.
  intros Hp Hp' E%(f_equal (λ s, Cut s "://")). rewrite !Cut_scheme in E by (by apply scheme_no_colon).
  by injection E.
Qed.

Lemma ParseEndpoint_scheme p r :
  scheme p → ParseEndpoint (p +:+ "://" +:+ r) =
    if decide (r = "") then Ret (Err (ErrNew ("Invalid endpoint: " +:+ (p +:+ "://" +:+ r))))
    else Ret (Ok (p, r)).
Proof.
  intros Hp. unfold ParseEndpoint, SplitN2. rewrite Cut_scheme by (by apply scheme_no_colon).
  rewrite !ToLower_append. change (ToLower "://") with "://".
  unfold scheme in Hp. rewrite !elem_of_cons in Hp. by destruct Hp as [-> |[-> |[]%elem_of_nil]].
Qed.

(** A text has the form of an endpoint, or not. *)
Lemma ToLower_cases ep :
  (∃ p r, scheme p ∧ ep = p +:+ "://" +:+ r) ∨ (∀ p r, scheme p → ep ≠ p +:+ "://" +:+ r).
Proof.
  destruct (Cut ep "://") as [[p r]|] eqn:E.
  - apply Cut_Some in E as E'. destruct (decide (ToLower p ∈ ["unix"; "tcp"])) as [Hp|Hp];
      [left; by exists p, r|right]. intros p' r' Hp' ->. rewrite Cut_scheme in E by (by apply scheme_no_colon).
    by injection E as -> ->.
  - right. intros p r _ ->. by apply (proj1 (Cut_None_iff _ _) E p r).
Qed.

(** Any other text is refused. *)
Lemma ParseEndpoint_other ep :
  (∀ p r, scheme p → ep ≠ p +:+ "://" +:+ r) →
  ParseEndpoint ep = Ret (Err (ErrNew ("Invalid endpoint: " +:+ ep))).
Proof.
  intros Hep. unfold ParseEndpoint. destruct (_ || _) eqn:Hpre; [exfalso|done].
  assert (∃ q t, q ∈ ["unix"; "tcp"] ∧ ToLower ep = q +:+ "://" +:+ t) as (q & t & Hq & E).
  { apply orb_true_iff in Hpre as [[t H]%HasPrefix_true|[t H]%HasPrefix_true].
    - exists "unix", t. split; [by left|]. by rewrite H.
    - exists "tcp", t. split; [by right; left|]. by rewrite H. }
  apply ToLower_scheme in E as (p & r & -> & Hp & _). apply (Hep p r); [|done].
  unfold scheme. by rewrite Hp.
Qed.

(** Endpoints are taken apart as they were put together: [ParseEndpoint]
    gives the protocol and the address exactly for the texts [proto://addr] with an
    address and with the protocol [unix] or [tcp] in any case of the letters; any
    other text is refused, and none makes it panic. *)
Theorem ParseEndpoint_parts ep :
  (∀ proto addr, ParseEndpoint ep = Ret (Ok (proto, addr)) ↔
     ep = proto +:+ "://" +:+ addr ∧ scheme proto ∧ addr ≠ "") ∧
  ((∀ proto addr, ParseEndpoint ep ≠ Ret (Ok (proto, addr))) →
     ParseEndpoint ep = Ret (Err (ErrNew ("Invalid endpoint: " +:+ ep)))).
Proof.
  destruct (ToLower_cases ep) as [(p & r & Hp & ->)|Hep].
  - rewrite ParseEndpoint_scheme by done. split.
    + intros proto addr. split.
      * case_decide; [done|]. by intros [= <- <-].
      * intros (E & Hproto & Ha). apply scheme_parts in E as [-> ->]; [|done..].
        by rewrite decide_False.
    + case_decide; [done|]. intros Hno. by destruct (Hno p r).
  - rewrite ParseEndpoint_other by done. split; [|done]. intros proto addr. split; [done|].
    intros (-> & Hp & _). by destruct (Hep proto addr).
Qed.

(** The protocol keeps the case of its letters: an endpoint that [ParseEndpoint]
    accepts with an upper-case letter is listened on as it is written, and the
    socket of an earlier run is not removed. *)
Lemma serve_listen_case proto addr :
  scheme proto → proto ≠ "unix" → addr ≠ "" →
  serve_listen (proto +:+ "://" +:+ addr) =
    (l <- call (NetListen proto addr) ;;
     Ret match l with Err _ => Exit 255 | Ok listener => Continue listener end).
Proof.
  intros Hp Hu Ha. unfold serve_listen. rewrite ParseEndpoint_scheme, decide_False by done.
  cbn [bind]. by rewrite decide_False.
Qed.

(** ** Waiting for the server *)

(** C38: Waiting for the server never ends.  [Start] adds one to the counter and
    nothing ever takes it back, so in every state that a server reaches after a
    start, whatever is started, set and returned since, also when every goroutine
    has returned, [Wait] does not return; none of the [Run...Server] functions
    returns. *)
Theorem Wait_never_returns ids cs ns s0 s :
  rtc server_step (Start ids cs ns s0) s → Wait s = false.
Proof.
  intros Hr. assert (∀ s1 s2, server_step s1 s2 → wg s1 ≤ wg s2) as Hmono.
  { intros s1 s2 []; cbn; lia. }
  assert (wg (Start ids cs ns s0) ≤ wg s) as H.
  { induction Hr as [|s1 s2 s3 Hs _ IH]; [done|]. specialize (Hmono _ _ Hs). lia. }
  unfold Wait. cbn in H. by rewrite bool_decide_eq_false_2 by lia.
Qed.

(** A stop that comes before [serve] has set the server dereferences nil. *)
Lemma Stop_too_early ids cs ns :
  Stop (Start ids cs ns NewNonBlockingGRPCServer) = nil_pointer.
Proof. done. Qed.
End csicommon_facts.

(** ** Examples *)

Lemma Wait_never_returns_witness :
  rtc server_step (RunNodePublishServer true)
    (MkServer 1 (Some [IdentityService; NodeService]) [] []) ∧
  Wait (MkServer 1 (Some [IdentityService; NodeService]) [] []) = false.
Proof.
  assert (rtc server_step (RunNodePublishServer true)
    (MkServer 1 (Some [IdentityService; NodeService]) [] [])) as H.
  { eapply rtc_l; [apply (server_set 1 None [] [])|]. eapply rtc_l; [|apply rtc_refl].
    apply (server_returns 1 _ [] [] []). }
  exact (conj H (Wait_never_returns true false true NewNonBlockingGRPCServer _ H)).
Defined.
