(* ===== verification/Startup.v ===== *)
(** * Startup: the commands ([src/cmd])

    The process runs as the controller or as the node driver, by the name of
    its pod: [cmd/main.go], [cmd/controller.go], [cmd/node.go], and the managers
    of [cmd/app].  The flags are a record, the environment is read by events, and
    the process-wide settings are passed along ([process]).  The goroutines are
    [Spawn] events with their bodies as definitions of their own. *)

From S2P Require Import Prelude GoStrings GoTime GoNum GoUrl Objects Effects Interleave Config Demo Security.
From S2P Require Import Setting Util Endpoint FsTool PassFd Kubelet K8sClient Resource Template Builder ApiServer.
From S2P Require Import PodMount MountInfo PodDriver Provider Controllers Reconciler ControllerService.
From S2P Require Import Provisioner NodeService Driver.

(** The flags of [main]. *)
Record Flags := MkFlags {
  f_endpoint : string;
  f_nodeID : string;
  f_provisioner : bool;
  f_cacheConf : bool;
  f_podManager : bool;
  f_localPV : bool;
  f_leaderElection : bool;
  f_leaderElectionNamespace : string;
  f_leaderElectionLeaseDuration : Z
}.

(** [strconv.ParseBool]. *)
Definition strconv_ParseBool (s : string) : option bool :=
  if decide (s ∈ ["1"; "t"; "T"; "TRUE"; "true"; "True"]) then Some true
  else if decide (s ∈ ["0"; "f"; "F"; "FALSE"; "false"; "False"]) then Some false
  else None.

(** A duration from the environment is taken only when it is longer; one that
    cannot be parsed counts as zero. *)
Definition longer (s : string) (old : Z) : Z :=
  if decide (s = "") then old
  else let duration := match ParseDuration s with Ok d => d | Err _ => 0%Z end in
       if (old <? duration)%Z then duration else old.

Definition or_default (s dflt : string) : string := if decide (s = "") then dflt else s.

(** ** The node *)

Module NodeCmd.
Section node.
Context `{X : !Ext} `{F : !Fuel}.

(** What [parseNodeConfig] reads of the environment before it looks at the
    cluster. *)
Definition read_env (fl : Flags) (g : Globals) : prog process :=
  driver <- getenv_twice "DRIVER_NAME" DriverName ;;
  immutable <- call (Getenv "DINGOFS_IMMUTABLE") ;;
  node <- call (Getenv "NODE_NAME") ;;
  ns <- call (Getenv "DINGOFS_MOUNT_NAMESPACE") ;;
  podName <- call (Getenv "POD_NAME") ;;
  mountPath <- call (Getenv "DINGOFS_MOUNT_PATH") ;;
  configPath <- call (Getenv "DINGOFS_CONFIG_PATH") ;;
  hostIp <- call (Getenv "HOST_IP") ;;
  kubeletPort <- call (Getenv "KUBELET_PORT") ;;
  priority <- call (Getenv "DINGOFS_MOUNT_PRIORITY_NAME") ;;
  preemption <- call (Getenv "DINGOFS_MOUNT_PREEMPTION_POLICY") ;;
  timeout <- call (Getenv "DINGOFS_RECONCILE_TIMEOUT") ;;
  interval <- call (Getenv "DINGOFS_CONFIG_UPDATE_INTERVAL") ;;
  image <- call (Getenv "DINGOFS_MOUNT_IMAGE") ;;
  Ret (MkProcess
    {| DriverName := driver; NodeName := node; Namespace := ns; HostIp := hostIp;
       KubeletPort := kubeletPort; CSIPod := CSIPod; MountManager := MountManager;
       Immutable := default Immutable (strconv_ParseBool immutable);
       Provisioner := Provisioner; CacheClientConf := CacheClientConf; LocalPV := f_localPV fl;
       DFSConfigPath := configPath;
       DFSMountPriorityName := or_default priority DFSMountPriorityName;
       DFSMountPreemptionPolicy := or_default preemption DFSMountPreemptionPolicy;
       DefaultMountImage := or_default image DefaultMountImage; MountPointPath := mountPath;
       HostDirPath := HostDirPath; enableAPIServerListCache := enableAPIServerListCache;
       ReconcileTimeout := longer timeout ReconcileTimeout;
       SecretReconcilerInterval := longer interval SecretReconcilerInterval;
       SHELL_MOUNT_POINT := SHELL_MOUNT_POINT; checkMountScript := checkMountScript |} podName).

Definition parseNodeConfig (fl : Flags) (g : Globals) : prog (flow process) :=
  p <- read_env fl g ;;
  if decide (p_PodName p = "" ∨ @Namespace (p_cfg p) = "") then Ret (Exit 1)
  else
    client <- NewClient ;;
    match client with
    | Err _ => Ret (Exit 1)
    | Ok _ =>
        pod <- GetPod Background (p_PodName p) (@Namespace (p_cfg p)) ;;
        match pod with
        | Err _ => Ret (Exit 1)
        | Ok pod =>
            e <- InitGlobalFds "/tmp" Background ;;
            match e with
            | Some _ => Ret (Exit 1)
            | None => Ret (Continue (MkProcess (with_csi_pod (p_cfg p) pod) (p_PodName p)))
            end
        end
    end.

(** The manager of the mount pods: the polling reconciler when the kubelet can
    be reached, otherwise a manager that watches the API server. *)
Definition start_manager (p : process) : prog unit :=
  let _ := p_cfg p in
  needStartPodManager <-
    (if decide (KubeletPort ≠ "" ∧ HostIp ≠ "") then
       e <- OnErrorRetry StartReconciler ;; Ret (bool_decide (e ≠ None))
     else Ret true) ;;
  if needStartPodManager : bool then call (Spawn TaskPodManager) else Ret tt.

(** [nodeRun]. *)
Definition node_start (fl : Flags) (g : Globals) : prog (flow (process * Driver)) :=
  p <-- parseNodeConfig fl g ;;
  if decide (f_nodeID fl = "") then Ret (Exit 1)
  else
    call (Spawn TaskPprof) ;;;
    (if f_podManager fl then start_manager p else Ret tt) ;;;
    r <-- NewDriver (f_endpoint fl) (f_nodeID fl) (f_leaderElection fl)
            (f_leaderElectionNamespace fl) (f_leaderElectionLeaseDuration fl) p ;;
    match r with
    | Err _ => Ret (Exit 1)
    | Ok pd => Ret (Continue pd)
    end.
Definition nodeRun (fl : Flags) (g : Globals) : prog (flow unit) :=
  pd <-- node_start fl g ;;
  call (Spawn TaskStopDriver) ;;;
  e <- Driver_Run pd.1 pd.2 ;;
  Ret match e with Some _ => Exit 1 | None => Continue tt end.

(** The goroutine that serves profiles: the next port after a failure. *)
Definition pprof : prog unit :=
  loop fuel (λ port,
    call (ListenAndServe ("localhost:" +:+ Itoa port)) ;;; Ret (inl (port + 1)%Z)) 6060%Z.
End node.
End NodeCmd.

(** ** The controller *)

Module ControllerCmd.
Section controller.
Context `{X : !Ext} `{F : !Fuel}.

(** [parseControllerConfig]: the mount pods shall inherit from the pods of the
    daemon set of the node driver. *)
Definition parseControllerConfig (fl : Flags) (g : Globals) (podName : string) : prog (flow process) :=
  driver <- getenv_twice "DRIVER_NAME" DriverName ;;
  immutable <- call (Getenv "DINGOFS_IMMUTABLE") ;;
  match (if decide (immutable = "") then Some Immutable else strconv_ParseBool immutable) with
  | None => Ret (Exit 1)
  | Some immutable =>
      node <- call (Getenv "NODE_NAME") ;;
      ns <- call (Getenv "DINGOFS_MOUNT_NAMESPACE") ;;
      mountPath <- call (Getenv "DINGOFS_MOUNT_PATH") ;;
      configPath <- call (Getenv "DINGOFS_CONFIG_PATH") ;;
      image <- call (Getenv "DINGOFS_MOUNT_IMAGE") ;;
      client <- NewClient ;;
      match client with
      | Err _ => Ret (Exit 1)
      | Ok _ =>
          name <- call (Getenv "DINGOFS_CSI_NODE_DS_NAME") ;;
          ds <- GetDaemonSet (or_default name "dingofs-csi-node") ns ;;
          match ds with
          | Err _ => Ret (Exit 1)
          | Ok template =>
              Ret (Continue (MkProcess
                {| DriverName := driver; NodeName := node; Namespace := ns; HostIp := HostIp;
                   KubeletPort := KubeletPort; CSIPod := set_pod_Spec template empty_pod;
                   MountManager := true; Immutable := immutable;
                   Provisioner := f_provisioner fl; CacheClientConf := f_cacheConf fl;
                   LocalPV := f_localPV fl; DFSConfigPath := configPath;
                   DFSMountPriorityName := DFSMountPriorityName;
                   DFSMountPreemptionPolicy := DFSMountPreemptionPolicy;
                   DefaultMountImage := or_default image DefaultMountImage;
                   MountPointPath := mountPath; HostDirPath := HostDirPath;
                   enableAPIServerListCache := enableAPIServerListCache;
                   ReconcileTimeout := ReconcileTimeout;
                   SecretReconcilerInterval := SecretReconcilerInterval;
                   SHELL_MOUNT_POINT := SHELL_MOUNT_POINT;
                   checkMountScript := checkMountScript |} podName))
          end
      end
  end.

(** [controllerRun]; [podName] is the name the settings have before. *)
Definition controller_start (fl : Flags) (g : Globals) (podName : string) : prog (flow (process * Driver)) :=
  p <-- parseControllerConfig fl g podName ;;
  if decide (f_nodeID fl = "") then Ret (Exit 1)
  else
    call (Spawn TaskPprof) ;;;
    (if @MountManager (p_cfg p) then call (Spawn TaskMountManager) else Ret tt) ;;;
    r <-- NewDriver (f_endpoint fl) (f_nodeID fl) (f_leaderElection fl)
            (f_leaderElectionNamespace fl) (f_leaderElectionLeaseDuration fl) p ;;
    match r with
    | Err _ => Ret (Exit 1)
    | Ok pd => Ret (Continue pd)
    end.
Definition controllerRun (fl : Flags) (g : Globals) (podName : string) : prog (flow process) :=
  pd <-- controller_start fl g podName ;;
  call (Spawn TaskStopDriver) ;;;
  e <- Driver_Run pd.1 pd.2 ;;
  Ret match e with Some _ => Exit 1 | None => Continue pd.1 end.

(** The goroutine that serves profiles: a port that is taken ends the process. *)
Definition pprof : prog (flow unit) :=
  loop fuel (λ port,
    e <- call (ListenAndServe ("localhost:" +:+ Itoa port)) ;;
    match e with
    | Some _ => Ret (inr (Exit 1))
    | None => Ret (inl (port + 1)%Z)
    end) 6060%Z.
End controller.
End ControllerCmd.

(** ** Managers ([cmd/app]) *)

Section managers.
Context `{G : !Globals}.

Definition pod_manager_labels : smap := {[ config.PodTypeKey := config.PodTypeValue ]}.
Definition NewPodManager : prog (option error) :=
  check call CtrlConfig ;;
  check call (CtrlNewManager "pod.dingofs.com" pod_manager_labels) ;;
  r <- NewClient ;; Ret (result_err r).
Definition PodManager_Start : prog (option error) :=
  check call (CtrlSetup CtrlPod) ;;
  call CtrlStart.
(** The goroutine of the pod manager. *)
Definition pod_manager : prog (flow unit) :=
  e <- NewPodManager ;;
  match e with
  | Some _ => Ret (Exit 1)
  | None =>
      e <- PodManager_Start ;;
      Ret match e with Some _ => Exit 1 | None => Continue tt end
  end.

(** The cache of the mount manager holds only objects with all these labels. *)
Definition mount_manager_labels : smap :=
  {[ config.PodTypeKey := config.PodTypeValue; config.JobTypeKey := config.JobTypeValue ]}.
Definition NewMountManager : prog (option error) :=
  check call CtrlConfig ;;
  check call (CtrlNewManager "mount.dingofs.com" mount_manager_labels) ;;
  r <- NewClient ;; Ret (result_err r).
Definition MountManager_Start : prog (flow unit) :=
  e <- (check call (CtrlSetup CtrlMount) ;;
        check call (CtrlSetup CtrlJob) ;;
        if CacheClientConf then call (CtrlSetup CtrlSecret) else Ret None) ;;
  match e with
  | Some _ => Ret (Continue tt)
  | None =>
      e <- call CtrlStart ;;
      Ret match e with Some _ => Exit 1 | None => Continue tt end
  end.
(** The goroutine of the mount manager. *)
Definition mount_manager : prog (flow unit) :=
  e <- NewMountManager ;;
  match e with Some _ => Ret (Continue tt) | None => MountManager_Start end.
End managers.

(** ** [run] *)

Section main.
Context `{X : !Ext} `{F : !Fuel}.

(** The flags that are not given; the namespace is the one the process has when
    it registers them. *)
Definition default_flags (g : Globals) : Flags :=
  {| f_endpoint := "unix://tmp/csi.sock"; f_nodeID := ""; f_provisioner := false;
     f_cacheConf := false; f_podManager := false; f_localPV := false; f_leaderElection := false;
     f_leaderElectionNamespace := Namespace; f_leaderElectionLeaseDuration := (15 * Second)%Z |}.

Definition run (fl : Flags) (p : process) : prog (flow unit) :=
  podName <- call (Getenv "POD_NAME") ;;
  p <-- (if Contains podName "csi-controller"
         then ControllerCmd.controllerRun fl (p_cfg p) (p_PodName p)
         else Ret (Continue p)) ;;
  if Contains podName "csi-node" then NodeCmd.nodeRun fl (p_cfg p) else Ret (Continue tt).

(** The command of [main]: the version is printed and ends the process. *)
Definition main_command (MarshalIndent : VersionInfo → result string) (b : build) (version : bool)
    (fl : Flags) (p : process) : prog (flow unit) :=
  if version then Ret (Exit match GetVersionJSON MarshalIndent b with Err _ => 1 | Ok _ => 0 end)
  else run fl p.
End main.

(** * Properties *)

Section facts.
Context `{X : !Ext} `{F : !Fuel}.

(** ** The settings of a node *)

Lemma longer_ge s old : (old ≤ longer s old)%Z.
Proof. unfold longer. case_decide; [lia|]. destruct (Z.ltb_spec old (match ParseDuration s with Ok d => d | Err _ => 0%Z end)); lia. Qed.

(** A node driver that gets past its configuration knows who it is: the names
    of its pod and namespace are not empty, its own pod is the one that the API
    server returned for them, local volumes are as the flag says, and the
    intervals of the environment have only made the built-in ones longer. *)
Theorem parseNodeConfig_ok fl g :
  wp any_env (NodeCmd.parseNodeConfig fl g) [] (λ o tr, ∀ p, o = Done (Continue p) →
    let g' := p_cfg p in
    p_PodName p ≠ "" ∧ @Namespace g' ≠ "" ∧
    happened (got_pod (p_PodName p) (@Namespace g') (@CSIPod g')) tr ∧
    @LocalPV g' = f_localPV fl ∧ (@ReconcileTimeout g ≤ @ReconcileTimeout g')%Z ∧
    (@SecretReconcilerInterval g ≤ @SecretReconcilerInterval g')%Z).
Proof.
  unfold NodeCmd.parseNodeConfig. apply wp_bind.
  apply (wp_mono _ _ _ (λ o _, ∀ p, o = Done p → @LocalPV (p_cfg p) = f_localPV fl ∧
    (@ReconcileTimeout g ≤ @ReconcileTimeout (p_cfg p))%Z ∧
    (@SecretReconcilerInterval g ≤ @SecretReconcilerInterval (p_cfg p))%Z)).
  2:{ unfold NodeCmd.read_env, getenv_twice. apply wp_bind. eapply wp_mono; [|apply wp_suffix].
      intros [driver|m|] tr _; [|done..]. cbn [call bind wp]. intros. simplify_eq. cbn.
      split_and!; [done|apply longer_ge..]. }
  intros [p|m|] tr Hp; [|done..]. specialize (Hp p eq_refl). case_decide as Hn; [done|].
  apply wp_bind. eapply wp_mono; [|apply wp_suffix]. intros [[c|e]|m|] tr1 _; [|done..].
  unfold GetPod. cbn [call bind wp]. intros [pod|e] _; [|done].
  apply wp_bind. eapply wp_mono; [|apply (wp_keeps _ (got_pod (p_PodName p) (@Namespace (p_cfg p)) pod)); by left].
  intros [[e|]|m|] tr' Hg; cbn [wp]; [done| |done..]. intros p' [= <-].
  destruct Hp as (H1 & H2 & H3). by split_and!; [naive_solver..| | | |].
Qed.

(** ** The pod that mount pods inherit from *)

(** A variable was read. *)
Definition was_set (k v : string) : call_pred := λ Y e,
  match e in event Y return Y → Prop with Getenv k' => λ v', k' = k ∧ v' = v | _ => λ _, False end.

Definition own_pod (p : process) (tr : trace) : Prop :=
  happened (was_set "POD_NAME" (p_PodName p)) tr ∧
  happened (got_pod (p_PodName p) (@Namespace (p_cfg p)) (@CSIPod (p_cfg p))) tr.

Lemma driver_config_own p tr :
  wp any_env (Driver.parseNodeConfig p) tr (λ o tr', ∀ p', o = Done (Continue p') → own_pod p' tr').
Proof.
  unfold Driver.parseNodeConfig. apply wp_bind. eapply wp_mono; [|apply wp_suffix].
  intros [driver|m|] tr' _; [|done..]. unfold GetPod. cbn [call bind wp]. intros node _ ns _ name _.
  apply wp_bind. eapply wp_mono; [|apply (wp_keeps _ (was_set "POD_NAME" name)); by left].
  intros [[c|e]|m|] tr1 Hset; [|done..]. cbn [wp].
  intros [pod|e] _; [|done]. destruct (spec_Containers _); [done|].
  intros p' [= <-]. split; [by right|by left].
Qed.

Lemma NewDriver_own ep id le ns lease p tr :
  wp any_env (NewDriver ep id le ns lease p) tr (λ o tr', ∀ p' d, o = Done (Continue (Ok (p', d))) →
    own_pod p' tr').
Proof.
  unfold NewDriver, newNodeService. apply wp_bind. eapply wp_mono; [|apply wp_suffix].
  intros [[c|e]|m|] tr1 _; [|done..]. cbn [bind].
  apply wp_bind, wp_bind. eapply wp_mono; [|apply driver_config_own].
  intros [[p'|n]|m|] tr' H; try done. cbn. intros p1 d [= <- _]. by apply H.
Qed.

(** The driver of the controller forgets the daemon set: whatever template
    was read from it, the pod that mount pods and jobs inherit from is the one
    named by [POD_NAME], which [newNodeService] reads afterwards. *)
Theorem controller_csi_pod fl g podName :
  wp any_env (ControllerCmd.controller_start fl g podName) [] (λ o tr, ∀ p d,
    o = Done (Continue (p, d)) → own_pod p tr).
Proof.
  unfold ControllerCmd.controller_start. apply wp_bind. eapply wp_mono; [|apply wp_suffix].
  intros [[p|n]|m|] tr _; [|done..]. case_decide as Hid; [done|]. cbn [call bind wp]. intros [] _.
  apply wp_bind. eapply wp_mono; [|apply wp_suffix]. intros [[]|m|] tr1 _; [|done..].
  apply wp_bind. eapply wp_mono; [|apply NewDriver_own].
  intros [[[[p1 d]|e]|n]|m|] tr2 H; cbn [wp]; try done. intros p2 d2 [= <- <-]. by apply (H p1 d).
Qed.

(** ** Exactly one manager of the mount pods *)

Definition no_manager : event_pred := λ Y e,
  match e with Spawn (TaskReconciler _) | Spawn TaskPodManager => false | _ => true end.
Fixpoint managers (tr : trace) : nat :=
  match tr with
  | [] => 0
  | Call e _ :: tr => (if no_manager _ e then 0 else 1) + managers tr
  end.

Lemma managers_extends tr tr' : extends no_manager tr tr' → managers tr' = managers tr.
Proof.
  intros (new & -> & Hn). induction Hn as [|[Y e x] new Hc _ IH]; [done|]. cbn in *. by rewrite Hc, IH.
Qed.

(** A manager is started when the flag asks for one and none was started, and
    the driver serves when as many were as the flag asks for. *)
Definition manager_guard (fl : Flags) : guard := λ Y e _ tr,
  match e with
  | Spawn (TaskReconciler _) | Spawn TaskPodManager => f_podManager fl = true ∧ managers tr = 0
  | GrpcServe _ => managers tr = if f_podManager fl then 1 else 0
  | _ => True
  end.
(** The calls that are neither. *)
Definition off_manager : event_pred := λ Y e,
  no_manager Y e && match e with GrpcServe _ => false | _ => true end.

Definition managed (fl : Flags) (n : nat) (tr : trace) : Prop :=
  guarded (manager_guard fl) tr ∧ managers tr = n.

Lemma managed_off fl n tr tr' : extends off_manager tr tr' → managed fl n tr → managed fl n tr'.
Proof.
  intros He [Hg Hm]. split.
  - eapply extends_guarded; [|exact He|done]. intros Y e x tr1 Hp. unfold off_manager in Hp.
    apply andb_true_iff in Hp as [H1 H2]. destruct e; try done. by destruct t.
  - rewrite <-Hm. apply managers_extends. destruct He as (new & -> & Hn). exists new. split; [done|].
    eapply Forall_impl; [exact Hn|]. intros [Y e x] H. by apply andb_true_iff in H as [? _].
Qed.

Lemma managed_call fl n {Y} (e : event Y) x tr :
  off_manager Y e = true → managed fl n tr → managed fl n (Call e x :: tr).
Proof. intros He. apply managed_off. exists [Call e x]. split; [done|by repeat constructor]. Qed.

Lemma wp_managed fl n {A} (p : prog A) tr :
  within off_manager p → managed fl n tr → wp any_env p tr (λ _ tr', managed fl n tr').
Proof.
  intros Hp Hm. eapply wp_mono; [|apply (wp_within _ off_manager), Hp].
  intros o tr' He. exact (managed_off _ _ _ _ He Hm).
Qed.

Lemma kubelet_off host port : within off_manager (NewKubeletClient host port).
Proof. unfold NewKubeletClient, client_token, kubelet_timeout, makeTransport. within_run. Qed.
Lemma pods_off kc : within off_manager (GetNodeRunningPods kc).
Proof. unfold GetNodeRunningPods. within_run. Qed.
#[local] Hint Resolve kubelet_off pods_off : go.
Lemma close_all_off l : within off_manager (close_all l).
Proof. induction l as [|fd l IH]; cbn [close_all]; within_run. Qed.
Lemma read_rights_off fds err l : within off_manager (read_rights fds err l).
Proof.
  revert fds err. induction l as [|[r [e|]] l IH]; intros fds err; cbn [read_rights];
    [done| |apply IH]. apply within_bind; [apply close_all_off|done].
Qed.
#[local] Hint Resolve close_all_off read_rights_off : go.
Lemma parseFuse_off b c h path : within off_manager (parseFuse b c h path).
Proof.
  unfold parseFuse, getFuseFd, getFd, putFd, serveFuseFD, remove_socket, DoWithTimeout_err,
    DoWithTimeout. within_run.
Qed.
#[local] Hint Resolve parseFuse_off : go.
Lemma parse_sockets_off b c dir l : within off_manager (parse_sockets b c dir l).
Proof. induction l as [|[n d] l IH]; cbn [parse_sockets]; within_run. Qed.
#[local] Hint Resolve parse_sockets_off : go.
Lemma InitGlobalFds_off b c : within off_manager (InitGlobalFds b c).
Proof. unfold InitGlobalFds, ParseFuseFds, DoWithTimeout. within_run. Qed.
#[local] Hint Resolve InitGlobalFds_off : go.
Lemma NewClient_off : within off_manager NewClient.
Proof. within_run. Qed.
Lemma node_config_off fl g : within off_manager (NodeCmd.parseNodeConfig fl g).
Proof. unfold NodeCmd.parseNodeConfig, NodeCmd.read_env, getenv_twice. within_run. Qed.
Lemma NewDriver_off ep id le ns lease p : within off_manager (NewDriver ep id le ns lease p).
Proof. unfold NewDriver, newNodeService, Driver.parseNodeConfig, getenv_twice. within_run. Qed.

(** The reconciler is started exactly when [StartReconciler] succeeds. *)
Lemma StartReconciler_managed `{G : !Globals} fl tr :
  f_podManager fl = true → managed fl 0 tr →
  wp any_env StartReconciler tr (λ o tr',
    match o with
    | Done None => managed fl 1 tr'
    | Done (Some _) => managed fl 0 tr'
    | _ => guarded (manager_guard fl) tr'
    end).
Proof.
  intros Hf Hm. unfold StartReconciler. destruct (Atoi KubeletPort) as [port|e]; [|done].
  apply wp_bind. eapply wp_mono; [|apply (wp_managed fl 0); [apply kubelet_off|done]].
  intros [[kc|e]|m|] tr1 H1; [|done|apply H1..]. apply wp_bind.
  eapply wp_mono; [|apply (wp_managed fl 0); [apply pods_off|done]].
  intros [[l|e]|m|] tr2 H2; [|done|apply H2..]. apply wp_bind.
  eapply wp_mono; [|apply (wp_managed fl 0); [apply NewClient_off|done]].
  intros [[l'|e]|m|] tr3 [H3 H4]; [|done|done..]. cbn [call bind wp].
  intros [] _. repeat split; try done. cbn. by rewrite H4.
Qed.

Lemma OnErrorRetry_managed `{G : !Globals} fl tr :
  f_podManager fl = true → managed fl 0 tr →
  wp any_env (OnErrorRetry StartReconciler) tr (λ o tr',
    match o with
    | Done None => managed fl 1 tr'
    | Done (Some _) => managed fl 0 tr'
    | _ => guarded (manager_guard fl) tr'
    end).
Proof.
  intros Hf. destruct OnErrorRetry_spec as [pauses ->]. revert tr.
  induction pauses as [|d pauses IH]; intros tr Hm; cbn [attempts_any]; apply wp_bind;
    (eapply wp_mono; [|by apply StartReconciler_managed]); intros [[e|]|m|] tr1 H1; try done.
  cbn [call bind wp]. intros [] _. apply IH. by apply managed_call.
Qed.

(** C24: A node driver that is told to manage the mount pods has exactly one
    manager, and one that is not has none: the watch on the API server is
    started only when the reconciler was not, however often that was tried, and
    before the driver serves its first request. *)
Theorem node_one_manager fl g :
  wp any_env (NodeCmd.nodeRun fl g) [] (λ _ tr, guarded (manager_guard fl) tr).
Proof.
  unfold NodeCmd.nodeRun, NodeCmd.node_start. apply wp_bind, wp_bind.
  eapply wp_mono; [|apply (wp_managed fl 0); [apply node_config_off|done]].
  intros [[p|n]|m|] tr H; [|apply H..]. case_decide as Hid; [apply H|]. cbn [call bind wp]. intros [] _.
  set (tr0 := Call _ _ :: tr). assert (managed fl 0 tr0) as H0 by (by apply managed_call).
  clearbody tr0. apply wp_bind. set (n := if f_podManager fl then 1 else 0).
  apply (wp_mono _ _ _ (λ o tr', match o with Done _ => managed fl n tr' | _ => guarded (manager_guard fl) tr' end)).
  2:{ subst n. destruct (f_podManager fl) eqn:Hf; [|done]. unfold NodeCmd.start_manager. apply wp_bind.
      case_decide as Hk.
      - apply wp_bind. eapply wp_mono; [|by apply OnErrorRetry_managed].
        intros [[e|]|m|] tr1 H1; cbn; try done. intros [] _. repeat split; try apply H1; [done|].
        cbn. by rewrite (proj2 H1).
      - cbn. intros [] _. repeat split; try apply H0; [done|]. cbn. by rewrite (proj2 H0). }
  intros [[]|m|] tr1 H1; [|done..]. apply wp_bind.
  eapply wp_mono; [|apply (wp_managed fl n); [apply NewDriver_off|done]].
  intros [[[[p1 d]|e]|k]|m|] tr2 H2; cbn [call bind wp]; try apply H2. intros [] _.
  assert (managed fl n (Call (Spawn TaskStopDriver) tt :: tr2)) as H3 by (by apply managed_call).
  revert H3. generalize (Call (Spawn TaskStopDriver) tt :: tr2). clear - n. intros tr H.
  unfold Driver_Run. apply wp_bind, wp_bind. eapply wp_mono; [|apply (wp_managed fl n); [within_run|done]].
  intros [[]|m|] tr3 H3; try apply H3. apply wp_bind.
  eapply wp_mono; [|apply (wp_managed fl n); [unfold ParseEndpoint; within_run|done]].
  intros [[r|e]|m|] tr4 H4; try apply H4. cbn [call bind wp]. intros [l|e] _; cbn [call bind wp].
  - intros r' _. split; [|by split; [|apply H4]]. cbn. apply H4.
  - by split; [|apply H4].
Qed.

(** ** What the mount manager sees *)

(** The cache holds the objects whose labels include the selector's. *)
Definition in_cache (labels : smap) : Prop := mount_manager_labels ⊆ labels.

Lemma in_cache_keys labels :
  in_cache labels → is_Some (labels !! config.PodTypeKey) ∧ is_Some (labels !! config.JobTypeKey).
Proof.
  intros H. split; eexists; eapply lookup_weaken; try exact H; reflexivity.
Qed.

Section cache.
Context `{G : !Globals}.

Lemma genCommonPod_labels s :
  yields (λ r, pod_Labels r.2 = (genMetadata r.1).1) (genCommonPod s).
Proof.
  unfold genCommonPod. set (s' := match GenPodAttrWithCfg s None with Ok _ => _ | Err _ => _ end).
  destruct (genMetadata s') as [labels annos] eqn:E. apply yields_bind. intros vm.
  change (labels = (genMetadata s').1). by rewrite E.
Qed.

(** C39: The mount manager sees none of the objects it is for: its cache asks for
    the label of a mount pod and the label of a job on the same object, and no
    mount pod that the driver builds, unless its setting adds the label of a
    job, and none of its jobs have both.  The mount and the job controller
    therefore never get to reconcile anything. *)
Theorem mount_manager_blind s podName jobName pod minor :
  yields (λ r, ∀ p, r.2 = Ok p → a_Labels (attr_of r.1) !! config.JobTypeKey = None →
                    ¬ in_cache (pod_Labels p)) (NewMountPod s podName) ∧
  yields (λ r, ¬ in_cache (job_Labels r.2)) (newJob s jobName) ∧
  ¬ in_cache (job_Labels (newCleanJob s jobName)) ∧
  yields (λ j, ¬ in_cache (job_Labels j)) (NewFuseAbortJob pod minor).
Proof.
  assert (∀ s n spec, ¬ in_cache (job_Labels (job_of s n spec))) as Hj.
  { intros s1 n spec [[v Hv] _]%in_cache_keys. by vm_compute in Hv. }
  split_and!.
  - unfold NewMountPod. eapply yields_seq; [apply genCommonPod_labels|]. intros [s' p] Hl. cbn in Hl.
    apply (yields_seq (λ r, ∀ p', r = Ok p' → pod_Labels p' = pod_Labels p)).
    + unfold initFuseConfig. apply yields_bind. intros r.
      destruct (result_err r) as [e|]; [destruct (IsAlreadyExists e); [|done]|]; by intros p' [= <-].
    + intros [p1|e] H1; [|done]. intros p2 [= <-] Ha [_ [v Hv]]%in_cache_keys.
      specialize (H1 p1 eq_refl). change (pod_Labels p1 !! config.JobTypeKey = Some v) in Hv.
      rewrite H1, Hl in Hv. unfold genMetadata, merge_into in Hv. cbn [fst] in Hv, Ha.
      by rewrite lookup_union_r in Hv.
  - unfold newJob. apply yields_bind. intros [s' p]. apply Hj.
  - apply Hj.
  - unfold NewFuseAbortJob. destruct (spec_Containers _); [done|]. intros [[v Hv] _]%in_cache_keys.
    by vm_compute in Hv.
Qed.
End cache.
End facts.
